(** * Peer-Drop: signaling hub, signaling channel and transfer coordinator

    A shallow embedding of the coordination core of Peer-Drop and the proofs
    of its specified properties.

    - [Signaling] embeds the Go package [internal/signaling] (messages.go,
      room.go, client.go, hub.go): the hub's room tables, the rooms and the
      client objects they point to, and the message handlers.
    - [WebSocketManager] embeds [web/static/js/websocket.js]: the
      reconnect/backoff state machine and the outbound queue.
    - [FileTransfer] embeds [web/static/js/file-transfer.js]: the chunked
      sender (direct and relay path) and the receiver; [DataChannelWire]
      embeds the byte layout of its data-channel frames.
    - [Frames] embeds the text frames between [WritePump] of client.go and
      [handleMessage] of websocket.js.
    - [NetIPv4] and [Base64] are instances of the library functions the code
      calls; [HubRuns] and [TransferRuns] run the embedded code on concrete
      inputs.

    Modelling conventions.
    - Go pointers ([*Room], [*Client]) are addresses into explicit stores, so
      that a room deleted from a hub table but still referenced by a client is
      the same object for both.
    - A handler runs atomically: the interleaving of goroutines inside one
      handler is not modelled.  A Go run-time panic is the outcome [Panic].
    - JSON text is not modelled: a message is its decoded envelope, and
      [json.Marshal] is taken to be injective on envelopes.
    - Go map iteration order is unspecified; the model iterates in the order
      of [elements]. *)

From stdpp Require Import gmap strings list fin_maps pretty.
From Stdlib Require Import QArith Qminmax Qpower Lqa Strings.Byte Strings.Ascii Sorting.Sorted.
From Equations Require Import Equations.
Close Scope Q_scope.
Open Scope string_scope.
Open Scope list_scope.

(* ===================================================================== *)
(** * Part I: the signaling hub (Go) *)
(* ===================================================================== *)

Module Signaling.

(** ** messages.go *)

Definition TypeJoin : string := "join".
Definition TypePeers : string := "peers".
Definition TypePeerJoined : string := "peer-joined".
Definition TypePeerLeft : string := "peer-left".
Definition TypeOffer : string := "offer".
Definition TypeAnswer : string := "answer".
Definition TypeIceCandidate : string := "ice-candidate".
Definition TypeTransferRequest : string := "transfer-request".
Definition TypeTransferResponse : string := "transfer-response".
Definition TypePing : string := "ping".
Definition TypePong : string := "pong".
Definition TypeCreateRoom : string := "create-room".
Definition TypeRoomCreated : string := "room-created".
Definition TypeJoinRoom : string := "join-room".
Definition TypeLeaveRoom : string := "leave-room".
Definition TypeRoomJoined : string := "room-joined".
Definition TypeRoomLeft : string := "room-left".
Definition TypeRoomError : string := "room-error".
Definition TypeRelayChunk : string := "relay-chunk".

(** [PeerInfo]: the wire-facing view of a client. *)
Record PeerInfo := mkPeerInfo {
  ID : string;
  Name : string;
  Platform : string }.

(** The decoded view of the [json.RawMessage] payload.  The hub builds the
    first six shapes itself and decodes [JoinPayload] and [RoomCodePayload];
    every other body (SDP, ICE candidate, transfer request and response,
    relay chunk) is carried verbatim and never looked into. *)
Inductive Payload :=
| PeersPayload (peers : list PeerInfo)
| PeerJoinedPayload (peer : PeerInfo)
| PeerLeftPayload (peerID : string)
| RoomCodePayload (code : string)
| RoomJoinedPayload (code : string) (peers : list PeerInfo)
| RoomErrorPayload (err : string)
| JoinPayload (name platform : string)
| OpaquePayload (raw : string).

(** [Message]: the envelope.  An empty [PeerID] or [TargetID] and an absent
    [Payload] are the fields that [omitempty] leaves out. *)
Record Message := mkMessage {
  Type_ : string;
  PeerID : string;
  TargetID : string;
  Payload_ : option Payload }.

#[global] Instance PeerInfo_eq_dec : EqDecision PeerInfo.
Proof. solve_decision. Defined.
#[global] Instance Payload_eq_dec : EqDecision Payload.
Proof. solve_decision. Defined.
#[global] Instance Message_eq_dec : EqDecision Message.
Proof. solve_decision. Defined.

Definition NewPeersMessage (peers : list PeerInfo) : Message :=
  mkMessage TypePeers "" "" (Some (PeersPayload peers)).

Definition NewPeerJoinedMessage (peer : PeerInfo) : Message :=
  mkMessage TypePeerJoined "" "" (Some (PeerJoinedPayload peer)).

Definition NewPeerLeftMessage (peerID : string) : Message :=
  mkMessage TypePeerLeft "" "" (Some (PeerLeftPayload peerID)).

Definition NewRoomCreatedMessage (code : string) : Message :=
  mkMessage TypeRoomCreated "" "" (Some (RoomCodePayload code)).

Definition NewRoomJoinedMessage (code : string) (peers : list PeerInfo) : Message :=
  mkMessage TypeRoomJoined "" "" (Some (RoomJoinedPayload code peers)).

Definition NewRoomErrorMessage (err : string) : Message :=
  mkMessage TypeRoomError "" "" (Some (RoomErrorPayload err)).

Definition NewPongMessage : Message :=
  mkMessage TypePong "" "" None.

(** ** Outcomes of a handler *)

Inductive result (A : Type) :=
| Ok (a : A)
| Panic (why : string)
| Spins.
Arguments Ok {A} a.
Arguments Panic {A} why.
Arguments Spins {A}.

#[global] Instance result_bind : MBind result :=
  fun A B f r => match r with Ok a => f a | Panic w => Panic w | Spins => Spins end.
#[global] Instance result_ret : MRet result := fun A a => Ok a.

Fixpoint foldM {A S : Type} (f : S -> A -> result S) (l : list A) (s : S) : result S :=
  match l with
  | [] => Ok s
  | a :: l' => s' ← f s a; foldM f l' s'
  end.

(** ** The stores *)

Definition ptr := nat.

(** The channel [send chan []byte] of capacity 256. *)
Record Chan := mkChan {
  buf : list Message;
  closed : bool }.

Definition sendCap : nat := 256.

(** [Client] (client.go).  [conn] is the sequence of messages written to the
    WebSocket so far; [hub] and [logger] carry no state of the model. *)
Record Client := mkClient {
  id : string;
  conn : list Message;
  send : Chan;
  ipRoom : option ptr;
  publicRoom : option ptr;
  name : string;
  platform : string;
  ip : string }.

(** [Room] (room.go).  The Go map sends a client id to the client object
    with that id, so the key set is all there is to it. *)
Record Room := mkRoom {
  rid : string;
  isPublic : bool;
  rclients : gset string }.

Inductive LogLine :=
| LogInfo (text : string) (args : list (string * string))
| LogWarn (text : string) (args : list (string * string))
| LogDebug (text : string) (args : list (string * string)).

(** [Hub] (hub.go) with the objects its pointers lead to: [ipRooms],
    [publicRooms] and [clients] are the three tables of the Go struct,
    [rooms] and [objs] the allocated [Room] and [Client] objects, [log] what
    the logger received. *)
Record Hub := mkHub {
  ipRooms : gmap string ptr;
  publicRooms : gmap string ptr;
  clients : gset string;
  rooms : gmap ptr Room;
  objs : gmap string Client;
  nextRoom : ptr;
  log : list LogLine }.

Definition NewHub : Hub :=
  mkHub ∅ ∅ ∅ ∅ ∅ 0 [].

Definition set_ipRooms (f : gmap string ptr -> gmap string ptr) (h : Hub) : Hub :=
  mkHub (f (ipRooms h)) (publicRooms h) (clients h) (rooms h) (objs h) (nextRoom h) (log h).
Definition set_publicRooms (f : gmap string ptr -> gmap string ptr) (h : Hub) : Hub :=
  mkHub (ipRooms h) (f (publicRooms h)) (clients h) (rooms h) (objs h) (nextRoom h) (log h).
Definition set_clients (f : gset string -> gset string) (h : Hub) : Hub :=
  mkHub (ipRooms h) (publicRooms h) (f (clients h)) (rooms h) (objs h) (nextRoom h) (log h).
Definition set_rooms (f : gmap ptr Room -> gmap ptr Room) (h : Hub) : Hub :=
  mkHub (ipRooms h) (publicRooms h) (clients h) (f (rooms h)) (objs h) (nextRoom h) (log h).
Definition set_objs (f : gmap string Client -> gmap string Client) (h : Hub) : Hub :=
  mkHub (ipRooms h) (publicRooms h) (clients h) (rooms h) (f (objs h)) (nextRoom h) (log h).
Definition logf (l : LogLine) (h : Hub) : Hub :=
  mkHub (ipRooms h) (publicRooms h) (clients h) (rooms h) (objs h) (nextRoom h) (log h ++ [l]).

Definition set_conn (f : list Message -> list Message) (c : Client) : Client :=
  mkClient (id c) (f (conn c)) (send c) (ipRoom c) (publicRoom c) (name c) (platform c) (ip c).
Definition set_send (f : Chan -> Chan) (c : Client) : Client :=
  mkClient (id c) (conn c) (f (send c)) (ipRoom c) (publicRoom c) (name c) (platform c) (ip c).
Definition set_ipRoom (r : option ptr) (c : Client) : Client :=
  mkClient (id c) (conn c) (send c) r (publicRoom c) (name c) (platform c) (ip c).
Definition set_publicRoom (r : option ptr) (c : Client) : Client :=
  mkClient (id c) (conn c) (send c) (ipRoom c) r (name c) (platform c) (ip c).
Definition set_identity (n p : string) (c : Client) : Client :=
  mkClient (id c) (conn c) (send c) (ipRoom c) (publicRoom c) n p (ip c).
Definition set_rclients (f : gset string -> gset string) (r : Room) : Room :=
  mkRoom (rid r) (isPublic r) (f (rclients r)).

Definition getClient (c : string) (h : Hub) : result Client :=
  match objs h !! c with
  | Some cl => Ok cl
  | None => Panic "invalid client pointer"
  end.

Definition getRoom (p : ptr) (h : Hub) : result Room :=
  match rooms h !! p with
  | Some r => Ok r
  | None => Panic "invalid room pointer"
  end.

(** ** client.go: NewClient, PeerInfo, Send *)

Definition NewClient (cid : string) (addr : string) : Client :=
  mkClient cid [] (mkChan [] false) None None "" "" addr.

Definition Client_PeerInfo (c : Client) : PeerInfo :=
  mkPeerInfo (id c) (name c) (platform c).

(** [Send]: the non-blocking enqueue.  A full queue drops the message and
    logs; a closed channel panics (Go: send on closed channel). *)
Definition Send (c : string) (msg : Message) (h : Hub) : result Hub :=
  cl ← getClient c h;
  if closed (send cl) then Panic "send on closed channel"
  else if (length (buf (send cl)) <? sendCap)%nat
  then Ok (set_objs <[c := set_send (fun ch => mkChan (buf ch ++ [msg]) (closed ch)) cl]> h)
  else Ok (logf (LogWarn "client send buffer full" [("clientID", id cl)]) h).

(** ** room.go *)

Definition NewRoom (rid0 : string) (pub : bool) (h : Hub) : ptr * Hub :=
  (nextRoom h,
   mkHub (ipRooms h) (publicRooms h) (clients h)
     (<[nextRoom h := mkRoom rid0 pub ∅]> (rooms h)) (objs h) (S (nextRoom h)) (log h)).

Definition AddClient (p : ptr) (c : string) (h : Hub) : result Hub :=
  r ← getRoom p h;
  Ok (set_rooms <[p := set_rclients (fun s => {[c]} ∪ s) r]> h).

Definition RemoveClient (p : ptr) (c : string) (h : Hub) : result Hub :=
  r ← getRoom p h;
  Ok (set_rooms <[p := set_rclients (fun s => s ∖ {[c]}) r]> h).

Definition GetPeerInfos (p : ptr) (excludeID : string) (h : Hub) : result (list PeerInfo) :=
  r ← getRoom p h;
  foldM (fun peers c =>
           cl ← getClient c h;
           if decide (id cl = excludeID) then Ok peers
           else Ok (peers ++ [Client_PeerInfo cl]))
        (elements (rclients r)) [].

Definition Broadcast (p : ptr) (msg : Message) (excludeID : string) (h : Hub) : result Hub :=
  r ← getRoom p h;
  foldM (fun h' c =>
           cl ← getClient c h';
           if decide (id cl = excludeID) then Ok h' else Send c msg h')
        (elements (rclients r)) h.

Definition RelayTo (p : ptr) (targetID : string) (msg : Message) (h : Hub) : result (bool * Hub) :=
  r ← getRoom p h;
  if decide (targetID ∈ rclients r)
  then h' ← Send targetID msg h; Ok (true, h')
  else Ok (false, h).

Definition IsEmpty (p : ptr) (h : Hub) : result bool :=
  r ← getRoom p h;
  Ok (bool_decide (size (rclients r) = 0)).

Definition Room_ID (p : ptr) (h : Hub) : result string :=
  r ← getRoom p h;
  Ok (rid r).

(** [GenerateRoomCode].  [rand_Read n] is [b := make([]byte, n)] followed by
    [rand.Read(b)]: the buffer starts zeroed and is filled from the entropy
    the call receives, which is an input of the model. *)
Definition rand_Read (n : nat) (entropy : list byte) : list byte :=
  take n (entropy ++ replicate n "000"%byte).

Definition charset : string := "ABCDEFGHJKLMNPQRSTUVWXYZ23456789".

Definition charsetAt (i : nat) : ascii :=
  match String.get i charset with
  | Some a => a
  | None => "000"%char
  end.

Definition GenerateRoomCode (entropy : list byte) : string :=
  let b := rand_Read 5 entropy in
  String.string_of_list_ascii
    (map (fun x => charsetAt (N.to_nat (Byte.to_N x) mod String.length charset)) b).

#[global] Instance byte_eq_decision : EqDecision byte := Byte.byte_eq_dec.

(** [net.IP.To4] on the 4- or 16-byte form. *)
Definition To4 (ip0 : list byte) : option (list byte) :=
  if decide (length ip0 = 4) then Some ip0
  else if decide (length ip0 = 16
                  ∧ take 10 ip0 = replicate 10 "000"%byte
                  ∧ ip0 !! 10 = Some "255"%byte
                  ∧ ip0 !! 11 = Some "255"%byte)
  then Some (drop 12 ip0)
  else None.

Definition hexdigit (n : N) : ascii :=
  match String.get (N.to_nat n) "0123456789abcdef" with
  | Some a => a
  | None => "000"%char
  end.

(** [%02x] of a byte and [%d] of a byte. *)
Definition fmt_02x (b : byte) : string :=
  String (hexdigit (Byte.to_N b / 16)) (String (hexdigit (Byte.to_N b mod 16)) "").
Definition fmt_d (b : byte) : string := pretty (Byte.to_N b).

Definition at_ (l : list byte) (i : nat) : byte := nth i l "000"%byte.

Section Hub.

(** The functions of Go's [strings] and [net] packages that
    [ExtractIPRoomID] calls.  [net_ParseIP] returns the 16-byte form. *)
Variable strings_Split : string -> string -> list string.
Variable strings_TrimSpace : string -> string.
Variable net_SplitHostPort : string -> option (string * string).
Variable net_ParseIP : string -> option (list byte).

Definition ExtractIPRoomID (remoteAddr xForwardedFor : string) : string :=
  let ip0 := remoteAddr in
  let ip1 := if decide (xForwardedFor = "") then ip0
             else strings_TrimSpace (nth 0 (strings_Split xForwardedFor ",") "") in
  let ip2 := match net_SplitHostPort ip1 with
             | Some (host, _) => host
             | None => ip1
             end in
  match net_ParseIP ip2 with
  | None => "default"
  | Some parsed =>
      match To4 parsed with
      | Some v4 =>
          fmt_d (at_ v4 0) +:+ "." +:+ fmt_d (at_ v4 1) +:+ "." +:+ fmt_d (at_ v4 2)
      | None =>
          fmt_02x (at_ parsed 0) +:+ fmt_02x (at_ parsed 1) +:+ ":" +:+
          fmt_02x (at_ parsed 2) +:+ fmt_02x (at_ parsed 3) +:+ ":" +:+
          fmt_02x (at_ parsed 4) +:+ fmt_02x (at_ parsed 5) +:+ ":" +:+
          fmt_02x (at_ parsed 6) +:+ fmt_02x (at_ parsed 7)
      end
  end.

(** ** hub.go *)

Definition updClient (c : string) (f : Client -> Client) (h : Hub) : Hub :=
  set_objs (alter f c) h.

(** [HandleWebSocket]: a new client object under the generated id. *)
Definition HandleWebSocket (clientID addr : string) (h : Hub) : Hub :=
  logf (LogInfo "new client connected" [("id", clientID); ("ip", addr)])
    (set_clients (fun s => {[clientID]} ∪ s)
       (set_objs <[clientID := NewClient clientID addr]> h)).

(** [close(client.send)]. *)
Definition closeSend (c : string) (h : Hub) : result Hub :=
  cl ← getClient c h;
  if closed (send cl) then Panic "close of closed channel"
  else Ok (updClient c (set_send (fun ch => mkChan (buf ch) true)) h).

Definition Unregister (c : string) (h : Hub) : result Hub :=
  cl ← getClient c h;
  h1 ← match ipRoom cl with
       | None => Ok h
       | Some p =>
           h' ← RemoveClient p (id cl) h;
           h' ← Broadcast p (NewPeerLeftMessage (id cl)) (id cl) h';
           e ← IsEmpty p h';
           if e : bool
           then rid0 ← Room_ID p h'; Ok (set_ipRooms (delete rid0) h')
           else Ok h'
       end;
  h2 ← match publicRoom cl with
       | None => Ok h1
       | Some p =>
           h' ← RemoveClient p (id cl) h1;
           h' ← Broadcast p (NewPeerLeftMessage (id cl)) (id cl) h';
           e ← IsEmpty p h';
           if e : bool
           then rid0 ← Room_ID p h'; Ok (set_publicRooms (delete rid0) h')
           else Ok h'
       end;
  h3 ← closeSend c (set_clients (fun s => s ∖ {[id cl]}) h2);
  Ok (logf (LogInfo "client disconnected" [("id", id cl)]) h3).

Definition JoinIPRoom (c : string) (h : Hub) : result Hub :=
  cl ← getClient c h;
  let roomID := ExtractIPRoomID (ip cl) "" in
  let '(p, h1) := match ipRooms h !! roomID with
                  | Some p => (p, h)
                  | None =>
                      let '(p, h') := NewRoom roomID false h in
                      (p, set_ipRooms <[roomID := p]> h')
                  end in
  h2 ← AddClient p (id cl) h1;
  let h3 := updClient c (set_ipRoom (Some p)) h2 in
  peers ← GetPeerInfos p (id cl) h3;
  h4 ← Send c (NewPeersMessage peers) h3;
  cl' ← getClient c h4;
  Broadcast p (NewPeerJoinedMessage (Client_PeerInfo cl')) (id cl') h4.

(** The loop of [CreatePublicRoom]: one [GenerateRoomCode] per round, until
    the code is not a key of the table.  [draws] is the entropy of the
    successive rounds; running out of it stands for a loop still running. *)
Fixpoint pickCode (draws : list (list byte)) (table : gmap string ptr) : option string :=
  match draws with
  | [] => None
  | entropy :: rest =>
      let code := GenerateRoomCode entropy in
      match table !! code with
      | Some _ => pickCode rest table
      | None => Some code
      end
  end.

Definition CreatePublicRoom (c : string) (draws : list (list byte)) (h : Hub)
  : result (string * Hub) :=
  cl ← getClient c h;
  match pickCode draws (publicRooms h) with
  | None => Spins
  | Some code =>
      let '(p, h1) := NewRoom code true h in
      h2 ← AddClient p (id cl) h1;
      let h3 := set_publicRooms <[code := p]> h2 in
      Ok (code, updClient c (set_publicRoom (Some p)) h3)
  end.

Definition LeavePublicRoom (c : string) (h : Hub) : result Hub :=
  cl ← getClient c h;
  match publicRoom cl with
  | None => Ok h
  | Some p =>
      h1 ← RemoveClient p (id cl) h;
      h2 ← Broadcast p (NewPeerLeftMessage (id cl)) (id cl) h1;
      e ← IsEmpty p h2;
      h3 ← (if e : bool
            then rid0 ← Room_ID p h2; Ok (set_publicRooms (delete rid0) h2)
            else Ok h2);
      Ok (updClient c (set_publicRoom None) h3)
  end.

(** [JoinPublicRoom] returns the error ([Some "room not found"]) or [None]. *)
Definition JoinPublicRoom (c : string) (code : string) (h : Hub)
  : result (option string * Hub) :=
  match publicRooms h !! code with
  | None => Ok (Some "room not found", h)
  | Some p =>
      cl ← getClient c h;
      h1 ← (if publicRoom cl is Some _ then LeavePublicRoom c h else Ok h);
      h2 ← AddClient p (id cl) h1;
      let h3 := updClient c (set_publicRoom (Some p)) h2 in
      peers ← GetPeerInfos p (id cl) h3;
      h4 ← Send c (NewRoomJoinedMessage code peers) h3;
      cl' ← getClient c h4;
      h5 ← Broadcast p (NewPeerJoinedMessage (Client_PeerInfo cl')) (id cl') h4;
      Ok (None, h5)
  end.

(** [cleanupEmptyRooms]: every table entry whose room is empty goes. *)
Definition roomOccupied (h : Hub) (p : ptr) : bool :=
  match rooms h !! p with
  | Some r => negb (bool_decide (size (rclients r) = 0))
  | None => true
  end.

Definition cleanupEmptyRooms (h : Hub) : Hub :=
  set_publicRooms (filter (fun kp => roomOccupied h kp.2 = true))
    (set_ipRooms (filter (fun kp => roomOccupied h kp.2 = true)) h).

(** ** client.go: the inbound pump's handlers *)

Definition handleJoin (c : string) (payload : option Payload) (h : Hub) : result Hub :=
  match payload with
  | Some (JoinPayload n p) =>
      let h1 := updClient c (set_identity n p) h in
      h2 ← JoinIPRoom c h1;
      cl ← getClient c h2;
      match ipRoom cl with
      | None => Panic "nil pointer dereference"
      | Some r =>
          rid0 ← Room_ID r h2;
          Ok (logf (LogInfo "client joined"
                      [("id", id cl); ("name", name cl); ("platform", platform cl);
                       ("ipRoom", rid0)]) h2)
      end
  | _ => Ok (logf (LogWarn "failed to unmarshal join payload" []) h)
  end.

Definition handleCreateRoom (c : string) (draws : list (list byte)) (h : Hub) : result Hub :=
  '(code, h1) ← CreatePublicRoom c draws h;
  h2 ← Send c (NewRoomCreatedMessage code) h1;
  Ok (logf (LogInfo "public room created" [("code", code); ("creator", c)]) h2).

Definition handleJoinRoom (c : string) (payload : option Payload) (h : Hub) : result Hub :=
  match payload with
  | Some (RoomCodePayload code) =>
      '(err, h1) ← JoinPublicRoom c code h;
      match err with
      | Some e => Send c (NewRoomErrorMessage e) h1
      | None =>
          Ok (logf (LogInfo "client joined public room" [("code", code); ("clientID", c)]) h1)
      end
  | _ => Ok (logf (LogWarn "failed to unmarshal room code payload" []) h)
  end.

Definition handleLeaveRoom (c : string) (h : Hub) : result Hub :=
  cl ← getClient c h;
  match publicRoom cl with
  | Some _ =>
      h1 ← LeavePublicRoom c h;
      Ok (logf (LogInfo "client left public room" [("clientID", c)]) h1)
  | None => Ok h
  end.

(** [relayToTarget]: stamp the sender, try the IP room, then the public
    room. *)
Definition stamp (sender : string) (msg : Message) : Message :=
  mkMessage (Type_ msg) sender (TargetID msg) (Payload_ msg).

Definition relayToTarget (c : string) (msg : Message) (h : Hub) : result Hub :=
  if decide (TargetID msg = "") then Ok h
  else
    cl ← getClient c h;
    let data := stamp (id cl) msg in
    '(sent, h1) ← match ipRoom cl with
                  | Some p => RelayTo p (TargetID data) data h
                  | None => Ok (false, h)
                  end;
    if sent : bool then Ok h1
    else
      '(sent', h2) ← match publicRoom cl with
                     | Some p => RelayTo p (TargetID data) data h1
                     | None => Ok (false, h1)
                     end;
      if sent' : bool then Ok h2
      else Ok (logf (LogDebug "relay target not found" [("targetID", TargetID data)]) h2).

(** [handleMessage]: the [switch] on the envelope type.  [draws] is the
    entropy a [create-room] consumes. *)
Definition handleMessage (c : string) (msg : Message) (draws : list (list byte)) (h : Hub)
  : result Hub :=
  let t := Type_ msg in
  if decide (t = TypeJoin) then handleJoin c (Payload_ msg) h
  else if decide (t = TypeOffer ∨ t = TypeAnswer ∨ t = TypeIceCandidate)
  then relayToTarget c msg h
  else if decide (t = TypeTransferRequest ∨ t = TypeTransferResponse)
  then relayToTarget c msg h
  else if decide (t = TypeRelayChunk) then relayToTarget c msg h
  else if decide (t = TypeCreateRoom) then handleCreateRoom c draws h
  else if decide (t = TypeJoinRoom) then handleJoinRoom c (Payload_ msg) h
  else if decide (t = TypeLeaveRoom) then handleLeaveRoom c h
  else if decide (t = TypePing) then Send c NewPongMessage h
  else Ok h.

(** [WritePump], one round: the first queued message and everything queued
    behind it go out in one WebSocket write. *)
Definition WritePump (c : string) (h : Hub) : result Hub :=
  cl ← getClient c h;
  Ok (updClient c (fun cl0 =>
        set_send (fun ch => mkChan [] (closed ch)) (set_conn (fun w => w ++ buf (send cl0)) cl0)) h).

(** [generateClientID]: 16 random bytes in hexadecimal. *)
Definition generateClientID (entropy : list byte) : string :=
  foldr (fun b acc => fmt_02x b +:+ acc) "" (rand_Read 16 entropy).

(** ** The hub as a transition system *)

Inductive Event :=
| EvConnect (entropy : list byte) (addr : string)
| EvMessage (c : string) (msg : Message) (draws : list (list byte))
| EvClose (c : string)
| EvWrite (c : string)
| EvSweep.

(** A connection gets an id that no client object ever had; only a
    registered client reads messages or closes. *)
Definition enabled (e : Event) (h : Hub) : Prop :=
  match e with
  | EvConnect entropy _ => generateClientID entropy ∉ dom (objs h)
  | EvMessage c _ _ => c ∈ clients h
  | EvClose c => c ∈ clients h
  | EvWrite c => c ∈ dom (objs h)
  | EvSweep => True
  end.

Definition handle (e : Event) (h : Hub) : result Hub :=
  match e with
  | EvConnect entropy addr => Ok (HandleWebSocket (generateClientID entropy) addr h)
  | EvMessage c msg draws => handleMessage c msg draws h
  | EvClose c => Unregister c h
  | EvWrite c => WritePump c h
  | EvSweep => Ok (cleanupEmptyRooms h)
  end.

#[global] Instance enabled_dec e h : Decision (enabled e h).
Proof. destruct e; simpl; apply _. Defined.

Inductive reachable : Hub -> Prop :=
| reachable_init : reachable NewHub
| reachable_step h e h' :
    reachable h -> enabled e h -> handle e h = Ok h' -> reachable h'.

(** Running a list of events; an event that is not enabled is skipped. *)
Fixpoint run (es : list Event) (h : Hub) : result Hub :=
  match es with
  | [] => Ok h
  | e :: es' =>
      if decide (enabled e h) then h' ← handle e h; run es' h' else run es' h
  end.

(** ** Facts about the hub *)

Lemma bind_Ok {A B} (r : result A) (f : A -> result B) (b : B) :
  r ≫= f = Ok b -> exists a, r = Ok a /\ f a = Ok b.
Proof. destruct r; simpl; intros; eauto; discriminate. Qed.

Lemma getClient_Ok c h cl : getClient c h = Ok cl -> objs h !! c = Some cl.
Proof. unfold getClient. destruct (objs h !! c); intros H; [congruence|discriminate]. Qed.

Lemma getRoom_Ok p h r : getRoom p h = Ok r -> rooms h !! p = Some r.
Proof. unfold getRoom. destruct (rooms h !! p); intros H; [congruence|discriminate]. Qed.

Ltac inv_ok :=
  repeat match goal with
  | H : Ok _ = Ok _ |- _ => injection H as H; try subst
  | H : Panic _ = Ok _ |- _ => discriminate H
  | H : Spins = Ok _ |- _ => discriminate H
  | H : mret _ = Ok _ |- _ => injection H as H; try subst
  | H : (_ ≫= _) = Ok _ |- _ =>
      let a := fresh "x" in let E := fresh "Hx" in
      apply bind_Ok in H as (a & E & H)
  | H : getClient _ _ = Ok _ |- _ => apply getClient_Ok in H
  | H : getRoom _ _ = Ok _ |- _ => apply getRoom_Ok in H
  end.

Lemma foldM_ind {A S} (P : S -> Prop) (f : S -> A -> result S) (l : list A) (s s' : S) :
  (forall s1 a s2, P s1 -> f s1 a = Ok s2 -> P s2) ->
  P s -> foldM f l s = Ok s' -> P s'.
Proof.
  intros Hf. revert s. induction l as [|a l IH]; simpl; intros s Hs H.
  - inv_ok. exact Hs.
  - inv_ok. eauto.
Qed.

(** [sameq h h']: [h'] differs from [h] in the queue contents of the client
    objects and in the log, and in nothing else. *)
Definition strip (cl : Client) : Client :=
  set_send (fun ch => mkChan [] (closed ch)) cl.

Definition sameq (h h' : Hub) : Prop :=
  ipRooms h' = ipRooms h /\ publicRooms h' = publicRooms h /\ clients h' = clients h /\
  rooms h' = rooms h /\ nextRoom h' = nextRoom h /\
  forall c, strip <$> (objs h' !! c) = strip <$> (objs h !! c).

Lemma sameq_refl h : sameq h h.
Proof. unfold sameq; auto 10. Qed.

Lemma sameq_trans h1 h2 h3 : sameq h1 h2 -> sameq h2 h3 -> sameq h1 h3.
Proof.
  unfold sameq. intros (?&?&?&?&?&Ha) (?&?&?&?&?&Hb).
  repeat split; try congruence; intros c; rewrite Hb; apply Ha.
Qed.

Lemma sameq_logf l h : sameq h (logf l h).
Proof. unfold sameq, logf; simpl; auto 10. Qed.

(** What a successful [Send] does. *)
Definition enqueue (msg : Message) (cl : Client) : Client :=
  set_send (fun ch => mkChan (buf ch ++ [msg]) (closed ch)) cl.

Lemma Send_Ok c msg h h' :
  Send c msg h = Ok h' ->
  exists cl, objs h !! c = Some cl /\ closed (send cl) = false /\
    h' = if (length (buf (send cl)) <? sendCap)%nat
         then set_objs <[c := enqueue msg cl]> h
         else logf (LogWarn "client send buffer full" [("clientID", id cl)]) h.
Proof.
  unfold Send. intros H. apply bind_Ok in H as (cl & Hcl & H).
  apply getClient_Ok in Hcl. exists cl. split; [done|].
  destruct (closed (send cl)); [discriminate|]. split; [done|].
  destruct (length (buf (send cl)) <? sendCap)%nat; injection H as <-; reflexivity.
Qed.

Lemma Send_sameq c msg h h' : Send c msg h = Ok h' -> sameq h h'.
Proof.
  intros H. apply Send_Ok in H as (cl & Hcl & _ & ->).
  destruct (length (buf (send cl)) <? sendCap)%nat.
  - unfold sameq; simpl. repeat split; auto. intros c'.
    destruct (decide (c = c')) as [->|Hne].
    + rewrite lookup_insert_eq, Hcl. simpl. f_equal.
    + rewrite lookup_insert_ne by done. reflexivity.
  - apply sameq_logf.
Qed.

Lemma Broadcast_sameq p msg ex h h' : Broadcast p msg ex h = Ok h' -> sameq h h'.
Proof.
  unfold Broadcast. intros H. inv_ok.
  revert H. apply (foldM_ind (fun x => sameq h x)); [|apply sameq_refl].
  intros s1 c s2 Hs H. inv_ok.
  destruct (decide _); inv_ok; [done|].
  eapply sameq_trans; [exact Hs|]. eapply Send_sameq; eauto.
Qed.

Lemma RelayTo_sameq p t msg h b h' : RelayTo p t msg h = Ok (b, h') -> sameq h h'.
Proof.
  unfold RelayTo. intros H. inv_ok.
  destruct (decide _); inv_ok; [|apply sameq_refl].
  eapply Send_sameq; eauto.
Qed.

(** The invariant of the reachable states. *)
Record wf (h : Hub) : Prop := mkWf {
  wf_id : forall c cl, objs h !! c = Some cl -> id cl = c;
  wf_open : forall c, c ∈ clients h ->
    exists cl, objs h !! c = Some cl /\ closed (send cl) = false;
  wf_ipRooms : forall k p, ipRooms h !! k = Some p ->
    exists r, rooms h !! p = Some r /\ rid r = k /\ isPublic r = false;
  wf_publicRooms : forall k p, publicRooms h !! k = Some p ->
    exists r, rooms h !! p = Some r /\ rid r = k /\ isPublic r = true;
  wf_ipRoom : forall c cl p, objs h !! c = Some cl -> ipRoom cl = Some p ->
    is_Some (rooms h !! p);
  wf_publicRoom : forall c cl p, objs h !! c = Some cl -> publicRoom cl = Some p ->
    is_Some (rooms h !! p);
  wf_members : forall p r c, rooms h !! p = Some r -> c ∈ rclients r ->
    is_Some (objs h !! c);
  wf_alloc : forall p, is_Some (rooms h !! p) -> p < nextRoom h }.

Lemma strip_lookup h h' c cl :
  (forall c, strip <$> (objs h' !! c) = strip <$> (objs h !! c)) ->
  objs h' !! c = Some cl ->
  exists cl0, objs h !! c = Some cl0 /\ strip cl = strip cl0.
Proof.
  intros H Hc. specialize (H c). rewrite Hc in H. simpl in H.
  destruct (objs h !! c) as [cl0|]; [|discriminate].
  exists cl0. split; [done|]. simpl in H. congruence.
Qed.

Lemma strip_fields cl cl0 :
  strip cl = strip cl0 ->
  id cl = id cl0 /\ closed (send cl) = closed (send cl0) /\ ipRoom cl = ipRoom cl0 /\
  publicRoom cl = publicRoom cl0 /\ name cl = name cl0 /\ platform cl = platform cl0 /\
  ip cl = ip cl0 /\ conn cl = conn cl0.
Proof.
  destruct cl as [? ? [] ? ? ? ? ?], cl0 as [? ? [] ? ? ? ? ?].
  unfold strip, set_send; simpl. intros H. injection H as <- <- <- <- <- <- <- <-. auto 10.
Qed.

Lemma sameq_sym h h' : sameq h h' -> sameq h' h.
Proof.
  unfold sameq. intros (?&?&?&?&?&H).
  repeat split; try congruence; intros c; symmetry; apply H.
Qed.

Lemma wf_sameq h h' : sameq h h' -> wf h -> wf h'.
Proof.
  intros (Hi & Hp & Hc & Hr & Hn & Ho) W. constructor.
  - intros c cl H. destruct (strip_lookup _ _ _ _ Ho H) as (cl0 & H0 & Hs).
    apply strip_fields in Hs as (-> & _). eapply wf_id; eauto.
  - intros c H. rewrite Hc in H. destruct (wf_open _ W _ H) as (cl0 & H0 & Hcl).
    specialize (Ho c). rewrite H0 in Ho. destruct (objs h' !! c) as [cl|] eqn:E; [|discriminate].
    exists cl. split; [done|]. simpl in Ho. assert (Hs : strip cl = strip cl0) by congruence.
    apply strip_fields in Hs as (_ & -> & _). done.
  - rewrite Hi, Hr. apply W.
  - rewrite Hp, Hr. apply W.
  - intros c cl p H Hp'. destruct (strip_lookup _ _ _ _ Ho H) as (cl0 & H0 & Hs).
    apply strip_fields in Hs as (_ & _ & Heq & _). rewrite Hr. rewrite Heq in Hp'.
    eapply wf_ipRoom; eauto.
  - intros c cl p H Hp'. destruct (strip_lookup _ _ _ _ Ho H) as (cl0 & H0 & Hs).
    apply strip_fields in Hs as (_ & _ & _ & Heq & _). rewrite Hr. rewrite Heq in Hp'.
    eapply wf_publicRoom; eauto.
  - intros p r c H Hin. rewrite Hr in H. destruct (wf_members _ W _ _ _ H Hin) as [cl0 H0].
    specialize (Ho c). rewrite H0 in Ho. destruct (objs h' !! c); [eauto|discriminate].
  - rewrite Hr, Hn. apply W.
Qed.

Lemma wf_logf l h : wf h -> wf (logf l h).
Proof. apply wf_sameq, sameq_logf. Qed.

Lemma wf_set_rclients p r f h :
  wf h -> rooms h !! p = Some r ->
  (forall c, c ∈ f (rclients r) -> c ∈ rclients r \/ is_Some (objs h !! c)) ->
  wf (set_rooms <[p := set_rclients f r]> h).
Proof.
  intros W Hp Hf. constructor; simpl; try apply W.
  - intros k q Hk. destruct (wf_ipRooms _ W _ _ Hk) as (r0 & Hr0 & ? & ?).
    destruct (decide (p = q)) as [->|Hne].
    + rewrite lookup_insert_eq. eexists; split; [done|]. simpl. split; congruence.
    + rewrite lookup_insert_ne by done. eauto.
  - intros k q Hk. destruct (wf_publicRooms _ W _ _ Hk) as (r0 & Hr0 & ? & ?).
    destruct (decide (p = q)) as [->|Hne].
    + rewrite lookup_insert_eq. eexists; split; [done|]. simpl. split; congruence.
    + rewrite lookup_insert_ne by done. eauto.
  - intros c cl q Hc Hq. rewrite lookup_insert_is_Some'. right. eapply wf_ipRoom; eauto.
  - intros c cl q Hc Hq. rewrite lookup_insert_is_Some'. right. eapply wf_publicRoom; eauto.
  - intros q r' c Hq Hc. destruct (decide (p = q)) as [->|Hne].
    + rewrite lookup_insert_eq in Hq. injection Hq as <-. simpl in Hc.
      destruct (Hf _ Hc) as [Hin|?]; [|done]. eapply wf_members; eauto.
    + rewrite lookup_insert_ne in Hq by done. eapply wf_members; eauto.
  - intros q Hq. apply lookup_insert_is_Some' in Hq as [<-|Hq]; apply (wf_alloc _ W); eauto.
Qed.

Lemma wf_AddClient p c h h' :
  wf h -> is_Some (objs h !! c) -> AddClient p c h = Ok h' -> wf h'.
Proof.
  unfold AddClient. intros W Hc H. apply bind_Ok in H as (r & Hr & H).
  apply getRoom_Ok in Hr. injection H as <-.
  apply wf_set_rclients; auto. intros c'. rewrite elem_of_union, elem_of_singleton.
  intros [->|?]; auto.
Qed.

Lemma wf_RemoveClient p c h h' : wf h -> RemoveClient p c h = Ok h' -> wf h'.
Proof.
  unfold RemoveClient. intros W H. apply bind_Ok in H as (r & Hr & H).
  apply getRoom_Ok in Hr. injection H as <-.
  apply wf_set_rclients; auto. intros c'. rewrite elem_of_difference. tauto.
Qed.

Lemma wf_updClient c f h :
  wf h ->
  (forall cl, id (f cl) = id cl /\ closed (send (f cl)) = closed (send cl)) ->
  (forall cl p, objs h !! c = Some cl -> ipRoom (f cl) = Some p -> is_Some (rooms h !! p)) ->
  (forall cl p, objs h !! c = Some cl -> publicRoom (f cl) = Some p -> is_Some (rooms h !! p)) ->
  wf (updClient c f h).
Proof.
  intros W Hf Hi Hp. constructor; simpl; try apply W.
  - intros c' cl. rewrite lookup_alter. case_decide as E.
    + subst c'. destruct (objs h !! c) as [cl0|] eqn:E0; simpl; [|discriminate].
      intros [= <-]. rewrite (proj1 (Hf cl0)). eapply wf_id; eauto.
    + apply W.
  - intros c' Hc'. destruct (wf_open _ W _ Hc') as (cl & Hcl & Ho).
    rewrite lookup_alter. case_decide as E.
    + subst c'. rewrite Hcl. simpl. eexists; split; [done|]. rewrite (proj2 (Hf cl)). done.
    + eauto.
  - intros c' cl q. rewrite lookup_alter. case_decide as E.
    + subst c'. destruct (objs h !! c) as [cl0|] eqn:E0; simpl; [|discriminate].
      intros [= <-]. eauto.
    + apply W.
  - intros c' cl q. rewrite lookup_alter. case_decide as E.
    + subst c'. destruct (objs h !! c) as [cl0|] eqn:E0; simpl; [|discriminate].
      intros [= <-]. eauto.
    + apply W.
  - intros q r c' Hq Hc'. rewrite lookup_alter. case_decide as E.
    + subst c'. destruct (wf_members _ W _ _ _ Hq Hc') as [cl Hcl]. rewrite Hcl. simpl. eauto.
    + eapply wf_members; eauto.
Qed.

Lemma wf_set_ipRooms f h :
  wf h ->
  (forall k p, f (ipRooms h) !! k = Some p ->
     exists r, rooms h !! p = Some r /\ rid r = k /\ isPublic r = false) ->
  wf (set_ipRooms f h).
Proof. intros W Hf. constructor; simpl; try apply W. exact Hf. Qed.

Lemma wf_set_publicRooms f h :
  wf h ->
  (forall k p, f (publicRooms h) !! k = Some p ->
     exists r, rooms h !! p = Some r /\ rid r = k /\ isPublic r = true) ->
  wf (set_publicRooms f h).
Proof. intros W Hf. constructor; simpl; try apply W. exact Hf. Qed.

Lemma wf_NewRoom k pub h p h' :
  wf h -> NewRoom k pub h = (p, h') ->
  wf h' /\ rooms h' !! p = Some (mkRoom k pub ∅) /\ objs h' = objs h /\
  ipRooms h' = ipRooms h /\ publicRooms h' = publicRooms h /\ clients h' = clients h.
Proof.
  unfold NewRoom. intros W [= <- <-]. simpl.
  assert (Hfresh : rooms h !! nextRoom h = None).
  { destruct (rooms h !! nextRoom h) eqn:E; [|done].
    assert (nextRoom h < nextRoom h) by (apply (wf_alloc _ W); eauto). lia. }
  split; [|rewrite lookup_insert_eq; auto 10].
  constructor; simpl; try apply W.
  - intros k' q Hk. destruct (wf_ipRooms _ W _ _ Hk) as (r0 & Hr0 & ? & ?).
    exists r0. rewrite lookup_insert_ne by congruence. auto.
  - intros k' q Hk. destruct (wf_publicRooms _ W _ _ Hk) as (r0 & Hr0 & ? & ?).
    exists r0. rewrite lookup_insert_ne by congruence. auto.
  - intros c cl q Hc Hq. rewrite lookup_insert_is_Some'. right. eapply wf_ipRoom; eauto.
  - intros c cl q Hc Hq. rewrite lookup_insert_is_Some'. right. eapply wf_publicRoom; eauto.
  - intros q r c Hq Hc. destruct (decide (nextRoom h = q)) as [<-|Hne].
    + rewrite lookup_insert_eq in Hq. injection Hq as <-. simpl in Hc. set_solver.
    + rewrite lookup_insert_ne in Hq by done. eapply wf_members; eauto.
  - intros q Hq. apply lookup_insert_is_Some' in Hq as [<-|Hq]; [lia|].
    apply (wf_alloc _ W) in Hq. lia.
Qed.

Lemma wf_HandleWebSocket cid addr h :
  wf h -> objs h !! cid = None -> wf (HandleWebSocket cid addr h).
Proof.
  intros W Hfresh. apply wf_logf. constructor; simpl; try apply W.
  - intros c cl. rewrite lookup_insert. case_decide as E.
    + subst c. intros [= <-]. reflexivity.
    + apply W.
  - intros c. rewrite elem_of_union, elem_of_singleton. rewrite lookup_insert.
    case_decide as E.
    + subst c. intros _. eexists; split; [done|]. reflexivity.
    + intros [->|Hc]; [done|]. apply (wf_open _ W _ Hc).
  - intros c cl q. rewrite lookup_insert. case_decide as E.
    + subst c. intros [= <-]. discriminate.
    + apply W.
  - intros c cl q. rewrite lookup_insert. case_decide as E.
    + subst c. intros [= <-]. discriminate.
    + apply W.
  - intros q r c Hq Hc. rewrite lookup_insert_is_Some'. right. eapply wf_members; eauto.
Qed.

Ltac inv_all :=
  repeat (inv_ok;
          match goal with
          | H : (if ?b then _ else _) = Ok _ |- _ => destruct b eqn:?
          | H : match ?x with _ => _ end = Ok _ |- _ => destruct x eqn:?
          | H : (let (_, _) := ?x in _) = Ok _ |- _ => destruct x eqn:?
          end); inv_ok.

Lemma wf_delete_ipRooms k h : wf h -> wf (set_ipRooms (delete k) h).
Proof.
  intros W. apply wf_set_ipRooms; [done|]. intros k' p Hk.
  apply lookup_delete_Some in Hk as [_ Hk]. apply (wf_ipRooms _ W _ _ Hk).
Qed.

Lemma wf_delete_publicRooms k h : wf h -> wf (set_publicRooms (delete k) h).
Proof.
  intros W. apply wf_set_publicRooms; [done|]. intros k' p Hk.
  apply lookup_delete_Some in Hk as [_ Hk]. apply (wf_publicRooms _ W _ _ Hk).
Qed.

Lemma wf_Broadcast p msg ex h h' : wf h -> Broadcast p msg ex h = Ok h' -> wf h'.
Proof. intros W H. eapply wf_sameq; [eapply Broadcast_sameq|]; eauto. Qed.

Lemma wf_Send c msg h h' : wf h -> Send c msg h = Ok h' -> wf h'.
Proof. intros W H. eapply wf_sameq; [eapply Send_sameq|]; eauto. Qed.

(** The objects of [h'] are those of [h] up to queue contents. *)
Definition sameobjs (h h' : Hub) : Prop :=
  forall c, strip <$> (objs h' !! c) = strip <$> (objs h !! c).

Lemma sameobjs_refl h : sameobjs h h.
Proof. intros c; reflexivity. Qed.

Lemma sameobjs_trans h1 h2 h3 : sameobjs h1 h2 -> sameobjs h2 h3 -> sameobjs h1 h3.
Proof. intros Ha Hb c. rewrite Hb. apply Ha. Qed.

Lemma sameq_sameobjs h h' : sameq h h' -> sameobjs h h'.
Proof. intros (_&_&_&_&_&H). exact H. Qed.

Lemma RemoveClient_objs p c h h' : RemoveClient p c h = Ok h' ->
  objs h' = objs h /\ clients h' = clients h.
Proof. unfold RemoveClient. intros H. inv_ok. auto. Qed.

Lemma AddClient_objs p c h h' : AddClient p c h = Ok h' ->
  objs h' = objs h /\ clients h' = clients h.
Proof. unfold AddClient. intros H. inv_ok. auto. Qed.

(** The shared shape of leaving a room: remove, broadcast, drop the table
    entry when the room is empty. *)
Lemma leave_wf (pub : bool) p c msg ex h ha hb e h1 :
  wf h ->
  RemoveClient p c h = Ok ha ->
  Broadcast p msg ex ha = Ok hb ->
  IsEmpty p hb = Ok e ->
  (if e : bool
   then rid0 ← Room_ID p hb;
        Ok (if pub then set_publicRooms (delete rid0) hb else set_ipRooms (delete rid0) hb)
   else Ok hb) = Ok h1 ->
  wf h1 /\ sameobjs h h1 /\ clients h1 = clients h /\ rooms h1 = rooms ha.
Proof.
  intros W H1 H2 H3 H4.
  pose proof (wf_RemoveClient _ _ _ _ W H1) as W1.
  pose proof (wf_Broadcast _ _ _ _ _ W1 H2) as W2.
  pose proof (Broadcast_sameq _ _ _ _ _ H2) as S2.
  apply RemoveClient_objs in H1 as [Ho Hc].
  assert (Hs : sameobjs h hb).
  { intros c'. rewrite (sameq_sameobjs _ _ S2 c'), Ho. done. }
  assert (Hcl : clients hb = clients h).
  { destruct S2 as (_&_&->&_). done. }
  assert (Hr : rooms hb = rooms ha).
  { destruct S2 as (_&_&_&->&_). done. }
  destruct e; inv_ok; [|done].
  destruct pub; simpl.
  - split; [apply wf_delete_publicRooms; done|]. done.
  - split; [apply wf_delete_ipRooms; done|]. done.
Qed.

Lemma sameobjs_lookup h h' c cl :
  sameobjs h h' -> objs h !! c = Some cl ->
  exists cl', objs h' !! c = Some cl' /\ strip cl' = strip cl.
Proof.
  intros H Hc. specialize (H c). rewrite Hc in H. simpl in H.
  destruct (objs h' !! c) as [cl'|]; [|discriminate].
  exists cl'. split; [done|]. simpl in H. congruence.
Qed.

Lemma wf_unregister_tail c h :
  wf h ->
  wf (updClient c (set_send (fun ch => mkChan (buf ch) true))
        (set_clients (fun s => s ∖ {[c]}) h)).
Proof.
  intros W. constructor; simpl; try apply W.
  - intros c' cl. rewrite lookup_alter. case_decide as E; [|apply W].
    subst c'. destruct (objs h !! c) as [cl0|] eqn:E0; simpl; [|discriminate].
    intros [= <-]. simpl. eapply wf_id; eauto.
  - intros c'. rewrite elem_of_difference, elem_of_singleton. intros [Hc' Hne].
    rewrite lookup_alter_ne by done. apply (wf_open _ W _ Hc').
  - intros c' cl q. rewrite lookup_alter. case_decide as E; [|apply W].
    subst c'. destruct (objs h !! c) as [cl0|] eqn:E0; simpl; [|discriminate].
    intros [= <-]. simpl. eapply wf_ipRoom; eauto.
  - intros c' cl q. rewrite lookup_alter. case_decide as E; [|apply W].
    subst c'. destruct (objs h !! c) as [cl0|] eqn:E0; simpl; [|discriminate].
    intros [= <-]. simpl. eapply wf_publicRoom; eauto.
  - intros q r c' Hq Hc'. rewrite lookup_alter. case_decide as E.
    + subst c'. destruct (wf_members _ W _ _ _ Hq Hc') as [cl Hcl]. rewrite Hcl. simpl. eauto.
    + eapply wf_members; eauto.
Qed.

Lemma wf_Unregister c h h' : wf h -> Unregister c h = Ok h' -> wf h'.
Proof.
  unfold Unregister. intros W H.
  apply bind_Ok in H as (cl & Hcl & H). apply getClient_Ok in Hcl.
  pose proof (wf_id _ W _ _ Hcl) as Hid. rewrite Hid in H.
  apply bind_Ok in H as (h1 & H1 & H).
  assert (W1 : wf h1).
  { destruct (ipRoom cl) as [p|]; [|inv_ok; done].
    inv_ok. eapply (leave_wf false); eauto. }
  apply bind_Ok in H as (h2 & H2 & H).
  assert (W2 : wf h2).
  { destruct (publicRoom cl) as [p|]; [|inv_ok; done].
    inv_ok. eapply (leave_wf true); eauto. }
  apply bind_Ok in H as (h3 & H3 & H). injection H as <-. apply wf_logf.
  unfold closeSend in H3. apply bind_Ok in H3 as (cl3 & Hcl3 & H3).
  destruct (closed (send cl3)); [discriminate|]. injection H3 as <-.
  apply wf_unregister_tail. done.
Qed.

Lemma AddClient_Ok p c h h' :
  AddClient p c h = Ok h' ->
  exists r, rooms h !! p = Some r /\
    h' = set_rooms <[p := set_rclients (fun s => {[c]} ∪ s) r]> h.
Proof. unfold AddClient. intros H. inv_ok. eauto. Qed.

Lemma wf_set_room_ptr (pub : bool) c p h :
  wf h -> is_Some (rooms h !! p) ->
  wf (updClient c (if pub then set_publicRoom (Some p) else set_ipRoom (Some p)) h).
Proof.
  intros W Hp. apply wf_updClient; [done|..].
  - intros cl. destruct pub; done.
  - intros cl q Hcl. destruct pub; simpl; [eapply wf_ipRoom; eauto|congruence].
  - intros cl q Hcl. destruct pub; simpl; [congruence|eapply wf_publicRoom; eauto].
Qed.

Lemma wf_joined (pub : bool) c p msg1 h h2 h4 h5 cl msg2 ex :
  wf h -> objs h !! c = Some cl ->
  AddClient p (id cl) h = Ok h2 ->
  Send c msg1 (updClient c (if pub then set_publicRoom (Some p) else set_ipRoom (Some p)) h2)
    = Ok h4 ->
  Broadcast p msg2 ex h4 = Ok h5 ->
  wf h5.
Proof.
  intros W Hcl H2 H4 H5.
  eapply wf_Broadcast; [|exact H5]. eapply wf_Send; [|exact H4].
  assert (Hin : is_Some (objs h !! id cl)) by (rewrite (wf_id _ W _ _ Hcl); eauto).
  pose proof (wf_AddClient _ _ _ _ W Hin H2) as W2.
  apply AddClient_Ok in H2 as (r & Hr & ->).
  apply wf_set_room_ptr; [done|]. simpl. rewrite lookup_insert_eq. eauto.
Qed.

Lemma wf_JoinIPRoom c h h' : wf h -> JoinIPRoom c h = Ok h' -> wf h'.
Proof.
  unfold JoinIPRoom. intros W H.
  apply bind_Ok in H as (cl & Hcl & H). apply getClient_Ok in Hcl.
  destruct (ipRooms h !! ExtractIPRoomID (ip cl) "") as [p|] eqn:Ep.
  - inv_ok. eapply (wf_joined false); eauto.
  - destruct (NewRoom (ExtractIPRoomID (ip cl) "") false h) as [p hn] eqn:En.
    destruct (wf_NewRoom _ _ _ _ _ W En) as (Wn & Hp & Ho & Hi & _).
    inv_ok. eapply (wf_joined false); [| |eassumption..].
    + apply wf_set_ipRooms; [done|]. intros k q. rewrite Hi.
      rewrite lookup_insert. case_decide as E.
      * subst k. intros [= <-]. eexists; split; [exact Hp|]. done.
      * intros Hk. destruct (wf_ipRooms _ W _ _ Hk) as (r & Hr & ? & ?).
        exists r. split; [|done]. unfold NewRoom in En. injection En as <- <-. simpl.
        rewrite lookup_insert_ne; [done|]. intros <-.
        assert (nextRoom h < nextRoom h) by (apply (wf_alloc _ W); eauto). lia.
    + simpl. rewrite Ho. done.
Qed.

Lemma wf_handleJoin c payload h h' : wf h -> handleJoin c payload h = Ok h' -> wf h'.
Proof.
  unfold handleJoin. intros W H.
  destruct payload as [[]|]; try (injection H as <-; apply wf_logf; done).
  apply bind_Ok in H as (h2 & H2 & H).
  apply wf_JoinIPRoom in H2.
  - inv_all. apply wf_logf. done.
  - apply wf_updClient; try done; intros cl q Hcl; simpl; [eapply wf_ipRoom|eapply wf_publicRoom]; eauto.
Qed.

Lemma pickCode_fresh draws table code :
  pickCode draws table = Some code -> table !! code = None.
Proof.
  induction draws as [|e rest IH]; simpl; [discriminate|].
  destruct (table !! GenerateRoomCode e) eqn:E; [done|]. intros [= <-]. done.
Qed.

Lemma wf_CreatePublicRoom c draws h code h' :
  wf h -> CreatePublicRoom c draws h = Ok (code, h') -> wf h'.
Proof.
  unfold CreatePublicRoom. intros W H.
  apply bind_Ok in H as (cl & Hcl & H). apply getClient_Ok in Hcl.
  destruct (pickCode draws (publicRooms h)) as [code0|] eqn:Ec; [|discriminate].
  destruct (NewRoom code0 true h) as [p hn] eqn:En.
  destruct (wf_NewRoom _ _ _ _ _ W En) as (Wn & Hp & Ho & _ & Hpub & _).
  apply bind_Ok in H as (h2 & H2 & H). injection H as <- <-.
  assert (Hin : is_Some (objs hn !! id cl)) by (rewrite Ho, (wf_id _ W _ _ Hcl); eauto).
  pose proof (wf_AddClient _ _ _ _ Wn Hin H2) as W2.
  apply AddClient_Ok in H2 as (r & Hr & ->).
  rewrite Hp in Hr. injection Hr as <-.
  apply (wf_set_room_ptr true).
  - apply wf_set_publicRooms; [done|]. intros k q. simpl. rewrite Hpub.
    rewrite lookup_insert. case_decide as E.
    + subst k. intros [= <-]. rewrite lookup_insert_eq. eexists; split; [done|]. done.
    + intros Hk. destruct (wf_publicRooms _ W _ _ Hk) as (r & Hr & ? & ?).
      exists r. split; [|done]. unfold NewRoom in En. injection En as <- <-. simpl.
      rewrite !lookup_insert_ne; [done|..]; intros <-;
        assert (nextRoom h < nextRoom h) by (apply (wf_alloc _ W); eauto); lia.
  - simpl. rewrite lookup_insert_eq. eauto.
Qed.

Lemma wf_handleCreateRoom c draws h h' : wf h -> handleCreateRoom c draws h = Ok h' -> wf h'.
Proof.
  unfold handleCreateRoom. intros W H.
  apply bind_Ok in H as ([code h1] & H1 & H).
  apply wf_CreatePublicRoom in H1; [|done].
  inv_ok. apply wf_logf. eapply wf_Send; eauto.
Qed.

Lemma wf_clear_publicRoom c h : wf h -> wf (updClient c (set_publicRoom None) h).
Proof.
  intros W. apply wf_updClient; try done.
  intros cl q Hcl. simpl. eapply wf_ipRoom; eauto.
Qed.

Lemma wf_LeavePublicRoom c h h' : wf h -> LeavePublicRoom c h = Ok h' -> wf h'.
Proof.
  unfold LeavePublicRoom. intros W H.
  apply bind_Ok in H as (cl & Hcl & H). apply getClient_Ok in Hcl.
  destruct (publicRoom cl) as [p|]; [|inv_ok; done].
  inv_ok. apply wf_clear_publicRoom. eapply (leave_wf true); eauto.
Qed.

Lemma LeavePublicRoom_objs c h h' cl :
  wf h -> objs h !! c = Some cl -> LeavePublicRoom c h = Ok h' ->
  exists cl', objs h' !! c = Some cl' /\ id cl' = id cl.
Proof.
  unfold LeavePublicRoom. intros W Hcl H.
  apply bind_Ok in H as (cl0 & Hcl0 & H). apply getClient_Ok in Hcl0.
  rewrite Hcl in Hcl0. injection Hcl0 as <-.
  destruct (publicRoom cl) as [p|]; [|inv_ok; eauto].
  inv_ok.
  match goal with
  | H1 : RemoveClient _ _ _ = Ok _, H2 : Broadcast _ _ _ _ = Ok _,
    H3 : IsEmpty _ _ = Ok _, H4 : (if _ then _ else _) = Ok _ |- _ =>
      destruct (leave_wf true _ _ _ _ _ _ _ _ _ W H1 H2 H3 H4) as (_ & Hs & _)
  end.
  destruct (sameobjs_lookup _ _ _ _ Hs Hcl) as (cl' & Hcl' & Hst).
  simpl. rewrite lookup_alter_eq, Hcl'. simpl. eexists; split; [done|].
  apply strip_fields in Hst as (Hid & _). exact Hid.
Qed.

Lemma wf_JoinPublicRoom c code h err h' :
  wf h -> JoinPublicRoom c code h = Ok (err, h') -> wf h'.
Proof.
  unfold JoinPublicRoom. intros W H.
  destruct (publicRooms h !! code) as [p|] eqn:Ep; [|injection H as <- <-; done].
  apply bind_Ok in H as (cl & Hcl & H). apply getClient_Ok in Hcl.
  apply bind_Ok in H as (h1 & H1 & H).
  assert (W1 : wf h1 /\ exists cl1, objs h1 !! c = Some cl1 /\ id cl1 = id cl).
  { destruct (publicRoom cl) as [q|].
    - split; [eapply wf_LeavePublicRoom; eauto|]. eapply LeavePublicRoom_objs; eauto.
    - inv_ok. eauto. }
  destruct W1 as (W1 & cl1 & Hcl1 & Hid).
  inv_ok. rewrite <- Hid in *. eapply (wf_joined true); eauto.
Qed.

Lemma wf_handleJoinRoom c payload h h' : wf h -> handleJoinRoom c payload h = Ok h' -> wf h'.
Proof.
  unfold handleJoinRoom. intros W H.
  destruct payload as [[]|]; try (injection H as <-; apply wf_logf; done).
  apply bind_Ok in H as ([err h1] & H1 & H).
  apply wf_JoinPublicRoom in H1; [|done].
  destruct err; [eapply wf_Send; eauto|]. inv_ok. apply wf_logf. done.
Qed.

Lemma wf_handleLeaveRoom c h h' : wf h -> handleLeaveRoom c h = Ok h' -> wf h'.
Proof.
  unfold handleLeaveRoom. intros W H.
  apply bind_Ok in H as (cl & Hcl & H).
  destruct (publicRoom cl); [|inv_ok; done].
  inv_ok. apply wf_logf. eapply wf_LeavePublicRoom; eauto.
Qed.

Lemma relayToTarget_sameq c msg h h' : relayToTarget c msg h = Ok h' -> sameq h h'.
Proof.
  unfold relayToTarget. intros H.
  destruct (decide _); [inv_ok; apply sameq_refl|].
  apply bind_Ok in H as (cl & Hcl & H).
  apply bind_Ok in H as ([sent h1] & H1 & H).
  assert (S1 : sameq h h1).
  { destruct (ipRoom cl); [eapply RelayTo_sameq; eauto|inv_ok; apply sameq_refl]. }
  destruct sent; [inv_ok; done|].
  apply bind_Ok in H as ([sent' h2] & H2 & H).
  assert (S2 : sameq h1 h2).
  { destruct (publicRoom cl); [eapply RelayTo_sameq; eauto|inv_ok; apply sameq_refl]. }
  destruct sent'; inv_ok; [eapply sameq_trans; eauto|].
  eapply sameq_trans; [|apply sameq_logf]. eapply sameq_trans; eauto.
Qed.

Lemma wf_handleMessage c msg draws h h' :
  wf h -> handleMessage c msg draws h = Ok h' -> wf h'.
Proof.
  unfold handleMessage. intros W H.
  repeat (destruct (decide _) in H;
          [first [ eapply wf_handleJoin; eassumption
                 | eapply wf_sameq; [eapply relayToTarget_sameq; eassumption|assumption]
                 | eapply wf_handleCreateRoom; eassumption
                 | eapply wf_handleJoinRoom; eassumption
                 | eapply wf_handleLeaveRoom; eassumption
                 | eapply wf_Send; eassumption ]|]).
  inv_ok. done.
Qed.

Lemma wf_WritePump c h h' : wf h -> WritePump c h = Ok h' -> wf h'.
Proof.
  unfold WritePump. intros W H. inv_ok.
  apply wf_updClient; try done; intros cl q Hcl; simpl;
    [eapply wf_ipRoom|eapply wf_publicRoom]; eauto.
Qed.

Lemma wf_cleanupEmptyRooms h : wf h -> wf (cleanupEmptyRooms h).
Proof.
  intros W. unfold cleanupEmptyRooms.
  apply wf_set_publicRooms.
  - apply wf_set_ipRooms; [done|]. intros k p Hk.
    apply map_lookup_filter_Some in Hk as [Hk _]. apply (wf_ipRooms _ W _ _ Hk).
  - simpl. intros k p Hk.
    apply map_lookup_filter_Some in Hk as [Hk _]. apply (wf_publicRooms _ W _ _ Hk).
Qed.

Lemma wf_NewHub : wf NewHub.
Proof.
  constructor; simpl; intros *; try rewrite lookup_empty; done.
Qed.

Lemma wf_handle e h h' : wf h -> enabled e h -> handle e h = Ok h' -> wf h'.
Proof.
  intros W He H. destruct e; simpl in *.
  - injection H as <-. apply wf_HandleWebSocket; [done|]. by apply not_elem_of_dom.
  - eapply wf_handleMessage; eauto.
  - eapply wf_Unregister; eauto.
  - eapply wf_WritePump; eauto.
  - injection H as <-. by apply wf_cleanupEmptyRooms.
Qed.

Lemma reachable_wf h : reachable h -> wf h.
Proof. induction 1; [apply wf_NewHub|eapply wf_handle; eauto]. Qed.

Lemma run_reachable es h h' : reachable h -> run es h = Ok h' -> reachable h'.
Proof.
  revert h. induction es as [|e es IH]; simpl; intros h R H.
  - injection H as <-. done.
  - destruct (decide (enabled e h)); [|eauto].
    apply bind_Ok in H as (h1 & H1 & H). eapply IH; [|exact H].
    eapply reachable_step; eauto.
Qed.

(** ** Room codes *)

Definition chars (s : string) : list ascii := String.list_ascii_of_string s.

Lemma length_string_of_list_ascii (l : list ascii) :
  String.length (String.string_of_list_ascii l) = length l.
Proof. induction l; simpl; congruence. Qed.

Lemma rand_Read_length n entropy : length (rand_Read n entropy) = n.
Proof.
  unfold rand_Read. rewrite length_take, length_app, length_replicate. lia.
Qed.

Lemma charsetAt_in (i : nat) : i < 32 -> charsetAt i ∈ chars charset.
Proof.
  intros Hi. apply list_elem_of_In.
  do 32 (destruct i as [|i]; [vm_compute; tauto|]). lia.
Qed.

Lemma GenerateRoomCode_chars entropy :
  chars (GenerateRoomCode entropy) =
  map (fun x => charsetAt (N.to_nat (Byte.to_N x) mod String.length charset))
      (rand_Read 5 entropy).
Proof. unfold chars, GenerateRoomCode. apply String.list_ascii_of_string_of_list_ascii. Qed.

Lemma GenerateRoomCode_format entropy :
  String.length (GenerateRoomCode entropy) = 5 /\
  Forall (fun a => a ∈ chars charset) (chars (GenerateRoomCode entropy)).
Proof.
  split.
  - unfold GenerateRoomCode. rewrite length_string_of_list_ascii, length_map.
    apply rand_Read_length.
  - rewrite GenerateRoomCode_chars. apply Forall_forall. intros a Ha.
    apply list_elem_of_fmap in Ha as (x & -> & _).
    apply charsetAt_in. change (String.length charset) with 32.
    apply Nat.mod_upper_bound. lia.
Qed.

Lemma charset_unambiguous a :
  a ∈ chars charset -> a ≠ "0"%char /\ a ≠ "O"%char /\ a ≠ "I"%char /\ a ≠ "1"%char.
Proof.
  intros Ha. apply list_elem_of_In in Ha. vm_compute in Ha.
  repeat (destruct Ha as [<-|Ha]; [repeat split; discriminate|]). destruct Ha.
Qed.

Lemma pickCode_Some draws table :
  Exists (fun e => table !! GenerateRoomCode e = None) draws ->
  exists e, e ∈ draws /\ pickCode draws table = Some (GenerateRoomCode e).
Proof.
  induction 1 as [e rest He|e rest _ IH]; simpl.
  - rewrite He. exists e. split; [left|done].
  - destruct (table !! GenerateRoomCode e) eqn:E.
    + destruct IH as (e' & ? & ?). exists e'. split; [by right|done].
    + exists e. split; [left|done].
Qed.

(** The loop returns the first code drawn that is not a key of the table. *)
Lemma pickCode_first draws table :
  Exists (fun e => table !! GenerateRoomCode e = None) draws ->
  exists taken e rest,
    draws = taken ++ e :: rest /\
    Forall (fun e' => is_Some (table !! GenerateRoomCode e')) taken /\
    table !! GenerateRoomCode e = None /\
    pickCode draws table = Some (GenerateRoomCode e).
Proof.
  induction draws as [|e0 draws IH]; intros Hex; [by apply Exists_nil in Hex|].
  simpl. destruct (table !! GenerateRoomCode e0) as [p|] eqn:E.
  - apply Exists_cons in Hex as [Hex|Hex]; [congruence|].
    destruct (IH Hex) as (taken & e & rest & -> & Hall & He & Hpick).
    exists (e0 :: taken), e, rest. split; [done|]. split; [|done].
    constructor; [by rewrite E|done].
  - exists [], e0, draws. done.
Qed.

(** The format of a room code: [GenerateRoomCode] always returns five
    characters of the 32-character alphabet, none of them 0, O, I or 1. *)
Theorem room_code_is_wellformed (entropy : list byte) :
  String.length (GenerateRoomCode entropy) = 5 /\
  Forall (fun a => a ∈ chars charset /\
                   a ≠ "0"%char /\ a ≠ "O"%char /\ a ≠ "I"%char /\ a ≠ "1"%char)
    (chars (GenerateRoomCode entropy)).
Proof.
  destruct (GenerateRoomCode_format entropy) as [Hlen Hall]. split; [done|].
  eapply Forall_impl; [exact Hall|]. intros a Ha. split; [done|].
  by apply charset_unambiguous.
Qed.

(** What [CreatePublicRoom] checks a code against is the coded-room table.
    In a reachable hub, for a connected client and as soon as one of the
    rounds of the loop draws a code that is not a key of the table, the call
    returns the first such code: no room that the table leads to has it.
    The call makes a new room with that code and the client as its only
    member, binds the code to it in the table and makes the client point to
    it; the other rooms, the other clients and the IP-room table stay as
    they are. *)
Theorem new_room_code_is_not_in_the_table (h : Hub) (c : string)
  (draws : list (list byte)) :
  reachable h -> c ∈ clients h ->
  Exists (fun e => publicRooms h !! GenerateRoomCode e = None) draws ->
  exists code h' cl,
    CreatePublicRoom c draws h = Ok (code, h') /\
    (exists taken e rest,
       draws = taken ++ e :: rest /\ code = GenerateRoomCode e /\
       Forall (fun e' => is_Some (publicRooms h !! GenerateRoomCode e')) taken) /\
    publicRooms h !! code = None /\
    (forall k p r, publicRooms h !! k = Some p -> rooms h !! p = Some r -> rid r ≠ code) /\
    rooms h !! nextRoom h = None /\
    publicRooms h' = <[code := nextRoom h]> (publicRooms h) /\
    rooms h' = <[nextRoom h := mkRoom code true {[c]}]> (rooms h) /\
    objs h !! c = Some cl /\
    objs h' = <[c := set_publicRoom (Some (nextRoom h)) cl]> (objs h) /\
    ipRooms h' = ipRooms h /\ clients h' = clients h.
Proof.
  intros R Hc Hex. pose proof (reachable_wf _ R) as W.
  destruct (wf_open _ W _ Hc) as (cl & Hcl & _).
  destruct (pickCode_first _ _ Hex) as (taken & e & rest & Hdraws & Htaken & Hfresh & Hpick).
  assert (Hnone : rooms h !! nextRoom h = None).
  { destruct (rooms h !! nextRoom h) eqn:E; [|done].
    assert (Hs : is_Some (rooms h !! nextRoom h)) by (rewrite E; eauto).
    apply (wf_alloc _ W) in Hs. lia. }
  exists (GenerateRoomCode e), (updClient c (set_publicRoom (Some (nextRoom h)))
    (set_publicRooms <[GenerateRoomCode e := nextRoom h]>
       (set_rooms <[nextRoom h := set_rclients (fun s => {[id cl]} ∪ s)
                                    (mkRoom (GenerateRoomCode e) true ∅)]>
          (NewRoom (GenerateRoomCode e) true h).2))), cl.
  split.
  { unfold CreatePublicRoom, getClient. rewrite Hcl. simpl. rewrite Hpick.
    unfold NewRoom, AddClient, getRoom. simpl. rewrite lookup_insert_eq. reflexivity. }
  split; [eauto 10|]. split; [done|]. split.
  { intros k p r Hk Hr Heq.
    destruct (wf_publicRooms _ W _ _ Hk) as (r' & Hr' & Hrid & _).
    assert (r' = r) as -> by congruence. congruence. }
  split; [done|]. split; [reflexivity|]. split.
  { simpl. rewrite insert_insert_eq. unfold set_rclients. simpl.
    rewrite (wf_id _ W _ _ Hcl). by rewrite (right_id_L ∅ (∪)). }
  split; [done|]. split; [|done].
  simpl. apply map_eq. intros d. destruct (decide (d = c)) as [->|Hne].
  - by rewrite lookup_alter_eq, lookup_insert_eq, Hcl.
  - by rewrite lookup_alter_ne, lookup_insert_ne.
Qed.

(** ** The wire-facing view of a client *)

Definition set_ip (addr : string) (c : Client) : Client :=
  mkClient (id c) (conn c) (send c) (ipRoom c) (publicRoom c) (name c) (platform c) addr.

(** [readdress f h]: the hub [h] with every client at another network
    address. *)
Definition readdress (f : string -> string) (h : Hub) : Hub :=
  set_objs (fmap (fun cl => set_ip (f (ip cl)) cl)) h.

Definition queue (c : string) (h : Hub) : list Message :=
  match objs h !! c with
  | Some cl => buf (send cl)
  | None => []
  end.

#[global] Instance result_fmap : FMap result :=
  fun A B g r => match r with Ok a => Ok (g a) | Panic w => Panic w | Spins => Spins end.

Definition re (f : string -> string) (cl : Client) : Client := set_ip (f (ip cl)) cl.

Lemma readdress_getClient f c h : getClient c (readdress f h) = re f <$> getClient c h.
Proof.
  unfold getClient, readdress. simpl. rewrite lookup_fmap.
  destruct (objs h !! c); reflexivity.
Qed.

Lemma readdress_getRoom f p h : getRoom p (readdress f h) = getRoom p h.
Proof. reflexivity. Qed.

Lemma readdress_insert f c cl h :
  set_objs <[c := re f cl]> (readdress f h) = readdress f (set_objs <[c := cl]> h).
Proof. unfold readdress, set_objs. simpl. f_equal. by rewrite fmap_insert. Qed.

Lemma readdress_Send f c msg h : Send c msg (readdress f h) = readdress f <$> Send c msg h.
Proof.
  unfold Send. rewrite readdress_getClient.
  destruct (getClient c h) as [cl| |]; simpl; try reflexivity.
  destruct (closed (send cl)); [reflexivity|].
  destruct (length (buf (send cl)) <? sendCap)%nat; simpl; [|reflexivity].
  f_equal. apply (readdress_insert f c (set_send _ cl)).
Qed.

Lemma readdress_foldM_Send f msg ex l h :
  foldM (fun h' c => cl ← getClient c h';
                      if decide (id cl = ex) then Ok h' else Send c msg h') l (readdress f h)
  = readdress f <$>
    foldM (fun h' c => cl ← getClient c h';
                        if decide (id cl = ex) then Ok h' else Send c msg h') l h.
Proof.
  revert h. induction l as [|c l IH]; intros h; simpl; [reflexivity|].
  rewrite readdress_getClient.
  destruct (getClient c h) as [cl| |]; simpl; try reflexivity.
  destruct (decide (id cl = ex)); simpl.
  - apply IH.
  - rewrite readdress_Send. destruct (Send c msg h); simpl; try reflexivity. apply IH.
Qed.

Lemma readdress_Broadcast f p msg ex h :
  Broadcast p msg ex (readdress f h) = readdress f <$> Broadcast p msg ex h.
Proof.
  unfold Broadcast. rewrite readdress_getRoom.
  destruct (getRoom p h) as [r| |]; simpl; try reflexivity.
  apply readdress_foldM_Send.
Qed.

Lemma readdress_foldM_peers f ex l acc h :
  foldM (fun peers c => cl ← getClient c (readdress f h);
                         if decide (id cl = ex) then Ok peers
                         else Ok (peers ++ [Client_PeerInfo cl])) l acc
  = foldM (fun peers c => cl ← getClient c h;
                           if decide (id cl = ex) then Ok peers
                           else Ok (peers ++ [Client_PeerInfo cl])) l acc.
Proof.
  revert acc. induction l as [|c l IH]; intros acc; simpl; [reflexivity|].
  rewrite readdress_getClient.
  destruct (getClient c h) as [cl| |]; simpl; try reflexivity.
  destruct (decide (id cl = ex)); simpl; apply IH.
Qed.

Lemma readdress_GetPeerInfos f p ex h :
  GetPeerInfos p ex (readdress f h) = GetPeerInfos p ex h.
Proof.
  unfold GetPeerInfos. rewrite readdress_getRoom.
  destruct (getRoom p h) as [r| |]; simpl; try reflexivity.
  apply readdress_foldM_peers.
Qed.

Lemma readdress_AddClient f p c h :
  AddClient p c (readdress f h) = readdress f <$> AddClient p c h.
Proof.
  unfold AddClient. rewrite readdress_getRoom.
  destruct (getRoom p h); reflexivity.
Qed.

Lemma readdress_RemoveClient f p c h :
  RemoveClient p c (readdress f h) = readdress f <$> RemoveClient p c h.
Proof.
  unfold RemoveClient. rewrite readdress_getRoom.
  destruct (getRoom p h); reflexivity.
Qed.

Lemma readdress_updClient f c F h :
  (forall cl, F (re f cl) = re f (F cl)) ->
  updClient c F (readdress f h) = readdress f (updClient c F h).
Proof.
  intros HF. unfold updClient, readdress, set_objs. simpl. f_equal.
  apply map_eq. intros c'. rewrite lookup_fmap, !lookup_alter.
  case_decide; rewrite ?lookup_fmap; [|reflexivity].
  subst c'. destruct (objs h !! c); simpl; [|reflexivity]. f_equal. apply HF.
Qed.

Lemma readdress_RelayTo f p t msg h :
  RelayTo p t msg (readdress f h) =
  (fun bh => (bh.1, readdress f bh.2)) <$> RelayTo p t msg h.
Proof.
  unfold RelayTo. rewrite readdress_getRoom.
  destruct (getRoom p h) as [r| |]; simpl; try reflexivity.
  destruct (decide (t ∈ rclients r)); [|reflexivity].
  rewrite readdress_Send. destruct (Send t msg h); reflexivity.
Qed.

Lemma readdress_leave (pub : bool) f p c msg ex h :
  (h' ← RemoveClient p c (readdress f h);
   h' ← Broadcast p msg ex h';
   e ← IsEmpty p h';
   if e : bool
   then rid0 ← Room_ID p h';
        Ok (if pub then set_publicRooms (delete rid0) h' else set_ipRooms (delete rid0) h')
   else Ok h')
  = readdress f <$>
    (h' ← RemoveClient p c h;
     h' ← Broadcast p msg ex h';
     e ← IsEmpty p h';
     if e : bool
     then rid0 ← Room_ID p h';
          Ok (if pub then set_publicRooms (delete rid0) h' else set_ipRooms (delete rid0) h')
     else Ok h').
Proof.
  rewrite readdress_RemoveClient.
  destruct (RemoveClient p c h) as [h1| |]; simpl; try reflexivity.
  rewrite readdress_Broadcast.
  destruct (Broadcast p msg ex h1) as [h2| |]; simpl; try reflexivity.
  unfold IsEmpty, Room_ID. rewrite !readdress_getRoom.
  destruct (getRoom p h2) as [r| |]; simpl; try reflexivity.
  destruct (bool_decide _); simpl; [|reflexivity]. destruct pub; reflexivity.
Qed.

Lemma re_id f cl : id (re f cl) = id cl.
Proof. reflexivity. Qed.

Lemma readdress_closeSend f c h :
  closeSend c (readdress f h) = readdress f <$> closeSend c h.
Proof.
  unfold closeSend. rewrite readdress_getClient.
  destruct (getClient c h) as [cl| |]; simpl; try reflexivity.
  destruct (closed (send cl)); [reflexivity|]. simpl. f_equal.
  by apply readdress_updClient.
Qed.

Lemma readdress_Unregister f c h :
  Unregister c (readdress f h) = readdress f <$> Unregister c h.
Proof.
  unfold Unregister. rewrite readdress_getClient.
  destruct (getClient c h) as [cl| |]; simpl; try reflexivity.
  assert (H1 : forall X : result Hub,
    X = match ipRoom cl with
        | None => Ok h
        | Some p =>
            h' ← RemoveClient p (id cl) h;
            h' ← Broadcast p (NewPeerLeftMessage (id cl)) (id cl) h';
            e ← IsEmpty p h';
            if e : bool
            then rid0 ← Room_ID p h'; Ok (set_ipRooms (delete rid0) h')
            else Ok h'
        end ->
    match ipRoom cl with
    | None => Ok (readdress f h)
    | Some p =>
        h' ← RemoveClient p (id cl) (readdress f h);
        h' ← Broadcast p (NewPeerLeftMessage (id cl)) (id cl) h';
        e ← IsEmpty p h';
        if e : bool
        then rid0 ← Room_ID p h'; Ok (set_ipRooms (delete rid0) h')
        else Ok h'
    end = readdress f <$> X).
  { intros X ->. destruct (ipRoom cl); [|reflexivity]. apply (readdress_leave false). }
  rewrite (H1 _ eq_refl). clear H1.
  match goal with |- context [readdress f <$> ?X] => destruct X as [h1| |] end;
    simpl; try reflexivity.
  assert (H2 : forall X : result Hub,
    X = match publicRoom cl with
        | None => Ok h1
        | Some p =>
            h' ← RemoveClient p (id cl) h1;
            h' ← Broadcast p (NewPeerLeftMessage (id cl)) (id cl) h';
            e ← IsEmpty p h';
            if e : bool
            then rid0 ← Room_ID p h'; Ok (set_publicRooms (delete rid0) h')
            else Ok h'
        end ->
    match publicRoom cl with
    | None => Ok (readdress f h1)
    | Some p =>
        h' ← RemoveClient p (id cl) (readdress f h1);
        h' ← Broadcast p (NewPeerLeftMessage (id cl)) (id cl) h';
        e ← IsEmpty p h';
        if e : bool
        then rid0 ← Room_ID p h'; Ok (set_publicRooms (delete rid0) h')
        else Ok h'
    end = readdress f <$> X).
  { intros X ->. destruct (publicRoom cl); [|reflexivity]. apply (readdress_leave true). }
  rewrite (H2 _ eq_refl). clear H2.
  match goal with |- context [readdress f <$> ?X] => destruct X as [h2| |] end;
    simpl; try reflexivity.
  change (set_clients (fun s : gset string => s ∖ {[id cl]}) (readdress f h2))
    with (readdress f (set_clients (fun s : gset string => s ∖ {[id cl]}) h2)).
  rewrite readdress_closeSend.
  destruct (closeSend c _); reflexivity.
Qed.

(** [f] keeps the address of every client of [h] within its auto-scope. *)
Definition scope_preserving (f : string -> string) (h : Hub) : Prop :=
  forall c cl, objs h !! c = Some cl ->
    ExtractIPRoomID (f (ip cl)) "" = ExtractIPRoomID (ip cl) "".

Lemma readdress_joined (pub : bool) f c p (mk1 : list PeerInfo -> Message) cid h :
  (h2 ← AddClient p cid (readdress f h);
   let h3 := updClient c (if pub then set_publicRoom (Some p) else set_ipRoom (Some p)) h2 in
   peers ← GetPeerInfos p cid h3;
   h4 ← Send c (mk1 peers) h3;
   cl' ← getClient c h4;
   Broadcast p (NewPeerJoinedMessage (Client_PeerInfo cl')) (id cl') h4)
  = readdress f <$>
    (h2 ← AddClient p cid h;
     let h3 := updClient c (if pub then set_publicRoom (Some p) else set_ipRoom (Some p)) h2 in
     peers ← GetPeerInfos p cid h3;
     h4 ← Send c (mk1 peers) h3;
     cl' ← getClient c h4;
     Broadcast p (NewPeerJoinedMessage (Client_PeerInfo cl')) (id cl') h4).
Proof.
  rewrite readdress_AddClient.
  destruct (AddClient p cid h) as [h2| |]; simpl; try reflexivity.
  rewrite readdress_updClient by (intros cl; destruct pub; reflexivity).
  rewrite readdress_GetPeerInfos.
  destruct (GetPeerInfos p cid _) as [peers| |]; simpl; try reflexivity.
  rewrite readdress_Send.
  destruct (Send c (mk1 peers) _) as [h4| |]; simpl; try reflexivity.
  rewrite readdress_getClient.
  destruct (getClient c h4) as [cl'| |]; simpl; try reflexivity.
  apply readdress_Broadcast.
Qed.

Lemma readdress_JoinIPRoom f c h :
  scope_preserving f h ->
  JoinIPRoom c (readdress f h) = readdress f <$> JoinIPRoom c h.
Proof.
  intros Hf. unfold JoinIPRoom. rewrite readdress_getClient.
  destruct (getClient c h) as [cl| |] eqn:Hcl; simpl; try reflexivity.
  apply getClient_Ok in Hcl. rewrite (Hf _ _ Hcl).
  destruct (ipRooms h !! ExtractIPRoomID (ip cl) "") as [p|].
  - apply (readdress_joined false f c p NewPeersMessage).
  - apply (readdress_joined false f c (nextRoom h) NewPeersMessage (id cl)
             (set_ipRooms <[ExtractIPRoomID (ip cl) "" := nextRoom h]>
                (NewRoom (ExtractIPRoomID (ip cl) "") false h).2)).
Qed.

Lemma readdress_handleJoin f c payload h :
  scope_preserving f h ->
  handleJoin c payload (readdress f h) = readdress f <$> handleJoin c payload h.
Proof.
  intros Hf. unfold handleJoin. destruct payload as [[]|]; try reflexivity.
  rewrite readdress_updClient by reflexivity. rewrite readdress_JoinIPRoom.
  2:{ intros c' cl'. simpl. rewrite lookup_alter. case_decide; [|apply Hf].
      subst c'. destruct (objs h !! c) as [cl0|] eqn:E0; simpl; [|discriminate].
      intros [= <-]. simpl. eapply Hf; eauto. }
  destruct (JoinIPRoom c _) as [h2| |]; simpl; try reflexivity.
  rewrite readdress_getClient.
  destruct (getClient c h2) as [cl| |]; simpl; try reflexivity.
  destruct (ipRoom cl) as [r|]; [|reflexivity].
  unfold Room_ID. rewrite readdress_getRoom.
  destruct (getRoom r h2); reflexivity.
Qed.

Lemma readdress_CreatePublicRoom f c draws h :
  CreatePublicRoom c draws (readdress f h) =
  (fun ch => (ch.1, readdress f ch.2)) <$> CreatePublicRoom c draws h.
Proof.
  unfold CreatePublicRoom. rewrite readdress_getClient.
  destruct (getClient c h) as [cl| |]; simpl; try reflexivity.
  destruct (pickCode draws (publicRooms h)) as [code|]; [|reflexivity].
  match goal with
  | |- AddClient _ _ ?H1 ≫= _ = _ <$> (AddClient _ _ ?H2 ≫= _) =>
      change H1 with (readdress f H2)
  end.
  rewrite readdress_AddClient.
  destruct (AddClient _ _ _) as [h2| |]; simpl; try reflexivity.
  f_equal. f_equal.
  apply (readdress_updClient f c (set_publicRoom (Some (nextRoom h)))
           (set_publicRooms <[code := nextRoom h]> h2)).
  reflexivity.
Qed.

Lemma readdress_handleCreateRoom f c draws h :
  handleCreateRoom c draws (readdress f h) = readdress f <$> handleCreateRoom c draws h.
Proof.
  unfold handleCreateRoom. rewrite readdress_CreatePublicRoom.
  destruct (CreatePublicRoom c draws h) as [[code h1]| |]; simpl; try reflexivity.
  rewrite readdress_Send. destruct (Send c _ h1); reflexivity.
Qed.

Lemma readdress_LeavePublicRoom f c h :
  LeavePublicRoom c (readdress f h) = readdress f <$> LeavePublicRoom c h.
Proof.
  unfold LeavePublicRoom. rewrite readdress_getClient.
  destruct (getClient c h) as [cl| |]; simpl; try reflexivity.
  destruct (publicRoom cl) as [p|]; [|reflexivity].
  rewrite readdress_RemoveClient.
  destruct (RemoveClient p (id cl) h) as [h1| |]; simpl; try reflexivity.
  rewrite readdress_Broadcast.
  destruct (Broadcast p _ _ h1) as [h2| |]; simpl; try reflexivity.
  unfold IsEmpty, Room_ID. rewrite !readdress_getRoom.
  destruct (getRoom p h2) as [r| |]; simpl; try reflexivity.
  destruct (bool_decide _); simpl; f_equal.
  - apply (readdress_updClient f c (set_publicRoom None)
             (set_publicRooms (delete (rid r)) h2)). reflexivity.
  - apply (readdress_updClient f c (set_publicRoom None) h2). reflexivity.
Qed.

Lemma readdress_JoinPublicRoom f c code h :
  JoinPublicRoom c code (readdress f h) =
  (fun eh => (eh.1, readdress f eh.2)) <$> JoinPublicRoom c code h.
Proof.
  unfold JoinPublicRoom. simpl.
  destruct (publicRooms h !! code) as [p|]; [|reflexivity].
  rewrite readdress_getClient.
  destruct (getClient c h) as [cl| |]; simpl; try reflexivity.
  assert (H1 : (if publicRoom cl is Some _ then LeavePublicRoom c (readdress f h)
                else Ok (readdress f h))
               = readdress f <$> (if publicRoom cl is Some _ then LeavePublicRoom c h
                                  else Ok h)).
  { destruct (publicRoom cl); [apply readdress_LeavePublicRoom|reflexivity]. }
  rewrite H1. clear H1.
  destruct (if publicRoom cl is Some _ then LeavePublicRoom c h else Ok h) as [h1| |];
    simpl; try reflexivity.
  pose proof (readdress_joined true f c p (NewRoomJoinedMessage code) (id cl) h1) as HJ.
  simpl in HJ.
  rewrite readdress_AddClient in *.
  destruct (AddClient p (id cl) h1) as [h2| |]; simpl in *; try reflexivity.
  rewrite readdress_updClient in * by reflexivity.
  rewrite readdress_GetPeerInfos in *.
  destruct (GetPeerInfos p (id cl) _) as [peers| |]; simpl in *; try reflexivity.
  rewrite readdress_Send in *.
  destruct (Send c _ _) as [h4| |]; simpl in *; try reflexivity.
  rewrite readdress_getClient in *.
  destruct (getClient c h4) as [cl'| |]; simpl in *; try reflexivity.
  rewrite HJ. destruct (Broadcast p _ _ h4); reflexivity.
Qed.

Lemma readdress_handleJoinRoom f c payload h :
  handleJoinRoom c payload (readdress f h) = readdress f <$> handleJoinRoom c payload h.
Proof.
  unfold handleJoinRoom. destruct payload as [[]|]; try reflexivity.
  rewrite readdress_JoinPublicRoom.
  destruct (JoinPublicRoom c code h) as [[err h1]| |]; simpl; try reflexivity.
  destruct err; [apply readdress_Send|reflexivity].
Qed.

Lemma readdress_handleLeaveRoom f c h :
  handleLeaveRoom c (readdress f h) = readdress f <$> handleLeaveRoom c h.
Proof.
  unfold handleLeaveRoom. rewrite readdress_getClient.
  destruct (getClient c h) as [cl| |]; simpl; try reflexivity.
  destruct (publicRoom cl); [|reflexivity].
  rewrite readdress_LeavePublicRoom. destruct (LeavePublicRoom c h); reflexivity.
Qed.

Lemma readdress_relayToTarget f c msg h :
  relayToTarget c msg (readdress f h) = readdress f <$> relayToTarget c msg h.
Proof.
  unfold relayToTarget. destruct (decide (TargetID msg = "")); [reflexivity|].
  rewrite readdress_getClient.
  destruct (getClient c h) as [cl| |]; simpl; try reflexivity.
  assert (H1 : match ipRoom cl with
               | Some p => RelayTo p (TargetID msg) (stamp (id cl) msg) (readdress f h)
               | None => Ok (false, readdress f h)
               end
               = (fun bh => (bh.1, readdress f bh.2)) <$>
                 match ipRoom cl with
                 | Some p => RelayTo p (TargetID msg) (stamp (id cl) msg) h
                 | None => Ok (false, h)
                 end).
  { destruct (ipRoom cl); [apply readdress_RelayTo|reflexivity]. }
  rewrite H1. clear H1.
  match goal with |- context [_ <$> ?X] => destruct X as [[sent h1]| |] end;
    simpl; try reflexivity.
  destruct sent; [reflexivity|].
  assert (H2 : match publicRoom cl with
               | Some p => RelayTo p (TargetID msg) (stamp (id cl) msg) (readdress f h1)
               | None => Ok (false, readdress f h1)
               end
               = (fun bh => (bh.1, readdress f bh.2)) <$>
                 match publicRoom cl with
                 | Some p => RelayTo p (TargetID msg) (stamp (id cl) msg) h1
                 | None => Ok (false, h1)
                 end).
  { destruct (publicRoom cl); [apply readdress_RelayTo|reflexivity]. }
  rewrite H2. clear H2.
  match goal with |- context [_ <$> ?X] => destruct X as [[sent' h2]| |] end;
    simpl; try reflexivity.
  destruct sent'; reflexivity.
Qed.

Lemma readdress_handleMessage f c msg draws h :
  scope_preserving f h ->
  handleMessage c msg draws (readdress f h) = readdress f <$> handleMessage c msg draws h.
Proof.
  intros Hf. unfold handleMessage.
  repeat (destruct (decide _);
          [first [ by apply readdress_handleJoin
                 | apply readdress_relayToTarget
                 | apply readdress_handleCreateRoom
                 | apply readdress_handleJoinRoom
                 | apply readdress_handleLeaveRoom
                 | apply readdress_Send ]|]).
  reflexivity.
Qed.

Lemma readdress_WritePump f c h :
  WritePump c (readdress f h) = readdress f <$> WritePump c h.
Proof.
  unfold WritePump. rewrite readdress_getClient.
  destruct (getClient c h) as [cl| |]; simpl; try reflexivity.
  f_equal. by apply readdress_updClient.
Qed.

Lemma readdress_queue f c h : queue c (readdress f h) = queue c h.
Proof.
  unfold queue, readdress. simpl. rewrite lookup_fmap.
  destruct (objs h !! c); reflexivity.
Qed.

Lemma readdress_cleanupEmptyRooms f h :
  cleanupEmptyRooms (readdress f h) = readdress f (cleanupEmptyRooms h).
Proof. reflexivity. Qed.

Definition isConnect (e : Event) : bool :=
  match e with EvConnect _ _ => true | _ => false end.

Lemma readdress_handle f e h :
  scope_preserving f h -> isConnect e = false ->
  handle e (readdress f h) = readdress f <$> handle e h.
Proof.
  intros Hf He. destruct e; simpl; try discriminate.
  - by apply readdress_handleMessage.
  - apply readdress_Unregister.
  - apply readdress_WritePump.
  - reflexivity.
Qed.

(** C9: [PeerInfo()] does not depend on the client's address.  Moving the
    clients of a hub to other addresses within their auto-scopes changes
    neither the peer lists nor any message that the handling of an inbound
    message, a close, a write or a sweep puts on any queue: the two hubs
    take the same step and end with the same queues, so no [peers],
    [peer-joined] or [room-joined] message carries an address. *)
Theorem peer_info_excludes_address (f : string -> string) (h : Hub) (e : Event)
  (cl : Client) (addr : string) (p : ptr) (excludeID : string) :
  scope_preserving f h -> isConnect e = false ->
  Client_PeerInfo (set_ip addr cl) = Client_PeerInfo cl /\
  Client_PeerInfo cl = mkPeerInfo (id cl) (name cl) (platform cl) /\
  GetPeerInfos p excludeID (readdress f h) = GetPeerInfos p excludeID h /\
  handle e (readdress f h) = readdress f <$> handle e h /\
  (forall h1, handle e h = Ok h1 ->
     exists h2, handle e (readdress f h) = Ok h2 /\
       forall c, queue c h2 = queue c h1).
Proof.
  intros Hf He. split; [reflexivity|]. split; [reflexivity|].
  split; [apply readdress_GetPeerInfos|].
  pose proof (readdress_handle f e h Hf He) as Hc. split; [exact Hc|].
  intros h1 H1. rewrite Hc, H1. simpl. eexists; split; [reflexivity|].
  intros c. apply readdress_queue.
Qed.

(** ** Directed relay *)

Definition relayable (t : string) : Prop :=
  t = TypeOffer \/ t = TypeAnswer \/ t = TypeIceCandidate \/
  t = TypeTransferRequest \/ t = TypeTransferResponse \/ t = TypeRelayChunk.

(** The members of the room a client points to. *)
Definition members (h : Hub) (o : option ptr) : gset string :=
  match o with
  | Some p => match rooms h !! p with Some r => rclients r | None => ∅ end
  | None => ∅
  end.

Definition shares_room (h : Hub) (cl : Client) (target : string) : Prop :=
  target ∈ members h (ipRoom cl) \/ target ∈ members h (publicRoom cl).

(** [Send] to an open channel. *)
Definition deliver (target : string) (msg : Message) (cl : Client) (h : Hub) : Hub :=
  if (length (buf (send cl)) <? sendCap)%nat
  then set_objs <[target := enqueue msg cl]> h
  else logf (LogWarn "client send buffer full" [("clientID", id cl)]) h.

Lemma Send_open target msg cl h :
  objs h !! target = Some cl -> closed (send cl) = false ->
  Send target msg h = Ok (deliver target msg cl h).
Proof.
  intros Hcl Ho. unfold Send, getClient, deliver. rewrite Hcl. simpl. rewrite Ho.
  destruct (length (buf (send cl)) <? sendCap)%nat; reflexivity.
Qed.

Lemma deliver_spec target msg cl h :
  objs h !! target = Some cl ->
  ipRooms (deliver target msg cl h) = ipRooms h /\
  publicRooms (deliver target msg cl h) = publicRooms h /\
  clients (deliver target msg cl h) = clients h /\
  rooms (deliver target msg cl h) = rooms h /\
  (forall c, c ≠ target -> objs (deliver target msg cl h) !! c = objs h !! c) /\
  objs (deliver target msg cl h) !! target =
    Some (if (length (buf (send cl)) <? sendCap)%nat then enqueue msg cl else cl).
Proof.
  intros Hcl. unfold deliver.
  destruct (length (buf (send cl)) <? sendCap)%nat; simpl; repeat split; auto.
  - intros c Hc. by rewrite lookup_insert_ne.
  - by rewrite lookup_insert_eq.
Qed.

Lemma try_room_found h o target msg cl :
  target ∈ members h o -> objs h !! target = Some cl -> closed (send cl) = false ->
  match o with
  | Some p => RelayTo p target msg h
  | None => Ok (false, h)
  end = Ok (true, deliver target msg cl h).
Proof.
  intros Hin Hcl Ho. destruct o as [p|]; simpl in Hin; [|set_solver].
  unfold RelayTo, getRoom. destruct (rooms h !! p) as [r|]; [|set_solver]. simpl.
  rewrite decide_True by done. rewrite (Send_open _ _ _ _ Hcl Ho). reflexivity.
Qed.

Lemma try_room_missing h o target msg :
  target ∉ members h o -> (forall p, o = Some p -> is_Some (rooms h !! p)) ->
  match o with
  | Some p => RelayTo p target msg h
  | None => Ok (false, h)
  end = Ok (false, h).
Proof.
  intros Hin Hv. destruct o as [p|]; [|reflexivity].
  destruct (Hv p eq_refl) as [r Hr]. simpl in Hin. rewrite Hr in Hin.
  unfold RelayTo, getRoom. rewrite Hr. simpl. by rewrite decide_False.
Qed.

Lemma handleMessage_relayable c msg draws h :
  relayable (Type_ msg) -> handleMessage c msg draws h = relayToTarget c msg h.
Proof.
  unfold handleMessage, relayable. intros Ht.
  destruct (decide (Type_ msg = TypeJoin)) as [E|_].
  { rewrite E in Ht. repeat (destruct Ht as [Ht|Ht]; try discriminate Ht). }
  destruct (decide (_ ∨ _ ∨ _)); [reflexivity|].
  destruct (decide (_ ∨ _)); [reflexivity|].
  destruct (decide (_ = TypeRelayChunk)); [reflexivity|]. tauto.
Qed.

(** C1, as the code has it: for a connected client [a] of a reachable hub
    and a relayable message with a non-empty target id [T], the relay looks
    for [T] in the IP room of [a] and then in its public room.  When one of
    them has [T] as a member, and that member is a connected client, the
    envelope, with the id of [a] as [peerId] and the type, target and payload
    it came with, goes to the [Send] of [T] once: it is appended to the queue
    of [T] when the queue holds fewer than 256 messages, and dropped with a
    log line when the queue is full.  When neither room has [T], nothing is
    queued anywhere and the miss is logged.  In all cases no other client's
    queue changes and the room tables and memberships stay as they were. *)
Theorem relay_reaches_only_target (h : Hub) (a : string) (msg : Message)
  (draws : list (list byte)) :
  reachable h -> a ∈ clients h -> relayable (Type_ msg) -> TargetID msg ≠ "" ->
  (forall A, objs h !! a = Some A -> shares_room h A (TargetID msg) ->
             TargetID msg ∈ clients h) ->
  exists A h',
    objs h !! a = Some A /\
    handleMessage a msg draws h = Ok h' /\
    ipRooms h' = ipRooms h /\ publicRooms h' = publicRooms h /\
    clients h' = clients h /\ rooms h' = rooms h /\
    (forall c, c ≠ TargetID msg -> objs h' !! c = objs h !! c) /\
    ((shares_room h A (TargetID msg) /\
      exists cl, objs h !! TargetID msg = Some cl /\
        objs h' !! TargetID msg =
          Some (if (length (buf (send cl)) <? sendCap)%nat
                then enqueue (mkMessage (Type_ msg) a (TargetID msg) (Payload_ msg)) cl
                else cl)) \/
     (¬ shares_room h A (TargetID msg) /\ objs h' = objs h /\
      log h' = log h ++ [LogDebug "relay target not found" [("targetID", TargetID msg)]])).
Proof.
  intros R Ha Ht HT Hconn. pose proof (reachable_wf _ R) as W.
  destruct (wf_open _ W _ Ha) as (A & HA & _).
  pose proof (wf_id _ W _ _ HA) as Hid.
  specialize (Hconn A HA). exists A.
  rewrite handleMessage_relayable by done.
  unfold relayToTarget, getClient. rewrite decide_False by done. rewrite HA. simpl.
  rewrite Hid. fold (stamp a msg).
  assert (Hopen : shares_room h A (TargetID msg) ->
            exists cl, objs h !! TargetID msg = Some cl /\ closed (send cl) = false).
  { intros Hs. apply (wf_open _ W). auto. }
  destruct (decide (TargetID msg ∈ members h (ipRoom A))) as [Hin|Hout].
  { destruct (Hopen (or_introl Hin)) as (cl & Hcl & Ho).
    rewrite (try_room_found _ _ _ (stamp a msg) _ Hin Hcl Ho). simpl.
    destruct (deliver_spec (TargetID msg) (stamp a msg) cl h Hcl) as (?&?&?&?&?&?).
    eexists. split; [done|]. split; [reflexivity|]. repeat (split; [done|]).
    left. split; [by left|]. eauto. }
  rewrite (try_room_missing _ _ _ _ Hout) by (intros p Hp; eapply wf_ipRoom; eauto).
  simpl.
  destruct (decide (TargetID msg ∈ members h (publicRoom A))) as [Hin|Hout'].
  { destruct (Hopen (or_intror Hin)) as (cl & Hcl & Ho).
    rewrite (try_room_found _ _ _ (stamp a msg) _ Hin Hcl Ho). simpl.
    destruct (deliver_spec (TargetID msg) (stamp a msg) cl h Hcl) as (?&?&?&?&?&?).
    eexists. split; [done|]. split; [reflexivity|]. repeat (split; [done|]).
    left. split; [by right|]. eauto. }
  rewrite (try_room_missing _ _ _ _ Hout') by (intros p Hp; eapply wf_publicRoom; eauto).
  simpl. eexists. split; [done|]. split; [reflexivity|]. simpl. repeat (split; [done|]).
  right. split; [|done]. intros [?|?]; done.
Qed.

(** ** Joining a coded room that does not exist *)

Lemma handleMessage_joinRoom c msg draws h :
  Type_ msg = TypeJoinRoom -> handleMessage c msg draws h = handleJoinRoom c (Payload_ msg) h.
Proof.
  unfold handleMessage. intros ->.
  destruct (decide (TypeJoinRoom = TypeJoin)) as [E|_]; [discriminate E|].
  destruct (decide (_ ∨ _ ∨ _)) as [E|_]; [destruct E as [E|[E|E]]; discriminate E|].
  destruct (decide (_ ∨ _)) as [E|_]; [destruct E as [E|E]; discriminate E|].
  destruct (decide (_ = TypeRelayChunk)) as [E|_]; [discriminate E|].
  destruct (decide (_ = TypeCreateRoom)) as [E|_]; [discriminate E|].
  destruct (decide (_ = TypeJoinRoom)); [reflexivity|done].
Qed.

(** C5, as the code has it: in a reachable hub, a [join-room] from a
    connected client with a code that is not a key of the coded-room table
    makes no room, changes no table, no membership and no other client, and
    hands one [room-error] to the [Send] of the requester: it is appended to
    the requester's queue when the queue holds fewer than 256 messages, and
    dropped with a log line when the queue is full. *)
Theorem join_unknown_code_only_errors (h : Hub) (c code : string) (msg : Message)
  (draws : list (list byte)) :
  reachable h -> c ∈ clients h -> publicRooms h !! code = None ->
  Type_ msg = TypeJoinRoom -> Payload_ msg = Some (RoomCodePayload code) ->
  exists cl h',
    objs h !! c = Some cl /\
    handleMessage c msg draws h = Ok h' /\
    ipRooms h' = ipRooms h /\ publicRooms h' = publicRooms h /\
    clients h' = clients h /\ rooms h' = rooms h /\ nextRoom h' = nextRoom h /\
    (forall c', c' ≠ c -> objs h' !! c' = objs h !! c') /\
    objs h' !! c =
      Some (if (length (buf (send cl)) <? sendCap)%nat
            then enqueue (NewRoomErrorMessage "room not found") cl
            else cl).
Proof.
  intros R Hc Hcode Ht Hp. pose proof (reachable_wf _ R) as W.
  destruct (wf_open _ W _ Hc) as (cl & Hcl & Ho). exists cl.
  rewrite handleMessage_joinRoom by done. rewrite Hp.
  unfold handleJoinRoom, JoinPublicRoom. rewrite Hcode. simpl.
  rewrite (Send_open _ _ _ _ Hcl Ho).
  destruct (deliver_spec c (NewRoomErrorMessage "room not found") cl h Hcl)
    as (?&?&?&?&?&?).
  eexists. split; [done|]. split; [reflexivity|]. repeat (split; [done|]).
  split; [|done]. unfold deliver. destruct (_ <? _)%nat; reflexivity.
Qed.

(** ** Client ids *)

(** Reading hexadecimal back, as [hex.DecodeString] does for lower-case
    digits. *)
Definition unhexdigit (a : ascii) : option N :=
  let n := N_of_ascii a in
  if decide (48 ≤ n ≤ 57)%N then Some (n - 48)%N
  else if decide (97 ≤ n ≤ 102)%N then Some (n - 87)%N
  else None.

Fixpoint hex_DecodeString (s : string) : option (list byte) :=
  match s with
  | EmptyString => Some []
  | String hi (String lo rest) =>
      h ← unhexdigit hi; l ← unhexdigit lo; b ← Byte.of_N (h * 16 + l);
      bs ← hex_DecodeString rest; Some (b :: bs)
  | _ => None
  end.

Definition hexchars (s : string) : bool :=
  forallb (fun a => bool_decide (is_Some (unhexdigit a))) (String.list_ascii_of_string s).

Lemma fmt_02x_decode (b : byte) (rest : string) :
  exists hi lo, fmt_02x b +:+ rest = String hi (String lo rest) /\
    is_Some (unhexdigit hi) /\ is_Some (unhexdigit lo) /\
    hex_DecodeString (fmt_02x b +:+ rest) = (bs ← hex_DecodeString rest; Some (b :: bs)).
Proof.
  destruct b; (do 2 eexists; split; [reflexivity|]; split; [by eexists|];
               split; [by eexists|reflexivity]).
Qed.

Lemma hex_encode_spec (bs : list byte) :
  let s := foldr (fun b acc => fmt_02x b +:+ acc) "" bs in
  String.length s = 2 * length bs /\ hexchars s = true /\ hex_DecodeString s = Some bs.
Proof.
  induction bs as [|b bs (IH1 & IH2 & IH3)]; [done|]. cbn [foldr]. cbv zeta in *.
  destruct (fmt_02x_decode b (foldr (fun b acc => fmt_02x b +:+ acc) "" bs))
    as (hi & lo & -> & Hhi & Hlo & Hdec).
  split; [|split].
  - simpl. rewrite IH1. lia.
  - unfold hexchars in *. cbn [String.list_ascii_of_string forallb].
    rewrite IH2. rewrite !bool_decide_eq_true_2 by done. reflexivity.
  - rewrite Hdec, IH3. reflexivity.
Qed.

(** A client id is 32 lower-case hexadecimal digits that spell the 16 bytes
    read from the random source, so two ids are equal only when those bytes
    are. *)
Theorem client_id_spells_its_entropy (e1 e2 : list byte) :
  String.length (generateClientID e1) = 32 /\
  hexchars (generateClientID e1) = true /\
  hex_DecodeString (generateClientID e1) = Some (rand_Read 16 e1) /\
  (generateClientID e1 = generateClientID e2 -> rand_Read 16 e1 = rand_Read 16 e2).
Proof.
  unfold generateClientID.
  destruct (hex_encode_spec (rand_Read 16 e1)) as (H1 & H2 & H3).
  destruct (hex_encode_spec (rand_Read 16 e2)) as (_ & _ & H3').
  cbv zeta in *. rewrite rand_Read_length in H1.
  split; [exact H1|]. split; [exact H2|]. split; [exact H3|].
  intros E. rewrite E in H3. congruence.
Qed.

(** ** Room ids of addresses *)

(** The host that [ExtractIPRoomID] parses when no forwarded address is
    given. *)
Definition hostOf (remoteAddr : string) : string :=
  match net_SplitHostPort remoteAddr with
  | Some (host, _) => host
  | None => remoteAddr
  end.

Definition dotfree (s : string) : bool :=
  forallb (fun a => negb (Ascii.eqb a ".")) (String.list_ascii_of_string s).

Definition undecimal (s : string) : N :=
  foldl (fun acc a => (acc * 10 + (N_of_ascii a - 48))%N) 0%N (String.list_ascii_of_string s).

Lemma fmt_d_spec (b : byte) :
  dotfree (fmt_d b) = true /\ undecimal (fmt_d b) = Byte.to_N b /\
  fmt_d b ≠ "" /\ ":"%char ∉ String.list_ascii_of_string (fmt_d b).
Proof.
  destruct b; (split; [vm_compute; reflexivity|]; split; [vm_compute; reflexivity|];
               split; [discriminate|]; vm_compute;
               intros H; repeat (apply elem_of_cons in H as [H|H]; [discriminate H|]);
               by apply elem_of_nil in H).
Qed.

Lemma fmt_d_inj (b1 b2 : byte) : fmt_d b1 = fmt_d b2 -> b1 = b2.
Proof.
  intros E. destruct (fmt_d_spec b1) as (_ & H1 & _), (fmt_d_spec b2) as (_ & H2 & _).
  rewrite E in H1. rewrite H2 in H1.
  pose proof (Byte.of_to_N b1) as E1. pose proof (Byte.of_to_N b2) as E2.
  rewrite <- H1 in E1. congruence.
Qed.

Lemma string_app_cons (x : ascii) (a b : string) : String x a +:+ b = String x (a +:+ b).
Proof. reflexivity. Qed.

Lemma split_dot (s1 s2 r1 r2 : string) :
  dotfree s1 = true -> dotfree s2 = true ->
  s1 +:+ String "." r1 = s2 +:+ String "." r2 -> s1 = s2 /\ r1 = r2.
Proof.
  unfold dotfree. revert s2. induction s1 as [|x s1 IH]; intros [|y s2] H1 H2 E.
  - change (String "." r1 = String "." r2) in E. by injection E as ->.
  - rewrite string_app_cons in E. change ("" +:+ String "." r1) with (String "." r1) in E.
    injection E as <- _. simpl in H2. discriminate H2.
  - rewrite string_app_cons in E. change ("" +:+ String "." r2) with (String "." r2) in E.
    injection E as -> _. simpl in H1. discriminate H1.
  - rewrite !string_app_cons in E. injection E as -> E. simpl in H1, H2.
    apply andb_true_iff in H1 as [_ H1]. apply andb_true_iff in H2 as [_ H2].
    destruct (IH s2 H1 H2 E) as [-> ->]. done.
Qed.

Definition subnet24 (v4 : list byte) : string :=
  fmt_d (at_ v4 0) +:+ "." +:+ fmt_d (at_ v4 1) +:+ "." +:+ fmt_d (at_ v4 2).

Definition prefix64 (parsed : list byte) : string :=
  fmt_02x (at_ parsed 0) +:+ fmt_02x (at_ parsed 1) +:+ ":" +:+
  fmt_02x (at_ parsed 2) +:+ fmt_02x (at_ parsed 3) +:+ ":" +:+
  fmt_02x (at_ parsed 4) +:+ fmt_02x (at_ parsed 5) +:+ ":" +:+
  fmt_02x (at_ parsed 6) +:+ fmt_02x (at_ parsed 7).

Lemma ExtractIPRoomID_direct (remoteAddr : string) :
  ExtractIPRoomID remoteAddr "" =
  match net_ParseIP (hostOf remoteAddr) with
  | None => "default"
  | Some parsed =>
      match To4 parsed with
      | Some v4 => subnet24 v4
      | None => prefix64 parsed
      end
  end.
Proof.
  unfold ExtractIPRoomID, hostOf. cbv zeta. rewrite decide_True by done.
  destruct (net_SplitHostPort remoteAddr) as [[host port]|]; reflexivity.
Qed.

Lemma subnet24_inj (va vb : list byte) :
  subnet24 va = subnet24 vb ->
  at_ va 0 = at_ vb 0 /\ at_ va 1 = at_ vb 1 /\ at_ va 2 = at_ vb 2.
Proof.
  unfold subnet24. intros E.
  change ("." +:+ ?x) with (String "." x) in E.
  apply split_dot in E as [E0 E]; [|apply fmt_d_spec..].
  apply split_dot in E as [E1 E2]; [|apply fmt_d_spec..].
  auto using fmt_d_inj.
Qed.

Lemma fmt_02x_decode0 (b : byte) : hex_DecodeString (fmt_02x b) = Some [b].
Proof. destruct b; reflexivity. Qed.

Lemma fmt_02x_inj (b1 b2 : byte) (r1 r2 : string) :
  fmt_02x b1 +:+ r1 = fmt_02x b2 +:+ r2 -> b1 = b2 /\ r1 = r2.
Proof.
  unfold fmt_02x. rewrite !string_app_cons.
  change ("" +:+ r1) with r1. change ("" +:+ r2) with r2.
  intros E. injection E as Eh El Er. split; [|done].
  assert (E' : fmt_02x b1 = fmt_02x b2) by (unfold fmt_02x; by rewrite Eh, El).
  pose proof (fmt_02x_decode0 b1) as D1. rewrite E', fmt_02x_decode0 in D1.
  by injection D1.
Qed.

Lemma String_tail_inj (a : ascii) (x y : string) : String a x = String a y -> x = y.
Proof. intros H. by injection H. Qed.

Lemma prefix64_inj (pa pb : list byte) :
  prefix64 pa = prefix64 pb -> forall i, i < 8 -> at_ pa i = at_ pb i.
Proof.
  unfold prefix64. intros E.
  change (":" +:+ ?x) with (String ":" x) in E.
  apply fmt_02x_inj in E as [E0 E]. apply fmt_02x_inj in E as [E1 E].
  apply String_tail_inj in E.
  apply fmt_02x_inj in E as [E2 E]. apply fmt_02x_inj in E as [E3 E].
  apply String_tail_inj in E.
  apply fmt_02x_inj in E as [E4 E]. apply fmt_02x_inj in E as [E5 E].
  apply String_tail_inj in E. apply fmt_02x_inj in E as [E6 E].
  assert (E7 : at_ pa 7 = at_ pb 7).
  { pose proof (fmt_02x_decode0 (at_ pa 7)) as D. rewrite E, fmt_02x_decode0 in D.
    by injection D. }
  intros i Hi. do 8 (destruct i as [|i]; [done|]). lia.
Qed.

(** Two addresses that parse as IPv4 get the same room exactly when their
    first three octets agree. *)
Theorem ipv4_room_is_the_slash24 (a b : string) (pa pb va vb : list byte) :
  net_ParseIP (hostOf a) = Some pa -> To4 pa = Some va ->
  net_ParseIP (hostOf b) = Some pb -> To4 pb = Some vb ->
  ExtractIPRoomID a "" = ExtractIPRoomID b "" <->
  at_ va 0 = at_ vb 0 /\ at_ va 1 = at_ vb 1 /\ at_ va 2 = at_ vb 2.
Proof.
  intros Ha Hva Hb Hvb. rewrite !ExtractIPRoomID_direct, Ha, Hb, Hva, Hvb.
  split; [apply subnet24_inj|]. unfold subnet24. by intros (-> & -> & ->).
Qed.

(** Two addresses that parse as IPv6 get the same room exactly when their
    first eight bytes agree. *)
Theorem ipv6_room_is_the_slash64 (a b : string) (pa pb : list byte) :
  net_ParseIP (hostOf a) = Some pa -> To4 pa = None ->
  net_ParseIP (hostOf b) = Some pb -> To4 pb = None ->
  ExtractIPRoomID a "" = ExtractIPRoomID b "" <->
  forall i, i < 8 -> at_ pa i = at_ pb i.
Proof.
  intros Ha Hva Hb Hvb. rewrite !ExtractIPRoomID_direct, Ha, Hb, Hva, Hvb.
  split; [apply prefix64_inj|]. intros H. unfold prefix64. by rewrite !H by lia.
Qed.

Lemma chars_app (a b : string) : chars (a +:+ b) = chars a ++ chars b.
Proof.
  unfold chars. induction a as [|x a IH]; [done|].
  rewrite string_app_cons. simpl. by rewrite IH.
Qed.

Lemma room_id_shapes_differ (v4 parsed : list byte) :
  subnet24 v4 ≠ prefix64 parsed /\ subnet24 v4 ≠ "default" /\ prefix64 parsed ≠ "default".
Proof.
  split; [|split].
  - intros E. apply (f_equal chars) in E.
    assert (Hin : ":"%char ∈ chars (prefix64 parsed)).
    { unfold prefix64, fmt_02x, chars. simpl. do 4 right. left. }
    rewrite <- E in Hin. unfold subnet24 in Hin.
    change ("." +:+ ?x) with (String "." x) in Hin.
    rewrite chars_app in Hin. apply elem_of_app in Hin as [Hin|Hin].
    { by apply (fmt_d_spec (at_ v4 0)) in Hin. }
    unfold chars in Hin. simpl in Hin. apply elem_of_cons in Hin as [Hin|Hin]; [discriminate|].
    fold (chars (fmt_d (at_ v4 1) +:+ String "." (fmt_d (at_ v4 2)))) in Hin.
    rewrite chars_app in Hin. apply elem_of_app in Hin as [Hin|Hin].
    { by apply (fmt_d_spec (at_ v4 1)) in Hin. }
    unfold chars in Hin. simpl in Hin. apply elem_of_cons in Hin as [Hin|Hin]; [discriminate|].
    by apply (fmt_d_spec (at_ v4 2)) in Hin.
  - intros E. apply (f_equal chars) in E.
    assert (Hin : "."%char ∈ chars (subnet24 v4)).
    { unfold subnet24. change ("." +:+ ?x) with (String "." x).
      rewrite chars_app. apply elem_of_app. right. left. }
    rewrite E in Hin. vm_compute in Hin.
    repeat (apply elem_of_cons in Hin as [Hin|Hin]; [discriminate Hin|]).
    by apply elem_of_nil in Hin.
  - intros E. apply (f_equal String.length) in E. discriminate E.
Qed.

(** An address that parses as IPv4, one that parses as IPv6 and one that
    does not parse get three different rooms; the last one gets the room
    [default]. *)
Theorem room_ids_do_not_collide (a b c : string) (pa va pb : list byte) :
  net_ParseIP (hostOf a) = Some pa -> To4 pa = Some va ->
  net_ParseIP (hostOf b) = Some pb -> To4 pb = None ->
  net_ParseIP (hostOf c) = None ->
  ExtractIPRoomID a "" ≠ ExtractIPRoomID b "" /\
  ExtractIPRoomID a "" ≠ ExtractIPRoomID c "" /\
  ExtractIPRoomID b "" ≠ ExtractIPRoomID c "" /\
  ExtractIPRoomID c "" = "default".
Proof.
  intros Ha Hva Hb Hvb Hc. rewrite !ExtractIPRoomID_direct, Ha, Hva, Hb, Hvb, Hc.
  destruct (room_id_shapes_differ va pb) as (H1 & H2 & H3). auto.
Qed.

(** ** Peer lists and broadcasts *)

Lemma peers_fold (h : Hub) (ex : string) (l : list string) : forall acc,
  (forall c, c ∈ l -> exists cl, objs h !! c = Some cl /\ id cl = c) ->
  exists peers,
    foldM (fun peers c =>
             cl ← getClient c h;
             if decide (id cl = ex) then Ok peers
             else Ok (peers ++ [Client_PeerInfo cl])) l acc = Ok (acc ++ peers) /\
    Forall2 (fun c pi => exists cl, objs h !! c = Some cl /\
                           pi = mkPeerInfo c (name cl) (platform cl))
      (filter (fun c => c ≠ ex) l) peers.
Proof.
  induction l as [|c l IH]; intros acc Hl; simpl.
  - exists []. rewrite app_nil_r. split; [done|constructor].
  - destruct (Hl c) as (cl & Hcl & Hid); [left|].
    assert (Hg : getClient c h = Ok cl) by (unfold getClient; by rewrite Hcl).
    rewrite Hg. simpl. rewrite Hid.
    rewrite filter_cons. destruct (decide (c = ex)) as [->|Hne].
    + rewrite decide_False by (intros H; by apply H).
      apply IH. intros c' Hc'. apply Hl. by right.
    + rewrite decide_True by done.
      change (Ok (acc ++ [Client_PeerInfo cl]) ≫= ?f) with (f (acc ++ [Client_PeerInfo cl])).
      cbv beta.
      destruct (IH (acc ++ [Client_PeerInfo cl])) as (peers & -> & HF).
      { intros c' Hc'. apply Hl. by right. }
      exists (Client_PeerInfo cl :: peers). rewrite <- app_assoc. split; [done|].
      constructor; [|done]. exists cl. split; [done|]. unfold Client_PeerInfo. by rewrite Hid.
Qed.

(** The peer list of a room whose members all have their object. *)
Lemma GetPeerInfos_members (h : Hub) (p : ptr) (r : Room) (ex : string) :
  rooms h !! p = Some r ->
  (forall c, c ∈ rclients r -> exists cl, objs h !! c = Some cl /\ id cl = c) ->
  exists peers,
    GetPeerInfos p ex h = Ok peers /\
    NoDup (map ID peers) /\
    forall pi, pi ∈ peers <->
      exists c cl, c ∈ rclients r /\ c ≠ ex /\ objs h !! c = Some cl /\
                   pi = mkPeerInfo c (name cl) (platform cl).
Proof.
  intros Hr Hobjs.
  unfold GetPeerInfos, getRoom. rewrite Hr. simpl.
  destruct (peers_fold h ex (elements (rclients r)) []) as (peers & -> & HF).
  { intros c Hc. apply elem_of_elements in Hc. by apply Hobjs. }
  exists peers. split; [done|].
  assert (Hids : map ID peers = filter (fun c => c ≠ ex) (elements (rclients r))).
  { clear -HF. induction HF as [|c pi l l' (cl & _ & ->) _ IH]; [done|].
    simpl. by rewrite IH. }
  split.
  - rewrite Hids. apply NoDup_filter, NoDup_elements.
  - intros pi. split.
    + intros Hpi. apply list_elem_of_lookup in Hpi as [i Hi].
      destruct (Forall2_lookup_r _ _ _ _ _ HF Hi) as (c & Hc & cl & Hcl & ->).
      apply list_elem_of_lookup_2 in Hc. apply list_elem_of_filter in Hc as [Hne Hc].
      apply elem_of_elements in Hc. eauto 10.
    + intros (c & cl & Hc & Hne & Hcl & ->).
      assert (Hin : c ∈ filter (fun c => c ≠ ex) (elements (rclients r))).
      { apply list_elem_of_filter. split; [done|]. by apply elem_of_elements. }
      apply list_elem_of_lookup in Hin as [i Hi].
      destruct (Forall2_lookup_l _ _ _ _ _ HF Hi) as (pi & Hpi & cl' & Hcl' & ->).
      apply list_elem_of_lookup_2 in Hpi. congruence.
Qed.

(** In a reachable hub the peer list of a room is made of one entry for
    each member other than the excluded one, with that member's id, name
    and platform, and of nothing else. *)
Theorem peer_list_is_the_other_members (h : Hub) (p : ptr) (r : Room) (ex : string) :
  reachable h -> rooms h !! p = Some r ->
  exists peers,
    GetPeerInfos p ex h = Ok peers /\
    NoDup (map ID peers) /\
    forall pi, pi ∈ peers <->
      exists c cl, c ∈ rclients r /\ c ≠ ex /\ objs h !! c = Some cl /\
                   pi = mkPeerInfo c (name cl) (platform cl).
Proof.
  intros R Hr. pose proof (reachable_wf _ R) as W.
  apply GetPeerInfos_members; [done|]. intros c Hc.
  destruct (wf_members _ W _ _ _ Hr Hc) as [cl Hcl]. exists cl. split; [done|].
  eapply wf_id; eauto.
Qed.

Lemma queue_deliver target msg cl h c :
  objs h !! target = Some cl ->
  queue c (deliver target msg cl h) =
  if decide (c = target /\ length (queue c h) < sendCap) then queue c h ++ [msg]
  else queue c h.
Proof.
  intros Hcl. unfold deliver, queue.
  destruct (Nat.ltb_spec (length (buf (send cl))) sendCap) as [Hlt|Hge]; simpl.
  - destruct (decide (c = target)) as [->|Hne].
    + rewrite lookup_insert_eq, Hcl. simpl. by rewrite decide_True.
    + rewrite lookup_insert_ne by done. rewrite decide_False by tauto. done.
  - destruct (decide (c = target)) as [->|Hne].
    + rewrite Hcl. rewrite decide_False by lia. done.
    + rewrite decide_False by tauto. done.
Qed.

Lemma broadcast_fold (msg : Message) (ex : string) (l : list string) : forall h,
  NoDup l ->
  (forall c, c ∈ l -> exists cl, objs h !! c = Some cl /\ id cl = c /\
                        (c ≠ ex -> closed (send cl) = false)) ->
  exists h',
    foldM (fun h' c =>
             cl ← getClient c h';
             if decide (id cl = ex) then Ok h' else Send c msg h') l h = Ok h' /\
    sameq h h' /\
    forall c, queue c h' =
      if decide (c ∈ l /\ c ≠ ex /\ length (queue c h) < sendCap) then queue c h ++ [msg]
      else queue c h.
Proof.
  induction l as [|c l IH]; intros h Hnd Hl; cbn [foldM].
  - exists h. split; [done|]. split; [apply sameq_refl|].
    intros c. rewrite decide_False; [done|]. intros [H _]. by apply elem_of_nil in H.
  - apply NoDup_cons in Hnd as [Hnotin Hnd].
    destruct (Hl c) as (cl & Hcl & Hid & Hopen); [left|].
    assert (Hg : getClient c h = Ok cl) by (unfold getClient; by rewrite Hcl).
    rewrite Hg. simpl. rewrite Hid.
    destruct (decide (c = ex)) as [->|Hne].
    + simpl. destruct (IH h Hnd) as (h' & -> & Hs & Hq).
      { intros c' Hc'. apply Hl. by right. }
      exists h'. split; [done|]. split; [done|]. intros c. rewrite Hq.
      destruct (decide (c = ex)) as [->|Hc].
      * rewrite !decide_False by tauto. done.
      * apply decide_ext. rewrite elem_of_cons. tauto.
    + rewrite (Send_open _ _ _ _ Hcl (Hopen Hne)). simpl.
      destruct (deliver_spec c msg cl h Hcl) as (_ & _ & _ & _ & Hother & _).
      destruct (IH (deliver c msg cl h) Hnd) as (h' & -> & Hs & Hq).
      { intros c' Hc'. rewrite Hother by (intros ->; done). apply Hl. by right. }
      exists h'. split; [done|]. split.
      { eapply sameq_trans; [|exact Hs]. eapply Send_sameq.
        apply (Send_open _ _ _ _ Hcl (Hopen Hne)). }
      intros c'. rewrite Hq, !(queue_deliver _ _ _ _ _ Hcl).
      destruct (decide (c' = c)) as [->|Hc'].
      * rewrite (decide_False (P := c ∈ l /\ _)) by tauto.
        apply decide_ext. rewrite elem_of_cons. tauto.
      * rewrite (decide_False (P := c' = c /\ _)) by tauto.
        apply decide_ext. rewrite elem_of_cons. tauto.
Qed.

(** A broadcast in a room whose members all have their object, open for
    all but the excluded one. *)
Lemma Broadcast_queues (h : Hub) (p : ptr) (r : Room) (msg : Message) (ex : string) :
  rooms h !! p = Some r ->
  (forall c, c ∈ rclients r -> exists cl, objs h !! c = Some cl /\ id cl = c /\
                                 (c ≠ ex -> closed (send cl) = false)) ->
  exists h',
    Broadcast p msg ex h = Ok h' /\ sameq h h' /\
    forall c, queue c h' =
      if decide (c ∈ rclients r /\ c ≠ ex /\ length (queue c h) < sendCap)
      then queue c h ++ [msg]
      else queue c h.
Proof.
  intros Hr Hobjs.
  unfold Broadcast, getRoom. rewrite Hr. simpl.
  destruct (broadcast_fold msg ex (elements (rclients r)) h) as (h' & -> & Hs & Hq).
  - apply NoDup_elements.
  - intros c Hc. apply elem_of_elements in Hc. by apply Hobjs.
  - exists h'. split; [done|]. split; [done|]. intros c. rewrite Hq.
    apply decide_ext. by rewrite elem_of_elements.
Qed.

(** A broadcast in a room whose other members are all connected puts the
    message once on the queue of each member but the excluded one, unless
    that queue is full, and changes nothing else but the log. *)
Theorem broadcast_reaches_each_other_member (h : Hub) (p : ptr) (r : Room)
  (msg : Message) (ex : string) :
  reachable h -> rooms h !! p = Some r ->
  (forall c, c ∈ rclients r -> c ≠ ex -> c ∈ clients h) ->
  exists h',
    Broadcast p msg ex h = Ok h' /\ sameq h h' /\
    forall c, queue c h' =
      if decide (c ∈ rclients r /\ c ≠ ex /\ length (queue c h) < sendCap)
      then queue c h ++ [msg]
      else queue c h.
Proof.
  intros R Hr Hconn. pose proof (reachable_wf _ R) as W.
  apply Broadcast_queues; [done|]. intros c Hc.
  destruct (wf_members _ W _ _ _ Hr Hc) as [cl Hcl]. exists cl. split; [done|].
  split; [eapply wf_id; eauto|]. intros Hne.
  destruct (wf_open _ W _ (Hconn c Hc Hne)) as (cl' & Hcl' & Ho). congruence.
Qed.

Lemma broadcast_fold_panics (msg : Message) (ex : string) (l : list string) : forall h,
  (forall c, c ∈ l -> exists cl, objs h !! c = Some cl /\ id cl = c) ->
  (exists c cl, c ∈ l /\ c ≠ ex /\ objs h !! c = Some cl /\ closed (send cl) = true) ->
  foldM (fun h' c =>
           cl ← getClient c h';
           if decide (id cl = ex) then Ok h' else Send c msg h') l h
  = Panic "send on closed channel".
Proof.
  induction l as [|c l IH]; intros h Hl (c0 & cl0 & Hin & Hne0 & Hcl0 & Hclosed).
  - by apply elem_of_nil in Hin.
  - simpl. destruct (Hl c) as (cl & Hcl & Hid); [left|].
    assert (Hg : getClient c h = Ok cl) by (unfold getClient; by rewrite Hcl).
    rewrite Hg. simpl. rewrite Hid.
    destruct (decide (c = ex)) as [->|Hne].
    + simpl. apply IH; [intros c' Hc'; apply Hl; by right|].
      apply elem_of_cons in Hin as [->|Hin]; [done|]. eauto 10.
    + destruct (closed (send cl)) eqn:Ho.
      * unfold Send, getClient. rewrite Hcl. simpl. by rewrite Ho.
      * rewrite (Send_open _ _ _ _ Hcl Ho). simpl.
        destruct (deliver_spec c msg cl h Hcl) as (_ & _ & _ & _ & Hother & Hsame).
        assert (Hc0 : c0 ≠ c) by (intros ->; congruence).
        apply IH.
        -- intros c' Hc'. destruct (decide (c' = c)) as [->|Hc'c].
           ++ rewrite Hsame. eexists. split; [done|].
              destruct (_ <? _)%nat; [|done]. unfold enqueue. simpl. done.
           ++ rewrite Hother by done. apply Hl. by right.
        -- apply elem_of_cons in Hin as [->|Hin]; [done|].
           exists c0, cl0. rewrite Hother by done. auto.
Qed.

(** A broadcast in a room that still lists a client whose channel was
    closed panics: the hub sends on the closed channel. *)
Theorem broadcast_to_a_departed_member_panics (h : Hub) (p : ptr) (r : Room)
  (msg : Message) (ex c : string) (cl : Client) :
  reachable h -> rooms h !! p = Some r ->
  c ∈ rclients r -> c ≠ ex -> objs h !! c = Some cl -> closed (send cl) = true ->
  Broadcast p msg ex h = Panic "send on closed channel".
Proof.
  intros R Hr Hc Hne Hcl Hclosed. pose proof (reachable_wf _ R) as W.
  unfold Broadcast, getRoom. rewrite Hr. simpl.
  apply broadcast_fold_panics.
  - intros c' Hc'. apply elem_of_elements in Hc'.
    destruct (wf_members _ W _ _ _ Hr Hc') as [cl' Hcl']. exists cl'. split; [done|].
    eapply wf_id; eauto.
  - exists c, cl. split; [by apply elem_of_elements|]. auto.
Qed.

(** ** The rooms of the reachable states *)

(** [grouped_but X h]: every room of a table has a member; a connected
    client outside [X] that has an IP room is a member of it, and that room
    is the room of the table for the client's address; the members of an IP
    room are connected clients outside [X] that point to it; and the coded
    room a client points to is a coded room. *)
Record grouped_but (X : gset string) (h : Hub) : Prop := mkGrouped {
  g_occ_ip : forall k p, ipRooms h !! k = Some p ->
    exists r, rooms h !! p = Some r /\ rclients r ≠ ∅;
  g_occ_pub : forall k p, publicRooms h !! k = Some p ->
    exists r, rooms h !! p = Some r /\ rclients r ≠ ∅;
  g_member : forall c cl p, c ∈ clients h -> c ∉ X -> objs h !! c = Some cl ->
    ipRoom cl = Some p ->
    exists r, rooms h !! p = Some r /\ c ∈ rclients r /\ ipRooms h !! rid r = Some p /\
              rid r = ExtractIPRoomID (ip cl) "";
  g_only : forall p r c, rooms h !! p = Some r -> isPublic r = false -> c ∈ rclients r ->
    c ∈ clients h /\ (c ∉ X) /\ exists cl, objs h !! c = Some cl /\ ipRoom cl = Some p;
  g_kind : forall c cl p, objs h !! c = Some cl -> publicRoom cl = Some p ->
    exists r, rooms h !! p = Some r /\ isPublic r = true }.

Definition grouped : Hub -> Prop := grouped_but ∅.

(** [h'] has the objects of [h] up to what the rooms do not depend on. *)
Definition samelinks (h h' : Hub) : Prop :=
  forall c, match objs h' !! c, objs h !! c with
            | Some cl', Some cl =>
                ipRoom cl' = ipRoom cl /\ publicRoom cl' = publicRoom cl /\ ip cl' = ip cl
            | None, None => True
            | _, _ => False
            end.

Lemma samelinks_lookup h h' c cl' :
  samelinks h h' -> objs h' !! c = Some cl' ->
  exists cl, objs h !! c = Some cl /\
    ipRoom cl' = ipRoom cl /\ publicRoom cl' = publicRoom cl /\ ip cl' = ip cl.
Proof.
  intros H Hc. specialize (H c). rewrite Hc in H.
  destruct (objs h !! c) as [cl|]; [eauto|done].
Qed.

Lemma sameobjs_samelinks h h' : sameobjs h h' -> samelinks h h'.
Proof.
  intros H c. specialize (H c).
  destruct (objs h' !! c) as [cl'|], (objs h !! c) as [cl|]; simpl in H; try done.
  assert (Hs : strip cl' = strip cl) by congruence.
  apply strip_fields in Hs as (_ & _ & ? & ? & _ & _ & ? & _). auto.
Qed.

(** The invariant looks at the tables, the connected clients, the rooms and
    the links of the objects only. *)
Lemma grouped_but_ext X h h' :
  ipRooms h' = ipRooms h -> publicRooms h' = publicRooms h -> clients h' = clients h ->
  rooms h' = rooms h -> samelinks h h' ->
  grouped_but X h -> grouped_but X h'.
Proof.
  intros Hi Hp Hc Hr Hl G. constructor.
  - rewrite Hi, Hr. apply G.
  - rewrite Hp, Hr. apply G.
  - intros c cl' p Hin HX Hcl' Hroom. rewrite Hc in Hin.
    destruct (samelinks_lookup _ _ _ _ Hl Hcl') as (cl & Hcl & E1 & _ & E3).
    rewrite Hr, Hi, E3. rewrite E1 in Hroom. eapply g_member; eauto.
  - intros p r c Hp' Hpub Hin. rewrite Hr in Hp'.
    destruct (g_only _ _ G _ _ _ Hp' Hpub Hin) as (H1 & H2 & cl & Hcl & Hroom).
    rewrite Hc. split; [done|]. split; [done|].
    specialize (Hl c). rewrite Hcl in Hl.
    destruct (objs h' !! c) as [cl'|]; [|done]. exists cl'. split; [done|].
    destruct Hl as (-> & _). done.
  - intros c cl' p Hcl' Hroom.
    destruct (samelinks_lookup _ _ _ _ Hl Hcl') as (cl & Hcl & _ & E2 & _).
    rewrite Hr. rewrite E2 in Hroom. eapply g_kind; eauto.
Qed.

Lemma grouped_but_sameq X h h' : sameq h h' -> grouped_but X h -> grouped_but X h'.
Proof.
  intros (Hi & Hp & Hc & Hr & _ & Ho). apply grouped_but_ext; auto.
  by apply sameobjs_samelinks.
Qed.

(** Changes of one object that keep its IP room and its address, and give
    it no coded room but a real one. *)
Lemma grouped_but_updClient X c f h :
  (forall cl, ipRoom (f cl) = ipRoom cl /\ ip (f cl) = ip cl) ->
  (forall cl p, objs h !! c = Some cl -> publicRoom (f cl) = Some p ->
     exists r, rooms h !! p = Some r /\ isPublic r = true) ->
  grouped_but X h -> grouped_but X (updClient c f h).
Proof.
  intros Hf Hpub G. constructor; simpl; try apply G.
  - intros d cl' p Hin HX Hcl' Hroom. rewrite lookup_alter in Hcl'. case_decide as E.
    + subst d. destruct (objs h !! c) as [cl|] eqn:Hcl; [|done]. injection Hcl' as <-.
      destruct (Hf cl) as [E1 E2]. rewrite E1 in Hroom. rewrite E2. eapply g_member; eauto.
    + eapply g_member; eauto.
  - intros p r d Hp Hk Hin.
    destruct (g_only _ _ G _ _ _ Hp Hk Hin) as (H1 & H2 & cl & Hcl & Hroom).
    split; [done|]. split; [done|]. rewrite lookup_alter. case_decide as E.
    + subst d. rewrite Hcl. simpl. eexists. split; [done|]. by rewrite (proj1 (Hf cl)).
    + eauto.
  - intros d cl' p Hcl' Hroom. rewrite lookup_alter in Hcl'. case_decide as E.
    + subst d. destruct (objs h !! c) as [cl|] eqn:Hcl; [|done]. injection Hcl' as <-. eauto.
    + eapply g_kind; eauto.
Qed.

Lemma room_kinds_differ h p q r r' :
  rooms h !! p = Some r -> rooms h !! q = Some r' ->
  isPublic r = false -> isPublic r' = true -> p ≠ q.
Proof. intros Hp Hq H1 H2 ->. congruence. Qed.

Lemma sameq_set_ipRooms f h h' : sameq h h' -> sameq (set_ipRooms f h) (set_ipRooms f h').
Proof. intros (?&?&?&?&?&?). unfold sameq; simpl. repeat split; auto; congruence. Qed.

Lemma sameq_set_publicRooms f h h' :
  sameq h h' -> sameq (set_publicRooms f h) (set_publicRooms f h').
Proof. intros (?&?&?&?&?&?). unfold sameq; simpl. repeat split; auto; congruence. Qed.

(** The state that leaving the room [p] aims at: the member is gone, and
    so is the table entry under the id of the room when nobody is left. *)
Definition left (pub : bool) (p : ptr) (c : string) (r : Room) (h : Hub) : Hub :=
  let hr := set_rooms <[p := set_rclients (fun s => s ∖ {[c]}) r]> h in
  if bool_decide (size (rclients r ∖ {[c]}) = 0)
  then (if pub then set_publicRooms (delete (rid r)) hr else set_ipRooms (delete (rid r)) hr)
  else hr.

Lemma leave_shape (pub : bool) p c msg ex h ha hb e h1 :
  RemoveClient p c h = Ok ha ->
  Broadcast p msg ex ha = Ok hb ->
  IsEmpty p hb = Ok e ->
  (if e : bool
   then rid0 ← Room_ID p hb;
        Ok (if pub then set_publicRooms (delete rid0) hb else set_ipRooms (delete rid0) hb)
   else Ok hb) = Ok h1 ->
  exists r, rooms h !! p = Some r /\ sameq (left pub p c r h) h1.
Proof.
  intros H1 H2 H3 H4. unfold RemoveClient in H1.
  apply bind_Ok in H1 as (r & Hr & H1). apply getRoom_Ok in Hr. injection H1 as <-.
  exists r. split; [done|].
  pose proof (Broadcast_sameq _ _ _ _ _ H2) as S2.
  assert (Hroom : rooms hb !! p = Some (set_rclients (fun s => s ∖ {[c]}) r)).
  { destruct S2 as (_&_&_&->&_). simpl. by rewrite lookup_insert_eq. }
  unfold IsEmpty, getRoom in H3. rewrite Hroom in H3. simpl in H3. injection H3 as <-.
  unfold left. destruct (bool_decide _); [|by injection H4 as <-].
  unfold Room_ID, getRoom in H4. rewrite Hroom in H4. simpl in H4. injection H4 as <-.
  destruct pub; [by apply sameq_set_publicRooms|by apply sameq_set_ipRooms].
Qed.

Lemma size_empty_iff_gset (s : gset string) : size s = 0 <-> s = ∅.
Proof. rewrite size_empty_iff. by unfold_leibniz. Qed.

(** Leaving the IP room: the client that leaves is set aside. *)
Lemma grouped_left_ip c cl p r h :
  wf h -> grouped h -> c ∈ clients h -> objs h !! c = Some cl -> ipRoom cl = Some p ->
  rooms h !! p = Some r ->
  grouped_but {[c]} (left false p c r h).
Proof.
  intros W G Hc Hcl Hroom Hr.
  destruct (g_member _ _ G c cl p Hc ltac:(set_solver) Hcl Hroom)
    as (r0 & Hr0 & Hin & Htab & Hext).
  rewrite Hr in Hr0. injection Hr0 as <-.
  destruct (wf_ipRooms _ W _ _ Htab) as (r0 & Hr0 & _ & Hkind).
  rewrite Hr in Hr0. injection Hr0 as <-.
  assert (Hrooms : forall q, rooms (left false p c r h) !! q =
            if decide (q = p) then Some (set_rclients (fun s => s ∖ {[c]}) r)
            else rooms h !! q).
  { intros q. unfold left. destruct (bool_decide _); simpl;
      (destruct (decide (q = p)) as [->|Hne];
       [by rewrite lookup_insert_eq|by rewrite lookup_insert_ne]). }
  assert (Htabs : forall k q, ipRooms (left false p c r h) !! k = Some q <->
            ipRooms h !! k = Some q /\ (rclients r ∖ {[c]} = ∅ -> k ≠ rid r)).
  { intros k q. unfold left. case_bool_decide as E; simpl.
    - rewrite lookup_delete_Some. apply size_empty_iff_gset in E.
      split; [intros [? ?]; split; [done|]; intros _; congruence|].
      intros [? Hx]. split; [|done]. intros Heq. exact (Hx E (eq_sym Heq)).
    - rewrite size_empty_iff_gset in E. tauto. }
  assert (Hpubs : publicRooms (left false p c r h) = publicRooms h).
  { unfold left. destruct (bool_decide _); reflexivity. }
  assert (Hcls : clients (left false p c r h) = clients h).
  { unfold left. destruct (bool_decide _); reflexivity. }
  assert (Hobjs : objs (left false p c r h) = objs h).
  { unfold left. destruct (bool_decide _); reflexivity. }
  constructor.
  - intros k q Hk. apply Htabs in Hk as [Hk Hne]. rewrite Hrooms.
    destruct (decide (q = p)) as [->|Hq]; [|eapply g_occ_ip; eauto].
    eexists. split; [done|]. simpl. intros E.
    destruct (wf_ipRooms _ W _ _ Hk) as (r0 & Hr0 & Hid & _).
    rewrite Hr in Hr0. injection Hr0 as <-. by apply Hne.
  - rewrite Hpubs. intros k q Hk. rewrite Hrooms.
    destruct (wf_publicRooms _ W _ _ Hk) as (rq & Hrq & _ & Hkq).
    rewrite decide_False by (intros ->; congruence). eapply g_occ_pub; eauto.
  - rewrite Hcls, Hobjs. intros d cld q Hd HX Hcld Hq.
    assert (Hdc : d ≠ c) by set_solver.
    destruct (g_member _ _ G d cld q Hd ltac:(set_solver) Hcld Hq)
      as (rd & Hrd & Hind & Htabd & Hextd).
    rewrite Hrooms. destruct (decide (q = p)) as [->|Hqp].
    + rewrite Hr in Hrd. injection Hrd as <-. eexists. split; [done|]. simpl.
      split; [set_solver|]. split; [|done]. apply Htabs. split; [done|]. set_solver.
    + exists rd. split; [done|]. split; [done|]. split; [|done].
      apply Htabs. split; [done|]. intros _ E. rewrite E in Htabd. congruence.
  - rewrite Hcls, Hobjs. intros q rq d Hq Hk Hin'. rewrite Hrooms in Hq.
    destruct (decide (q = p)) as [->|Hqp].
    + injection Hq as <-. simpl in Hin'.
      destruct (g_only _ _ G _ _ d Hr Hkind ltac:(set_solver)) as (? & _ & ?).
      split; [done|]. split; [set_solver|done].
    + destruct (g_only _ _ G _ _ d Hq Hk Hin') as (? & _ & cld & Hcld & Hroomd).
      split; [done|]. split; [|eauto].
      intros ->%elem_of_singleton. congruence.
  - rewrite Hobjs. intros d cld q Hcld Hq.
    destruct (g_kind _ _ G _ _ _ Hcld Hq) as (rq & Hrq & Hkq).
    rewrite Hrooms. rewrite decide_False by (intros ->; congruence). eauto.
Qed.

Lemma grouped_set_aside c cl h :
  grouped h -> objs h !! c = Some cl -> ipRoom cl = None -> grouped_but {[c]} h.
Proof.
  intros G Hcl Hnone. constructor; try apply G.
  - intros d cld p Hd _. apply (g_member _ _ G); [done|set_solver].
  - intros p r d Hp Hk Hin.
    destruct (g_only _ _ G _ _ _ Hp Hk Hin) as (? & _ & cld & Hcld & Hroom).
    split; [done|]. split; [|eauto]. intros ->%elem_of_singleton. congruence.
Qed.

(** Leaving a coded room. *)
Lemma grouped_left_pub X c cl q r h :
  wf h -> grouped_but X h -> objs h !! c = Some cl -> publicRoom cl = Some q ->
  rooms h !! q = Some r ->
  grouped_but X (left true q c r h).
Proof.
  intros W G Hcl Hroom Hr.
  destruct (g_kind _ _ G _ _ _ Hcl Hroom) as (r0 & Hr0 & Hkind).
  rewrite Hr in Hr0. injection Hr0 as <-.
  assert (Hrooms : forall p, rooms (left true q c r h) !! p =
            if decide (p = q) then Some (set_rclients (fun s => s ∖ {[c]}) r)
            else rooms h !! p).
  { intros p. unfold left. destruct (bool_decide _); simpl;
      (destruct (decide (p = q)) as [->|Hne];
       [by rewrite lookup_insert_eq|by rewrite lookup_insert_ne]). }
  assert (Htabs : forall k p, publicRooms (left true q c r h) !! k = Some p <->
            publicRooms h !! k = Some p /\ (rclients r ∖ {[c]} = ∅ -> k ≠ rid r)).
  { intros k p. unfold left. case_bool_decide as E; simpl.
    - rewrite lookup_delete_Some. apply size_empty_iff_gset in E.
      split; [intros [? ?]; split; [done|]; intros _; congruence|].
      intros [? Hx]. split; [|done]. intros Heq. exact (Hx E (eq_sym Heq)).
    - rewrite size_empty_iff_gset in E. tauto. }
  assert (Hips : ipRooms (left true q c r h) = ipRooms h).
  { unfold left. destruct (bool_decide _); reflexivity. }
  assert (Hcls : clients (left true q c r h) = clients h).
  { unfold left. destruct (bool_decide _); reflexivity. }
  assert (Hobjs : objs (left true q c r h) = objs h).
  { unfold left. destruct (bool_decide _); reflexivity. }
  assert (Hnp : forall p rp, rooms h !! p = Some rp -> isPublic rp = false -> p ≠ q).
  { intros p rp Hp Hk ->. congruence. }
  constructor.
  - rewrite Hips. intros k p Hk. rewrite Hrooms.
    destruct (wf_ipRooms _ W _ _ Hk) as (rp & Hrp & _ & Hkp).
    rewrite decide_False by eauto. eapply g_occ_ip; eauto.
  - intros k p Hk. apply Htabs in Hk as [Hk Hne]. rewrite Hrooms.
    destruct (decide (p = q)) as [->|Hp]; [|eapply g_occ_pub; eauto].
    eexists. split; [done|]. simpl. intros E.
    destruct (wf_publicRooms _ W _ _ Hk) as (r0 & Hr0 & Hid & _).
    rewrite Hr in Hr0. injection Hr0 as <-. by apply Hne.
  - rewrite Hcls, Hobjs, Hips. intros d cld p Hd HX Hcld Hp.
    destruct (g_member _ _ G d cld p Hd HX Hcld Hp) as (rd & Hrd & Hind & Htabd & Hextd).
    destruct (wf_ipRooms _ W _ _ Htabd) as (rd' & Hrd' & _ & Hkd).
    rewrite Hrd in Hrd'. injection Hrd' as <-.
    rewrite Hrooms. rewrite decide_False by eauto. eauto 10.
  - rewrite Hcls, Hobjs. intros p rp d Hp Hk Hin. rewrite Hrooms in Hp.
    destruct (decide (p = q)) as [->|Hpq].
    + injection Hp as <-. simpl in Hk. congruence.
    + eapply g_only; eauto.
  - rewrite Hobjs. intros d cld p Hcld Hp.
    destruct (g_kind _ _ G _ _ _ Hcld Hp) as (rp & Hrp & Hkp).
    rewrite Hrooms. destruct (decide (p = q)) as [->|Hpq]; eauto.
Qed.

Lemma grouped_drop c h :
  grouped_but {[c]} h -> grouped (set_clients (fun s => s ∖ {[c]}) h).
Proof.
  intros G. constructor; simpl; try apply G.
  - intros d cld p Hd _. apply (g_member _ _ G); set_solver.
  - intros p r d Hp Hk Hin. destruct (g_only _ _ G _ _ _ Hp Hk Hin) as (? & ? & ?).
    split; [set_solver|]. split; [set_solver|done].
Qed.

(** A new member of a coded room. *)
Lemma grouped_add_pub X q r c h :
  grouped_but X h -> rooms h !! q = Some r -> isPublic r = true ->
  grouped_but X (set_rooms <[q := set_rclients (fun s => {[c]} ∪ s) r]> h).
Proof.
  intros G Hr Hkind.
  assert (Hrooms : forall p rp, rooms h !! p = Some rp ->
            exists rp', <[q := set_rclients (fun s => {[c]} ∪ s) r]> (rooms h) !! p = Some rp' /\
              rid rp' = rid rp /\ isPublic rp' = isPublic rp /\
              rclients rp ⊆ rclients rp' /\ (p ≠ q -> rp' = rp)).
  { intros p rp Hp. destruct (decide (p = q)) as [->|Hne].
    - rewrite lookup_insert_eq. rewrite Hr in Hp. injection Hp as <-.
      eexists. split; [done|]. simpl. repeat split; [set_solver|done].
    - rewrite lookup_insert_ne by done. exists rp. repeat split; auto. }
  constructor; simpl.
  - intros k p Hk. destruct (g_occ_ip _ _ G _ _ Hk) as (rp & Hrp & Hne).
    destruct (Hrooms _ _ Hrp) as (rp' & ? & _ & _ & Hsub & _). exists rp'. split; [done|].
    set_solver.
  - intros k p Hk. destruct (g_occ_pub _ _ G _ _ Hk) as (rp & Hrp & Hne).
    destruct (Hrooms _ _ Hrp) as (rp' & ? & _ & _ & Hsub & _). exists rp'. split; [done|].
    set_solver.
  - intros d cld p Hd HX Hcld Hp.
    destruct (g_member _ _ G d cld p Hd HX Hcld Hp) as (rd & Hrd & Hind & Htabd & Hextd).
    destruct (Hrooms _ _ Hrd) as (rp' & ? & Hid & _ & Hsub & _). exists rp'.
    rewrite Hid. split; [done|]. split; [set_solver|done].
  - intros p rp d Hp Hk Hin. destruct (decide (p = q)) as [->|Hne].
    + rewrite lookup_insert_eq in Hp. injection Hp as <-. simpl in Hk. congruence.
    + rewrite lookup_insert_ne in Hp by done. eapply g_only; eauto.
  - intros d cld p Hcld Hp. destruct (g_kind _ _ G _ _ _ Hcld Hp) as (rp & Hrp & Hkp).
    destruct (Hrooms _ _ Hrp) as (rp' & ? & _ & Hk' & _). exists rp'. split; [done|].
    congruence.
Qed.

Lemma grouped_NewRoom X k pub h n hn :
  wf h -> grouped_but X h -> NewRoom k pub h = (n, hn) -> grouped_but X hn.
Proof.
  unfold NewRoom. intros W G [= <- <-].
  assert (Hfresh : forall p, is_Some (rooms h !! p) -> p ≠ nextRoom h).
  { intros p Hp ->. apply (wf_alloc _ W) in Hp. lia. }
  constructor; simpl.
  - intros k' p Hk. destruct (g_occ_ip _ _ G _ _ Hk) as (r & Hr & Hne).
    exists r. rewrite lookup_insert_ne; [done|]. intros <-. eapply Hfresh; eauto.
  - intros k' p Hk. destruct (g_occ_pub _ _ G _ _ Hk) as (r & Hr & Hne).
    exists r. rewrite lookup_insert_ne; [done|]. intros <-. eapply Hfresh; eauto.
  - intros d cld p Hd HX Hcld Hp.
    destruct (g_member _ _ G d cld p Hd HX Hcld Hp) as (rd & Hrd & ?).
    exists rd. rewrite lookup_insert_ne; [done|]. intros <-. eapply Hfresh; eauto.
  - intros p r d Hp Hk Hin. destruct (decide (nextRoom h = p)) as [<-|Hne].
    + rewrite lookup_insert_eq in Hp. injection Hp as <-. simpl in Hin. set_solver.
    + rewrite lookup_insert_ne in Hp by done. eapply g_only; eauto.
  - intros d cld p Hcld Hp. destruct (g_kind _ _ G _ _ _ Hcld Hp) as (rp & Hrp & Hkp).
    exists rp. rewrite lookup_insert_ne; [done|]. intros <-. eapply Hfresh; eauto.
Qed.

Lemma grouped_insert_pub X code n r h :
  grouped_but X h -> rooms h !! n = Some r -> rclients r ≠ ∅ ->
  grouped_but X (set_publicRooms <[code := n]> h).
Proof.
  intros G Hr Hne. constructor; simpl; try apply G.
  intros k p. rewrite lookup_insert. case_decide as E.
  - intros [= <-]. eauto.
  - apply (g_occ_pub _ _ G).
Qed.

(** Joining the IP room [p] of the address: a room of the table, or a new
    room that goes into the table. *)
Lemma grouped_join_ip c cl p r h :
  wf h -> grouped h -> c ∈ clients h -> objs h !! c = Some cl ->
  rooms h !! p = Some r -> isPublic r = false -> rid r = ExtractIPRoomID (ip cl) "" ->
  ipRooms h !! rid r = Some p \/ (ipRooms h !! rid r = None /\ rclients r = ∅) ->
  grouped (updClient c (set_ipRoom (Some p))
             (set_ipRooms <[rid r := p]>
                (set_rooms <[p := set_rclients (fun s => {[c]} ∪ s) r]> h))).
Proof.
  intros W G Hc Hcl Hr Hkind Hext Htable.
  assert (Hmine : forall p' r', rooms h !! p' = Some r' -> isPublic r' = false ->
            c ∈ rclients r' -> p' = p).
  { intros p' r' Hp' Hk' Hin.
    destruct (g_only _ _ G _ _ _ Hp' Hk' Hin) as (_ & _ & cl0 & Hcl0 & Hroom0).
    rewrite Hcl in Hcl0. injection Hcl0 as <-.
    destruct (g_member _ _ G c cl p' Hc ltac:(apply not_elem_of_empty) Hcl Hroom0)
      as (r0 & Hr0 & _ & Htab0 & Hext0).
    rewrite <- Hext in Hext0. rewrite Hext0 in Htab0.
    destruct Htable as [Ht|[Ht _]]; congruence. }
  constructor; simpl.
  - intros k q. rewrite lookup_insert. case_decide as E.
    + intros [= <-]. rewrite lookup_insert_eq. eexists. split; [done|]. simpl.
      intros Hempty. assert (Hin : c ∈ ({[c]} ∪ rclients r)) by (apply elem_of_union_l, elem_of_singleton; done).
      rewrite Hempty in Hin. by apply not_elem_of_empty in Hin.
    + intros Hk. destruct (g_occ_ip _ _ G _ _ Hk) as (rq & Hrq & Hne).
      destruct (decide (q = p)) as [->|Hqp].
      * rewrite lookup_insert_eq. eexists. split; [done|]. simpl.
        intros Hempty. assert (Hin : c ∈ ({[c]} ∪ rclients r)) by (apply elem_of_union_l, elem_of_singleton; done).
        rewrite Hempty in Hin. by apply not_elem_of_empty in Hin.
      * rewrite lookup_insert_ne by done. eauto.
  - intros k q Hk. destruct (g_occ_pub _ _ G _ _ Hk) as (rq & Hrq & Hne).
    destruct (wf_publicRooms _ W _ _ Hk) as (rq' & Hrq' & _ & Hkq).
    rewrite lookup_insert_ne by (intros <-; congruence). eauto.
  - intros d cld q Hd _ Hcld Hq. rewrite lookup_alter in Hcld. case_decide as E.
    + subst d. rewrite Hcl in Hcld. simpl in Hcld. injection Hcld as <-. simpl in Hq.
      injection Hq as <-. rewrite lookup_insert_eq. eexists. split; [done|]. simpl.
      split; [apply elem_of_union_l, elem_of_singleton; done|].
      split; [by rewrite lookup_insert_eq|done].
    + destruct (g_member _ _ G d cld q Hd ltac:(apply not_elem_of_empty) Hcld Hq)
        as (rd & Hrd & Hind & Htabd & Hextd).
      destruct (decide (q = p)) as [->|Hqp].
      * rewrite Hr in Hrd. injection Hrd as <-. rewrite lookup_insert_eq.
        eexists. split; [done|]. simpl. split; [by apply elem_of_union_r|].
        split; [by rewrite lookup_insert_eq|done].
      * rewrite lookup_insert_ne by done. exists rd. split; [done|]. split; [done|].
        split; [|done]. rewrite lookup_insert_ne; [done|]. intros Heq.
        rewrite <- Heq in Htabd. destruct Htable as [Ht|[Ht _]]; congruence.
  - intros q rq d Hq Hk Hin. destruct (decide (q = p)) as [->|Hqp].
    + rewrite lookup_insert_eq in Hq. injection Hq as <-. simpl in Hin, Hk.
      rewrite lookup_alter. case_decide as E.
      * subst d. rewrite Hcl. simpl. split; [done|]. split; [apply not_elem_of_empty|eauto].
      * apply elem_of_union in Hin as [Hin|Hin]; [apply elem_of_singleton in Hin; congruence|].
        destruct (g_only _ _ G _ _ _ Hr Hkind Hin) as (? & ? & ?). auto.
    + rewrite lookup_insert_ne in Hq by done.
      destruct (g_only _ _ G _ _ _ Hq Hk Hin) as (? & ? & cld & Hcld & Hroomd).
      split; [done|]. split; [done|]. rewrite lookup_alter. case_decide as E.
      * subst d. exfalso. apply Hqp. eapply Hmine; eauto.
      * eauto.
  - intros d cld q Hcld Hq.
    assert (Hold : exists cl0, objs h !! d = Some cl0 /\ publicRoom cl0 = Some q).
    { rewrite lookup_alter in Hcld. case_decide as E; [|eauto].
      subst d. rewrite Hcl in Hcld. simpl in Hcld. injection Hcld as <-. eauto. }
    destruct Hold as (cl0 & Hcl0 & Hq0).
    destruct (g_kind _ _ G _ _ _ Hcl0 Hq0) as (rq & Hrq & Hkq).
    rewrite lookup_insert_ne by (intros <-; congruence). eauto.
Qed.

Lemma grouped_connect cid addr h :
  grouped h -> objs h !! cid = None -> grouped (HandleWebSocket cid addr h).
Proof.
  intros G Hfresh. unfold HandleWebSocket. constructor; simpl; try apply G.
  - intros d cld p Hd _ Hcld Hp. rewrite lookup_insert in Hcld. case_decide as E.
    + injection Hcld as <-. discriminate Hp.
    + apply elem_of_union in Hd as [Hd|Hd]; [apply elem_of_singleton in Hd; congruence|].
      eapply g_member; eauto. apply not_elem_of_empty.
  - intros p r d Hp Hk Hin.
    destruct (g_only _ _ G _ _ _ Hp Hk Hin) as (? & ? & cld & Hcld & Hroom).
    split; [by apply elem_of_union_r|]. split; [done|].
    rewrite lookup_insert_ne by (intros <-; congruence). eauto.
  - intros d cld p Hcld Hp. rewrite lookup_insert in Hcld. case_decide as E.
    + injection Hcld as <-. discriminate Hp.
    + eapply g_kind; eauto.
Qed.

Lemma occupied_room h p r : rooms h !! p = Some r -> rclients r ≠ ∅ -> roomOccupied h p = true.
Proof.
  intros Hr Hne. unfold roomOccupied. rewrite Hr. apply negb_true_iff, bool_decide_eq_false.
  by rewrite size_empty_iff_gset.
Qed.

(** In a grouped hub the sweep finds no empty room in the tables. *)
Lemma sweep_grouped h : grouped h -> cleanupEmptyRooms h = h.
Proof.
  intros G. unfold cleanupEmptyRooms.
  assert (Hi : filter (fun kp : string * ptr => roomOccupied h kp.2 = true) (ipRooms h)
               = ipRooms h).
  { apply map_filter_id. intros k p Hk. simpl.
    destruct (g_occ_ip _ _ G _ _ Hk) as (r & Hr & Hne). eapply occupied_room; eauto. }
  assert (Hp : filter (fun kp : string * ptr => roomOccupied h kp.2 = true) (publicRooms h)
               = publicRooms h).
  { apply map_filter_id. intros k p Hk. simpl.
    destruct (g_occ_pub _ _ G _ _ Hk) as (r & Hr & Hne). eapply occupied_room; eauto. }
  unfold set_publicRooms, set_ipRooms. simpl. rewrite Hi, Hp. by destruct h.
Qed.

(** The shared shape of joining a room. *)
Lemma joined_shape (pub : bool) c p msg1 h h2 h4 h5 cid msg2 ex :
  AddClient p cid h = Ok h2 ->
  Send c msg1 (updClient c (if pub then set_publicRoom (Some p) else set_ipRoom (Some p)) h2)
    = Ok h4 ->
  Broadcast p msg2 ex h4 = Ok h5 ->
  exists r, rooms h !! p = Some r /\
    sameq (updClient c (if pub then set_publicRoom (Some p) else set_ipRoom (Some p))
             (set_rooms <[p := set_rclients (fun s => {[cid]} ∪ s) r]> h)) h5.
Proof.
  intros H2 H4 H5. apply AddClient_Ok in H2 as (r & Hr & ->). exists r. split; [done|].
  eapply sameq_trans; [eapply Send_sameq; exact H4|]. eapply Broadcast_sameq; exact H5.
Qed.

Lemma grouped_JoinIPRoom c h h' :
  wf h -> grouped h -> c ∈ clients h -> JoinIPRoom c h = Ok h' -> grouped h'.
Proof.
  unfold JoinIPRoom. intros W G Hc H.
  apply bind_Ok in H as (cl & Hcl & H). apply getClient_Ok in Hcl.
  pose proof (wf_id _ W _ _ Hcl) as Hid.
  destruct (ipRooms h !! ExtractIPRoomID (ip cl) "") as [p|] eqn:Ep.
  - inv_ok.
    match goal with
    | H2 : AddClient _ _ _ = Ok _, H4 : Send _ _ _ = Ok _, H5 : Broadcast _ _ _ _ = Ok _ |- _ =>
        destruct (joined_shape false _ _ _ _ _ _ _ _ _ _ H2 H4 H5) as (r & Hr & Hs)
    end.
    eapply grouped_but_sameq; [exact Hs|]. rewrite Hid.
    destruct (wf_ipRooms _ W _ _ Ep) as (r0 & Hr0 & Hrid & Hkind).
    rewrite Hr in Hr0. injection Hr0 as <-.
    assert (E : set_rooms <[p := set_rclients (fun s => {[c]} ∪ s) r]> h =
                set_ipRooms <[rid r := p]>
                  (set_rooms <[p := set_rclients (fun s => {[c]} ∪ s) r]> h)).
    { unfold set_ipRooms. simpl. rewrite insert_id by (by rewrite Hrid). by destruct h. }
    rewrite E. apply (grouped_join_ip c cl p r h); auto. left. by rewrite Hrid.
  - destruct (NewRoom (ExtractIPRoomID (ip cl) "") false h) as [p hn] eqn:En.
    destruct (wf_NewRoom _ _ _ _ _ W En) as (Wn & Hp & Ho & Hi & Hpub & Hcls).
    pose proof (grouped_NewRoom _ _ _ _ _ _ W G En) as Gn.
    inv_ok.
    match goal with
    | H2 : AddClient _ _ _ = Ok _, H4 : Send _ _ _ = Ok _, H5 : Broadcast _ _ _ _ = Ok _ |- _ =>
        destruct (joined_shape false _ _ _ _ _ _ _ _ _ _ H2 H4 H5) as (r & Hr & Hs)
    end.
    eapply grouped_but_sameq; [exact Hs|]. rewrite Hid.
    simpl in Hr. rewrite Hp in Hr. injection Hr as <-.
    change (set_rooms ?f (set_ipRooms ?g hn)) with (set_ipRooms g (set_rooms f hn)).
    apply (grouped_join_ip c cl p (mkRoom (ExtractIPRoomID (ip cl) "") false ∅) hn); auto.
    + by rewrite Hcls.
    + by rewrite Ho.
    + right. simpl. rewrite Hi. done.
Qed.

Lemma union_singleton_nonempty (c : string) (s : gset string) : {[c]} ∪ s ≠ ∅.
Proof.
  intros E. assert (Hin : c ∈ {[c]} ∪ s) by (apply elem_of_union_l, elem_of_singleton; done).
  rewrite E in Hin. by apply not_elem_of_empty in Hin.
Qed.

Lemma grouped_handleJoin c payload h h' :
  wf h -> grouped h -> c ∈ clients h -> handleJoin c payload h = Ok h' -> grouped h'.
Proof.
  unfold handleJoin. intros W G Hc H.
  destruct payload as [[]|];
    try (injection H as <-; eapply grouped_but_sameq; [apply sameq_logf|done]).
  apply bind_Ok in H as (h2 & H2 & H).
  apply grouped_JoinIPRoom in H2.
  - inv_all. eapply grouped_but_sameq; [apply sameq_logf|done].
  - apply wf_updClient; try done; intros cl q Hcl; simpl;
      [eapply wf_ipRoom|eapply wf_publicRoom]; eauto.
  - apply grouped_but_updClient; [done| |done].
    intros cl q Hcl Hq. simpl in Hq. eapply g_kind; eauto.
  - done.
Qed.

Lemma grouped_CreatePublicRoom c draws h code h' :
  wf h -> grouped h -> CreatePublicRoom c draws h = Ok (code, h') -> grouped h'.
Proof.
  unfold CreatePublicRoom. intros W G H.
  apply bind_Ok in H as (cl & Hcl & H). apply getClient_Ok in Hcl.
  destruct (pickCode draws (publicRooms h)) as [code0|] eqn:Ec; [|discriminate].
  destruct (NewRoom code0 true h) as [p hn] eqn:En.
  destruct (wf_NewRoom _ _ _ _ _ W En) as (Wn & Hp & Ho & _ & Hpub & _).
  pose proof (grouped_NewRoom _ _ _ _ _ _ W G En) as Gn.
  apply bind_Ok in H as (h2 & H2 & H). injection H as <- <-.
  apply AddClient_Ok in H2 as (r & Hr & ->).
  rewrite Hp in Hr. injection Hr as <-.
  apply grouped_but_updClient; [done| |].
  - intros cl0 q _ Hq. simpl in Hq. injection Hq as <-. simpl.
    rewrite lookup_insert_eq. eauto.
  - eapply grouped_insert_pub.
    + apply grouped_add_pub; [exact Gn|exact Hp|done].
    + simpl. apply lookup_insert_eq.
    + simpl. apply union_singleton_nonempty.
Qed.

Lemma grouped_handleCreateRoom c draws h h' :
  wf h -> grouped h -> handleCreateRoom c draws h = Ok h' -> grouped h'.
Proof.
  unfold handleCreateRoom. intros W G H.
  apply bind_Ok in H as ([code h1] & H1 & H).
  apply grouped_CreatePublicRoom in H1; [|done..].
  inv_ok. eapply grouped_but_sameq; [apply sameq_logf|].
  eapply grouped_but_sameq; [eapply Send_sameq; eauto|done].
Qed.

Lemma LeavePublicRoom_rooms c h h' p r :
  LeavePublicRoom c h = Ok h' -> rooms h !! p = Some r ->
  exists r', rooms h' !! p = Some r' /\ isPublic r' = isPublic r /\ rid r' = rid r.
Proof.
  unfold LeavePublicRoom. intros H Hp.
  apply bind_Ok in H as (cl & Hcl & H).
  destruct (publicRoom cl) as [q|]; [|inv_ok; eauto].
  inv_ok.
  match goal with
  | H1 : RemoveClient _ _ _ = Ok _, H2 : Broadcast _ _ _ _ = Ok _,
    H3 : IsEmpty _ _ = Ok _, H4 : (if _ then _ else _) = Ok _ |- _ =>
      destruct (leave_shape true _ _ _ _ _ _ _ _ _ H1 H2 H3 H4) as (rq & Hrq & Hs)
  end.
  destruct Hs as (_ & _ & _ & Hrooms & _). simpl. rewrite Hrooms.
  assert (E : rooms (left true q (id cl) rq h) =
              <[q := set_rclients (fun s => s ∖ {[id cl]}) rq]> (rooms h)).
  { unfold left. destruct (bool_decide _); reflexivity. }
  rewrite E. destruct (decide (p = q)) as [->|Hne].
  - rewrite lookup_insert_eq. rewrite Hrq in Hp. injection Hp as <-. eauto.
  - rewrite lookup_insert_ne by done. eauto.
Qed.

Lemma grouped_LeavePublicRoom c h h' :
  wf h -> grouped h -> LeavePublicRoom c h = Ok h' -> grouped h'.
Proof.
  unfold LeavePublicRoom. intros W G H.
  apply bind_Ok in H as (cl & Hcl & H). apply getClient_Ok in Hcl.
  pose proof (wf_id _ W _ _ Hcl) as Hid. rewrite Hid in H.
  destruct (publicRoom cl) as [p|] eqn:Hp; [|inv_ok; done].
  inv_ok.
  match goal with
  | H1 : RemoveClient _ _ _ = Ok _, H2 : Broadcast _ _ _ _ = Ok _,
    H3 : IsEmpty _ _ = Ok _, H4 : (if _ then _ else _) = Ok _ |- _ =>
      destruct (leave_shape true _ _ _ _ _ _ _ _ _ H1 H2 H3 H4) as (r & Hr & Hs)
  end.
  apply grouped_but_updClient; [done|intros ? ? _ Hq; discriminate Hq|].
  eapply grouped_but_sameq; [exact Hs|].
  eapply grouped_left_pub; eauto.
Qed.

Lemma grouped_JoinPublicRoom c code h err h' :
  wf h -> grouped h -> JoinPublicRoom c code h = Ok (err, h') -> grouped h'.
Proof.
  unfold JoinPublicRoom. intros W G H.
  destruct (publicRooms h !! code) as [p|] eqn:Ep; [|injection H as <- <-; done].
  destruct (wf_publicRooms _ W _ _ Ep) as (r0 & Hr0 & _ & Hk0).
  apply bind_Ok in H as (cl & Hcl & H). apply getClient_Ok in Hcl.
  apply bind_Ok in H as (h1 & H1 & H).
  assert (X1 : grouped h1 /\ exists r1, rooms h1 !! p = Some r1 /\ isPublic r1 = true).
  { destruct (publicRoom cl) as [q|].
    - split; [eapply grouped_LeavePublicRoom; eauto|].
      destruct (LeavePublicRoom_rooms _ _ _ _ _ H1 Hr0) as (r1 & ? & ? & _).
      exists r1. split; congruence.
    - inv_ok. eauto. }
  destruct X1 as (G1 & r1 & Hr1 & Hk1).
  inv_ok.
  match goal with
  | H2 : AddClient _ _ _ = Ok _, H4 : Send _ _ _ = Ok _, H5 : Broadcast _ _ _ _ = Ok _ |- _ =>
      destruct (joined_shape true _ _ _ _ _ _ _ _ _ _ H2 H4 H5) as (r & Hr & Hs)
  end.
  eapply grouped_but_sameq; [exact Hs|].
  rewrite Hr1 in Hr. injection Hr as <-.
  apply grouped_but_updClient; [done| |].
  - intros cl0 q _ Hq. simpl in Hq. injection Hq as <-. simpl.
    rewrite lookup_insert_eq. eauto.
  - apply grouped_add_pub; done.
Qed.

Lemma grouped_handleJoinRoom c payload h h' :
  wf h -> grouped h -> handleJoinRoom c payload h = Ok h' -> grouped h'.
Proof.
  unfold handleJoinRoom. intros W G H.
  destruct payload as [[]|];
    try (injection H as <-; eapply grouped_but_sameq; [apply sameq_logf|done]).
  apply bind_Ok in H as ([err h1] & H1 & H).
  apply grouped_JoinPublicRoom in H1; [|done..].
  destruct err; [eapply grouped_but_sameq; [eapply Send_sameq; eauto|done]|].
  inv_ok. eapply grouped_but_sameq; [apply sameq_logf|done].
Qed.

Lemma grouped_handleLeaveRoom c h h' :
  wf h -> grouped h -> handleLeaveRoom c h = Ok h' -> grouped h'.
Proof.
  unfold handleLeaveRoom. intros W G H.
  apply bind_Ok in H as (cl & Hcl & H).
  destruct (publicRoom cl); [|inv_ok; done].
  inv_ok. eapply grouped_but_sameq; [apply sameq_logf|].
  eapply grouped_LeavePublicRoom; eauto.
Qed.

Lemma grouped_Unregister c h h' :
  wf h -> grouped h -> c ∈ clients h -> Unregister c h = Ok h' -> grouped h'.
Proof.
  unfold Unregister. intros W G Hc H.
  apply bind_Ok in H as (cl & Hcl & H). apply getClient_Ok in Hcl.
  pose proof (wf_id _ W _ _ Hcl) as Hid. rewrite Hid in H.
  apply bind_Ok in H as (h1 & H1 & H).
  assert (X1 : wf h1 /\ sameobjs h h1 /\ grouped_but {[c]} h1).
  { destruct (ipRoom cl) as [p|] eqn:Hp.
    - inv_ok.
      match goal with
      | H1 : RemoveClient _ _ _ = Ok _, H2 : Broadcast _ _ _ _ = Ok _,
        H3 : IsEmpty _ _ = Ok _, H4 : (if _ then _ else _) = Ok _ |- _ =>
          destruct (leave_shape false _ _ _ _ _ _ _ _ _ H1 H2 H3 H4) as (r & Hr & Hs);
          destruct (leave_wf false _ _ _ _ _ _ _ _ _ W H1 H2 H3 H4) as (W1 & S1 & _)
      end.
      split; [done|]. split; [done|].
      eapply grouped_but_sameq; [exact Hs|]. eapply grouped_left_ip; eauto.
    - inv_ok. split; [done|]. split; [apply sameobjs_refl|].
      eapply grouped_set_aside; eauto. }
  destruct X1 as (W1 & S1 & G1).
  apply bind_Ok in H as (h2 & H2 & H).
  assert (G2 : grouped_but {[c]} h2).
  { destruct (publicRoom cl) as [q|] eqn:Hq; [|inv_ok; done].
    destruct (sameobjs_lookup _ _ _ _ S1 Hcl) as (cl1 & Hcl1 & Hst).
    apply strip_fields in Hst as (_ & _ & _ & Hpub & _).
    inv_ok.
    match goal with
    | H1 : RemoveClient _ _ _ = Ok _, H2 : Broadcast _ _ _ _ = Ok _,
      H3 : IsEmpty _ _ = Ok _, H4 : (if _ then _ else _) = Ok _ |- _ =>
        destruct (leave_shape true _ _ _ _ _ _ _ _ _ H1 H2 H3 H4) as (r & Hr & Hs)
    end.
    eapply grouped_but_sameq; [exact Hs|].
    eapply grouped_left_pub; eauto. congruence. }
  apply bind_Ok in H as (h3 & H3 & H). injection H as <-.
  eapply grouped_but_sameq; [apply sameq_logf|].
  unfold closeSend in H3. apply bind_Ok in H3 as (cl3 & Hcl3 & H3).
  destruct (closed (send cl3)); [discriminate|]. injection H3 as <-.
  apply grouped_but_updClient; [done| |by apply grouped_drop].
  intros cl0 q Hcl0 Hq. simpl in *. eapply (g_kind _ _ G2); eauto.
Qed.

Lemma grouped_handleMessage c msg draws h h' :
  wf h -> grouped h -> c ∈ clients h -> handleMessage c msg draws h = Ok h' -> grouped h'.
Proof.
  unfold handleMessage. intros W G Hc H.
  repeat (destruct (decide _) in H;
          [first [ eapply grouped_handleJoin; eassumption
                 | eapply grouped_but_sameq; [eapply relayToTarget_sameq; eassumption|assumption]
                 | eapply grouped_handleCreateRoom; eassumption
                 | eapply grouped_handleJoinRoom; eassumption
                 | eapply grouped_handleLeaveRoom; eassumption
                 | eapply grouped_but_sameq; [eapply Send_sameq; eassumption|assumption] ]|]).
  inv_ok. done.
Qed.

Lemma grouped_WritePump c h h' : grouped h -> WritePump c h = Ok h' -> grouped h'.
Proof.
  unfold WritePump. intros G H. inv_ok.
  apply grouped_but_updClient; [done| |done].
  intros cl q Hcl Hq. simpl in Hq. eapply g_kind; eauto.
Qed.

Lemma grouped_NewHub : grouped NewHub.
Proof.
  constructor; simpl.
  - intros k p Hk. by rewrite lookup_empty in Hk.
  - intros k p Hk. by rewrite lookup_empty in Hk.
  - intros c cl p Hc. by apply not_elem_of_empty in Hc.
  - intros p r c Hp. by rewrite lookup_empty in Hp.
  - intros c cl p Hc. by rewrite lookup_empty in Hc.
Qed.

Lemma grouped_handle e h h' :
  wf h -> grouped h -> enabled e h -> handle e h = Ok h' -> grouped h'.
Proof.
  intros W G He H. destruct e; simpl in *.
  - injection H as <-. apply grouped_connect; [done|]. by apply not_elem_of_dom.
  - eapply grouped_handleMessage; eauto.
  - eapply grouped_Unregister; eauto.
  - eapply grouped_WritePump; eauto.
  - injection H as <-. by rewrite sweep_grouped.
Qed.

Lemma reachable_grouped h : reachable h -> grouped h.
Proof.
  induction 1 as [|h e h' R IH He H]; [apply grouped_NewHub|].
  eapply grouped_handle; eauto. by apply reachable_wf.
Qed.

(** Between two handlers, the clients that a client finds in its IP room
    are the connected clients that have joined and whose address gives the
    room id of its own address; the room is the one the table lists. *)
Theorem ip_room_is_the_connected_subnet (h : Hub) (c : string) (cl : Client) (p : ptr) :
  reachable h -> c ∈ clients h -> objs h !! c = Some cl -> ipRoom cl = Some p ->
  exists r, rooms h !! p = Some r /\ isPublic r = false /\
    rid r = ExtractIPRoomID (ip cl) "" /\ ipRooms h !! rid r = Some p /\
    forall d, d ∈ rclients r <->
      d ∈ clients h /\ exists cld, objs h !! d = Some cld /\ ipRoom cld ≠ None /\
        ExtractIPRoomID (ip cld) "" = ExtractIPRoomID (ip cl) "".
Proof.
  intros R Hc Hcl Hp. pose proof (reachable_wf _ R) as W.
  pose proof (reachable_grouped _ R) as G.
  destruct (g_member _ _ G c cl p Hc ltac:(apply not_elem_of_empty) Hcl Hp)
    as (r & Hr & Hin & Htab & Hext).
  destruct (wf_ipRooms _ W _ _ Htab) as (r0 & Hr0 & _ & Hkind).
  rewrite Hr in Hr0. injection Hr0 as <-.
  exists r. split; [done|]. split; [done|]. split; [done|]. split; [done|].
  intros d. split.
  - intros Hd. destruct (g_only _ _ G _ _ _ Hr Hkind Hd) as (Hdc & _ & cld & Hcld & Hpd).
    split; [done|]. exists cld. split; [done|]. split; [congruence|].
    destruct (g_member _ _ G d cld p Hdc ltac:(apply not_elem_of_empty) Hcld Hpd)
      as (r1 & Hr1 & _ & _ & Hext1).
    rewrite Hr in Hr1. injection Hr1 as <-. congruence.
  - intros (Hdc & cld & Hcld & Hjoined & Hsame).
    destruct (ipRoom cld) as [q|] eqn:Hq; [|done].
    destruct (g_member _ _ G d cld q Hdc ltac:(apply not_elem_of_empty) Hcld Hq)
      as (r1 & Hr1 & Hin1 & Htab1 & Hext1).
    assert (q = p) as -> by congruence.
    rewrite Hr in Hr1. injection Hr1 as <-. done.
Qed.

(** Between two handlers no table lists an empty room, so the periodic
    sweep removes nothing. *)
Theorem sweep_finds_no_empty_room (h : Hub) :
  reachable h ->
  (forall k p, ipRooms h !! k = Some p -> exists r, rooms h !! p = Some r /\ rclients r ≠ ∅) /\
  (forall k p, publicRooms h !! k = Some p ->
     exists r, rooms h !! p = Some r /\ rclients r ≠ ∅) /\
  cleanupEmptyRooms h = h.
Proof.
  intros R. pose proof (reachable_grouped _ R) as G.
  split; [apply G|]. split; [apply G|]. by apply sweep_grouped.
Qed.

(** ** Offers to queues *)

(** What offering [msg] does to the queue [q] of a client for which [P]
    holds, or does not hold: a full queue takes nothing. *)
Definition offered (msg : Message) (P : Prop) `{Decision P} (q : list Message)
  : list Message :=
  if decide (P /\ length q < sendCap) then q ++ [msg] else q.

Lemma offered_ext msg (P Q : Prop) `{Decision P} `{Decision Q} q :
  (P <-> Q) -> offered msg P q = offered msg Q q.
Proof. intros HPQ. unfold offered. apply decide_ext. tauto. Qed.

Lemma offered_not msg (P : Prop) `{Decision P} q : ¬ P -> offered msg P q = q.
Proof. intros HP. unfold offered. rewrite decide_False; [done|tauto]. Qed.

(** ** Joining the network *)

(** [neighbour h k d]: [d] is a connected client that has joined and whose
    address gives the room id [k]. *)
Definition neighbour (h : Hub) (k : string) (d : string) : Prop :=
  d ∈ clients h /\
  match objs h !! d with
  | Some cld => ipRoom cld ≠ None /\ ExtractIPRoomID (ip cld) "" = k
  | None => False
  end.

#[global] Instance neighbour_dec h k d : Decision (neighbour h k d).
Proof. unfold neighbour. destruct (objs h !! d); apply _. Defined.

Lemma table_room_neighbours h k p r :
  wf h -> grouped h -> ipRooms h !! k = Some p -> rooms h !! p = Some r ->
  forall d, d ∈ rclients r <-> neighbour h k d.
Proof.
  intros W G Hk Hr d.
  destruct (wf_ipRooms _ W _ _ Hk) as (r0 & Hr0 & Hrid & Hkind).
  rewrite Hr in Hr0. injection Hr0 as <-.
  split.
  - intros Hd. destruct (g_only _ _ G _ _ _ Hr Hkind Hd) as (Hdc & _ & cld & Hcld & Hpd).
    split; [done|]. rewrite Hcld. split; [congruence|].
    destruct (g_member _ _ G d cld p Hdc ltac:(apply not_elem_of_empty) Hcld Hpd)
      as (r1 & Hr1 & _ & _ & Hext1).
    rewrite Hr in Hr1. injection Hr1 as <-. congruence.
  - intros [Hdc Hn]. destruct (objs h !! d) as [cld|] eqn:Hcld; [|done].
    destruct Hn as [Hj Hsame]. destruct (ipRoom cld) as [q|] eqn:Hq; [|done].
    destruct (g_member _ _ G d cld q Hdc ltac:(apply not_elem_of_empty) Hcld Hq)
      as (r1 & Hr1 & Hin1 & Htab1 & Hext1).
    assert (q = p) as -> by congruence.
    rewrite Hr in Hr1. injection Hr1 as <-. done.
Qed.

Lemma no_table_room_no_neighbours h k d :
  grouped h -> ipRooms h !! k = None -> ¬ neighbour h k d.
Proof.
  intros G Hk [Hdc Hn]. destruct (objs h !! d) as [cld|] eqn:Hcld; [|done].
  destruct Hn as [Hj Hsame]. destruct (ipRoom cld) as [q|] eqn:Hq; [|done].
  destruct (g_member _ _ G d cld q Hdc ltac:(apply not_elem_of_empty) Hcld Hq)
    as (r1 & Hr1 & Hin1 & Htab1 & Hext1).
  congruence.
Qed.

Lemma queue_updClient c f h d :
  (forall cl, buf (send (f cl)) = buf (send cl)) -> queue d (updClient c f h) = queue d h.
Proof.
  intros Hf. unfold queue, updClient. simpl. rewrite lookup_alter. case_decide as E.
  - subst d. destruct (objs h !! c); simpl; [apply Hf|done].
  - done.
Qed.

Lemma sameq_lookup h h' c cl :
  sameq h h' -> objs h !! c = Some cl ->
  exists cl', objs h' !! c = Some cl' /\ strip cl' = strip cl.
Proof. intros S. apply sameobjs_lookup. by apply sameq_sameobjs. Qed.

(** The shared steps of joining a room whose other members are
    connected. *)
Lemma join_steps (pub : bool) (mk : list PeerInfo -> Message) c cl p r h :
  objs h !! c = Some cl -> id cl = c -> closed (send cl) = false ->
  rooms h !! p = Some r ->
  (forall d, d ∈ rclients r -> d ≠ c ->
     exists cld, objs h !! d = Some cld /\ id cld = d /\ closed (send cld) = false) ->
  let link := if pub then set_publicRoom (Some p) else set_ipRoom (Some p) in
  exists h2 peers h4 cl4 h5,
    AddClient p c h = Ok h2 /\
    GetPeerInfos p c (updClient c link h2) = Ok peers /\
    Send c (mk peers) (updClient c link h2) = Ok h4 /\
    getClient c h4 = Ok cl4 /\ id cl4 = c /\ Client_PeerInfo cl4 = Client_PeerInfo cl /\
    Broadcast p (NewPeerJoinedMessage (Client_PeerInfo cl)) c h4 = Ok h5 /\
    sameq (updClient c link (set_rooms <[p := set_rclients (fun s => {[c]} ∪ s) r]> h)) h5 /\
    NoDup (map ID peers) /\
    (forall pi, pi ∈ peers <->
       exists d cld, d ∈ rclients r /\ d ≠ c /\ objs h !! d = Some cld /\
                     pi = mkPeerInfo d (name cld) (platform cld)) /\
    (forall d, queue d h5 =
       if decide (d = c)
       then (if decide (length (queue c h) < sendCap)
             then queue c h ++ [mk peers] else queue c h)
       else (if decide (d ∈ rclients r /\ length (queue d h) < sendCap)
             then queue d h ++ [NewPeerJoinedMessage (Client_PeerInfo cl)]
             else queue d h)).
Proof.
  intros Hcl Hid Hopen Hr Hmem link.
  set (r' := set_rclients (fun s => {[c]} ∪ s) r).
  set (h2 := set_rooms <[p := r']> h).
  set (h3 := updClient c link h2).
  set (cl3 := link cl).
  assert (Hcl3 : id cl3 = c /\ closed (send cl3) = false /\
                 Client_PeerInfo cl3 = Client_PeerInfo cl /\ buf (send cl3) = buf (send cl)).
  { subst cl3 link. by destruct pub. }
  destruct Hcl3 as (Hid3 & Hopen3 & Hpi3 & Hbuf3).
  assert (H2 : AddClient p c h = Ok h2).
  { unfold AddClient, getRoom. by rewrite Hr. }
  assert (Hr3 : rooms h3 !! p = Some r') by (simpl; apply lookup_insert_eq).
  assert (Hc3 : objs h3 !! c = Some cl3).
  { simpl. by rewrite lookup_alter_eq, Hcl. }
  assert (Ho3 : forall d, d ≠ c -> objs h3 !! d = objs h !! d).
  { intros d Hd. simpl. by rewrite lookup_alter_ne. }
  assert (Hmem3 : forall d, d ∈ rclients r' -> d ≠ c ->
            d ∈ rclients r /\ exists cld, objs h !! d = Some cld /\ id cld = d /\
                                          closed (send cld) = false).
  { intros d Hd Hne. simpl in Hd. apply elem_of_union in Hd as [Hd|Hd];
      [apply elem_of_singleton in Hd; done|]. auto. }
  destruct (GetPeerInfos_members h3 p r' c Hr3) as (peers & Hp & Hnd & Hpeers).
  { intros d Hd. destruct (decide (d = c)) as [->|Hne]; [by exists cl3|].
    destruct (Hmem3 d Hd Hne) as (_ & cld & Hcld & Hidd & _).
    exists cld. by rewrite Ho3. }
  pose proof (Send_open c (mk peers) cl3 h3 Hc3 Hopen3) as H4.
  set (h4 := deliver c (mk peers) cl3 h3) in H4.
  destruct (deliver_spec c (mk peers) cl3 h3 Hc3) as (_ & _ & _ & Hr4 & Ho4 & Hc4).
  fold h4 in Hr4, Ho4, Hc4.
  set (cl4 := if (length (buf (send cl3)) <? sendCap)%nat
              then enqueue (mk peers) cl3 else cl3) in Hc4.
  assert (Hcl4 : id cl4 = c /\ Client_PeerInfo cl4 = Client_PeerInfo cl).
  { subst cl4. destruct (_ <? _)%nat; simpl; auto. }
  destruct Hcl4 as (Hid4 & Hpi4).
  destruct (Broadcast_queues h4 p r' (NewPeerJoinedMessage (Client_PeerInfo cl)) c)
    as (h5 & H5 & Hs5 & Hq5).
  { by rewrite Hr4. }
  { intros d Hd. destruct (decide (d = c)) as [->|Hne].
    - exists cl4. split; [done|]. split; [done|]. done.
    - destruct (Hmem3 d Hd Hne) as (_ & cld & Hcld & Hidd & Hopend).
      exists cld. rewrite Ho4, Ho3 by done. auto. }
  exists h2, peers, h4, cl4, h5.
  split; [done|]. split; [done|]. split; [done|].
  split; [unfold getClient; by rewrite Hc4|]. split; [done|]. split; [done|].
  split; [done|]. split.
  { eapply sameq_trans; [eapply Send_sameq; exact H4|done]. }
  split; [done|]. split.
  { intros pi. rewrite Hpeers. split.
    - intros (d & cld & Hd & Hne & Hcld & ->). rewrite Ho3 in Hcld by done.
      destruct (Hmem3 d Hd Hne) as (Hn & _). eauto 10.
    - intros (d & cld & Hd & Hne & Hcld & ->). exists d, cld.
      split; [simpl; by apply elem_of_union_r|]. split; [done|]. by rewrite Ho3. }
  intros d. rewrite Hq5. subst h4. rewrite !(queue_deliver _ _ _ _ _ Hc3).
  assert (Hq3 : forall d', queue d' h3 = queue d' h).
  { intros d'. subst h3. rewrite queue_updClient; [done|]. intros cl0. subst link.
    by destruct pub. }
  rewrite !Hq3.
  destruct (decide (d = c)) as [->|Hne].
  - rewrite (decide_False (P := c ∈ rclients r' /\ _)) by tauto.
    apply decide_ext. tauto.
  - rewrite (decide_False (P := d = c /\ _)) by tauto.
    apply decide_ext. simpl. rewrite elem_of_union, elem_of_singleton. tauto.
Qed.

Lemma JoinIPRoom_effect c cl h :
  wf h -> grouped h -> c ∈ clients h -> objs h !! c = Some cl ->
  exists h' peers p,
    JoinIPRoom c h = Ok h' /\
    NoDup (map ID peers) /\
    (forall pi, pi ∈ peers <->
       exists d cld, d ≠ c /\ neighbour h (ExtractIPRoomID (ip cl) "") d /\
                     objs h !! d = Some cld /\ pi = mkPeerInfo d (name cld) (platform cld)) /\
    (forall d, queue d h' =
       if decide (d = c)
       then (if decide (length (queue c h) < sendCap)
             then queue c h ++ [NewPeersMessage peers] else queue c h)
       else (if decide (neighbour h (ExtractIPRoomID (ip cl) "") d /\
                        length (queue d h) < sendCap)
             then queue d h ++ [NewPeerJoinedMessage (Client_PeerInfo cl)]
             else queue d h)) /\
    clients h' = clients h /\
    exists cl', objs h' !! c = Some cl' /\ strip cl' = strip (set_ipRoom (Some p) cl).
Proof.
  intros W G Hc Hcl. set (k := ExtractIPRoomID (ip cl) "").
  pose proof (wf_id _ W _ _ Hcl) as Hid.
  destruct (wf_open _ W _ Hc) as (cl0 & Hcl0 & Hopen).
  rewrite Hcl in Hcl0. injection Hcl0 as <-.
  assert (Hroom : exists p r hn,
            match ipRooms h !! k with
            | Some p => (p, h)
            | None => let '(p, h') := NewRoom k false h in (p, set_ipRooms <[k := p]> h')
            end = (p, hn) /\
            rooms hn !! p = Some r /\ objs hn = objs h /\ clients hn = clients h /\
            (forall d, d ∈ rclients r <-> neighbour h k d)).
  { destruct (ipRooms h !! k) as [p|] eqn:Ek.
    - destruct (wf_ipRooms _ W _ _ Ek) as (r & Hr & _).
      exists p, r, h. split; [done|]. split; [done|]. split; [done|]. split; [done|].
      exact (table_room_neighbours h k p r W G Ek Hr).
    - destruct (NewRoom k false h) as [p hn] eqn:En.
      destruct (wf_NewRoom _ _ _ _ _ W En) as (_ & Hp & Ho & _ & _ & Hcls).
      exists p, (mkRoom k false ∅), (set_ipRooms <[k := p]> hn).
      split; [done|]. split; [done|]. split; [done|]. split; [done|].
      intros d. simpl. split; [intros Hd; by apply not_elem_of_empty in Hd|].
      intros Hn. exfalso. eapply no_table_room_no_neighbours; eauto. }
  destruct Hroom as (p & r & hn & Ematch & Hr & Ho & Hcls & Hmem).
  assert (Hq0 : forall d, queue d hn = queue d h) by (intros d; unfold queue; by rewrite Ho).
  destruct (join_steps false NewPeersMessage c cl p r hn)
    as (h2 & peers & h4 & cl4 & h5 & H2 & H3 & H4 & Hg4 & Hid4 & Hpi4 & H5 & Hs5 &
        Hnd & Hpeers & Hq); [by rewrite Ho|done|done|done| |].
  { intros d Hd _. apply Hmem in Hd as [Hdc _].
    destruct (wf_open _ W _ Hdc) as (cld & Hcld & Hopend).
    exists cld. rewrite Ho. split; [done|]. split; [eapply wf_id; eauto|done]. }
  cbv zeta in *.
  exists h5, peers, p. split.
  { assert (Hg : getClient c h = Ok cl) by (unfold getClient; by rewrite Hcl).
    unfold JoinIPRoom. rewrite Hg.
    change (Ok cl ≫= ?f) with (f cl). cbv beta zeta. fold k. rewrite Ematch. cbv beta iota.
    rewrite Hid, H2. change (Ok h2 ≫= ?f) with (f h2). cbv beta.
    rewrite H3. change (Ok peers ≫= ?f) with (f peers). cbv beta.
    rewrite H4. change (Ok h4 ≫= ?f) with (f h4). cbv beta.
    rewrite Hg4. change (Ok cl4 ≫= ?f) with (f cl4). cbv beta.
    rewrite Hid4, Hpi4. exact H5. }
  split; [done|]. split.
  { intros pi. rewrite Hpeers. rewrite Ho.
    split; intros (d & cld & Ha & Hb & Hrest); exists d, cld.
    - apply Hmem in Ha. auto.
    - apply Hmem in Hb. auto. }
  split.
  { intros d. rewrite Hq, !Hq0. destruct (decide (d = c)); [done|].
    apply decide_ext. by rewrite Hmem. }
  split.
  { destruct Hs5 as (_ & _ & -> & _). simpl. exact Hcls. }
  assert (Hc3 : objs (updClient c (set_ipRoom (Some p))
                  (set_rooms <[p := set_rclients (fun s => {[c]} ∪ s) r]> hn)) !! c
                = Some (set_ipRoom (Some p) cl)).
  { simpl. by rewrite Ho, lookup_alter_eq, Hcl. }
  exact (sameq_lookup _ _ _ _ Hs5 Hc3).
Qed.

(** A client that sends [join] gets the list of the connected clients
    that joined from its network, with their ids, names and platforms, and
    each of them is told of the newcomer with the name and platform it
    gave; nobody else is told anything.  A message for a full queue is
    dropped. *)
Theorem join_introduces_the_network (h : Hub) (c : string) (cl : Client) (n pf : string) :
  reachable h -> c ∈ clients h -> objs h !! c = Some cl ->
  let k := ExtractIPRoomID (ip cl) "" in
  exists h' peers,
    handleJoin c (Some (JoinPayload n pf)) h = Ok h' /\
    NoDup (map ID peers) /\
    (forall pi, pi ∈ peers <->
       exists d cld, d ≠ c /\ neighbour h k d /\ objs h !! d = Some cld /\
                     pi = mkPeerInfo d (name cld) (platform cld)) /\
    queue c h' = offered (NewPeersMessage peers) True (queue c h) /\
    (forall d, d ≠ c ->
       queue d h' = offered (NewPeerJoinedMessage (mkPeerInfo c n pf)) (neighbour h k d)
                      (queue d h)) /\
    neighbour h' k c /\ clients h' = clients h.
Proof.
  intros R Hc Hcl k. pose proof (reachable_wf _ R) as W.
  pose proof (reachable_grouped _ R) as G.
  pose proof (wf_id _ W _ _ Hcl) as Hid.
  set (h1 := updClient c (set_identity n pf) h).
  assert (W1 : wf h1).
  { apply wf_updClient; try done; intros cl0 q Hcl0; simpl;
      [eapply wf_ipRoom|eapply wf_publicRoom]; eauto. }
  assert (G1 : grouped h1).
  { apply grouped_but_updClient; [done| |done].
    intros cl0 q Hcl0 Hq. simpl in Hq. eapply g_kind; eauto. }
  assert (Hc1 : objs h1 !! c = Some (set_identity n pf cl)).
  { simpl. by rewrite lookup_alter_eq, Hcl. }
  assert (Ho1 : forall d, d ≠ c -> objs h1 !! d = objs h !! d).
  { intros d Hd. simpl. by rewrite lookup_alter_ne. }
  assert (Hn1 : forall d, neighbour h1 k d <-> neighbour h k d).
  { intros d. unfold neighbour. simpl. rewrite lookup_alter. case_decide as E; [|done].
    subst d. rewrite Hcl. simpl. done. }
  assert (Hq1 : forall d, queue d h1 = queue d h).
  { intros d. subst h1. by rewrite queue_updClient. }
  destruct (JoinIPRoom_effect c (set_identity n pf cl) h1 W1 G1 Hc Hc1)
    as (h2 & peers & p & HJ & Hnd & Hpeers & Hq & Hcls2 & cl2 & Hcl2 & Hst2).
  change (ip (set_identity n pf cl)) with (ip cl) in Hpeers, Hq. fold k in Hpeers, Hq.
  pose proof (wf_JoinIPRoom _ _ _ W1 HJ) as W2.
  apply strip_fields in Hst2 as (Hid2 & _ & Hip2 & _ & Hname2 & Hplat2 & Haddr2 & _).
  simpl in Hid2, Hip2, Hname2, Hplat2, Haddr2.
  destruct (wf_ipRoom _ W2 _ _ _ Hcl2 Hip2) as [r2 Hr2].
  unfold handleJoin. fold h1. rewrite HJ. simpl.
  unfold getClient. rewrite Hcl2. simpl. rewrite Hip2.
  unfold Room_ID, getRoom. rewrite Hr2. simpl.
  eexists. exists peers. split; [done|]. split; [done|]. split.
  { intros pi. rewrite Hpeers. split.
    - intros (d & cld & Hne & Hn & Hcld & ->). rewrite Ho1 in Hcld by done.
      apply Hn1 in Hn. eauto 10.
    - intros (d & cld & Hne & Hn & Hcld & ->). exists d, cld.
      rewrite Hn1, Ho1 by done. auto. }
  assert (Hql : forall d l, queue d (logf l h2) = queue d h2) by done.
  split.
  { rewrite Hql, Hq, decide_True by done. rewrite !Hq1. unfold offered.
    apply decide_ext. tauto. }
  split.
  { intros d Hne. rewrite Hql, Hq, decide_False by done. rewrite !Hq1.
    unfold Client_PeerInfo. simpl. rewrite Hid.
    unfold offered. apply decide_ext. by rewrite Hn1. }
  split; [|simpl; by rewrite Hcls2].
  split; [simpl; by rewrite Hcls2|].
  simpl. rewrite Hcl2. split; [congruence|]. by rewrite Haddr2.
Qed.

(** ** Leaving rooms *)

(** The steps of leaving a room whose other members are connected: they
    succeed, and each other member is offered [peer-left]. *)
Lemma leave_steps (pub : bool) p r c h :
  rooms h !! p = Some r ->
  (forall d, d ∈ rclients r -> d ≠ c ->
     exists cld, objs h !! d = Some cld /\ id cld = d /\ closed (send cld) = false) ->
  exists ha hb e h1,
    RemoveClient p c h = Ok ha /\
    Broadcast p (NewPeerLeftMessage c) c ha = Ok hb /\
    IsEmpty p hb = Ok e /\
    (if e : bool
     then rid0 ← Room_ID p hb;
          Ok (if pub then set_publicRooms (delete rid0) hb else set_ipRooms (delete rid0) hb)
     else Ok hb) = Ok h1 /\
    sameq (left pub p c r h) h1 /\
    forall d, queue d h1 = offered (NewPeerLeftMessage c) (d ∈ rclients r /\ d ≠ c) (queue d h).
Proof.
  intros Hr Hmem.
  set (r' := set_rclients (fun s => s ∖ {[c]}) r).
  set (ha := set_rooms <[p := r']> h).
  assert (H1 : RemoveClient p c h = Ok ha).
  { unfold RemoveClient, getRoom. by rewrite Hr. }
  destruct (Broadcast_queues ha p r' (NewPeerLeftMessage c) c) as (hb & H2 & Hs & Hq).
  { simpl. apply lookup_insert_eq. }
  { intros d Hd. simpl in Hd. apply elem_of_difference in Hd as [Hd Hne].
    rewrite elem_of_singleton in Hne.
    destruct (Hmem d Hd Hne) as (cld & Hcld & Hid & Hopen). exists cld. auto. }
  assert (Hrb : rooms hb !! p = Some r').
  { destruct Hs as (_ & _ & _ & -> & _). simpl. apply lookup_insert_eq. }
  assert (H3 : IsEmpty p hb = Ok (bool_decide (size (rclients r') = 0))).
  { unfold IsEmpty, getRoom. by rewrite Hrb. }
  assert (H4 : exists h1,
            (if bool_decide (size (rclients r') = 0)
             then rid0 ← Room_ID p hb;
                  Ok (if pub then set_publicRooms (delete rid0) hb
                      else set_ipRooms (delete rid0) hb)
             else Ok hb) = Ok h1 /\ objs h1 = objs hb).
  { unfold Room_ID, getRoom. rewrite Hrb. destruct (bool_decide _); [|eauto].
    eexists. split; [reflexivity|]. by destruct pub. }
  destruct H4 as (h1 & H4 & Ho1).
  exists ha, hb, (bool_decide (size (rclients r') = 0)), h1.
  split; [done|]. split; [done|]. split; [done|]. split; [done|]. split.
  { destruct (leave_shape pub _ _ _ _ _ _ _ _ _ H1 H2 H3 H4) as (r0 & Hr0 & Hs0).
    rewrite Hr in Hr0. by injection Hr0 as <-. }
  intros d. transitivity (queue d hb); [unfold queue; by rewrite Ho1|].
  rewrite Hq. unfold offered. apply decide_ext. simpl.
  rewrite elem_of_difference, elem_of_singleton. unfold queue. simpl. tauto.
Qed.

Lemma left_fields (pub : bool) p c r h :
  objs (left pub p c r h) = objs h /\ clients (left pub p c r h) = clients h /\
  rooms (left pub p c r h) = <[p := set_rclients (fun s => s ∖ {[c]}) r]> (rooms h).
Proof. unfold left. destruct (bool_decide _); [by destruct pub|done]. Qed.

(** ** Closing a connection *)

(** When a connection closes and its coded room, if it has one, lists only
    connected clients besides it, the hub takes the client out of the
    connected clients and out of its two rooms and closes its channel; every
    other member of its IP room is offered one [peer-left], then every other
    member of its coded room is; nobody else gets anything. *)
Theorem close_tells_the_rooms (h : Hub) (c : string) (cl : Client) :
  reachable h -> c ∈ clients h -> objs h !! c = Some cl ->
  (forall d, d ∈ members h (publicRoom cl) -> d ≠ c -> d ∈ clients h) ->
  exists h',
    Unregister c h = Ok h' /\
    clients h' = clients h ∖ {[c]} /\
    (exists cl', objs h' !! c = Some cl' /\ closed (send cl') = true /\
                 buf (send cl') = buf (send cl)) /\
    (forall d, d ≠ c ->
       queue d h' = offered (NewPeerLeftMessage c) (d ∈ members h (publicRoom cl))
                      (offered (NewPeerLeftMessage c) (d ∈ members h (ipRoom cl))
                         (queue d h))) /\
    (c ∉ members h' (ipRoom cl)) /\ (c ∉ members h' (publicRoom cl)).
Proof.
  intros R Hc Hcl Hpub. pose proof (reachable_wf _ R) as W.
  pose proof (reachable_grouped _ R) as G.
  pose proof (wf_id _ W _ _ Hcl) as Hid.
  destruct (wf_open _ W _ Hc) as (cl0 & Hcl0 & Hopen).
  rewrite Hcl in Hcl0. injection Hcl0 as <-.
  assert (Hconn : forall d, d ∈ clients h ->
            exists cld, objs h !! d = Some cld /\ id cld = d /\ closed (send cld) = false).
  { intros d Hd. destruct (wf_open _ W _ Hd) as (cld & Hcld & Ho).
    exists cld. split; [done|]. split; [eapply wf_id; eauto|done]. }
  (* the IP room *)
  assert (S1 : exists h1,
            match ipRoom cl with
            | None => Ok h
            | Some p =>
                h' ← RemoveClient p c h;
                h' ← Broadcast p (NewPeerLeftMessage c) c h';
                e ← IsEmpty p h';
                if e : bool
                then rid0 ← Room_ID p h'; Ok (set_ipRooms (delete rid0) h')
                else Ok h'
            end = Ok h1 /\
            sameobjs h h1 /\ clients h1 = clients h /\
            (forall q rq, rooms h !! q = Some rq -> isPublic rq = true ->
                          rooms h1 !! q = Some rq) /\
            (c ∉ members h1 (ipRoom cl)) /\
            forall d, queue d h1 =
              offered (NewPeerLeftMessage c) (d ∈ members h (ipRoom cl) /\ d ≠ c) (queue d h)).
  { destruct (ipRoom cl) as [p|] eqn:Hp.
    - destruct (g_member _ _ G c cl p Hc ltac:(apply not_elem_of_empty) Hcl Hp)
        as (r & Hr & Hin & Htab & _).
      destruct (wf_ipRooms _ W _ _ Htab) as (r0 & Hr0 & _ & Hkind).
      rewrite Hr in Hr0. injection Hr0 as <-.
      destruct (leave_steps false p r c h Hr)
        as (ha & hb & e & h1 & Ha & Hb & He & E & Hs & Hq).
      { intros d Hd _. apply Hconn. by destruct (g_only _ _ G _ _ _ Hr Hkind Hd). }
      destruct (left_fields false p c r h) as (Hlo & Hlc & Hlr).
      destruct Hs as (_ & _ & Hsc & Hsr & _ & Hso).
      exists h1. split.
      { rewrite Ha. change (Ok ha ≫= ?f) with (f ha). cbv beta.
        rewrite Hb. change (Ok hb ≫= ?f) with (f hb). cbv beta.
        rewrite He. exact E. }
      split.
      { intros d. rewrite Hso, Hlo. done. }
      split; [by rewrite Hsc|]. split.
      { intros q rq Hq' Hk. rewrite Hsr, Hlr, lookup_insert_ne; [done|].
        intros <-. congruence. }
      split.
      { simpl. rewrite Hsr, Hlr, lookup_insert_eq. simpl.
        rewrite elem_of_difference, elem_of_singleton. tauto. }
      intros d. rewrite Hq. simpl. by rewrite Hr.
    - exists h. split; [done|]. split; [apply sameobjs_refl|]. split; [done|].
      split; [auto|]. split; [apply not_elem_of_empty|].
      intros d. symmetry. apply offered_not. intros [Hd _]. by apply not_elem_of_empty in Hd. }
  destruct S1 as (h1 & E1 & So1 & Hc1 & Hr1 & Hout1 & Hq1).
  (* the coded room *)
  assert (S2 : exists h2,
            match publicRoom cl with
            | None => Ok h1
            | Some p =>
                h' ← RemoveClient p c h1;
                h' ← Broadcast p (NewPeerLeftMessage c) c h';
                e ← IsEmpty p h';
                if e : bool
                then rid0 ← Room_ID p h'; Ok (set_publicRooms (delete rid0) h')
                else Ok h'
            end = Ok h2 /\
            sameobjs h1 h2 /\ clients h2 = clients h1 /\
            (c ∉ members h2 (ipRoom cl)) /\ (c ∉ members h2 (publicRoom cl)) /\
            forall d, queue d h2 =
              offered (NewPeerLeftMessage c) (d ∈ members h (publicRoom cl) /\ d ≠ c)
                (queue d h1)).
  { destruct (publicRoom cl) as [q|] eqn:Hq.
    - destruct (g_kind _ _ G _ _ _ Hcl Hq) as (rq & Hrq & Hkq).
      pose proof (Hr1 _ _ Hrq Hkq) as Hrq1.
      destruct (leave_steps true q rq c h1 Hrq1)
        as (ha & hb & e & h2 & Ha & Hb & He & E & Hs & Hq2).
      { intros d Hd Hne.
        destruct (Hconn d) as (cld & Hcld & Hidd & Hopend).
        { apply Hpub; [|done]. simpl. by rewrite Hrq. }
        destruct (sameobjs_lookup _ _ _ _ So1 Hcld) as (cld1 & Hcld1 & Hst).
        apply strip_fields in Hst as (Hi & Ho & _).
        exists cld1. split; [done|]. split; congruence. }
      destruct (left_fields true q c rq h1) as (Hlo & Hlc & Hlr).
      destruct Hs as (_ & _ & Hsc & Hsr & _ & Hso).
      exists h2. split.
      { rewrite Ha. change (Ok ha ≫= ?f) with (f ha). cbv beta.
        rewrite Hb. change (Ok hb ≫= ?f) with (f hb). cbv beta.
        rewrite He. exact E. }
      split.
      { intros d. rewrite Hso, Hlo. done. }
      split; [by rewrite Hsc|]. split.
      { destruct (ipRoom cl) as [p|]; [|apply not_elem_of_empty].
        simpl in *. rewrite Hsr, Hlr. destruct (decide (p = q)) as [->|Hpq].
        - rewrite lookup_insert_eq. simpl.
          rewrite elem_of_difference, elem_of_singleton. tauto.
        - by rewrite lookup_insert_ne. }
      split.
      { simpl. rewrite Hsr, Hlr, lookup_insert_eq. simpl.
        rewrite elem_of_difference, elem_of_singleton. tauto. }
      intros d. rewrite Hq2. simpl. by rewrite Hrq.
    - exists h1. split; [done|]. split; [apply sameobjs_refl|]. split; [done|].
      split; [done|]. split; [apply not_elem_of_empty|].
      intros d. symmetry. apply offered_not. intros [Hd _]. by apply not_elem_of_empty in Hd. }
  destruct S2 as (h2 & E2 & So2 & Hc2 & Hout2 & Hout2' & Hq2).
  (* the channel *)
  destruct (sameobjs_lookup _ _ _ _ So1 Hcl) as (cl1 & Hcl1 & Hst1).
  destruct (sameobjs_lookup _ _ _ _ So2 Hcl1) as (cl2 & Hcl2 & Hst2).
  assert (Hclosed2 : closed (send cl2) = false).
  { apply strip_fields in Hst1 as (_ & Ha & _). apply strip_fields in Hst2 as (_ & Hb & _).
    congruence. }
  assert (Hbuf2 : buf (send cl2) = buf (send cl)).
  { pose proof (Hq2 c) as Ha. pose proof (Hq1 c) as Hb.
    rewrite offered_not in Ha, Hb by tauto. unfold queue in Ha, Hb.
    rewrite Hcl2, Hcl1 in Ha. rewrite Hcl1, Hcl in Hb. congruence. }
  assert (Hg : getClient c h = Ok cl) by (unfold getClient; by rewrite Hcl).
  unfold Unregister. rewrite Hg.
  change (Ok cl ≫= ?f) with (f cl). cbv beta. rewrite Hid, E1.
  change (Ok h1 ≫= ?f) with (f h1). cbv beta. rewrite E2.
  change (Ok h2 ≫= ?f) with (f h2). cbv beta.
  unfold closeSend, getClient. simpl objs. rewrite Hcl2.
  change (Ok cl2 ≫= ?f) with (f cl2). cbv beta. rewrite Hclosed2.
  change (Ok ?x ≫= ?f) with (f x). cbv beta.
  eexists. split; [reflexivity|].
  split; [simpl; by rewrite Hc2, Hc1|].
  split.
  { simpl. rewrite lookup_alter_eq, Hcl2. simpl. eexists. split; [reflexivity|]. done. }
  split.
  { intros d Hne. unfold queue at 1. simpl. rewrite lookup_alter_ne by done.
    fold (queue d h2). rewrite Hq2, Hq1.
    rewrite (offered_ext _ (d ∈ members h (publicRoom cl) /\ d ≠ c)
               (d ∈ members h (publicRoom cl))) by tauto.
    f_equal. apply offered_ext. tauto. }
  split; [exact Hout2|exact Hout2'].
Qed.

(** ** Joining a coded room *)

Lemma LeavePublicRoom_effect c cl q rq h :
  objs h !! c = Some cl -> id cl = c -> publicRoom cl = Some q -> rooms h !! q = Some rq ->
  (forall d, d ∈ rclients rq -> d ≠ c ->
     exists cld, objs h !! d = Some cld /\ id cld = d /\ closed (send cld) = false) ->
  exists h3,
    LeavePublicRoom c h = Ok (updClient c (set_publicRoom None) h3) /\
    sameq (left true q c rq h) h3 /\
    forall d, queue d h3 =
      offered (NewPeerLeftMessage c) (d ∈ rclients rq /\ d ≠ c) (queue d h).
Proof.
  intros Hcl Hid Hq Hrq Hmem.
  destruct (leave_steps true q rq c h Hrq Hmem)
    as (ha & hb & e & h3 & Ha & Hb & He & E & Hs & Hq3).
  exists h3. split; [|done].
  assert (Hg : getClient c h = Ok cl) by (unfold getClient; by rewrite Hcl).
  assert (E' : (if e : bool
                then rid0 ← Room_ID q hb; Ok (set_publicRooms (delete rid0) hb)
                else Ok hb) = Ok h3) by exact E.
  unfold LeavePublicRoom. rewrite Hg.
  change (Ok cl ≫= ?f) with (f cl). cbv beta. rewrite Hq, Hid, Ha.
  change (Ok ha ≫= ?f) with (f ha). cbv beta. rewrite Hb.
  change (Ok hb ≫= ?f) with (f hb). cbv beta. rewrite He.
  change (Ok e ≫= ?f) with (f e). cbv beta. rewrite E'. reflexivity.
Qed.

(** A client that sends [join-room] with the code of a room of the table,
    when that room and the coded room it is in list only connected clients
    besides it, leaves the room it is in, whose other members are offered
    [peer-left], and becomes a member of the room of the code: it is
    offered [room-joined] with the code and the list of the other members,
    and each of them is offered [peer-joined]; nobody else gets
    anything. *)
Theorem room_code_introduces_the_members (h : Hub) (c : string) (cl : Client)
  (code : string) (p : ptr) (r : Room) :
  reachable h -> c ∈ clients h -> objs h !! c = Some cl ->
  publicRooms h !! code = Some p -> rooms h !! p = Some r ->
  (forall d, d ∈ rclients r -> d ≠ c -> d ∈ clients h) ->
  (forall d, d ∈ members h (publicRoom cl) -> d ≠ c -> d ∈ clients h) ->
  exists h' peers,
    handleJoinRoom c (Some (RoomCodePayload code)) h = Ok h' /\
    NoDup (map ID peers) /\
    (forall pi, pi ∈ peers <->
       exists d cld, d ∈ rclients r /\ d ≠ c /\ objs h !! d = Some cld /\
                     pi = mkPeerInfo d (name cld) (platform cld)) /\
    queue c h' = offered (NewRoomJoinedMessage code peers) True (queue c h) /\
    (forall d, d ≠ c ->
       queue d h' =
       offered (NewPeerJoinedMessage (Client_PeerInfo cl)) (d ∈ rclients r)
         (offered (NewPeerLeftMessage c) (d ∈ members h (publicRoom cl)) (queue d h))) /\
    (exists cl', objs h' !! c = Some cl' /\ publicRoom cl' = Some p /\
                 ipRoom cl' = ipRoom cl) /\
    members h' (Some p) = {[c]} ∪ rclients r /\
    (forall q, publicRoom cl = Some q -> q ≠ p -> c ∉ members h' (Some q)) /\
    clients h' = clients h.
Proof.
  intros R Hc Hcl Hcode Hr Hroom Hold. pose proof (reachable_wf _ R) as W.
  pose proof (reachable_grouped _ R) as G.
  pose proof (wf_id _ W _ _ Hcl) as Hid.
  destruct (wf_open _ W _ Hc) as (cl0 & Hcl0 & Hopen).
  rewrite Hcl in Hcl0. injection Hcl0 as <-.
  assert (Hconn : forall d, d ∈ clients h ->
            exists cld, objs h !! d = Some cld /\ id cld = d /\ closed (send cld) = false).
  { intros d Hd. destruct (wf_open _ W _ Hd) as (cld & Hcld & Ho).
    exists cld. split; [done|]. split; [eapply wf_id; eauto|done]. }
  (* leaving the room the client is in *)
  assert (SA : exists h1 cl1 r1,
            (if publicRoom cl is Some _ then LeavePublicRoom c h else Ok h) = Ok h1 /\
            clients h1 = clients h /\
            objs h1 !! c = Some cl1 /\ strip (set_publicRoom None cl1) = strip (set_publicRoom None cl) /\
            buf (send cl1) = buf (send cl) /\
            (forall d, d ≠ c -> strip <$> (objs h1 !! d) = strip <$> (objs h !! d)) /\
            rooms h1 !! p = Some r1 /\ {[c]} ∪ rclients r1 = {[c]} ∪ rclients r /\
            (forall q, publicRoom cl = Some q -> q ≠ p -> c ∉ members h1 (Some q)) /\
            (forall d, d ≠ c ->
               queue d h1 = offered (NewPeerLeftMessage c) (d ∈ members h (publicRoom cl))
                              (queue d h))).
  { destruct (publicRoom cl) as [q|] eqn:Hq.
    - destruct (g_kind _ _ G _ _ _ Hcl Hq) as (rq & Hrq & Hkq).
      destruct (LeavePublicRoom_effect c cl q rq h Hcl Hid Hq Hrq) as (h3 & E & Hs & Hq3).
      { intros d Hd Hne. apply Hconn, Hold; [|done]. simpl. by rewrite Hrq. }
      destruct (left_fields true q c rq h) as (Hlo & Hlc & Hlr).
      destruct (sameq_lookup _ _ _ _ Hs (eq_trans (f_equal (fun m => m !! c) Hlo) Hcl))
        as (cl3 & Hcl3 & Hst3).
      destruct Hs as (_ & _ & Hsc & Hsr & _ & Hso).
      exists (updClient c (set_publicRoom None) h3), (set_publicRoom None cl3),
        (if decide (p = q) then set_rclients (fun s => s ∖ {[c]}) rq else r).
      split; [exact E|]. split; [simpl; by rewrite Hsc|].
      split; [simpl; by rewrite lookup_alter_eq, Hcl3|].
      split.
      { apply strip_fields in Hst3 as (? & ? & ? & ? & ? & ? & ? & ?).
        destruct cl3 as [? ? [] ? ? ? ? ?], cl as [? ? [] ? ? ? ? ?]. simpl in *.
        unfold strip, set_send, set_publicRoom. simpl. congruence. }
      split.
      { pose proof (Hq3 c) as Hb. rewrite offered_not in Hb by tauto.
        unfold queue in Hb. rewrite Hcl3, Hcl in Hb. done. }
      split.
      { intros d Hne. simpl. rewrite lookup_alter_ne by done. rewrite Hso, Hlo. done. }
      split.
      { simpl. rewrite Hsr, Hlr. destruct (decide (p = q)) as [->|Hpq].
        - by rewrite lookup_insert_eq.
        - by rewrite lookup_insert_ne. }
      split.
      { destruct (decide (p = q)) as [->|Hpq]; [|done].
        rewrite Hr in Hrq. injection Hrq as <-. simpl.
        apply set_eq. intros x. rewrite !elem_of_union, elem_of_difference, elem_of_singleton.
        destruct (decide (x = c)); tauto. }
      split.
      { intros q' [= <-] Hne. simpl. rewrite Hsr, Hlr, lookup_insert_eq. simpl.
        rewrite elem_of_difference, elem_of_singleton. tauto. }
      intros d Hne. unfold queue at 1. simpl. rewrite lookup_alter_ne by done.
      fold (queue d h3). rewrite Hq3. apply offered_ext. simpl. rewrite Hrq. tauto.
    - exists h, cl, r. split; [done|]. split; [done|]. split; [done|]. split; [done|].
      split; [done|]. split; [done|]. split; [done|]. split; [done|].
      split; [intros q [=]|].
      intros d _. symmetry. apply offered_not. apply not_elem_of_empty. }
  destruct SA as (h1 & cl1 & r1 & E1 & Hc1 & Hcl1 & Hst1 & Hbuf1 & Ho1 & Hr1 & Hmem1 &
                  Hout1 & Hq1).
  apply strip_fields in Hst1 as (Hid1 & Hopen1 & Hip1 & _ & Hname1 & Hplat1 & _).
  simpl in Hid1, Hopen1, Hip1, Hname1, Hplat1.
  assert (Hin1 : forall d, d ≠ c -> (d ∈ rclients r1 <-> d ∈ rclients r)).
  { intros d Hne. pose proof (proj1 (set_eq _ _) Hmem1 d) as Hx.
    rewrite !elem_of_union, elem_of_singleton in Hx. tauto. }
  assert (Hobj1 : forall d cld, d ≠ c -> objs h !! d = Some cld ->
            exists cld1, objs h1 !! d = Some cld1 /\ strip cld1 = strip cld).
  { intros d cld Hne Hcld. specialize (Ho1 d Hne). rewrite Hcld in Ho1.
    destruct (objs h1 !! d) as [cld1|]; [|done]. exists cld1. split; [done|].
    simpl in Ho1. congruence. }
  (* joining the room of the code *)
  destruct (join_steps true (NewRoomJoinedMessage code) c cl1 p r1 h1)
    as (h2 & peers & h4 & cl4 & h5 & H2 & H3 & H4 & Hg4 & Hid4 & Hpi4 & H5 & Hs5 &
        Hnd & Hpeers & Hq); [done|congruence|congruence|done| |].
  { intros d Hd Hne. apply Hin1 in Hd; [|done].
    destruct (Hconn d (Hroom d Hd Hne)) as (cld & Hcld & Hidd & Hopend).
    destruct (Hobj1 d cld Hne Hcld) as (cld1 & Hcld1 & Hst).
    apply strip_fields in Hst as (Hi & Ho & _).
    exists cld1. split; [done|]. split; congruence. }
  cbv zeta in *.
  assert (Hpi1 : Client_PeerInfo cl1 = Client_PeerInfo cl).
  { unfold Client_PeerInfo. congruence. }
  assert (Hg : getClient c h = Ok cl) by (unfold getClient; by rewrite Hcl).
  assert (EJ : JoinPublicRoom c code h = Ok (None, h5)).
  { unfold JoinPublicRoom. rewrite Hcode, Hg.
    change (Ok cl ≫= ?f) with (f cl). cbv beta. rewrite E1.
    change (Ok h1 ≫= ?f) with (f h1). cbv beta zeta. rewrite Hid, H2.
    change (Ok h2 ≫= ?f) with (f h2). cbv beta. rewrite H3.
    change (Ok peers ≫= ?f) with (f peers). cbv beta. rewrite H4.
    change (Ok h4 ≫= ?f) with (f h4). cbv beta. rewrite Hg4.
    change (Ok cl4 ≫= ?f) with (f cl4). cbv beta. rewrite Hid4, Hpi4, H5. reflexivity. }
  unfold handleJoinRoom. rewrite EJ.
  change (Ok (None, h5) ≫= ?f) with (f (None, h5)). cbv beta iota.
  eexists. exists peers. split; [reflexivity|]. split; [done|].
  assert (Hql : forall d l, queue d (logf l h5) = queue d h5) by done.
  assert (Hqc : queue c h1 = queue c h) by (unfold queue; by rewrite Hcl1, Hcl).
  split.
  { intros pi. rewrite Hpeers. split.
    - intros (d & cld1 & Hd & Hne & Hcld1 & ->). apply Hin1 in Hd; [|done].
      pose proof (Ho1 d Hne) as Hx. rewrite Hcld1 in Hx.
      destruct (objs h !! d) as [cld|] eqn:Hcld; [|done].
      simpl in Hx. assert (Hst : strip cld1 = strip cld) by congruence.
      apply strip_fields in Hst as (_ & _ & _ & _ & -> & -> & _).
      exists d, cld. auto.
    - intros (d & cld & Hd & Hne & Hcld & ->).
      destruct (Hobj1 d cld Hne Hcld) as (cld1 & Hcld1 & Hst).
      apply strip_fields in Hst as (_ & _ & _ & _ & <- & <- & _).
      exists d, cld1. rewrite Hin1 by done. auto. }
  split.
  { rewrite Hql, Hq, decide_True by done. rewrite Hqc. unfold offered.
    apply decide_ext. tauto. }
  split.
  { intros d Hne. rewrite Hql, Hq, decide_False by done. rewrite Hpi1, Hq1 by done.
    unfold offered at 1. apply decide_ext. rewrite Hin1 by done. tauto. }
  assert (Hc3 : objs (updClient c (set_publicRoom (Some p))
                  (set_rooms <[p := set_rclients (fun s => {[c]} ∪ s) r1]> h1)) !! c
                = Some (set_publicRoom (Some p) cl1)).
  { simpl. by rewrite lookup_alter_eq, Hcl1. }
  destruct (sameq_lookup _ _ _ _ Hs5 Hc3) as (cl5 & Hcl5 & Hst5).
  apply strip_fields in Hst5 as (_ & _ & Hip5 & Hpub5 & _).
  destruct Hs5 as (_ & _ & Hsc5 & Hsr5 & _).
  split.
  { exists cl5. simpl. split; [done|]. split; [done|]. simpl in Hip5. congruence. }
  split.
  { simpl. rewrite Hsr5. simpl. rewrite lookup_insert_eq. simpl. exact Hmem1. }
  split.
  { intros q Hq' Hne. specialize (Hout1 q Hq' Hne). simpl in *.
    rewrite Hsr5. simpl. by rewrite lookup_insert_ne. }
  simpl. rewrite Hsc5. simpl. exact Hc1.
Qed.

End Hub.

End Signaling.

(** ** An instance of the library functions

    Enough of [strings.Split], [strings.TrimSpace], [net.SplitHostPort] and
    [net.ParseIP] to run the hub on dotted-decimal IPv4 addresses with a
    port; the general development never looks inside them. *)
Module NetIPv4.

Fixpoint split_on (sep : ascii) (s : string) : list string :=
  match s with
  | EmptyString => [""]
  | String a s' =>
      if decide (a = sep) then "" :: split_on sep s'
      else match split_on sep s' with
           | [] => [String a ""]
           | w :: ws => String a w :: ws
           end
  end.

Definition strings_Split (s sep : string) : list string :=
  match sep with
  | String a EmptyString => split_on a s
  | _ => [s]
  end.

Fixpoint trim_left (s : string) : string :=
  match s with
  | String " " s' => trim_left s'
  | _ => s
  end.

Definition strings_TrimSpace (s : string) : string :=
  String.rev (trim_left (String.rev (trim_left s))).

Definition digit (a : ascii) : option N :=
  let n := N_of_ascii a in
  if decide (48 ≤ n ≤ 57)%N then Some (n - 48)%N else None.

Fixpoint decimal (acc : N) (s : string) : option N :=
  match s with
  | EmptyString => Some acc
  | String a s' => d ← digit a; decimal (10 * acc + d)%N s'
  end.

Definition octet (s : string) : option byte :=
  if decide (s = "") then None else n ← decimal 0 s; Byte.of_N n.

Definition net_ParseIP (s : string) : option (list byte) :=
  match split_on "." s with
  | [a; b; c; d] =>
      a' ← octet a; b' ← octet b; c' ← octet c; d' ← octet d;
      Some (replicate 10 "000"%byte ++ ["255"%byte; "255"%byte; a'; b'; c'; d'])
  | _ => None
  end.

Definition net_SplitHostPort (s : string) : option (string * string) :=
  match split_on ":" s with
  | [host; port] => Some (host, port)
  | _ => None
  end.

Definition ExtractIPRoomID :=
  Signaling.ExtractIPRoomID strings_Split strings_TrimSpace net_SplitHostPort net_ParseIP.
Definition handleMessage :=
  Signaling.handleMessage strings_Split strings_TrimSpace net_SplitHostPort net_ParseIP.
Definition handle :=
  Signaling.handle strings_Split strings_TrimSpace net_SplitHostPort net_ParseIP.
Definition run :=
  Signaling.run strings_Split strings_TrimSpace net_SplitHostPort net_ParseIP.
Definition reachable :=
  Signaling.reachable strings_Split strings_TrimSpace net_SplitHostPort net_ParseIP.
Definition scope_preserving :=
  Signaling.scope_preserving strings_Split strings_TrimSpace net_SplitHostPort net_ParseIP.
Definition handleJoin :=
  Signaling.handleJoin strings_Split strings_TrimSpace net_SplitHostPort net_ParseIP.
Definition neighbour :=
  Signaling.neighbour strings_Split strings_TrimSpace net_SplitHostPort net_ParseIP.

End NetIPv4.

(** ** The hub on concrete runs *)
Module HubRuns.

Import Signaling.

Definition unwrap (r : result Hub) : Hub :=
  match r with
  | Ok h => h
  | _ => NewHub
  end.

Definition alice : string := generateClientID ["001"%byte].
Definition bob : string := generateClientID ["002"%byte].

Definition join (n : string) : Message :=
  mkMessage TypeJoin "" "" (Some (JoinPayload n "linux")).
Definition ping : Message := mkMessage TypePing "" "" None.
Definition createRoom : Message := mkMessage TypeCreateRoom "" "" None.
Definition joinRoom (code : string) : Message :=
  mkMessage TypeJoinRoom "" "" (Some (RoomCodePayload code)).
Definition offer (target : string) : Message :=
  mkMessage TypeOffer "" target (Some (OpaquePayload "v=0")).

(** Alice and Bob connect from the same /24 and join. *)
Definition lobby_events : list Event :=
  [EvConnect ["001"%byte] "192.168.1.17:5544";
   EvConnect ["002"%byte] "192.168.1.20:80";
   EvMessage alice (join "alice") [];
   EvMessage bob (join "bob") []].

Definition lobby : Hub := unwrap (NetIPv4.run lobby_events NewHub).

(** Bob's connection does not drain: his own pings fill his queue. *)
Definition congested_events : list Event :=
  lobby_events ++ replicate 256 (EvMessage bob ping []).

Definition congested : Hub := unwrap (NetIPv4.run congested_events NewHub).

(** Alice creates a coded room twice. *)
Definition two_rooms_events : list Event :=
  [EvConnect ["001"%byte] "192.168.1.17:5544";
   EvMessage alice createRoom [["001"%byte]];
   EvMessage alice createRoom [["002"%byte]]].

Definition two_rooms : Hub := unwrap (NetIPv4.run two_rooms_events NewHub).

(** Alice creates a coded room and joins it by its code. *)
Definition rejoin_events : list Event :=
  [EvConnect ["001"%byte] "192.168.1.17:5544";
   EvMessage alice createRoom [["001"%byte]];
   EvMessage alice (joinRoom "BAAAA") []].

Definition rejoin : Hub := unwrap (NetIPv4.run rejoin_events NewHub).

Lemma run_unwrap es :
  (if NetIPv4.run es NewHub is Ok _ then true else false) = true ->
  NetIPv4.reachable (unwrap (NetIPv4.run es NewHub)).
Proof.
  intros H. destruct (NetIPv4.run es NewHub) as [h| |] eqn:E; try discriminate H.
  simpl. eapply run_reachable; [apply reachable_init|exact E].
Defined.

Lemma lobby_reachable : NetIPv4.reachable lobby.
Proof. apply run_unwrap. vm_compute. reflexivity. Defined.

Lemma congested_reachable : NetIPv4.reachable congested.
Proof. apply run_unwrap. vm_compute. reflexivity. Defined.

Lemma two_rooms_reachable : NetIPv4.reachable two_rooms.
Proof. apply run_unwrap. vm_compute. reflexivity. Defined.

Lemma rejoin_reachable : NetIPv4.reachable rejoin.
Proof. apply run_unwrap. vm_compute. reflexivity. Defined.

Lemma new_room_code_is_not_in_the_table_witness :
  NetIPv4.reachable lobby /\ alice ∈ clients lobby /\
  Exists (fun e => publicRooms lobby !! GenerateRoomCode e = None) [["007"%byte]] /\
  exists code h' cl,
    CreatePublicRoom alice [["007"%byte]] lobby = Ok (code, h') /\
    (exists taken e rest,
       [["007"%byte]] = taken ++ e :: rest /\ code = GenerateRoomCode e /\
       Forall (fun e' => is_Some (publicRooms lobby !! GenerateRoomCode e')) taken) /\
    publicRooms lobby !! code = None /\
    (forall k p r, publicRooms lobby !! k = Some p -> rooms lobby !! p = Some r ->
                   rid r ≠ code) /\
    rooms lobby !! nextRoom lobby = None /\
    publicRooms h' = <[code := nextRoom lobby]> (publicRooms lobby) /\
    rooms h' = <[nextRoom lobby := mkRoom code true {[alice]}]> (rooms lobby) /\
    objs lobby !! alice = Some cl /\
    objs h' = <[alice := set_publicRoom (Some (nextRoom lobby)) cl]> (objs lobby) /\
    ipRooms h' = ipRooms lobby /\ clients h' = clients lobby.
Proof.
  assert (H1 : alice ∈ clients lobby) by (apply (bool_decide_unpack _); vm_compute; exact I).
  assert (H2 : Exists (fun e => publicRooms lobby !! GenerateRoomCode e = None)
                 [["007"%byte]]) by (constructor; vm_compute; reflexivity).
  split; [exact lobby_reachable|]. split; [exact H1|]. split; [exact H2|].
  exact (new_room_code_is_not_in_the_table _ _ _ _ lobby alice [["007"%byte]]
           lobby_reachable H1 H2).
Defined.

Ltac by_compute := apply (bool_decide_unpack _); vm_compute; exact I.

(** What the claims promise at one input: the envelope arrives on the
    target's queue; the [room-error] arrives on the requester's queue. *)
Definition relay_delivers (h : Hub) (a : string) (msg : Message) : Prop :=
  exists h', NetIPv4.handleMessage a msg [] h = Ok h' /\
    queue (TargetID msg) h' =
    queue (TargetID msg) h ++ [mkMessage (Type_ msg) a (TargetID msg) (Payload_ msg)].

Definition error_delivered (h : Hub) (c : string) (msg : Message) : Prop :=
  exists h', NetIPv4.handleMessage c msg [] h = Ok h' /\
    queue c h' = queue c h ++ [NewRoomErrorMessage "room not found"].

(** C1, as stated, fails: Bob is connected and a member of Alice's IP room,
    his queue holds 256 messages, and Alice's offer to him is dropped. *)
Lemma relay_to_full_queue_is_dropped :
  NetIPv4.reachable congested /\ alice ∈ clients congested /\ bob ∈ clients congested /\
  (exists A, objs congested !! alice = Some A /\ bob ∈ members congested (ipRoom A)) /\
  relayable (Type_ (offer bob)) /\ TargetID (offer bob) ≠ "" /\
  ¬ relay_delivers congested alice (offer bob).
Proof.
  split; [exact congested_reachable|]. split; [by_compute|]. split; [by_compute|].
  split.
  { eexists. split; [vm_compute; reflexivity|]. by_compute. }
  split; [left; reflexivity|]. split; [discriminate|].
  intros (h' & H & Hq). vm_compute in H. injection H as <-.
  apply (f_equal length) in Hq. vm_compute in Hq. discriminate Hq.
Qed.

Lemma relay_reaches_only_target_witness :
  NetIPv4.reachable lobby /\ alice ∈ clients lobby /\
  relayable (Type_ (offer bob)) /\ TargetID (offer bob) ≠ "" /\
  exists A h',
    objs lobby !! alice = Some A /\
    NetIPv4.handleMessage alice (offer bob) [] lobby = Ok h' /\
    ipRooms h' = ipRooms lobby /\ publicRooms h' = publicRooms lobby /\
    clients h' = clients lobby /\ rooms h' = rooms lobby /\
    (forall c, c ≠ TargetID (offer bob) -> objs h' !! c = objs lobby !! c) /\
    ((shares_room lobby A (TargetID (offer bob)) /\
      exists cl, objs lobby !! TargetID (offer bob) = Some cl /\
        objs h' !! TargetID (offer bob) =
          Some (if (length (buf (send cl)) <? sendCap)%nat
                then enqueue (mkMessage (Type_ (offer bob)) alice (TargetID (offer bob))
                                (Payload_ (offer bob))) cl
                else cl)) \/
     (¬ shares_room lobby A (TargetID (offer bob)) /\ objs h' = objs lobby /\
      log h' = log lobby ++
               [LogDebug "relay target not found" [("targetID", TargetID (offer bob))]])).
Proof.
  assert (H1 : alice ∈ clients lobby) by by_compute.
  assert (H2 : relayable (Type_ (offer bob))) by (left; reflexivity).
  assert (H3 : TargetID (offer bob) ≠ "") by discriminate.
  assert (H4 : forall A, objs lobby !! alice = Some A ->
                 shares_room lobby A (TargetID (offer bob)) ->
                 TargetID (offer bob) ∈ clients lobby) by (intros; by_compute).
  split; [exact lobby_reachable|]. split; [exact H1|]. split; [exact H2|].
  split; [exact H3|].
  exact (relay_reaches_only_target _ _ _ _ lobby alice (offer bob) []
           lobby_reachable H1 H2 H3 H4).
Defined.

(** C5, as stated, fails: Bob's queue holds 256 messages, and the
    [room-error] for his unknown code is dropped. *)
Lemma join_unknown_code_error_is_dropped :
  NetIPv4.reachable congested /\ bob ∈ clients congested /\
  publicRooms congested !! "ZZZZZ" = None /\
  ¬ error_delivered congested bob (joinRoom "ZZZZZ").
Proof.
  split; [exact congested_reachable|]. split; [by_compute|].
  split; [vm_compute; reflexivity|].
  intros (h' & H & Hq). vm_compute in H. injection H as <-.
  apply (f_equal length) in Hq. vm_compute in Hq. discriminate Hq.
Qed.

Lemma join_unknown_code_only_errors_witness :
  NetIPv4.reachable lobby /\ alice ∈ clients lobby /\
  publicRooms lobby !! "ZZZZZ" = None /\
  exists cl h',
    objs lobby !! alice = Some cl /\
    NetIPv4.handleMessage alice (joinRoom "ZZZZZ") [] lobby = Ok h' /\
    ipRooms h' = ipRooms lobby /\ publicRooms h' = publicRooms lobby /\
    clients h' = clients lobby /\ rooms h' = rooms lobby /\
    nextRoom h' = nextRoom lobby /\
    (forall c', c' ≠ alice -> objs h' !! c' = objs lobby !! c') /\
    objs h' !! alice =
      Some (if (length (buf (send cl)) <? sendCap)%nat
            then enqueue (NewRoomErrorMessage "room not found") cl
            else cl).
Proof.
  assert (H1 : alice ∈ clients lobby) by by_compute.
  assert (H2 : publicRooms lobby !! "ZZZZZ" = None) by (vm_compute; reflexivity).
  split; [exact lobby_reachable|]. split; [exact H1|]. split; [exact H2|].
  exact (join_unknown_code_only_errors _ _ _ _ lobby alice "ZZZZZ" (joinRoom "ZZZZZ") []
           lobby_reachable H1 H2 eq_refl eq_refl).
Defined.

(** C6 on the code.  After two [create-room] messages Alice is a member of
    two coded rooms that are both in the table: [CreatePublicRoom] does not
    leave the room she was in, as [JoinPublicRoom] does.  After joining the
    room she created and is alone in, the room she references, and is a
    member of, is no longer in the table: it was deleted as empty while she
    left it, and she was added back to the same object. *)
Theorem create_room_twice_keeps_both_memberships :
  NetIPv4.reachable two_rooms /\
  (exists p1 p2 r1 r2,
     p1 ≠ p2 /\
     publicRooms two_rooms !! "BAAAA" = Some p1 /\
     publicRooms two_rooms !! "CAAAA" = Some p2 /\
     rooms two_rooms !! p1 = Some r1 /\ rooms two_rooms !! p2 = Some r2 /\
     alice ∈ clients two_rooms /\ alice ∈ rclients r1 /\ alice ∈ rclients r2) /\
  NetIPv4.reachable rejoin /\
  (exists A p r,
     objs rejoin !! alice = Some A /\ publicRoom A = Some p /\
     rooms rejoin !! p = Some r /\ alice ∈ clients rejoin /\ alice ∈ rclients r /\
     rid r = "BAAAA" /\ publicRooms rejoin !! "BAAAA" = None /\
     forall k, publicRooms rejoin !! k ≠ Some p).
Proof.
  split; [exact two_rooms_reachable|]. split.
  { exists 0, 1. eexists. eexists. split; [lia|].
    split; [vm_compute; reflexivity|]. split; [vm_compute; reflexivity|].
    split; [vm_compute; reflexivity|]. split; [vm_compute; reflexivity|].
    split; [by_compute|]. split; by_compute. }
  split; [exact rejoin_reachable|].
  eexists. exists 0. eexists.
  split; [vm_compute; reflexivity|]. split; [reflexivity|].
  split; [vm_compute; reflexivity|]. split; [by_compute|]. split; [by_compute|].
  split; [reflexivity|]. split; [vm_compute; reflexivity|].
  assert (E : publicRooms rejoin = ∅) by (vm_compute; reflexivity).
  intros k. rewrite E, lookup_empty. discriminate.
Qed.

(** Alice creates a coded room and joins it by its code; then Bob
    connects. *)
Definition unlisted_events : list Event :=
  rejoin_events ++ [EvConnect ["002"%byte] "192.168.1.20:80"].

Definition unlisted : Hub := unwrap (NetIPv4.run unlisted_events NewHub).

(** Bob creates a coded room, and the round draws the bytes that Alice's
    round drew. *)
Definition reused_events : list Event :=
  unlisted_events ++ [EvMessage bob createRoom [["001"%byte]]].

Definition reused : Hub := unwrap (NetIPv4.run reused_events NewHub).

Lemma unlisted_reachable : NetIPv4.reachable unlisted.
Proof. apply run_unwrap. vm_compute. reflexivity. Defined.

Lemma reused_reachable : NetIPv4.reachable reused.
Proof. apply run_unwrap. vm_compute. reflexivity. Defined.

(** C4 on the code.  Alice created the room BAAAA and joined it by its
    code: she is connected, its only member and points to it, and the table
    no longer leads to it (C6).  Bob then creates a room and the round draws
    the bytes that give BAAAA: [CreatePublicRoom] looks the code up in the
    table, does not find it and returns it.  Two coded rooms, each with a
    connected member that points to it, now have the code BAAAA; the table
    leads to Bob's. *)
Theorem code_of_an_unlisted_room_is_handed_out_again :
  NetIPv4.reachable unlisted /\ alice ∈ clients unlisted /\ bob ∈ clients unlisted /\
  (exists A r,
     objs unlisted !! alice = Some A /\ publicRoom A = Some 0 /\
     rooms unlisted !! 0 = Some r /\ isPublic r = true /\ rid r = "BAAAA" /\
     rclients r = {[alice]}) /\
  GenerateRoomCode ["001"%byte] = "BAAAA" /\
  (exists h', CreatePublicRoom bob [["001"%byte]] unlisted = Ok ("BAAAA", h')) /\
  NetIPv4.handle (EvMessage bob createRoom [["001"%byte]]) unlisted = Ok reused /\
  NetIPv4.reachable reused /\
  queue bob reused = [NewRoomCreatedMessage "BAAAA"] /\
  alice ∈ clients reused /\ bob ∈ clients reused /\
  (exists A B r0 r1,
     objs reused !! alice = Some A /\ publicRoom A = Some 0 /\
     objs reused !! bob = Some B /\ publicRoom B = Some 1 /\
     rooms reused !! 0 = Some r0 /\ rooms reused !! 1 = Some r1 /\
     isPublic r0 = true /\ isPublic r1 = true /\
     rid r0 = "BAAAA" /\ rid r1 = "BAAAA" /\
     rclients r0 = {[alice]} /\ rclients r1 = {[bob]} /\
     publicRooms reused !! "BAAAA" = Some 1).
Proof.
  split; [exact unlisted_reachable|]. split; [by_compute|]. split; [by_compute|].
  split.
  { eexists. eexists. split; [vm_compute; reflexivity|]. split; [reflexivity|].
    split; [vm_compute; reflexivity|]. split; [reflexivity|]. split; [reflexivity|].
    by_compute. }
  split; [vm_compute; reflexivity|].
  split; [eexists; vm_compute; reflexivity|].
  split; [vm_compute; reflexivity|].
  split; [exact reused_reachable|].
  split; [vm_compute; reflexivity|]. split; [by_compute|]. split; [by_compute|].
  eexists. eexists. eexists. eexists.
  split; [vm_compute; reflexivity|]. split; [reflexivity|].
  split; [vm_compute; reflexivity|]. split; [reflexivity|].
  split; [vm_compute; reflexivity|]. split; [vm_compute; reflexivity|].
  split; [reflexivity|]. split; [reflexivity|]. split; [reflexivity|]. split; [reflexivity|].
  split; [by_compute|]. split; [by_compute|]. vm_compute. reflexivity.
Qed.

Lemma peer_info_excludes_address_witness :
  NetIPv4.scope_preserving (fun _ => "192.168.1.99:1") lobby /\
  isConnect (EvMessage bob (join "bobby") []) = false /\
  Client_PeerInfo (set_ip "10.9.8.7:1" (NewClient alice "192.168.1.17:5544"))
    = Client_PeerInfo (NewClient alice "192.168.1.17:5544") /\
  Client_PeerInfo (NewClient alice "192.168.1.17:5544") = mkPeerInfo alice "" "" /\
  GetPeerInfos 0 bob (readdress (fun _ => "192.168.1.99:1") lobby) = GetPeerInfos 0 bob lobby /\
  NetIPv4.handle (EvMessage bob (join "bobby") []) (readdress (fun _ => "192.168.1.99:1") lobby)
    = readdress (fun _ => "192.168.1.99:1") <$>
        NetIPv4.handle (EvMessage bob (join "bobby") []) lobby /\
  (forall h1, NetIPv4.handle (EvMessage bob (join "bobby") []) lobby = Ok h1 ->
     exists h2,
       NetIPv4.handle (EvMessage bob (join "bobby") [])
         (readdress (fun _ => "192.168.1.99:1") lobby) = Ok h2 /\
       forall c, queue c h2 = queue c h1).
Proof.
  assert (H1 : NetIPv4.scope_preserving (fun _ => "192.168.1.99:1") lobby).
  { change (map_Forall (fun (_ : string) cl =>
              NetIPv4.ExtractIPRoomID "192.168.1.99:1" "" = NetIPv4.ExtractIPRoomID (ip cl) "")
              (objs lobby)).
    by_compute. }
  split; [exact H1|]. split; [reflexivity|].
  exact (peer_info_excludes_address _ _ _ _ (fun _ => "192.168.1.99:1") lobby
           (EvMessage bob (join "bobby") []) (NewClient alice "192.168.1.17:5544")
           "10.9.8.7:1" 0 bob H1 eq_refl).
Defined.

(** ** Further runs *)

Lemma ipv4_room_is_the_slash24_witness :
  NetIPv4.ExtractIPRoomID "192.168.1.17:5544" "" = NetIPv4.ExtractIPRoomID "192.168.1.20:80" ""
  <-> at_ ["192"; "168"; "001"; "017"]%byte 0 = at_ ["192"; "168"; "001"; "020"]%byte 0 /\
      at_ ["192"; "168"; "001"; "017"]%byte 1 = at_ ["192"; "168"; "001"; "020"]%byte 1 /\
      at_ ["192"; "168"; "001"; "017"]%byte 2 = at_ ["192"; "168"; "001"; "020"]%byte 2.
Proof.
  apply (ipv4_room_is_the_slash24 NetIPv4.strings_Split NetIPv4.strings_TrimSpace
           NetIPv4.net_SplitHostPort NetIPv4.net_ParseIP
           "192.168.1.17:5544" "192.168.1.20:80"
           (replicate 10 "000" ++ ["255"; "255"; "192"; "168"; "001"; "017"])%byte
           (replicate 10 "000" ++ ["255"; "255"; "192"; "168"; "001"; "020"])%byte);
    vm_compute; reflexivity.
Defined.

(** A parser that knows two IPv6 literals besides the IPv4 addresses. *)
Definition net_ParseIP6 (s : string) : option (list byte) :=
  if decide (s = "2001:db8::1")
  then Some (["032"; "001"; "013"; "184"] ++ replicate 11 "000" ++ ["001"])%byte
  else if decide (s = "2001:db8::2:7")
  then Some (["032"; "001"; "013"; "184"] ++ replicate 9 "000" ++ ["002"; "000"; "007"])%byte
  else NetIPv4.net_ParseIP s.

Lemma ipv6_room_is_the_slash64_witness :
  Signaling.ExtractIPRoomID NetIPv4.strings_Split NetIPv4.strings_TrimSpace
    NetIPv4.net_SplitHostPort net_ParseIP6 "2001:db8::1" "" =
  Signaling.ExtractIPRoomID NetIPv4.strings_Split NetIPv4.strings_TrimSpace
    NetIPv4.net_SplitHostPort net_ParseIP6 "2001:db8::2:7" ""
  <-> forall i, i < 8 ->
        at_ (["032"; "001"; "013"; "184"] ++ replicate 11 "000" ++ ["001"])%byte i =
        at_ (["032"; "001"; "013"; "184"] ++ replicate 9 "000" ++ ["002"; "000"; "007"])%byte i.
Proof.
  apply (ipv6_room_is_the_slash64 NetIPv4.strings_Split NetIPv4.strings_TrimSpace
           NetIPv4.net_SplitHostPort net_ParseIP6 "2001:db8::1" "2001:db8::2:7");
    vm_compute; reflexivity.
Defined.

Definition ExtractIPRoomID6 :=
  Signaling.ExtractIPRoomID NetIPv4.strings_Split NetIPv4.strings_TrimSpace
    NetIPv4.net_SplitHostPort net_ParseIP6.

Lemma room_ids_do_not_collide_witness :
  ExtractIPRoomID6 "192.168.1.17:5544" "" ≠ ExtractIPRoomID6 "2001:db8::1" "" /\
  ExtractIPRoomID6 "192.168.1.17:5544" "" ≠ ExtractIPRoomID6 "localhost" "" /\
  ExtractIPRoomID6 "2001:db8::1" "" ≠ ExtractIPRoomID6 "localhost" "" /\
  ExtractIPRoomID6 "localhost" "" = "default".
Proof.
  apply (room_ids_do_not_collide NetIPv4.strings_Split NetIPv4.strings_TrimSpace
           NetIPv4.net_SplitHostPort net_ParseIP6
           "192.168.1.17:5544" "2001:db8::1" "localhost"
           (replicate 10 "000" ++ ["255"; "255"; "192"; "168"; "001"; "017"])%byte
           ["192"; "168"; "001"; "017"]%byte
           (["032"; "001"; "013"; "184"] ++ replicate 11 "000" ++ ["001"])%byte);
    vm_compute; reflexivity.
Defined.

Example ipv6_room_of_the_literal :
  Signaling.ExtractIPRoomID NetIPv4.strings_Split NetIPv4.strings_TrimSpace
    NetIPv4.net_SplitHostPort net_ParseIP6 "2001:db8::1" "" = "2001:0db8:0000:0000".
Proof. vm_compute. reflexivity. Qed.

(** The IP room of the lobby. *)
Definition lobby_room : Room := mkRoom "192.168.1" false {[alice; bob]}.

Lemma lobby_room_stored : rooms lobby !! 0 = Some lobby_room.
Proof. vm_compute. reflexivity. Defined.

Lemma peer_list_is_the_other_members_witness :
  exists peers,
    GetPeerInfos 0 alice lobby = Ok peers /\
    NoDup (map ID peers) /\
    forall pi, pi ∈ peers <->
      exists c cl, c ∈ rclients lobby_room /\ c ≠ alice /\ objs lobby !! c = Some cl /\
                   pi = mkPeerInfo c (name cl) (platform cl).
Proof.
  exact (peer_list_is_the_other_members _ _ _ _ lobby 0 lobby_room alice
           lobby_reachable lobby_room_stored).
Defined.

Example lobby_peers_of_alice : GetPeerInfos 0 alice lobby = Ok [mkPeerInfo bob "bob" "linux"].
Proof. vm_compute. reflexivity. Qed.

Lemma broadcast_reaches_each_other_member_witness :
  exists h',
    Broadcast 0 (NewPeerLeftMessage "gone") alice lobby = Ok h' /\ sameq lobby h' /\
    forall c, queue c h' =
      if decide (c ∈ rclients lobby_room /\ c ≠ alice /\ length (queue c lobby) < sendCap)
      then queue c lobby ++ [NewPeerLeftMessage "gone"]
      else queue c lobby.
Proof.
  assert (H : rclients lobby_room ⊆ clients lobby) by by_compute.
  exact (broadcast_reaches_each_other_member _ _ _ _ lobby 0 lobby_room
           (NewPeerLeftMessage "gone") alice lobby_reachable lobby_room_stored
           (fun c Hc _ => H c Hc)).
Defined.

(** Alice creates two coded rooms and goes: the first room keeps her. *)
Definition departed_events : list Event :=
  [EvConnect ["001"%byte] "192.168.1.17:5544";
   EvConnect ["002"%byte] "192.168.1.20:80";
   EvMessage alice createRoom [["001"%byte]];
   EvMessage alice createRoom [["002"%byte]];
   EvClose alice].

Definition departed : Hub := unwrap (NetIPv4.run departed_events NewHub).

Lemma departed_reachable : NetIPv4.reachable departed.
Proof. apply run_unwrap. vm_compute. reflexivity. Defined.

Lemma broadcast_to_a_departed_member_panics_witness :
  (alice ∉ clients departed) /\ bob ∈ clients departed /\
  publicRooms departed !! "BAAAA" = Some 0 /\
  Broadcast 0 (NewPeerJoinedMessage (mkPeerInfo bob "" "")) bob departed
    = Panic "send on closed channel".
Proof.
  split; [by_compute|]. split; [by_compute|]. split; [vm_compute; reflexivity|].
  assert (H : exists r cl, rooms departed !! 0 = Some r /\ alice ∈ rclients r /\
                objs departed !! alice = Some cl /\ closed (send cl) = true).
  { eexists. eexists. split; [vm_compute; reflexivity|]. split; [by_compute|].
    split; [vm_compute; reflexivity|reflexivity]. }
  destruct H as (r & cl & Hr & Hin & Hcl & Hclosed).
  assert (Hne : alice ≠ bob) by by_compute.
  exact (broadcast_to_a_departed_member_panics _ _ _ _ departed 0 r
           (NewPeerJoinedMessage (mkPeerInfo bob "" "")) bob alice cl
           departed_reachable Hr Hin Hne Hcl Hclosed).
Defined.

(** Bob joins the room that kept Alice: the hub panics. *)
Example joining_the_room_of_a_departed_member :
  NetIPv4.handleMessage bob (joinRoom "BAAAA") [] departed = Panic "send on closed channel".
Proof. vm_compute. reflexivity. Qed.

Lemma ip_room_is_the_connected_subnet_witness :
  exists cl, objs lobby !! alice = Some cl /\
  exists r, rooms lobby !! 0 = Some r /\ isPublic r = false /\
    rid r = NetIPv4.ExtractIPRoomID (ip cl) "" /\ ipRooms lobby !! rid r = Some 0 /\
    forall d, d ∈ rclients r <->
      d ∈ clients lobby /\ exists cld, objs lobby !! d = Some cld /\ ipRoom cld ≠ None /\
        NetIPv4.ExtractIPRoomID (ip cld) "" = NetIPv4.ExtractIPRoomID (ip cl) "".
Proof.
  assert (H : exists cl, objs lobby !! alice = Some cl /\ ipRoom cl = Some 0).
  { eexists. split; [vm_compute; reflexivity|reflexivity]. }
  destruct H as (cl & Hcl & Hp). exists cl. split; [exact Hcl|].
  assert (Hc : alice ∈ clients lobby) by by_compute.
  exact (ip_room_is_the_connected_subnet _ _ _ _ lobby alice cl 0 lobby_reachable Hc Hcl Hp).
Defined.

Lemma sweep_finds_no_empty_room_witness :
  (forall k p, ipRooms two_rooms !! k = Some p ->
     exists r, rooms two_rooms !! p = Some r /\ rclients r ≠ ∅) /\
  (forall k p, publicRooms two_rooms !! k = Some p ->
     exists r, rooms two_rooms !! p = Some r /\ rclients r ≠ ∅) /\
  NetIPv4.handle EvSweep two_rooms = Ok two_rooms.
Proof.
  destruct (sweep_finds_no_empty_room _ _ _ _ two_rooms two_rooms_reachable) as (H1 & H2 & H3).
  split; [exact H1|]. split; [exact H2|]. simpl. by rewrite H3.
Defined.

Lemma join_introduces_the_network_witness :
  exists cl, objs lobby !! alice = Some cl /\
  exists h' peers,
    NetIPv4.handleJoin alice (Some (JoinPayload "alice again" "linux")) lobby = Ok h' /\
    NoDup (map ID peers) /\
    (forall pi, pi ∈ peers <->
       exists d cld, d ≠ alice /\
         NetIPv4.neighbour lobby (NetIPv4.ExtractIPRoomID (ip cl) "") d /\
         objs lobby !! d = Some cld /\ pi = mkPeerInfo d (name cld) (platform cld)) /\
    queue alice h' = offered (NewPeersMessage peers) True (queue alice lobby) /\
    (forall d, d ≠ alice ->
       queue d h' =
       offered (NewPeerJoinedMessage (mkPeerInfo alice "alice again" "linux"))
         (NetIPv4.neighbour lobby (NetIPv4.ExtractIPRoomID (ip cl) "") d)
         (queue d lobby)) /\
    NetIPv4.neighbour h' (NetIPv4.ExtractIPRoomID (ip cl) "") alice /\
    clients h' = clients lobby.
Proof.
  assert (H : exists cl, objs lobby !! alice = Some cl).
  { eexists. vm_compute. reflexivity. }
  destruct H as (cl & Hcl). exists cl. split; [exact Hcl|].
  assert (Hc : alice ∈ clients lobby) by by_compute.
  exact (join_introduces_the_network _ _ _ _ lobby alice cl "alice again" "linux"
           lobby_reachable Hc Hcl).
Defined.

Example bob_hears_of_the_join :
  exists h', NetIPv4.handleMessage alice (join "alice again") [] lobby = Ok h' /\
    last (queue bob h') = Some (NewPeerJoinedMessage (mkPeerInfo alice "alice again" "linux")) /\
    last (queue alice h') = Some (NewPeersMessage [mkPeerInfo bob "bob" "linux"]).
Proof. eexists. split; [vm_compute; reflexivity|]. split; vm_compute; reflexivity. Qed.

(** Alice, in the lobby, creates a coded room. *)
Definition coded_events : list Event :=
  lobby_events ++ [EvMessage alice createRoom [["001"%byte]]].

Definition coded : Hub := unwrap (NetIPv4.run coded_events NewHub).

Lemma coded_reachable : NetIPv4.reachable coded.
Proof. apply run_unwrap. vm_compute. reflexivity. Defined.

Definition coded_room : Room := mkRoom "BAAAA" true {[alice]}.

Lemma coded_room_stored : rooms coded !! 1 = Some coded_room.
Proof. vm_compute. reflexivity. Defined.

Lemma close_tells_the_rooms_witness :
  exists cl, objs coded !! alice = Some cl /\
  exists h',
    Unregister alice coded = Ok h' /\
    clients h' = clients coded ∖ {[alice]} /\
    (exists cl', objs h' !! alice = Some cl' /\ closed (send cl') = true /\
                 buf (send cl') = buf (send cl)) /\
    (forall d, d ≠ alice ->
       queue d h' = offered (NewPeerLeftMessage alice) (d ∈ members coded (publicRoom cl))
                      (offered (NewPeerLeftMessage alice) (d ∈ members coded (ipRoom cl))
                         (queue d coded))) /\
    (alice ∉ members h' (ipRoom cl)) /\ (alice ∉ members h' (publicRoom cl)).
Proof.
  assert (H : exists cl, objs coded !! alice = Some cl /\ publicRoom cl = Some 1).
  { eexists. split; [vm_compute; reflexivity|reflexivity]. }
  destruct H as (cl & Hcl & Hp). exists cl. split; [exact Hcl|].
  assert (Hc : alice ∈ clients coded) by by_compute.
  assert (Hm : members coded (Some 1) ⊆ clients coded) by by_compute.
  apply (close_tells_the_rooms _ _ _ _ coded alice cl coded_reachable Hc Hcl).
  rewrite Hp. intros d Hd _. exact (Hm d Hd).
Defined.

Example bob_hears_of_the_close :
  exists h', NetIPv4.handle (EvClose alice) coded = Ok h' /\
    last (queue bob h') = Some (NewPeerLeftMessage alice) /\
    ipRooms h' !! "192.168.1" = Some 0 /\ publicRooms h' !! "BAAAA" = None.
Proof.
  eexists. split; [vm_compute; reflexivity|].
  split; [vm_compute; reflexivity|]. split; vm_compute; reflexivity.
Qed.

Lemma room_code_introduces_the_members_witness :
  exists cl, objs coded !! bob = Some cl /\
  exists h' peers,
    handleJoinRoom bob (Some (RoomCodePayload "BAAAA")) coded = Ok h' /\
    NoDup (map ID peers) /\
    (forall pi, pi ∈ peers <->
       exists d cld, d ∈ rclients coded_room /\ d ≠ bob /\ objs coded !! d = Some cld /\
                     pi = mkPeerInfo d (name cld) (platform cld)) /\
    queue bob h' = offered (NewRoomJoinedMessage "BAAAA" peers) True (queue bob coded) /\
    (forall d, d ≠ bob ->
       queue d h' =
       offered (NewPeerJoinedMessage (Client_PeerInfo cl)) (d ∈ rclients coded_room)
         (offered (NewPeerLeftMessage bob) (d ∈ members coded (publicRoom cl))
            (queue d coded))) /\
    (exists cl', objs h' !! bob = Some cl' /\ publicRoom cl' = Some 1 /\
                 ipRoom cl' = ipRoom cl) /\
    members h' (Some 1) = {[bob]} ∪ rclients coded_room /\
    (forall q, publicRoom cl = Some q -> q ≠ 1 -> bob ∉ members h' (Some q)) /\
    clients h' = clients coded.
Proof.
  assert (H : exists cl, objs coded !! bob = Some cl /\ publicRoom cl = None).
  { eexists. split; [vm_compute; reflexivity|reflexivity]. }
  destruct H as (cl & Hcl & Hp). exists cl. split; [exact Hcl|].
  assert (Hc : bob ∈ clients coded) by by_compute.
  assert (Hcode : publicRooms coded !! "BAAAA" = Some 1) by (vm_compute; reflexivity).
  assert (Hm : rclients coded_room ⊆ clients coded) by by_compute.
  apply (room_code_introduces_the_members _ _ _ _ coded bob cl "BAAAA" 1 coded_room
           coded_reachable Hc Hcl Hcode coded_room_stored).
  - intros d Hd _. exact (Hm d Hd).
  - rewrite Hp. intros d Hd _. destruct (not_elem_of_empty (C:=gset string) d Hd).
Defined.

Example alice_hears_of_the_guest :
  exists h', NetIPv4.handleMessage bob (joinRoom "BAAAA") [] coded = Ok h' /\
    last (queue bob h') =
      Some (NewRoomJoinedMessage "BAAAA" [mkPeerInfo alice "alice" "linux"]) /\
    last (queue alice h') = Some (NewPeerJoinedMessage (mkPeerInfo bob "bob" "linux")).
Proof. eexists. split; [vm_compute; reflexivity|]. split; vm_compute; reflexivity. Qed.

End HubRuns.

(* ===================================================================== *)
(** * Part II: the signaling channel (websocket.js) *)
(* ===================================================================== *)

Module WebSocketManager.

(** A file descriptor as it travels in a [transfer-request]. *)
Record FileInfo := mkFileInfo {
  fi_name : string;
  fi_size : Z;
  fi_type : string }.

(** The payload objects the page hands to [send]. *)
Inductive Payload :=
| JoinP (name platform : string)
| RoomCodeP (code : string)
| SignalP (body : string)
| TransferRequestP (transferId : string) (files : list FileInfo) (totalSize : Z)
| TransferResponseP (transferId : string) (accepted : bool)
| RelayChunkP (transferId : string) (fileIndex chunkIndex : nat) (data : string)
    (isLast : bool).

(** The object [msg] that [send] builds: [payload] and [targetId] are set
    only when truthy. *)
Record Msg := mkMsg {
  type : string;
  payload : option Payload;
  targetId : option string }.

Inductive ReadyState := CONNECTING | OPEN | CLOSING | CLOSED.

#[global] Instance ReadyState_eq_dec : EqDecision ReadyState.
Proof. solve_decision. Defined.

(** The fields of the manager.  [ws] is the ready state of the current
    socket ([None] before the first [connect]), [wire] what [ws.send] was
    given, [timers] the delays of the reconnect timeouts that are pending.
    JavaScript numbers are doubles; every delay the manager can hold from the
    base delay on is [1000 * 1.5^j] with [j <= 8] or [30000], which a double
    represents exactly, so [reconnectDelay] is a rational. *)
Record t := mk {
  ws : option ReadyState;
  wire : list Msg;
  reconnectAttempts : Z;
  maxReconnectAttempts : Z;
  reconnectDelay : Q;
  messageQueue : list Msg;
  isConnected : bool;
  pingInterval : bool;
  timers : list Q }.

Definition new : t :=
  mk None [] 0 10 1000%Q [] false false [].

(** [connect]: a new socket, connecting. *)
Definition connect (m : t) : t :=
  mk (Some CONNECTING) (wire m) (reconnectAttempts m) (maxReconnectAttempts m)
     (reconnectDelay m) (messageQueue m) (isConnected m) (pingInterval m) (timers m).

(** [ws.onopen]: reset the counters, flush the queue in order, start the
    ping interval. *)
Definition onopen (m : t) : t :=
  mk (Some OPEN) (wire m ++ messageQueue m) 0 (maxReconnectAttempts m)
     1000%Q [] true true (timers m).

(** [ws.onclose]: schedule a reconnect with the current delay when attempts
    remain, then grow the delay. *)
Definition onclose (m : t) : t :=
  if (reconnectAttempts m <? maxReconnectAttempts m)%Z
  then mk (Some CLOSED) (wire m) (reconnectAttempts m) (maxReconnectAttempts m)
          (Qmin (reconnectDelay m * (3 # 2)) 30000%Q)
          (messageQueue m) false false (timers m ++ [reconnectDelay m])
  else mk (Some CLOSED) (wire m) (reconnectAttempts m) (maxReconnectAttempts m)
          (reconnectDelay m) (messageQueue m) false false (timers m).

(** The timeout callback of [onclose]: count the attempt and connect. *)
Definition ontimeout (m : t) : t :=
  match timers m with
  | [] => m
  | _ :: rest =>
      connect (mk (ws m) (wire m) (reconnectAttempts m + 1) (maxReconnectAttempts m)
                  (reconnectDelay m) (messageQueue m) (isConnected m) (pingInterval m) rest)
  end.

(** [send(type, payload, targetId)]. *)
Definition truthy (s : option string) : option string :=
  match s with
  | Some "" => None
  | _ => s
  end.

Definition send (ty : string) (p : option Payload) (target : option string) (m : t) : t :=
  let msg := mkMsg ty p (truthy target) in
  if isConnected m && bool_decide (ws m = Some OPEN)
  then mk (ws m) (wire m ++ [msg]) (reconnectAttempts m) (maxReconnectAttempts m)
          (reconnectDelay m) (messageQueue m) (isConnected m) (pingInterval m) (timers m)
  else mk (ws m) (wire m) (reconnectAttempts m) (maxReconnectAttempts m)
          (reconnectDelay m) (messageQueue m ++ [msg]) (isConnected m) (pingInterval m)
          (timers m).

Definition sendTransferRequest (targetId0 transferId : string) (files : list FileInfo)
  (m : t) : t :=
  let fileInfos :=
    map (fun f => mkFileInfo (fi_name f) (fi_size f)
                    (if decide (fi_type f = "") then "application/octet-stream"
                     else fi_type f)) files in
  let totalSize := foldl (fun sum f => (sum + fi_size f)%Z) 0%Z files in
  send "transfer-request" (Some (TransferRequestP transferId fileInfos totalSize))
    (Some targetId0) m.

Definition sendTransferResponse (targetId0 transferId : string) (accepted : bool) (m : t) : t :=
  send "transfer-response" (Some (TransferResponseP transferId accepted)) (Some targetId0) m.

Definition sendRelayChunk (targetId0 transferId : string) (fileIndex chunkIndex : nat)
  (data : string) (isLast : bool) (m : t) : t :=
  send "relay-chunk" (Some (RelayChunkP transferId fileIndex chunkIndex data isLast))
    (Some targetId0) m.

(** [disconnect]: no reconnection any more; the socket starts closing. *)
Definition disconnect (m : t) : t :=
  mk (match ws m with Some _ => Some CLOSING | None => None end)
     (wire m) (reconnectAttempts m) 0 (reconnectDelay m) (messageQueue m)
     (isConnected m) false (timers m).

(** [k] reconnect rounds in a row, none of which gets through: the socket
    closes, the timeout fires, the new socket closes again. *)
Fixpoint failures (k : nat) (m : t) : t :=
  match k with
  | O => m
  | S k' => failures k' (ontimeout (onclose m))
  end.

(** The delay that the close following [k] failed rounds schedules, if it
    schedules one. *)
Definition scheduled (m : t) : option Q :=
  if (reconnectAttempts m <? maxReconnectAttempts m)%Z then Some (reconnectDelay m) else None.

(** [took msg w w']: the channel [w] took exactly the message [msg] and
    became [w']: written to the socket when connected and open, queued for
    the next [onopen] otherwise. *)
Definition took (msg : Msg) (w w' : t) : Prop :=
  (isConnected w = true /\ ws w = Some OPEN /\
   wire w' = wire w ++ [msg] /\ messageQueue w' = messageQueue w) \/
  (¬ (isConnected w = true /\ ws w = Some OPEN) /\
   wire w' = wire w /\ messageQueue w' = messageQueue w ++ [msg]).

Lemma send_took ty p target w : took (mkMsg ty p (truthy target)) w (send ty p target w).
Proof.
  unfold took, send. destruct (isConnected w); simpl.
  - case_bool_decide as E; simpl; [left; auto|right; split; [tauto|auto]].
  - right. split; [intros [? _]; discriminate|auto].
Qed.

Lemma took_flushed msg w w' :
  took msg w w' ->
  wire (onopen w') = wire (onopen w) ++ [msg] \/ wire (onopen w') = wire w ++ [msg] ++ messageQueue w.
Proof.
  unfold took, onopen. simpl. intros [(_ & _ & -> & ->)|(_ & -> & ->)].
  - right. by rewrite <- !app_assoc.
  - left. by rewrite !app_assoc.
Qed.

(** ** The backoff schedule *)

(** [min(1000 * 1.5^(k-1), 30000)], the delay before the [k]-th attempt. *)
Definition backoff (k : nat) : Q := Qmin (1000 * (3 # 2) ^ Z.of_nat (k - 1)) 30000.

Lemma pow_succ (j : nat) : ((3 # 2) ^ Z.of_nat (S j) == (3 # 2) ^ Z.of_nat j * (3 # 2))%Q.
Proof.
  rewrite Nat2Z.inj_succ. unfold Z.succ.
  rewrite Qpower_plus by discriminate. reflexivity.
Qed.

Lemma pow_pos (j : nat) : (0 < (3 # 2) ^ Z.of_nat j)%Q.
Proof. apply Qpower_0_lt. reflexivity. Qed.

Lemma grow_capped (d : Q) (j : nat) :
  (d == Qmin (1000 * (3 # 2) ^ Z.of_nat j) 30000)%Q ->
  (Qmin (d * (3 # 2)) 30000 == Qmin (1000 * (3 # 2) ^ Z.of_nat (S j)) 30000)%Q.
Proof.
  intros Hd. rewrite Hd, pow_succ. pose proof (pow_pos j) as Hpos.
  set (x := ((3 # 2) ^ Z.of_nat j)%Q) in *.
  destruct (Qlt_le_dec 30000 (1000 * x)) as [Hbig|Hsmall].
  - rewrite (Q.min_r (1000 * x) 30000) by lra.
    rewrite !Q.min_r by lra. reflexivity.
  - rewrite (Q.min_l (1000 * x) 30000) by lra.
    destruct (Qlt_le_dec 30000 (1000 * x * (3 # 2))) as [Hb|Hs].
    + rewrite !Q.min_r by lra. reflexivity.
    + rewrite !Q.min_l by lra. ring.
Qed.

(** The state after [j] failed rounds, starting from [a] attempts. *)
Lemma failures_state (j a : nat) (m : t) :
  a + j <= 10 ->
  reconnectAttempts m = Z.of_nat a -> maxReconnectAttempts m = 10%Z ->
  (reconnectDelay m == Qmin (1000 * (3 # 2) ^ Z.of_nat a) 30000)%Q -> timers m = [] ->
  reconnectAttempts (failures j m) = Z.of_nat (a + j) /\
  maxReconnectAttempts (failures j m) = 10%Z /\
  (reconnectDelay (failures j m) == Qmin (1000 * (3 # 2) ^ Z.of_nat (a + j)) 30000)%Q /\
  timers (failures j m) = [].
Proof.
  revert a m. induction j as [|j IH]; intros a m Hle Ha Hmax Hd Ht; simpl.
  - rewrite Nat.add_0_r. auto.
  - replace (a + S j) with (S a + j) by lia.
    apply IH; [lia|..]; unfold ontimeout, onclose; rewrite Ha, Hmax;
      destruct (Z.ltb_spec (Z.of_nat a) 10); try lia; simpl; rewrite ?Ht; simpl.
    + lia.
    + reflexivity.
    + by apply grow_capped.
    + reflexivity.
Qed.

(** Once ten attempts are made, further rounds change nothing. *)
Lemma failures_exhausted (j : nat) (m : t) :
  reconnectAttempts m = 10%Z -> maxReconnectAttempts m = 10%Z -> timers m = [] ->
  reconnectAttempts (failures j m) = 10%Z /\ maxReconnectAttempts (failures j m) = 10%Z /\
  timers (failures j m) = [] /\ timers (onclose (failures j m)) = [].
Proof.
  revert m. induction j as [|j IH]; intros m Ha Hmax Ht; simpl.
  - unfold onclose. rewrite Ha, Hmax. simpl. auto.
  - apply IH; unfold ontimeout, onclose; rewrite Ha, Hmax; simpl; rewrite ?Ht; simpl; auto.
Qed.

Lemma failures_add (i j : nat) (m : t) : failures (i + j) m = failures j (failures i m).
Proof. revert m. induction i as [|i IH]; intros m; simpl; [reflexivity|apply IH]. Qed.

Lemma backoff_mono (k : nat) : 1 <= k -> (backoff k <= backoff (S k))%Q.
Proof.
  intros Hk. unfold backoff. replace (S k - 1) with (S (k - 1)) by lia.
  apply Q.min_glb; [|apply Q.le_min_r].
  eapply Qle_trans; [apply Q.le_min_l|].
  rewrite pow_succ. pose proof (pow_pos (k - 1)) as Hpos.
  set (x := ((3 # 2) ^ Z.of_nat (k - 1))%Q) in *. lra.
Qed.

(** C8: from a manager that has just connected (no attempt counted, the
    base delay of 1000 ms, ten attempts allowed, no timeout pending), the
    close that follows [k - 1] failed reconnect rounds schedules the [k]-th
    attempt, for [k] from 1 to 10, after [min(1000 * 1.5^(k-1), 30000)]
    ms; these delays never decrease and never exceed 30000 ms; once ten
    attempts are made no close schedules another; and [onopen] always puts
    the delay back to 1000 ms and the attempt counter back to zero. *)
Theorem reconnect_backoff (m m' : t) (k : nat) :
  reconnectAttempts m = 0%Z -> maxReconnectAttempts m = 10%Z ->
  (reconnectDelay m == 1000)%Q -> timers m = [] ->
  (1 <= k <= 10 ->
     exists d, timers (onclose (failures (k - 1) m)) = [d] /\ (d == backoff k)%Q /\
       (d == Qmin (1000 * (3 # 2) ^ Z.of_nat (k - 1)) 30000)%Q) /\
  (1 <= k -> (backoff k <= backoff (S k))%Q /\ (backoff k <= 30000)%Q) /\
  (10 < k ->
     reconnectAttempts (failures (k - 1) m) = 10%Z /\
     timers (onclose (failures (k - 1) m)) = []) /\
  (reconnectDelay (onopen m') = 1000%Q /\ reconnectAttempts (onopen m') = 0%Z).
Proof.
  intros Ha Hmax Hd Ht.
  assert (Hd0 : (reconnectDelay m == Qmin (1000 * (3 # 2) ^ Z.of_nat 0) 30000)%Q).
  { rewrite Hd. reflexivity. }
  split; [|split; [|split]].
  - intros Hk.
    destruct (failures_state (k - 1) 0 m) as (Ha' & Hmax' & Hd' & Ht'); auto; [lia|].
    exists (reconnectDelay (failures (k - 1) m)). simpl in Hd'.
    split; [|split; exact Hd'].
    unfold onclose. rewrite Ha', Hmax'.
    destruct (Z.ltb_spec (Z.of_nat (0 + (k - 1))) 10); [|lia]. simpl. rewrite Ht'. reflexivity.
  - intros Hk. split; [by apply backoff_mono|apply Q.le_min_r].
  - intros Hk.
    destruct (failures_state 10 0 m) as (Ha' & Hmax' & _ & Ht'); auto.
    replace (k - 1) with (10 + (k - 11)) by lia. rewrite failures_add.
    destruct (failures_exhausted (k - 11) (failures 10 m)) as (? & _ & _ & ?); auto.
  - split; reflexivity.
Qed.

Lemma reconnect_backoff_witness :
  reconnectAttempts (onopen new) = 0%Z /\ maxReconnectAttempts (onopen new) = 10%Z /\
  (reconnectDelay (onopen new) == 1000)%Q /\ timers (onopen new) = [] /\
  (1 <= 5 <= 10 ->
     exists d, timers (onclose (failures (5 - 1) (onopen new))) = [d] /\ (d == backoff 5)%Q /\
       (d == Qmin (1000 * (3 # 2) ^ Z.of_nat (5 - 1)) 30000)%Q) /\
  (1 <= 5 -> (backoff 5 <= backoff 6)%Q /\ (backoff 5 <= 30000)%Q) /\
  (10 < 5 ->
     reconnectAttempts (failures (5 - 1) (onopen new)) = 10%Z /\
     timers (onclose (failures (5 - 1) (onopen new))) = []) /\
  (reconnectDelay (onopen (onclose new)) = 1000%Q /\
   reconnectAttempts (onopen (onclose new)) = 0%Z).
Proof.
  split; [reflexivity|]. split; [reflexivity|]. split; [reflexivity|].
  split; [reflexivity|].
  apply (reconnect_backoff (onopen new) (onclose new) 5); reflexivity.
Defined.

(** The first ten delays, in milliseconds. *)
Example backoff_table :
  Forall2 Qeq (map backoff (seq 1 10))
    [1000; 1500; 2250; 3375; 10125 # 2; 30375 # 4; 91125 # 8; 273375 # 16; 820125 # 32;
     30000]%Q.
Proof. repeat constructor. Qed.

(** ** The outbound queue *)

(** A call of [send]: type, payload, target. *)
Definition Call : Type := string * option Payload * option string.

Definition built (x : Call) : Msg := mkMsg x.1.1 x.1.2 (truthy x.2).

Definition sends (calls : list Call) (m : t) : t :=
  foldl (fun m' x => send x.1.1 x.1.2 x.2 m') m calls.

Lemma sends_offline calls m :
  isConnected m = false ->
  sends calls m =
  mk (ws m) (wire m) (reconnectAttempts m) (maxReconnectAttempts m) (reconnectDelay m)
     (messageQueue m ++ map built calls) false (pingInterval m) (timers m).
Proof.
  revert m. induction calls as [|x calls IH]; intros m Hoff; simpl.
  - rewrite app_nil_r. destruct m; simpl in *. by subst.
  - rewrite IH; unfold send; rewrite Hoff; simpl; [|done].
    by rewrite <- app_assoc.
Qed.

Lemma sends_online calls m :
  isConnected m = true -> ws m = Some OPEN ->
  sends calls m =
  mk (ws m) (wire m ++ map built calls) (reconnectAttempts m) (maxReconnectAttempts m)
     (reconnectDelay m) (messageQueue m) true (pingInterval m) (timers m).
Proof.
  revert m. induction calls as [|x calls IH]; intros m Hon Hopen; simpl.
  - rewrite app_nil_r. destruct m; simpl in *. by subst.
  - rewrite IH; unfold send; rewrite Hon, Hopen; simpl; [|done..].
    by rewrite <- app_assoc.
Qed.

Lemma failures_offline k m :
  isConnected m = false ->
  isConnected (failures k m) = false /\ wire (failures k m) = wire m /\
  messageQueue (failures k m) = messageQueue m.
Proof.
  revert m. induction k as [|k IH]; intros m Hoff; simpl; [done|].
  assert (H : isConnected (ontimeout (onclose m)) = false /\
              wire (ontimeout (onclose m)) = wire m /\
              messageQueue (ontimeout (onclose m)) = messageQueue m).
  { unfold ontimeout, onclose.
    destruct (reconnectAttempts m <? maxReconnectAttempts m)%Z; simpl;
      destruct (timers m); simpl; auto. }
  destruct H as (H1 & H2 & H3). destruct (IH _ H1) as (? & ? & ?).
  split; [done|]. split; congruence.
Qed.

(** What is sent while the channel is down is kept, in order, through any
    number of failed reconnect rounds, and goes out at the next [onopen]
    behind what was queued before and ahead of everything sent afterwards;
    nothing is written twice, nothing is left in the queue. *)
Theorem offline_sends_flush_in_order (m : t) (calls later : list Call) (k : nat) :
  isConnected m = false ->
  let m1 := sends calls m in
  let m2 := onopen (failures k m1) in
  wire m1 = wire m /\
  messageQueue m1 = messageQueue m ++ map built calls /\
  wire m2 = wire m ++ messageQueue m ++ map built calls /\
  messageQueue m2 = [] /\
  wire (sends later m2) = wire m ++ messageQueue m ++ map built calls ++ map built later /\
  messageQueue (sends later m2) = [].
Proof.
  intros Hoff m1 m2. subst m1 m2. rewrite (sends_offline _ _ Hoff).
  match goal with |- context [failures k ?x] =>
    destruct (failures_offline k x eq_refl) as (_ & Hw & Hq); simpl in Hw, Hq
  end.
  split; [reflexivity|]. split; [reflexivity|].
  assert (Hopen : forall x, wire (onopen x) = wire x ++ messageQueue x) by reflexivity.
  rewrite Hopen, Hw, Hq. split; [reflexivity|]. split; [reflexivity|].
  rewrite sends_online by reflexivity. simpl. rewrite Hw, Hq.
  split; [by rewrite <- !app_assoc|reflexivity].
Qed.

Lemma offline_sends_flush_in_order_witness :
  let ping := ("ping", None, None) : Call in
  let join := ("join", Some (JoinP "laptop" "linux"), Some "") : Call in
  let m1 := sends [join; ping] new in
  let m2 := onopen (failures 2 m1) in
  wire m1 = wire new /\
  messageQueue m1 = messageQueue new ++ map built [join; ping] /\
  wire m2 = wire new ++ messageQueue new ++ map built [join; ping] /\
  messageQueue m2 = [] /\
  wire (sends [ping] m2) =
    wire new ++ messageQueue new ++ map built [join; ping] ++ map built [ping] /\
  messageQueue (sends [ping] m2) = [].
Proof.
  intros ping join.
  apply (offline_sends_flush_in_order new [join; ping] [ping] 2). reflexivity.
Defined.

(** ** Disconnecting *)

(** What can happen to a manager after it was made. *)
Inductive Happening :=
| Opens
| Closes
| TimerFires
| Sends (x : Call).

Definition happen (e : Happening) (m : t) : t :=
  match e with
  | Opens => onopen m
  | Closes => onclose m
  | TimerFires => ontimeout m
  | Sends x => send x.1.1 x.1.2 x.2 m
  end.

Definition happenings (es : list Happening) (m : t) : t := foldl (fun m' e => happen e m') m es.

Lemma happen_after_disconnect e m :
  maxReconnectAttempts m = 0%Z -> (0 <= reconnectAttempts m)%Z -> timers m = [] ->
  maxReconnectAttempts (happen e m) = 0%Z /\ (0 <= reconnectAttempts (happen e m))%Z /\
  timers (happen e m) = [] /\ (ws (happen e m) = Some CONNECTING -> ws m = Some CONNECTING).
Proof.
  intros Hmax Hatt Ht. destruct e as [| | |x]; simpl.
  - split; [done|]. split; [done|]. split; [done|]. discriminate.
  - unfold onclose. rewrite Hmax.
    destruct (Z.ltb_spec (reconnectAttempts m) 0); [lia|]. simpl.
    split; [done|]. split; [done|]. split; [done|]. discriminate.
  - unfold ontimeout. rewrite Ht. auto.
  - unfold send. destruct (_ && _); simpl; auto.
Qed.

(** After [disconnect] with no reconnect timer pending, no close ever
    schedules a reconnect again and no new socket is ever made, whatever
    happens afterwards. *)
Theorem disconnect_is_final (m : t) (es : list Happening) :
  (0 <= reconnectAttempts m)%Z -> timers m = [] ->
  timers (happenings es (disconnect m)) = [] /\
  maxReconnectAttempts (happenings es (disconnect m)) = 0%Z /\
  ws (happenings es (disconnect m)) ≠ Some CONNECTING.
Proof.
  intros Hatt Ht.
  assert (H : forall m0, maxReconnectAttempts m0 = 0%Z -> (0 <= reconnectAttempts m0)%Z ->
                timers m0 = [] -> ws m0 ≠ Some CONNECTING ->
                timers (happenings es m0) = [] /\
                maxReconnectAttempts (happenings es m0) = 0%Z /\
                ws (happenings es m0) ≠ Some CONNECTING).
  { induction es as [|e es IH]; intros m0 H1 H2 H3 H4; simpl; [done|].
    destruct (happen_after_disconnect e m0 H1 H2 H3) as (?&?&?&?).
    apply IH; auto. }
  apply H; simpl; auto. destruct (ws m); discriminate.
Qed.

Lemma disconnect_is_final_witness :
  let es := [Closes; TimerFires; Sends ("ping", None, None); Closes; Opens; Closes] in
  timers (happenings es (disconnect (onopen new))) = [] /\
  maxReconnectAttempts (happenings es (disconnect (onopen new))) = 0%Z /\
  ws (happenings es (disconnect (onopen new))) ≠ Some CONNECTING.
Proof.
  intros es. apply (disconnect_is_final (onopen new) es).
  - simpl. lia.
  - reflexivity.
Defined.

(** A timer that is pending when [disconnect] is called is not cleared:
    when it fires, it counts an attempt and connects once more. *)
Lemma pending_timer_survives_disconnect (m : t) :
  timers m ≠ [] ->
  ws (ontimeout (disconnect m)) = Some CONNECTING /\
  reconnectAttempts (ontimeout (disconnect m)) = (reconnectAttempts m + 1)%Z.
Proof. intros Ht. unfold ontimeout, disconnect. simpl. destruct (timers m); [done|auto]. Qed.

End WebSocketManager.

(* ===================================================================== *)
(** * The text frames between the hub and the page *)
(* ===================================================================== *)

(** [WritePump] (client.go) puts the first queued message and everything
    queued behind it into one WebSocket text message, separated by newlines;
    [handleMessage] (websocket.js) takes such a text apart again. *)
Module Frames.

Definition newline : ascii := "010"%char.

(** The writes of one round of [WritePump]: [message], then a newline and
    the next message for each of the [len(c.send)] queued ones. *)
Definition writeFrame (message : string) (queued : list string) : string :=
  foldl (fun w q => w +:+ String newline q) message queued.

(** [data.split('\n')]. *)
Fixpoint split (data : string) : list string :=
  match data with
  | EmptyString => [EmptyString]
  | String c rest =>
      if decide (c = newline) then EmptyString :: split rest
      else match split rest with
           | x :: xs => String c x :: xs
           | [] => [String c EmptyString]
           end
  end.

Section HandleMessage.

(** [blank m]: [m.trim()] is the empty string.  [parse] is [JSON.parse]
    followed by the reading of [type], [peerId], [targetId] and [payload];
    [None] stands for an exception. *)
Variable blank : string -> bool.
Variable Detail : Type.
Variable parse : string -> option Detail.

(** The loop of [handleMessage]: an exception leaves the loop, and the
    [catch] around it only logs. *)
Fixpoint dispatchAll (messages : list string) : list Detail :=
  match messages with
  | [] => []
  | msgStr :: rest =>
      match parse msgStr with
      | Some d => d :: dispatchAll rest
      | None => []
      end
  end.

(** [handleMessage(data)]: the events it dispatches, in order. *)
Definition handleMessage (data : string) : list Detail :=
  dispatchAll (filter (fun m => blank m = false) (split data)).

Definition oneLine (m : string) : Prop := newline ∉ String.list_ascii_of_string m.

Lemma split_nonempty data : split data ≠ [].
Proof. destruct data as [|c rest]; simpl; [done|]. destruct (decide _); [done|]. by destruct (split rest). Qed.

Lemma split_oneLine m : oneLine m -> split m = [m].
Proof.
  unfold oneLine. induction m as [|c m IH]; simpl; [done|]. intros H.
  rewrite decide_False by (intros ->; apply H; left).
  rewrite IH; [done|]. intros Hin. apply H. by right.
Qed.

Lemma append_cons (x : ascii) (a b : string) : String x a +:+ b = String x (a +:+ b).
Proof. reflexivity. Qed.

Lemma split_app m rest :
  oneLine m -> split (m +:+ String newline rest) = m :: split rest.
Proof.
  unfold oneLine. induction m as [|c m IH].
  - intros _. change ("" +:+ String newline rest) with (String newline rest).
    simpl. destruct (decide (newline = newline)); done.
  - intros H. rewrite append_cons. cbn [split String.list_ascii_of_string] in *.
    rewrite decide_False by (intros ->; apply H; left).
    rewrite IH; [done|]. intros Hin. apply H. by right.
Qed.

Lemma app_assoc_string (a b c : string) : (a +:+ b) +:+ c = a +:+ (b +:+ c).
Proof.
  induction a as [|x a IH]; [done|]. rewrite !append_cons. f_equal. exact IH.
Qed.

Lemma writeFrame_cons message q queued :
  writeFrame message (q :: queued) = message +:+ String newline (writeFrame q queued).
Proof.
  unfold writeFrame. cbn [foldl]. revert message q.
  induction queued as [|q' queued IH]; intros message q; cbn [foldl]; [done|].
  rewrite IH. rewrite (IH q q'). rewrite app_assoc_string. by rewrite append_cons.
Qed.

Lemma split_writeFrame message queued :
  Forall oneLine (message :: queued) -> split (writeFrame message queued) = message :: queued.
Proof.
  revert message. induction queued as [|q queued IH]; intros message H.
  - apply split_oneLine. by apply Forall_inv in H.
  - rewrite writeFrame_cons. inversion H as [|? ? H1 H2]; subst.
    rewrite split_app by done. by rewrite IH.
Qed.

Lemma dispatchAll_app l1 l2 ds :
  mapM parse l1 = Some ds ->
  dispatchAll (l1 ++ l2) = ds ++ dispatchAll l2.
Proof.
  revert ds. induction l1 as [|x l1 IH]; intros ds H; simpl in *.
  - by injection H as <-.
  - destruct (parse x) as [d|]; simpl in H; [|done].
    destruct (mapM parse l1) as [ds'|]; simpl in H; [|done].
    injection H as <-. simpl. by rewrite (IH ds').
Qed.

Lemma dispatchAll_all messages ds :
  mapM parse messages = Some ds -> dispatchAll messages = ds.
Proof.
  intros H. rewrite <- (app_nil_r messages), (dispatchAll_app _ _ _ H). simpl.
  by rewrite app_nil_r.
Qed.

(** When a message does not parse, the ones before it are dispatched and
    the ones behind it are lost with it. *)
Lemma dispatchAll_stops before bad behind ds :
  mapM parse before = Some ds -> parse bad = None ->
  dispatchAll (before ++ bad :: behind) = ds.
Proof. intros H Hbad. rewrite (dispatchAll_app _ _ _ H). simpl. rewrite Hbad. by rewrite app_nil_r. Qed.

(** The messages that one round of [WritePump] writes as one text are, on
    the page, the messages of the loop of [handleMessage], as many and in
    the order they were queued, provided none of them has a newline in it
    or is blank. *)
Theorem coalesced_frame_is_taken_apart (message : string) (queued : list string) :
  Forall oneLine (message :: queued) ->
  Forall (fun m => blank m = false) (message :: queued) ->
  split (writeFrame message queued) = message :: queued /\
  handleMessage (writeFrame message queued) = dispatchAll (message :: queued).
Proof.
  intros Hone Hblank. unfold handleMessage. rewrite split_writeFrame by done.
  split; [done|]. f_equal.
  generalize dependent (message :: queued). clear. intros l _ H.
  induction H as [|x l Hx _ IH]; [done|].
  rewrite filter_cons. rewrite decide_True by done. by rewrite IH.
Qed.

End HandleMessage.

(** An instance: blank is made of spaces, tabs and line ends only, and a
    message parses when it begins with a brace. *)
Definition blank (m : string) : bool :=
  forallb (fun c => bool_decide (c ∈ [" "; "009"; "010"; "013"]%char))
    (String.list_ascii_of_string m).

Definition parse (m : string) : option string :=
  match m with
  | String "{" _ => Some m
  | _ => None
  end.

Lemma coalesced_frame_is_taken_apart_witness :
  split (writeFrame "{pong}" ["{peer-left}"; "{pong}"]) = ["{pong}"; "{peer-left}"; "{pong}"] /\
  handleMessage blank string parse (writeFrame "{pong}" ["{peer-left}"; "{pong}"]) =
    dispatchAll string parse ["{pong}"; "{peer-left}"; "{pong}"].
Proof.
  apply (coalesced_frame_is_taken_apart blank string parse "{pong}" ["{peer-left}"; "{pong}"]).
  - repeat constructor; unfold oneLine; vm_compute;
      intros H; repeat (apply elem_of_cons in H as [H|H]; [discriminate H|]);
      by apply elem_of_nil in H.
  - repeat constructor.
Defined.

Example frame_with_a_bad_message :
  handleMessage blank string parse (writeFrame "{pong}" ["oops"; "{peer-left}"]) = ["{pong}"].
Proof. reflexivity. Qed.

End Frames.

(* ===================================================================== *)
(** * Part III: the transfer coordinator (file-transfer.js) *)
(* ===================================================================== *)

Module FileTransfer.

Import WebSocketManager.

Definition CHUNK_SIZE : Z := 64 * 1024.
Definition MAX_BUFFER : Z := 16 * 1024 * 1024.

(** A [File] of the page: its [size] is the length of its content. *)
Record File := mkFile {
  f_name : string;
  f_type : string;
  f_content : list byte }.

Definition f_size (f : File) : Z := Z.of_nat (length (f_content f)).

(** [Blob.slice(start, end)], with the clamping of the File API. *)
Definition slice (b : list byte) (start end_ : Z) : list byte :=
  let sz := Z.of_nat (length b) in
  let rs := if (start <? 0)%Z then Z.max (sz + start) 0 else Z.min start sz in
  let re := if (end_ <? 0)%Z then Z.max (sz + end_) 0 else Z.min end_ sz in
  take (Z.to_nat (Z.max (re - rs) 0)) (drop (Z.to_nat rs) b).

(** [Math.ceil(a / b)] for a non-negative integer [a] and [b > 0]. *)
Definition ceil_div (a b : Z) : Z := (- ((- a) / b))%Z.

Inductive Status := pending | accepted | rejected | transferring | completed.

#[global] Instance Status_eq_dec : EqDecision Status.
Proof. solve_decision. Defined.

Record Metadata := mkMetadata {
  md_transferId : string;
  md_fileIndex : nat;
  md_name : string;
  md_size : Z;
  md_type : string;
  md_totalChunks : Z }.

(** The three frames of the data channel, with the fields of their binary
    layout: a [Uint16] file index and a [Uint32] chunk index in a chunk
    frame, a [Uint8] length before the id bytes of a complete frame. *)
Inductive Frame :=
| MetadataMessage (md : Metadata)
| ChunkMessage (fileIndex chunkIndex : Z) (data : list byte)
| CompleteMessage (idLength : Z) (idBytes : string).

Definition createMetadataMessage (md : Metadata) : Frame := MetadataMessage md.

Definition createChunkMessage (fileIndex chunkIndex : nat) (data : list byte) : Frame :=
  ChunkMessage (Z.of_nat fileIndex mod 2 ^ 16) (Z.of_nat chunkIndex mod 2 ^ 32) data.

Definition createCompleteMessage (transferId : string) : Frame :=
  CompleteMessage (Z.of_nat (String.length transferId) mod 2 ^ 8) transferId.

Inductive Event :=
| SendPending (transferId peerId : string) (files : list File)
| SendRejected (transferId : string)
| SendAccepted (transferId : string)
| SendProgress (transferId : string) (bytesSent totalBytes : Z)
| SendComplete (transferId : string)
| ReceiveRequest (transferId peerId : string) (files : list FileInfo) (totalSize : Z)
| ReceiveAccepted (transferId : string)
| ReceiveRejected (transferId : string)
| ReceiveProgress (transferId : string) (bytesReceived totalSize : Z)
| ReceiveComplete (transferId : string).

(** The state of an outgoing transfer. *)
Record OutTransfer := mkOut {
  o_id : string;
  o_peerId : string;
  o_files : list File;
  o_currentFileIndex : nat;
  o_currentChunkIndex : nat;
  o_bytesSent : Z;
  o_totalBytes : Z;
  o_status : Status;
  o_useRelay : bool }.

(** A JavaScript array that may have holes. *)
Abbreviation sparse A := (list (option A)) (only parsing).

Definition sparse_get {A} (l : sparse A) (i : nat) : option A := mjoin (l !! i).

(** [l[i] = v]: in range an update, out of range an extension with holes. *)
Definition sparse_set {A} (l : sparse A) (i : nat) (v : A) : sparse A :=
  if decide (i < length l) then <[i := Some v]> l
  else l ++ replicate (i - length l) None ++ [Some v].

(** [new Blob(parts)]: the parts in sequence; a hole reads as [undefined],
    which a Blob takes as the text "undefined". *)
Definition undefined_bytes : list byte :=
  ["u"; "n"; "d"; "e"; "f"; "i"; "n"; "e"; "d"]%byte.

Definition Blob (parts : sparse (list byte)) : list byte :=
  concat (map (fun p => match p with Some b => b | None => undefined_bytes end) parts).

(** The state of an incoming transfer; [currentFileMetadata] and
    [fileChunks] do not exist until first assigned. *)
Record InTransfer := mkIn {
  i_id : string;
  i_peerId : string;
  i_files : list FileInfo;
  i_totalSize : Z;
  i_receivedFiles : list (string * list byte);
  i_currentFileData : list (list byte);
  i_currentFileIndex : nat;
  i_bytesReceived : Z;
  i_status : Status;
  i_currentFileMetadata : option Metadata;
  i_fileChunks : option (sparse (sparse (list byte))) }.

(** A JavaScript [Map] with string keys, in insertion order. *)
Abbreviation jsmap V := (list (string * V)) (only parsing).

Fixpoint map_get {V} (k : string) (m : jsmap V) : option V :=
  match m with
  | [] => None
  | (k', v) :: m' => if decide (k' = k) then Some v else map_get k m'
  end.

Fixpoint map_set {V} (k : string) (v : V) (m : jsmap V) : jsmap V :=
  match m with
  | [] => [(k, v)]
  | (k', v') :: m' => if decide (k' = k) then (k, v) :: m' else (k', v') :: map_set k v m'
  end.

Definition map_delete {V} (k : string) (m : jsmap V) : jsmap V :=
  filter (fun kv => kv.1 ≠ k) m.

(** The manager together with what it acts on: [channelOut] collects the
    frames given to [channel.send] with the peer of the channel,
    [dispatched] the events, [downloads] the blobs handed to
    [downloadBlob]. *)
Record Manager := mkManager {
  wsManager : WebSocketManager.t;
  outgoingTransfers : jsmap OutTransfer;
  incomingTransfers : jsmap InTransfer;
  channelOut : list (string * Frame);
  dispatched : list Event;
  downloads : list (string * list byte) }.

Definition set_ws (f : WebSocketManager.t -> WebSocketManager.t) (m : Manager) : Manager :=
  mkManager (f (wsManager m)) (outgoingTransfers m) (incomingTransfers m) (channelOut m)
    (dispatched m) (downloads m).
Definition set_outgoing (f : jsmap OutTransfer -> jsmap OutTransfer) (m : Manager) : Manager :=
  mkManager (wsManager m) (f (outgoingTransfers m)) (incomingTransfers m) (channelOut m)
    (dispatched m) (downloads m).
Definition set_incoming (f : jsmap InTransfer -> jsmap InTransfer) (m : Manager) : Manager :=
  mkManager (wsManager m) (outgoingTransfers m) (f (incomingTransfers m)) (channelOut m)
    (dispatched m) (downloads m).
Definition channel_send (peer : string) (fr : Frame) (m : Manager) : Manager :=
  mkManager (wsManager m) (outgoingTransfers m) (incomingTransfers m)
    (channelOut m ++ [(peer, fr)]) (dispatched m) (downloads m).
Definition dispatchEvent (e : Event) (m : Manager) : Manager :=
  mkManager (wsManager m) (outgoingTransfers m) (incomingTransfers m) (channelOut m)
    (dispatched m ++ [e]) (downloads m).
Definition downloadBlob (blob : list byte) (filename : string) (m : Manager) : Manager :=
  mkManager (wsManager m) (outgoingTransfers m) (incomingTransfers m) (channelOut m)
    (dispatched m) (downloads m ++ [(filename, blob)]).

Definition set_o_status (s : Status) (t : OutTransfer) : OutTransfer :=
  mkOut (o_id t) (o_peerId t) (o_files t) (o_currentFileIndex t) (o_currentChunkIndex t)
    (o_bytesSent t) (o_totalBytes t) s (o_useRelay t).
Definition set_o_useRelay (b : bool) (t : OutTransfer) : OutTransfer :=
  mkOut (o_id t) (o_peerId t) (o_files t) (o_currentFileIndex t) (o_currentChunkIndex t)
    (o_bytesSent t) (o_totalBytes t) (o_status t) b.
Definition set_o_currentFileIndex (i : nat) (t : OutTransfer) : OutTransfer :=
  mkOut (o_id t) (o_peerId t) (o_files t) i (o_currentChunkIndex t)
    (o_bytesSent t) (o_totalBytes t) (o_status t) (o_useRelay t).
Definition o_advance (chunkIndex : option nat) (n : Z) (t : OutTransfer) : OutTransfer :=
  mkOut (o_id t) (o_peerId t) (o_files t) (o_currentFileIndex t)
    (match chunkIndex with Some c => c | None => o_currentChunkIndex t end)
    (o_bytesSent t + n) (o_totalBytes t) (o_status t) (o_useRelay t).

Definition toFileInfo (f : File) : FileInfo := mkFileInfo (f_name f) (f_size f) (f_type f).

(** The binary string of [arrayBufferToBase64] and back. *)
Definition binary_of_bytes (b : list byte) : string :=
  String.string_of_list_ascii (map ascii_of_byte b).
Definition bytes_of_binary (s : string) : list byte :=
  map byte_of_ascii (String.list_ascii_of_string s).

Definition set_i_status (s : Status) (t : InTransfer) : InTransfer :=
  mkIn (i_id t) (i_peerId t) (i_files t) (i_totalSize t) (i_receivedFiles t)
    (i_currentFileData t) (i_currentFileIndex t) (i_bytesReceived t) s
    (i_currentFileMetadata t) (i_fileChunks t).

Section Coordinator.

(** The browser's [btoa] and [atob], on binary strings. *)
Variable btoa : string -> string.
Variable atob : string -> string.

Definition arrayBufferToBase64 (buffer : list byte) : string :=
  btoa (binary_of_bytes buffer).

Definition base64ToArrayBuffer (base64 : string) : list byte :=
  bytes_of_binary (atob base64).

(** ** Sending *)

(** [sendFiles(peerId, files)]; the generated transfer id is an input. *)
Definition sendFiles (transferId peerId : string) (files : list File) (m : Manager)
  : Manager :=
  let transfer :=
    mkOut transferId peerId files 0 0 0
      (foldl (fun sum f => (sum + f_size f)%Z) 0%Z files) pending false in
  let m1 := set_outgoing (map_set transferId transfer) m in
  let m2 := set_ws (sendTransferRequest peerId transferId (map toFileInfo files)) m1 in
  dispatchEvent (SendPending transferId peerId files) m2.

(** The [while (offset < file.size)] loop of [sendViaDataChannel].  The
    backpressure wait changes no state and is left out. *)
Equations? directChunks (file : File) (fileIndex : nat) (offset : Z) (chunkIndex : nat)
  (t : OutTransfer) (m : Manager) : OutTransfer * Manager
  by wf (Z.to_nat (f_size file - offset)) lt :=
directChunks file fileIndex offset chunkIndex t m with decide (offset < f_size file)%Z := {
  | left _ =>
      let arrayBuffer := slice (f_content file) offset (offset + CHUNK_SIZE) in
      let m1 := channel_send (o_peerId t) (createChunkMessage fileIndex chunkIndex arrayBuffer) m in
      let t1 := o_advance (Some (S chunkIndex)) (Z.of_nat (length arrayBuffer)) t in
      let m2 := dispatchEvent (SendProgress (o_id t1) (o_bytesSent t1) (o_totalBytes t1)) m1 in
      directChunks file fileIndex (offset + CHUNK_SIZE) (S chunkIndex) t1 m2
  | right _ => (t, m) }.
Proof. unfold CHUNK_SIZE. lia. Qed.

(** The [for] loop over the files of [sendViaDataChannel]. *)
Fixpoint directFiles (files : list File) (fileIndex : nat) (t : OutTransfer) (m : Manager)
  : OutTransfer * Manager :=
  match files with
  | [] => (t, m)
  | file :: rest =>
      let t1 := set_o_currentFileIndex fileIndex t in
      let metadata :=
        mkMetadata (o_id t1) fileIndex (f_name file) (f_size file) (f_type file)
          (ceil_div (f_size file) CHUNK_SIZE) in
      let m1 := channel_send (o_peerId t1) (createMetadataMessage metadata) m in
      let '(t2, m2) := directChunks file fileIndex 0 0 t1 m1 in
      directFiles rest (S fileIndex) t2 m2
  end.

(** [sendViaDataChannel], given an open channel to the peer. *)
Definition sendViaDataChannel (t : OutTransfer) (m : Manager) : Manager :=
  let t1 := set_o_status transferring t in
  let '(t2, m2) := directFiles (o_files t1) 0 t1 m in
  let m3 := channel_send (o_peerId t2) (createCompleteMessage (o_id t2)) m2 in
  let t3 := set_o_status completed t2 in
  let m4 := dispatchEvent (SendComplete (o_id t3)) m3 in
  set_outgoing (map_delete (o_id t3)) m4.

(** The [while] loop of [sendViaRelay]; [nfiles] is
    [transfer.files.length]. *)
Equations? relayChunks (file : File) (nfiles fileIndex : nat) (offset : Z) (chunkIndex : nat)
  (t : OutTransfer) (m : Manager) : OutTransfer * Manager
  by wf (Z.to_nat (f_size file - offset)) lt :=
relayChunks file nfiles fileIndex offset chunkIndex t m
  with decide (offset < f_size file)%Z := {
  | left _ =>
      let arrayBuffer := slice (f_content file) offset (offset + CHUNK_SIZE) in
      let base64 := arrayBufferToBase64 arrayBuffer in
      let isLast := bool_decide (Z.of_nat fileIndex = Z.of_nat nfiles - 1)%Z
                    && bool_decide (offset + CHUNK_SIZE >= f_size file)%Z in
      let m1 := set_ws (sendRelayChunk (o_peerId t) (o_id t) fileIndex chunkIndex base64 isLast)
                  m in
      let t1 := o_advance None (Z.of_nat (length arrayBuffer)) t in
      let m2 := dispatchEvent (SendProgress (o_id t1) (o_bytesSent t1) (o_totalBytes t1)) m1 in
      relayChunks file nfiles fileIndex (offset + CHUNK_SIZE) (S chunkIndex) t1 m2
  | right _ => (t, m) }.
Proof. unfold CHUNK_SIZE. lia. Qed.

Fixpoint relayFiles (files : list File) (nfiles fileIndex : nat) (t : OutTransfer)
  (m : Manager) : OutTransfer * Manager :=
  match files with
  | [] => (t, m)
  | file :: rest =>
      let t1 := set_o_currentFileIndex fileIndex t in
      let '(t2, m2) := relayChunks file nfiles fileIndex 0 0 t1 m in
      relayFiles rest nfiles (S fileIndex) t2 m2
  end.

Definition sendViaRelay (t : OutTransfer) (m : Manager) : Manager :=
  let t1 := set_o_status transferring t in
  let '(t2, m2) := relayFiles (o_files t1) (length (o_files t1)) 0 t1 m in
  let t3 := set_o_status completed t2 in
  let m3 := dispatchEvent (SendComplete (o_id t3)) m2 in
  set_outgoing (map_delete (o_id t3)) m3.

(** [handleTransferResponse(peerId, payload)].  [direct] tells whether the
    [try] block gets an open data channel and sends over it without an
    exception; otherwise the [catch] goes the relay way. *)
Definition handleTransferResponse (direct : bool) (peerId transferId : string)
  (accepted0 : bool) (m : Manager) : Manager :=
  match map_get transferId (outgoingTransfers m) with
  | None => m
  | Some transfer =>
      if negb accepted0 then
        let m1 := set_outgoing (map_set transferId (set_o_status rejected transfer)) m in
        let m2 := dispatchEvent (SendRejected transferId) m1 in
        set_outgoing (map_delete transferId) m2
      else
        let t1 := set_o_status accepted transfer in
        let m1 := set_outgoing (map_set transferId t1) m in
        let m2 := dispatchEvent (SendAccepted transferId) m1 in
        if direct then sendViaDataChannel t1 m2
        else sendViaRelay (set_o_useRelay true t1) m2
  end.

(** ** Receiving *)

Definition handleTransferRequest (peerId transferId : string) (files : list FileInfo)
  (totalSize : Z) (m : Manager) : Manager :=
  let transfer := mkIn transferId peerId files totalSize [] [] 0 0 pending None None in
  let m1 := set_incoming (map_set transferId transfer) m in
  dispatchEvent (ReceiveRequest transferId peerId files totalSize) m1.

Definition acceptTransfer (transferId : string) (m : Manager) : Manager :=
  match map_get transferId (incomingTransfers m) with
  | None => m
  | Some transfer =>
      let m1 := set_incoming (map_set transferId (set_i_status accepted transfer)) m in
      let m2 := set_ws (sendTransferResponse (i_peerId transfer) transferId true) m1 in
      dispatchEvent (ReceiveAccepted transferId) m2
  end.

Definition rejectTransfer (transferId : string) (m : Manager) : Manager :=
  match map_get transferId (incomingTransfers m) with
  | None => m
  | Some transfer =>
      let m1 := set_incoming (map_set transferId (set_i_status rejected transfer)) m in
      let m2 := set_ws (sendTransferResponse (i_peerId transfer) transferId false) m1 in
      let m3 := set_incoming (map_delete transferId) m2 in
      dispatchEvent (ReceiveRejected transferId) m3
  end.

(** [findTransferByPeer]: the first entry of the map, in insertion order,
    from that peer and not completed; the key comes along so that the
    object can be written to. *)
Definition findTransferByPeer (peerId : string) (m : Manager) : option (string * InTransfer) :=
  head (filter (fun kv => i_peerId kv.2 = peerId ∧ i_status kv.2 ≠ completed)
          (incomingTransfers m)).

Definition handleMetadata (peerId : string) (metadata : Metadata) (m : Manager) : Manager :=
  match findTransferByPeer peerId m with
  | None => m
  | Some (k, t) =>
      set_incoming (map_set k
        (mkIn (i_id t) (i_peerId t) (i_files t) (i_totalSize t) (i_receivedFiles t)
           [] (md_fileIndex metadata) (i_bytesReceived t) transferring
           (Some metadata) (i_fileChunks t))) m
  end.

(** [saveReceivedFile(transfer)]; without metadata, [metadata.type] throws
    and the handler stops where it is. *)
Definition saveReceivedFile (k : string) (t : InTransfer) (m : Manager) : Manager :=
  match i_currentFileMetadata t with
  | None => m
  | Some metadata =>
      let blob := concat (i_currentFileData t) in
      let m1 := downloadBlob blob (md_name metadata) m in
      set_incoming (map_set k
        (mkIn (i_id t) (i_peerId t) (i_files t) (i_totalSize t)
           (i_receivedFiles t ++ [(md_name metadata, blob)])
           [] (i_currentFileIndex t) (i_bytesReceived t) (i_status t)
           None (i_fileChunks t))) m1
  end.

Definition handleChunk (peerId : string) (fileIndex chunkIndex : Z) (chunkData : list byte)
  (m : Manager) : Manager :=
  match findTransferByPeer peerId m with
  | None => m
  | Some (k, t) =>
      let t1 :=
        mkIn (i_id t) (i_peerId t) (i_files t) (i_totalSize t) (i_receivedFiles t)
          (i_currentFileData t ++ [chunkData]) (i_currentFileIndex t)
          (i_bytesReceived t + Z.of_nat (length chunkData)) (i_status t)
          (i_currentFileMetadata t) (i_fileChunks t) in
      let m1 := set_incoming (map_set k t1) m in
      let m2 := dispatchEvent
                  (ReceiveProgress (i_id t1) (i_bytesReceived t1) (i_totalSize t1)) m1 in
      let expectedChunks :=
        match i_currentFileMetadata t1 with
        | Some md => md_totalChunks md
        | None => 0%Z
        end in
      if (Z.of_nat (length (i_currentFileData t1)) >=? expectedChunks)%Z
      then saveReceivedFile k t1 m2
      else m2
  end.

Definition handleComplete (transferId : string) (m : Manager) : Manager :=
  match map_get transferId (incomingTransfers m) with
  | None => m
  | Some transfer =>
      let m1 := set_incoming (map_set transferId (set_i_status completed transfer)) m in
      let m2 := dispatchEvent (ReceiveComplete transferId) m1 in
      set_incoming (map_delete transferId) m2
  end.

(** [handleBinaryMessage]: the [switch] on the frame tag. *)
Definition handleBinaryMessage (peerId : string) (data : Frame) (m : Manager) : Manager :=
  match data with
  | MetadataMessage md => handleMetadata peerId md m
  | ChunkMessage fileIndex chunkIndex chunkData =>
      handleChunk peerId fileIndex chunkIndex chunkData m
  | CompleteMessage idLength idBytes =>
      handleComplete (String.substring 0 (Z.to_nat idLength) idBytes) m
  end.

(** [saveAllRelayedFiles(transfer)]. *)
Definition saveAllRelayedFiles (t : InTransfer) (m : Manager) : Manager :=
  let fileChunks := default [] (i_fileChunks t) in
  let m1 :=
    foldl (fun m' '(i, fileInfo) =>
             let chunks := default [] (sparse_get fileChunks i) in
             downloadBlob (Blob chunks) (fi_name fileInfo) m')
          m (imap (fun i fileInfo => (i, fileInfo)) (i_files t)) in
  let m2 := set_incoming (map_set (i_id t) (set_i_status completed t)) m1 in
  let m3 := dispatchEvent (ReceiveComplete (i_id t)) m2 in
  set_incoming (map_delete (i_id t)) m3.

(** [handleRelayChunk(peerId, payload)]. *)
Definition handleRelayChunk (peerId transferId : string) (fileIndex chunkIndex : nat)
  (data : string) (isLast : bool) (m : Manager) : Manager :=
  match map_get transferId (incomingTransfers m) with
  | None => m
  | Some t =>
      let chunkData := base64ToArrayBuffer data in
      let fileChunks0 := default [] (i_fileChunks t) in
      let fileChunks1 :=
        match sparse_get fileChunks0 fileIndex with
        | Some _ => fileChunks0
        | None => sparse_set fileChunks0 fileIndex []
        end in
      let fileChunks2 :=
        sparse_set fileChunks1 fileIndex
          (sparse_set (default [] (sparse_get fileChunks1 fileIndex)) chunkIndex chunkData) in
      let t1 :=
        mkIn (i_id t) (i_peerId t) (i_files t) (i_totalSize t) (i_receivedFiles t)
          (i_currentFileData t) (i_currentFileIndex t)
          (i_bytesReceived t + Z.of_nat (length chunkData)) transferring
          (i_currentFileMetadata t) (Some fileChunks2) in
      let m1 := set_incoming (map_set transferId t1) m in
      let m2 := dispatchEvent
                  (ReceiveProgress (i_id t1) (i_bytesReceived t1) (i_totalSize t1)) m1 in
      if isLast then saveAllRelayedFiles t1 m2 else m2
  end.

(** One envelope of the signaling channel as the coordinator's listeners
    see it. *)
Definition onSignal (peerId : string) (p : Payload) (m : Manager) : Manager :=
  match p with
  | TransferRequestP transferId files totalSize =>
      handleTransferRequest peerId transferId files totalSize m
  | RelayChunkP transferId fileIndex chunkIndex data isLast =>
      handleRelayChunk peerId transferId fileIndex chunkIndex data isLast m
  | _ => m
  end.

(** ** Facts about the coordinator *)

Lemma map_get_set_eq {V} k (v : V) m : map_get k (map_set k v m) = Some v.
Proof.
  induction m as [|[k' v'] m IH]; simpl.
  - by rewrite decide_True.
  - destruct (decide (k' = k)) as [->|Hne]; simpl.
    + by rewrite decide_True.
    + by rewrite decide_False.
Qed.

Lemma map_get_set_ne {V} k k' (v : V) m : k ≠ k' -> map_get k' (map_set k v m) = map_get k' m.
Proof.
  intros Hne. induction m as [|[k0 v0] m IH]; simpl.
  - by rewrite decide_False.
  - destruct (decide (k0 = k)) as [->|Hne0]; simpl.
    + by rewrite !decide_False.
    + destruct (decide (k0 = k')); auto.
Qed.

Lemma map_get_delete_eq {V} k (m : jsmap V) : map_get k (map_delete k m) = None.
Proof.
  unfold map_delete. induction m as [|[k' v'] m IH]; [done|].
  rewrite filter_cons. simpl. destruct (decide (k' ≠ k)) as [Hne|_]; simpl; [|done].
  by rewrite decide_False.
Qed.

Lemma map_get_delete_ne {V} k k' (m : jsmap V) :
  k ≠ k' -> map_get k' (map_delete k m) = map_get k' m.
Proof.
  intros Hne. unfold map_delete. induction m as [|[k0 v0] m IH]; [done|].
  rewrite filter_cons. simpl. destruct (decide (k0 ≠ k)) as [Hne0|Heq]; simpl.
  - destruct (decide (k0 = k')); auto.
  - apply dec_stable in Heq. subst k0. by rewrite decide_False.
Qed.

Lemma map_get_delete_None {V} k k' (m : jsmap V) :
  map_get k' m = None -> map_get k' (map_delete k m) = None.
Proof.
  intros H. destruct (decide (k = k')) as [->|Hne].
  - apply map_get_delete_eq.
  - by rewrite map_get_delete_ne.
Qed.

Lemma directChunks_step file fi offset ci t m :
  directChunks file fi offset ci t m =
  if decide (offset < f_size file)%Z then
    let arrayBuffer := slice (f_content file) offset (offset + CHUNK_SIZE) in
    let m1 := channel_send (o_peerId t) (createChunkMessage fi ci arrayBuffer) m in
    let t1 := o_advance (Some (S ci)) (Z.of_nat (length arrayBuffer)) t in
    let m2 := dispatchEvent (SendProgress (o_id t1) (o_bytesSent t1) (o_totalBytes t1)) m1 in
    directChunks file fi (offset + CHUNK_SIZE) (S ci) t1 m2
  else (t, m).
Proof. rewrite directChunks_equation_1. destruct (decide _); reflexivity. Qed.

Lemma relayChunks_step file nfiles fi offset ci t m :
  relayChunks file nfiles fi offset ci t m =
  if decide (offset < f_size file)%Z then
    let arrayBuffer := slice (f_content file) offset (offset + CHUNK_SIZE) in
    let base64 := arrayBufferToBase64 arrayBuffer in
    let isLast := bool_decide (Z.of_nat fi = Z.of_nat nfiles - 1)%Z
                  && bool_decide (offset + CHUNK_SIZE >= f_size file)%Z in
    let m1 := set_ws (sendRelayChunk (o_peerId t) (o_id t) fi ci base64 isLast) m in
    let t1 := o_advance None (Z.of_nat (length arrayBuffer)) t in
    let m2 := dispatchEvent (SendProgress (o_id t1) (o_bytesSent t1) (o_totalBytes t1)) m1 in
    relayChunks file nfiles fi (offset + CHUNK_SIZE) (S ci) t1 m2
  else (t, m).
Proof. rewrite relayChunks_equation_1. destruct (decide _); reflexivity. Qed.

(** What the sending loops leave alone. *)
Definition sender_frame (t : OutTransfer) (m : Manager) (tm : OutTransfer * Manager) : Prop :=
  o_id tm.1 = o_id t /\ o_peerId tm.1 = o_peerId t /\ o_files tm.1 = o_files t /\
  outgoingTransfers tm.2 = outgoingTransfers m /\
  incomingTransfers tm.2 = incomingTransfers m /\
  downloads tm.2 = downloads m.

Lemma sender_frame_refl t m : sender_frame t m (t, m).
Proof. unfold sender_frame; auto 10. Qed.

Lemma sender_frame_trans t m t1 m1 tm :
  sender_frame t m (t1, m1) -> sender_frame t1 m1 tm -> sender_frame t m tm.
Proof. unfold sender_frame; simpl. intros (?&?&?&?&?&?) (?&?&?&?&?&?). repeat split; congruence. Qed.

Lemma directChunks_frame file fi offset ci t m :
  sender_frame t m (directChunks file fi offset ci t m).
Proof.
  funelim (directChunks file fi offset ci t m); [|apply sender_frame_refl].
  eapply sender_frame_trans; [|eassumption]. unfold sender_frame; simpl; auto 10.
Qed.

Lemma relayChunks_frame file nfiles fi offset ci t m :
  sender_frame t m (relayChunks file nfiles fi offset ci t m).
Proof.
  funelim (relayChunks file nfiles fi offset ci t m); [|apply sender_frame_refl].
  eapply sender_frame_trans; [|eassumption]. unfold sender_frame; simpl; auto 10.
Qed.

Lemma directFiles_frame files fi t m : sender_frame t m (directFiles files fi t m).
Proof.
  revert fi t m. induction files as [|file rest IH]; intros fi t m; simpl.
  - apply sender_frame_refl.
  - pose proof (directChunks_frame file fi 0 0 (set_o_currentFileIndex fi t)
                  (channel_send (o_peerId (set_o_currentFileIndex fi t))
                     (createMetadataMessage
                        (mkMetadata (o_id (set_o_currentFileIndex fi t)) fi (f_name file)
                           (f_size file) (f_type file) (ceil_div (f_size file) CHUNK_SIZE)))
                     m)) as H.
    destruct (directChunks _ _ _ _ _ _) as [t2 m2].
    eapply sender_frame_trans; [|apply IH].
    eapply sender_frame_trans; [|exact H]. unfold sender_frame; simpl; auto 10.
Qed.

Lemma relayFiles_frame files nfiles fi t m :
  sender_frame t m (relayFiles files nfiles fi t m).
Proof.
  revert fi t m. induction files as [|file rest IH]; intros fi t m; simpl.
  - apply sender_frame_refl.
  - pose proof (relayChunks_frame file nfiles fi 0 0 (set_o_currentFileIndex fi t) m) as H.
    destruct (relayChunks _ _ _ _ _ _ _) as [t2 m2].
    eapply sender_frame_trans; [|apply IH].
    eapply sender_frame_trans; [|exact H]. unfold sender_frame; simpl; auto 10.
Qed.

(** A transfer id that is not in the outgoing map stays out of it through
    any response. *)
Lemma response_keeps_absent direct peerId i acc tid m :
  map_get tid (outgoingTransfers m) = None ->
  map_get tid (outgoingTransfers (handleTransferResponse direct peerId i acc m)) = None.
Proof.
  intros Habs. unfold handleTransferResponse.
  destruct (map_get i (outgoingTransfers m)) as [transfer|] eqn:Hi; [|done].
  assert (Hne : i ≠ tid) by congruence.
  destruct acc; simpl.
  - destruct direct.
    + unfold sendViaDataChannel.
      match goal with |- context [directFiles ?a ?b ?c ?d] =>
        pose proof (directFiles_frame a b c d) as H; destruct (directFiles a b c d) as [t2 m2]
      end.
      destruct H as (_ & _ & _ & Ho & _). simpl in *.
      apply map_get_delete_None. rewrite Ho. by rewrite map_get_set_ne.
    + unfold sendViaRelay.
      match goal with |- context [relayFiles ?a ?b ?c ?d ?e] =>
        pose proof (relayFiles_frame a b c d e) as H; destruct (relayFiles a b c d e) as [t2 m2]
      end.
      destruct H as (_ & _ & _ & Ho & _). simpl in *.
      apply map_get_delete_None. rewrite Ho. by rewrite map_get_set_ne.
  - apply map_get_delete_None. by rewrite map_get_set_ne.
Qed.

(** Later responses, in the order they arrive: whether the direct channel is
    there, the sender, the transfer id, the verdict. *)
Definition replay (evs : list (bool * string * string * bool)) (m : Manager) : Manager :=
  foldl (fun m' ev => handleTransferResponse ev.1.1.1 ev.1.1.2 ev.1.2 ev.2 m') m evs.

Lemma replay_keeps_absent evs tid m :
  map_get tid (outgoingTransfers m) = None ->
  map_get tid (outgoingTransfers (replay evs m)) = None.
Proof.
  revert m. induction evs as [|ev evs IH]; intros m H; simpl; [done|].
  apply IH. by apply response_keeps_absent.
Qed.

(** C7: rejecting an incoming transfer hands the signaling channel exactly
    one [transfer-response] with [accepted = false], addressed to the
    initiator, and removes the recipient's record at once, with nothing sent
    on any data channel.  On the initiator the response marks the record
    rejected, raises [send-rejected] and removes the record, without a frame
    or an envelope; from then on, whatever responses arrive, a response for
    that transfer finds no record and does nothing, so no chunk frame and no
    relay chunk is ever sent for it. *)
Theorem reject_sends_one_response_and_no_chunks
  (mr mi : Manager) (tid peer : string) (direct : bool) (tr : InTransfer) (to : OutTransfer)
  (later : list (bool * string * string * bool)) :
  map_get tid (incomingTransfers mr) = Some tr -> i_status tr = pending ->
  i_peerId tr ≠ "" ->
  map_get tid (outgoingTransfers mi) = Some to -> o_status to = pending ->
  let mr' := rejectTransfer tid mr in
  let mi' := handleTransferResponse direct peer tid false mi in
  (took (mkMsg "transfer-response" (Some (TransferResponseP tid false)) (Some (i_peerId tr)))
        (wsManager mr) (wsManager mr') /\
   map_get tid (incomingTransfers mr') = None /\
   channelOut mr' = channelOut mr /\
   dispatched mr' = dispatched mr ++ [ReceiveRejected tid]) /\
  (mi' = set_outgoing (map_delete tid)
           (dispatchEvent (SendRejected tid)
              (set_outgoing (map_set tid (set_o_status rejected to)) mi)) /\
   o_status (set_o_status rejected to) = rejected /\
   map_get tid (outgoingTransfers mi') = None /\
   dispatched mi' = dispatched mi ++ [SendRejected tid] /\
   channelOut mi' = channelOut mi /\ wsManager mi' = wsManager mi) /\
  (forall d p a,
     map_get tid (outgoingTransfers (replay later mi')) = None /\
     handleTransferResponse d p tid a (replay later mi') = replay later mi').
Proof.
  intros Hr _ Hpeer Hi _ mr' mi'. subst mr' mi'.
  unfold rejectTransfer, handleTransferResponse. rewrite Hr, Hi. simpl.
  split; [|split].
  - split; [|split; [apply map_get_delete_eq|split; reflexivity]].
    pose proof (send_took "transfer-response" (Some (TransferResponseP tid false))
                  (Some (i_peerId tr)) (wsManager mr)) as H.
    assert (E : truthy (Some (i_peerId tr)) = Some (i_peerId tr)).
    { unfold truthy. destruct (i_peerId tr) as [|a s']; [done|reflexivity]. }
    rewrite E in H. exact H.
  - split; [reflexivity|]. split; [reflexivity|].
    split; [apply map_get_delete_eq|]. auto.
  - intros d p a.
    assert (Habs : map_get tid (outgoingTransfers
              (replay later (set_outgoing (map_delete tid)
                 (dispatchEvent (SendRejected tid)
                    (set_outgoing (map_set tid (set_o_status rejected to)) mi))))) = None).
    { apply replay_keeps_absent. simpl. apply map_get_delete_eq. }
    split; [exact Habs|].
    generalize dependent (replay later (set_outgoing (map_delete tid)
      (dispatchEvent (SendRejected tid)
         (set_outgoing (map_set tid (set_o_status rejected to)) mi)))).
    intros mk Hk. unfold handleTransferResponse. by rewrite Hk.
Qed.

(** ** Chunking *)

(** The [j]-th chunk of a content and the number of chunks, as the loops
    cut them. *)
Definition chunk_at (b : list byte) (j : nat) : list byte :=
  slice b (Z.of_nat j * CHUNK_SIZE) (Z.of_nat j * CHUNK_SIZE + CHUNK_SIZE).

Definition nchunks (b : list byte) : nat :=
  Z.to_nat (ceil_div (Z.of_nat (length b)) CHUNK_SIZE).

Definition chunks (b : list byte) : list (list byte) :=
  map (chunk_at b) (seq 0 (nchunks b)).

Lemma CHUNK_SIZE_pos : (0 < CHUNK_SIZE)%Z.
Proof. reflexivity. Qed.

#[local] Opaque CHUNK_SIZE.

Lemma ceil_div_spec (a b : Z) :
  (0 < b)%Z -> (0 <= a)%Z ->
  ((ceil_div a b - 1) * b < a <= ceil_div a b * b)%Z \/ (a = 0 /\ ceil_div a b = 0)%Z.
Proof.
  intros Hb Ha. unfold ceil_div.
  pose proof (Z.div_mod (- a) b ltac:(lia)) as Hdm.
  pose proof (Z.mod_pos_bound (- a) b Hb) as Hm.
  destruct (decide (a = 0)%Z) as [->|Hne].
  - right. split; [done|]. simpl. rewrite Z.div_0_l by lia. done.
  - left. nia.
Qed.

Lemma ceil_div_nonneg (a b : Z) : (0 < b)%Z -> (0 <= a)%Z -> (0 <= ceil_div a b)%Z.
Proof. intros Hb Ha. destruct (ceil_div_spec a b Hb Ha) as [H|[_ ->]]; nia. Qed.

(** The loop condition [offset < size] at [offset = j * CHUNK_SIZE]. *)
Lemma loop_condition (b : list byte) (j : nat) :
  (Z.of_nat j * CHUNK_SIZE < Z.of_nat (length b))%Z <-> j < nchunks b.
Proof.
  unfold nchunks. pose proof CHUNK_SIZE_pos as Hc.
  pose proof (ceil_div_nonneg (Z.of_nat (length b)) CHUNK_SIZE Hc ltac:(lia)) as Hn.
  destruct (ceil_div_spec (Z.of_nat (length b)) CHUNK_SIZE Hc ltac:(lia)) as [H|[H0 H1]].
  - split; intros; nia.
  - rewrite H1. split; intros; nia.
Qed.

(** Whether a chunk is the last of its file, as [sendViaRelay] tests it. *)
Lemma last_condition (b : list byte) (j : nat) :
  j < nchunks b ->
  (Z.of_nat j * CHUNK_SIZE + CHUNK_SIZE >= Z.of_nat (length b))%Z <-> S j = nchunks b.
Proof.
  intros Hj. pose proof (loop_condition b (S j)) as H.
  replace (Z.of_nat (S j) * CHUNK_SIZE)%Z with (Z.of_nat j * CHUNK_SIZE + CHUNK_SIZE)%Z in H
    by lia.
  split; intros; [|lia].
  destruct (decide (S j < nchunks b)) as [Hlt|Hge]; [apply H in Hlt|]; lia.
Qed.

Lemma slice_take_drop (b : list byte) (lo hi : Z) :
  (0 <= lo <= hi)%Z -> slice b lo hi = take (Z.to_nat (hi - lo)) (drop (Z.to_nat lo) b).
Proof.
  intros H. unfold slice.
  destruct (Z.ltb_spec lo 0); [lia|]. destruct (Z.ltb_spec hi 0); [lia|].
  destruct (decide (Z.of_nat (length b) <= lo)%Z) as [Hout|Hin].
  - rewrite Z.min_r by lia. rewrite !drop_ge by lia. by rewrite !take_nil.
  - rewrite (Z.min_l lo) by lia.
    destruct (decide (hi <= Z.of_nat (length b))%Z) as [Hh|Hh].
    + rewrite Z.min_l by lia. f_equal. lia.
    + rewrite Z.min_r by lia. rewrite !take_ge; [done|rewrite length_drop; lia..].
Qed.

Lemma chunk_at_take_drop (b : list byte) (j : nat) :
  chunk_at b j = take (Z.to_nat CHUNK_SIZE) (drop (j * Z.to_nat CHUNK_SIZE) b).
Proof.
  unfold chunk_at. pose proof CHUNK_SIZE_pos as Hc.
  rewrite slice_take_drop by nia.
  replace (Z.of_nat j * CHUNK_SIZE + CHUNK_SIZE - Z.of_nat j * CHUNK_SIZE)%Z
    with CHUNK_SIZE by lia.
  replace (Z.to_nat (Z.of_nat j * CHUNK_SIZE)) with (j * Z.to_nat CHUNK_SIZE) by nia.
  reflexivity.
Qed.

Lemma concat_chunks_prefix (b : list byte) (n : nat) :
  concat (map (chunk_at b) (seq 0 n)) = take (n * Z.to_nat CHUNK_SIZE) b.
Proof.
  induction n as [|n IH]; [done|].
  rewrite seq_S, map_app, concat_app, IH. simpl. rewrite app_nil_r, chunk_at_take_drop.
  rewrite take_take_drop. f_equal. lia.
Qed.

Lemma nchunks_covers (b : list byte) : length b <= nchunks b * Z.to_nat CHUNK_SIZE.
Proof.
  unfold nchunks. pose proof CHUNK_SIZE_pos as Hc.
  pose proof (ceil_div_nonneg (Z.of_nat (length b)) CHUNK_SIZE Hc ltac:(lia)) as Hn.
  destruct (ceil_div_spec (Z.of_nat (length b)) CHUNK_SIZE Hc ltac:(lia)) as [H|[H0 H1]]; nia.
Qed.

Lemma concat_chunks (b : list byte) : concat (chunks b) = b.
Proof.
  unfold chunks. rewrite concat_chunks_prefix. apply take_ge, nchunks_covers.
Qed.

Lemma length_chunks (b : list byte) : length (chunks b) = nchunks b.
Proof. unfold chunks. by rewrite length_map, length_seq. Qed.

Lemma length_chunk_at (b : list byte) (j : nat) :
  j < nchunks b ->
  Z.of_nat (length (chunk_at b j)) =
  if decide (S j = nchunks b)
  then (Z.of_nat (length b) - Z.of_nat j * CHUNK_SIZE)%Z
  else CHUNK_SIZE.
Proof.
  intros Hj. rewrite chunk_at_take_drop, length_take, length_drop.
  pose proof CHUNK_SIZE_pos as Hc.
  pose proof (proj2 (loop_condition b j) Hj) as Hlo.
  destruct (decide (S j = nchunks b)) as [Hl|Hl].
  - apply (last_condition b j Hj) in Hl. nia.
  - assert (Hs : S j < nchunks b) by lia. apply loop_condition in Hs. nia.
Qed.

(** ** Arrays with holes *)

Lemma length_sparse_set {A} (l : sparse A) i v :
  length (sparse_set l i v) = max (length l) (S i).
Proof.
  unfold sparse_set. destruct (decide (i < length l)).
  - rewrite length_insert. lia.
  - rewrite !length_app, length_replicate. simpl. lia.
Qed.

Lemma lookup_sparse_set {A} (l : sparse A) i v k :
  sparse_set l i v !! k =
  if decide (k = i) then Some (Some v)
  else if decide (k < length l) then l !! k
  else if decide (k < i) then Some None
  else None.
Proof.
  unfold sparse_set. destruct (decide (i < length l)) as [Hi|Hi].
  - destruct (decide (k = i)) as [->|Hk].
    + by rewrite list_lookup_insert_eq.
    + rewrite list_lookup_insert_ne by done.
      destruct (decide (k < length l)); [done|].
      rewrite lookup_ge_None_2 by lia. destruct (decide (k < i)); [lia|done].
  - destruct (decide (k < length l)) as [Hk|Hk].
    + rewrite lookup_app_l by done. destruct (decide (k = i)); [lia|done].
    + rewrite lookup_app_r by lia.
      destruct (decide (k = i)) as [->|Hne].
      * rewrite lookup_app_r by (rewrite length_replicate; lia).
        rewrite length_replicate. by replace (i - length l - (i - length l)) with 0 by lia.
      * destruct (decide (k < i)) as [Hlt|Hge].
        -- rewrite lookup_app_l by (rewrite length_replicate; lia).
           apply lookup_replicate_2. lia.
        -- rewrite lookup_app_r by (rewrite length_replicate; lia).
           rewrite length_replicate. apply lookup_ge_None_2. simpl. lia.
Qed.

Lemma sparse_get_set_eq {A} (l : sparse A) i v : sparse_get (sparse_set l i v) i = Some v.
Proof. unfold sparse_get. rewrite lookup_sparse_set, decide_True by done. done. Qed.

Lemma sparse_get_set_ne {A} (l : sparse A) i v k :
  k ≠ i -> sparse_get (sparse_set l i v) k = sparse_get l k.
Proof.
  intros Hk. unfold sparse_get. rewrite lookup_sparse_set, decide_False by done.
  destruct (decide (k < length l)); [done|].
  rewrite (lookup_ge_None_2 l k) by lia. by destruct (decide (k < i)).
Qed.

Lemma sparse_set_set {A} (l : sparse A) i v w :
  sparse_set (sparse_set l i v) i w = sparse_set l i w.
Proof.
  apply list_eq. intros k. rewrite !lookup_sparse_set, !length_sparse_set.
  repeat case_decide; try done; try lia.
Qed.

Lemma sparse_set_comm {A} (l : sparse A) i j v w :
  i ≠ j -> sparse_set (sparse_set l i v) j w = sparse_set (sparse_set l j w) i v.
Proof.
  intros Hne. apply list_eq. intros k. rewrite !lookup_sparse_set, !length_sparse_set.
  repeat case_decide; try done; try lia.
Qed.

Lemma sparse_set_end {A} (l : sparse A) v : sparse_set l (length l) v = l ++ [Some v].
Proof.
  unfold sparse_set. rewrite decide_False by lia.
  by replace (length l - length l) with 0 by lia.
Qed.

Lemma sparse_get_beyond {A} (l : sparse A) k : length l <= k -> sparse_get l k = None.
Proof. intros H. unfold sparse_get. by rewrite lookup_ge_None_2. Qed.

(** What [handleRelayChunk] does to [fileChunks]. *)
Definition store (fc : sparse (sparse (list byte))) (fi ci : nat) (d : list byte)
  : sparse (sparse (list byte)) :=
  sparse_set fc fi (sparse_set (default [] (sparse_get fc fi)) ci d).

Lemma store_handleRelayChunk (fc : sparse (sparse (list byte))) fi ci d :
  (let fc1 := match sparse_get fc fi with
              | Some _ => fc
              | None => sparse_set fc fi []
              end in
   sparse_set fc1 fi (sparse_set (default [] (sparse_get fc1 fi)) ci d)) = store fc fi ci d.
Proof.
  unfold store. simpl. destruct (sparse_get fc fi) as [row|] eqn:E; simpl.
  - by rewrite E.
  - by rewrite sparse_get_set_eq, sparse_set_set.
Qed.

Lemma sparse_get_store_eq fc fi ci d :
  sparse_get (store fc fi ci d) fi = Some (sparse_set (default [] (sparse_get fc fi)) ci d).
Proof. apply sparse_get_set_eq. Qed.

Lemma sparse_get_store_ne fc fi ci d k :
  k ≠ fi -> sparse_get (store fc fi ci d) k = sparse_get fc k.
Proof. apply sparse_get_set_ne. Qed.

Lemma store_comm fc fi ci d fi' ci' d' :
  (fi, ci) ≠ (fi', ci') ->
  store (store fc fi ci d) fi' ci' d' = store (store fc fi' ci' d') fi ci d.
Proof.
  intros Hne. unfold store at 1 3. destruct (decide (fi = fi')) as [<-|Hf].
  - rewrite !sparse_get_store_eq. simpl. unfold store. rewrite !sparse_set_set.
    f_equal. apply sparse_set_comm. congruence.
  - rewrite !sparse_get_store_ne by done. unfold store. by apply sparse_set_comm.
Qed.

Lemma length_store fc fi ci d : length (store fc fi ci d) = max (length fc) (S fi).
Proof. apply length_sparse_set. Qed.

Lemma Blob_dense (l : list (list byte)) : Blob (map Some l) = concat l.
Proof. unfold Blob. by rewrite map_map, map_id. Qed.

(** ** The relay path: what the sender emits *)

(** The fields of a [relay-chunk] payload. *)
Record Envelope := mkEnvelope {
  e_file : nat;
  e_chunk : nat;
  e_data : string;
  e_last : bool }.

Definition relay_msg (peer tid : string) (e : Envelope) : Msg :=
  mkMsg "relay-chunk"
    (Some (RelayChunkP tid (e_file e) (e_chunk e) (e_data e) (e_last e)))
    (truthy (Some peer)).

Definition send_envelope (peer tid : string) (w : WebSocketManager.t) (e : Envelope)
  : WebSocketManager.t :=
  sendRelayChunk peer tid (e_file e) (e_chunk e) (e_data e) (e_last e) w.

Definition envelope_of (nfiles fi : nat) (b : list byte) (j : nat) : Envelope :=
  mkEnvelope fi j (arrayBufferToBase64 (chunk_at b j))
    (bool_decide (Z.of_nat fi = Z.of_nat nfiles - 1)%Z && bool_decide (S j = nchunks b)).

Definition file_envelopes (nfiles fi : nat) (b : list byte) : list Envelope :=
  map (envelope_of nfiles fi b) (seq 0 (nchunks b)).

Fixpoint envelopes_from (files : list File) (nfiles fi : nat) : list Envelope :=
  match files with
  | [] => []
  | f :: rest => file_envelopes nfiles fi (f_content f) ++ envelopes_from rest nfiles (S fi)
  end.

Lemma relayChunks_ws file nfiles fi t m (k j : nat) :
  j + k = nchunks (f_content file) ->
  wsManager (relayChunks file nfiles fi (Z.of_nat j * CHUNK_SIZE) j t m).2 =
  foldl (send_envelope (o_peerId t) (o_id t)) (wsManager m)
    (map (envelope_of nfiles fi (f_content file)) (seq j k)).
Proof.
  revert j t m. induction k as [|k IH]; intros j t m Hn; rewrite relayChunks_step.
  - rewrite decide_False; [done|]. unfold f_size. rewrite loop_condition. lia.
  - rewrite decide_True by (unfold f_size; rewrite loop_condition; lia).
    cbv zeta.
    replace (Z.of_nat j * CHUNK_SIZE + CHUNK_SIZE)%Z with (Z.of_nat (S j) * CHUNK_SIZE)%Z
      by lia.
    rewrite IH by lia. simpl. f_equal. unfold send_envelope, envelope_of. simpl.
    replace (Z.of_nat (S j) * CHUNK_SIZE)%Z with (Z.of_nat j * CHUNK_SIZE + CHUNK_SIZE)%Z
      by lia.
    fold (chunk_at (f_content file) j).
    assert (E : bool_decide (Z.of_nat j * CHUNK_SIZE + CHUNK_SIZE >= f_size file)%Z
                = bool_decide (S j = nchunks (f_content file))).
    { apply bool_decide_ext. unfold f_size. apply last_condition. lia. }
    by rewrite E.
Qed.

Lemma relayFiles_ws files nfiles fi t m :
  wsManager (relayFiles files nfiles fi t m).2 =
  foldl (send_envelope (o_peerId t) (o_id t)) (wsManager m) (envelopes_from files nfiles fi).
Proof.
  revert fi t m. induction files as [|file rest IH]; intros fi t m; simpl; [done|].
  pose proof (relayChunks_ws file nfiles fi (set_o_currentFileIndex fi t) m
                (nchunks (f_content file)) 0 eq_refl) as Hws.
  pose proof (relayChunks_frame file nfiles fi 0 0 (set_o_currentFileIndex fi t) m) as Hfr.
  change (Z.of_nat 0 * CHUNK_SIZE)%Z with 0%Z in Hws.
  destruct (relayChunks _ _ _ _ _ _ _) as [t2 m2]. simpl in *.
  destruct Hfr as (Hid & Hpeer & _). simpl in *.
  rewrite IH, Hid, Hpeer, Hws, foldl_app. done.
Qed.

Lemma sendViaRelay_ws t m :
  wsManager (sendViaRelay t m) =
  foldl (send_envelope (o_peerId t) (o_id t)) (wsManager m)
    (envelopes_from (o_files t) (length (o_files t)) 0).
Proof.
  unfold sendViaRelay.
  pose proof (relayFiles_ws (o_files (set_o_status transferring t))
                (length (o_files (set_o_status transferring t))) 0
                (set_o_status transferring t) m) as H.
  destruct (relayFiles _ _ _ _ _) as [t2 m2]. simpl in *. exact H.
Qed.

(** A manager whose signaling channel is connected and has sent nothing. *)
Definition online : Manager := mkManager (onopen WebSocketManager.new) [] [] [] [] [].

(** The envelopes of a transfer, in the order the sender writes them. *)
Definition relayedBy (t : OutTransfer) : list Msg := wire (wsManager (sendViaRelay t online)).

Lemma send_envelopes_online peer tid (w : WebSocketManager.t) es :
  isConnected w = true -> ws w = Some OPEN ->
  wire (foldl (send_envelope peer tid) w es) = wire w ++ map (relay_msg peer tid) es.
Proof.
  revert w. induction es as [|e es IH]; intros w Hc Ho; simpl.
  - by rewrite app_nil_r.
  - rewrite IH.
    + unfold send_envelope, sendRelayChunk, send. rewrite Hc, Ho. simpl.
      by rewrite <- app_assoc.
    + unfold send_envelope, sendRelayChunk, send. rewrite Hc, Ho. done.
    + unfold send_envelope, sendRelayChunk, send. rewrite Hc, Ho. done.
Qed.

Lemma relayedBy_envelopes t :
  relayedBy t =
  map (relay_msg (o_peerId t) (o_id t)) (envelopes_from (o_files t) (length (o_files t)) 0).
Proof. unfold relayedBy. rewrite sendViaRelay_ws. by rewrite send_envelopes_online. Qed.

(** Only the last chunk of the last file is flagged: an envelope of file
    [fi] is flagged exactly when [fi] is the last index and the chunk is the
    last of the file. *)
Lemma envelopes_from_last files nfiles fi e :
  e ∈ envelopes_from files nfiles fi ->
  fi <= e_file e < fi + length files /\
  exists f, files !! (e_file e - fi) = Some f /\
    e_chunk e < nchunks (f_content f) /\
    e_data e = arrayBufferToBase64 (chunk_at (f_content f) (e_chunk e)) /\
    e_last e = bool_decide (Z.of_nat (e_file e) = Z.of_nat nfiles - 1)%Z
               && bool_decide (S (e_chunk e) = nchunks (f_content f)).
Proof.
  revert fi. induction files as [|f rest IH]; intros fi; simpl; [by intros ?%elem_of_nil|].
  rewrite elem_of_app. intros [He|He].
  - apply list_elem_of_fmap in He as (j & -> & Hj). apply elem_of_seq in Hj. simpl.
    split; [lia|]. exists f. replace (fi - fi) with 0 by lia. split; [done|].
    split; [lia|]. done.
  - destruct (IH _ He) as (Hr & f' & Hf' & ?). split; [lia|]. exists f'. split; [|done].
    replace (e_file e - fi) with (S (e_file e - S fi)) by lia. done.
Qed.

(** ** The relay path: what the receiver does *)

(** The receiver takes the messages in the order they arrive. *)
Definition receive (peerId : string) (msgs : list Msg) (m : Manager) : Manager :=
  foldl (fun m' msg => match payload msg with
                       | Some p => onSignal peerId p m'
                       | None => m'
                       end) m msgs.

Definition store_envelope (fc : sparse (sparse (list byte))) (e : Envelope)
  : sparse (sparse (list byte)) :=
  store fc (e_file e) (e_chunk e) (base64ToArrayBuffer (e_data e)).

(** The record of [tid] is live, with these descriptors and these chunks. *)
Definition receiving (m : Manager) (tid : string) (files : list FileInfo)
  (fc : sparse (sparse (list byte))) : Prop :=
  exists t, map_get tid (incomingTransfers m) = Some t /\ i_id t = tid /\
            i_files t = files /\ default [] (i_fileChunks t) = fc.

Definition is_progress (e : Event) : Prop :=
  exists tid a b, e = ReceiveProgress tid a b.

Lemma receive_app peer l1 l2 m : receive peer (l1 ++ l2) m = receive peer l2 (receive peer l1 m).
Proof. unfold receive. by rewrite foldl_app. Qed.

Lemma receive_envelope peer p tid e m :
  receive peer [relay_msg p tid e] m =
  handleRelayChunk peer tid (e_file e) (e_chunk e) (e_data e) (e_last e) m.
Proof. reflexivity. Qed.

Lemma nonlast_step peer tid files fc e m :
  receiving m tid files fc -> e_last e = false ->
  let m' := handleRelayChunk peer tid (e_file e) (e_chunk e) (e_data e) (e_last e) m in
  receiving m' tid files (store_envelope fc e) /\
  (exists t', map_get tid (incomingTransfers m') = Some t' /\ i_status t' = transferring) /\
  downloads m' = downloads m /\
  exists ev, dispatched m' = dispatched m ++ [ev] /\ is_progress ev.
Proof.
  intros (t & Ht & Hid & Hf & Hfc) Hl. unfold handleRelayChunk. rewrite Ht, Hl. simpl.
  split; [|split; [|split]].
  - eexists. split; [apply map_get_set_eq|]. simpl. split; [done|]. split; [done|].
    rewrite Hfc. apply (store_handleRelayChunk fc).
  - eexists. split; [apply map_get_set_eq|]. done.
  - reflexivity.
  - eexists. split; [reflexivity|]. unfold is_progress. eauto.
Qed.

Lemma nonlast_fold peer p tid files es : forall fc m,
  receiving m tid files fc -> Forall (fun e => e_last e = false) es ->
  let m' := receive peer (map (relay_msg p tid) es) m in
  receiving m' tid files (foldl store_envelope fc es) /\
  downloads m' = downloads m /\
  (exists evs, dispatched m' = dispatched m ++ evs /\ Forall is_progress evs) /\
  (es ≠ [] -> exists t', map_get tid (incomingTransfers m') = Some t' /\
                         i_status t' = transferring).
Proof.
  induction es as [|e es IH] using rev_ind; intros fc m Hr Hall; simpl.
  - split; [done|]. split; [done|]. split; [|done]. exists []. by rewrite app_nil_r.
  - apply Forall_app in Hall as [Hall He]. apply Forall_inv in He.
    rewrite map_app, receive_app, foldl_app. cbn [map foldl].
    destruct (IH fc m Hr Hall) as (Hr' & Hd' & (evs & Hev & Hp) & _).
    rewrite receive_envelope.
    destruct (nonlast_step peer tid files _ e _ Hr' He) as (Hr2 & Hs2 & Hd2 & ev & Hev2 & Hp2).
    split; [exact Hr2|]. split; [congruence|]. split; [|intros _; exact Hs2].
    exists (evs ++ [ev]). split.
    + rewrite Hev2, Hev. by rewrite <- app_assoc.
    + apply Forall_app. split; [done|by apply Forall_singleton].
Qed.

Lemma saveAll_downloads (fc : sparse (sparse (list byte))) (files : list FileInfo)
  (m : Manager) :
  let m' := foldl (fun m' '(i, fileInfo) =>
                     downloadBlob (Blob (default [] (sparse_get fc i))) (fi_name fileInfo) m')
              m (imap (fun i fileInfo => (i, fileInfo)) files) in
  downloads m' = downloads m ++
    imap (fun i info => (fi_name info, Blob (default [] (sparse_get fc i)))) files /\
  incomingTransfers m' = incomingTransfers m /\ dispatched m' = dispatched m /\
  outgoingTransfers m' = outgoingTransfers m /\ wsManager m' = wsManager m /\
  channelOut m' = channelOut m.
Proof.
  induction files as [|f files IH] using rev_ind; simpl.
  - by rewrite app_nil_r.
  - rewrite !imap_app, foldl_app. simpl in *.
    destruct IH as (Hd & ? & ? & ? & ? & ?).
    split; [|done]. rewrite Hd. rewrite Nat.add_0_r. by rewrite <- app_assoc.
Qed.

Lemma last_step peer tid files fc e m :
  receiving m tid files fc -> e_last e = true ->
  let m' := handleRelayChunk peer tid (e_file e) (e_chunk e) (e_data e) (e_last e) m in
  downloads m' = downloads m ++
    imap (fun i info => (fi_name info,
                         Blob (default [] (sparse_get (store_envelope fc e) i)))) files /\
  map_get tid (incomingTransfers m') = None /\
  exists ev, dispatched m' = dispatched m ++ [ev; ReceiveComplete tid] /\ is_progress ev.
Proof.
  intros (t & Ht & Hid & Hf & Hfc) Hl. unfold handleRelayChunk. rewrite Ht, Hl.
  cbv zeta. rewrite (store_handleRelayChunk (default [] (i_fileChunks t))), Hfc.
  unfold saveAllRelayedFiles. cbn [i_fileChunks i_files i_id default].
  match goal with |- context [foldl ?f ?m0 (imap ?g ?l)] =>
    pose proof (saveAll_downloads (store fc (e_file e) (e_chunk e) (base64ToArrayBuffer (e_data e)))
                  l m0) as H
  end.
  cbv zeta in H. simpl in H. destruct H as (Hd & Hi & He & _).
  rewrite Hf in *. rewrite Hid in *.
  split; [|split].
  - simpl. exact Hd.
  - simpl. apply map_get_delete_eq.
  - simpl. rewrite He. simpl. eexists. rewrite <- app_assoc. split; [reflexivity|].
    unfold is_progress. eauto.
Qed.

Lemma receive_absent peer p tid es m :
  map_get tid (incomingTransfers m) = None ->
  receive peer (map (relay_msg p tid) es) m = m.
Proof.
  intros H. induction es as [|e es IH]; [done|].
  change (map (relay_msg p tid) (e :: es)) with ([relay_msg p tid e] ++ map (relay_msg p tid) es).
  rewrite receive_app, receive_envelope. unfold handleRelayChunk. rewrite H. exact IH.
Qed.

(** ** The relay path: order of arrival *)

Definition key (e : Envelope) : nat * nat := (e_file e, e_chunk e).

Lemma store_envelope_comm fc e1 e2 :
  key e1 ≠ key e2 ->
  store_envelope (store_envelope fc e1) e2 = store_envelope (store_envelope fc e2) e1.
Proof. intros H. unfold store_envelope. by apply store_comm. Qed.

Lemma foldl_store_perm es es' :
  es ≡ₚ es' -> NoDup (map key es) ->
  forall fc, foldl store_envelope fc es = foldl store_envelope fc es'.
Proof.
  induction 1 as [|e l l' _ IH|e1 e2 l|l1 l2 l3 H12 IH12 H23 IH23]; intros Hnd fc.
  - done.
  - simpl. apply IH. by inversion Hnd.
  - simpl. f_equal. apply store_envelope_comm.
    simpl in Hnd. inversion Hnd as [|? ? Hnotin _]; subst.
    intros Heq. apply Hnotin. rewrite Heq. left.
  - rewrite IH12 by done. apply IH23.
    pose proof (Permutation_map key H12) as Hp. by rewrite <- Hp.
Qed.

Lemma NoDup_keys files nfiles fi : NoDup (map key (envelopes_from files nfiles fi)).
Proof.
  revert fi. induction files as [|f rest IH]; intros fi; simpl; [constructor|].
  rewrite map_app. apply NoDup_app. split; [|split; [|apply IH]].
  - unfold file_envelopes. rewrite map_map.
    apply NoDup_fmap_2_strong; [|apply NoDup_seq].
    intros j1 j2 _ _ [= ->]. done.
  - intros k Hk1 Hk2.
    apply list_elem_of_fmap in Hk1 as (e1 & -> & He1).
    apply list_elem_of_fmap in He1 as (j & -> & _).
    apply list_elem_of_fmap in Hk2 as (e2 & Heq & He2).
    apply envelopes_from_last in He2 as [Hr _].
    unfold key in Heq. simpl in Heq. injection Heq as Hf _. lia.
Qed.

(** Conversion to base64 and back. *)
Hypothesis atob_btoa : forall s, atob (btoa s) = s.

Lemma base64_roundtrip (b : list byte) : base64ToArrayBuffer (arrayBufferToBase64 b) = b.
Proof.
  unfold base64ToArrayBuffer, arrayBufferToBase64, bytes_of_binary, binary_of_bytes.
  rewrite atob_btoa, String.list_ascii_of_string_of_list_ascii, map_map.
  rewrite <- (map_id b) at 2. apply map_ext. intros x. apply byte_of_ascii_of_byte.
Qed.

(** The envelopes of one file, stored in order into a structure that has
    nothing at the index of the file. *)
Lemma build_file_prefix nfiles k (b : list byte) fc (j : nat) :
  length fc <= k ->
  foldl store_envelope fc (map (envelope_of nfiles k b) (seq 0 j)) =
  if decide (j = 0) then fc
  else sparse_set fc k (map Some (map (chunk_at b) (seq 0 j))).
Proof.
  intros Hk. induction j as [|j IH]; [done|].
  rewrite seq_S, !map_app, foldl_app, IH. simpl.
  unfold store_envelope at 1. simpl. rewrite base64_roundtrip. unfold store.
  destruct (decide (j = 0)) as [->|Hj]; simpl.
  - rewrite sparse_get_beyond by done. done.
  - rewrite sparse_get_set_eq, sparse_set_set. simpl. f_equal.
    rewrite <- (sparse_set_end (map Some (map (chunk_at b) (seq 0 j)))).
    by rewrite !length_map, length_seq.
Qed.

Lemma build_file nfiles k (b : list byte) fc :
  length fc <= k ->
  let fc' := foldl store_envelope fc (file_envelopes nfiles k b) in
  default [] (sparse_get fc' k) = map Some (chunks b) /\
  (forall i, i ≠ k -> sparse_get fc' i = sparse_get fc i) /\
  length fc' <= S k.
Proof.
  intros Hk. unfold file_envelopes. simpl. rewrite build_file_prefix by done.
  unfold chunks. destruct (decide (nchunks b = 0)) as [->|Hn].
  - simpl. rewrite sparse_get_beyond by done. split; [done|]. split; [done|lia].
  - rewrite sparse_get_set_eq. split; [done|]. split.
    + intros i Hi. by apply sparse_get_set_ne.
    + rewrite length_sparse_set. lia.
Qed.

Lemma build_files nfiles files : forall k fc,
  length fc <= k ->
  let fc' := foldl store_envelope fc (envelopes_from files nfiles k) in
  (forall i f, files !! i = Some f ->
     default [] (sparse_get fc' (k + i)) = map Some (chunks (f_content f))) /\
  (forall i, i < k -> sparse_get fc' i = sparse_get fc i) /\
  length fc' <= k + length files.
Proof.
  induction files as [|f rest IH]; intros k fc Hk; simpl.
  - split; [intros i f' Hf'; by rewrite lookup_nil in Hf'|]. split; [done|lia].
  - rewrite foldl_app.
    destruct (build_file nfiles k (f_content f) fc Hk) as (Hrow & Hother & Hlen).
    destruct (IH (S k) _ Hlen) as (Hrows & Hkeep & Hlen').
    split; [|split].
    + intros [|i] f' Hf'; simpl in Hf'.
      * injection Hf' as <-. rewrite Nat.add_0_r, Hkeep by lia. exact Hrow.
      * replace (k + S i) with (S k + i) by lia. by apply Hrows.
    + intros i Hi. rewrite Hkeep by lia. apply Hother. lia.
    + simpl in Hlen'. lia.
Qed.

(** The blobs that [saveAllRelayedFiles] makes once every envelope is
    stored are the files. *)
Lemma assembled_files (files : list File) (infos : list FileInfo) fc :
  map fi_name infos = map f_name files ->
  (forall i f, files !! i = Some f ->
     default [] (sparse_get fc i) = map Some (chunks (f_content f))) ->
  imap (fun i info => (fi_name info, Blob (default [] (sparse_get fc i)))) infos =
  map (fun f => (f_name f, f_content f)) files.
Proof.
  intros Hnames Hrows. apply list_eq. intros i.
  rewrite list_lookup_imap, list_lookup_fmap.
  assert (Hn : map fi_name infos !! i = map f_name files !! i) by by rewrite Hnames.
  rewrite !list_lookup_fmap in Hn.
  destruct (infos !! i) as [info|], (files !! i) as [f|] eqn:Ef; simpl in *; try done.
  injection Hn as Hn. rewrite Hn, (Hrows i f Ef), Blob_dense, concat_chunks. done.
Qed.

(** ** The relay path: completion *)

(** A message whose payload is a relay chunk with [isLast] set. *)
Definition flagged (msg : Msg) : Prop :=
  exists tid fi ci d, payload msg = Some (RelayChunkP tid fi ci d true).

Lemma flagged_relay_msg p tid e : flagged (relay_msg p tid e) <-> e_last e = true.
Proof.
  unfold flagged, relay_msg. simpl. split.
  - intros (? & ? & ? & ? & [= _ _ _ _ H]). done.
  - intros H. rewrite H. eauto.
Qed.

Lemma nchunks_nil : nchunks [] = 0.
Proof. unfold nchunks, ceil_div. simpl. by rewrite Z.div_0_l by (pose proof CHUNK_SIZE_pos; lia). Qed.

Lemma flagged_key files e e' :
  e ∈ envelopes_from files (length files) 0 -> e' ∈ envelopes_from files (length files) 0 ->
  e_last e = true -> e_last e' = true -> key e = key e'.
Proof.
  intros He He' Hl Hl'.
  apply envelopes_from_last in He as (_ & f & Hf & _ & _ & Hlast).
  apply envelopes_from_last in He' as (_ & f' & Hf' & _ & _ & Hlast').
  rewrite Hl in Hlast. rewrite Hl' in Hlast'.
  symmetry in Hlast, Hlast'.
  apply andb_true_iff in Hlast as [H1 H2]. apply andb_true_iff in Hlast' as [H1' H2'].
  apply bool_decide_eq_true in H1, H2, H1', H2'.
  assert (Hfile : e_file e = e_file e') by lia.
  rewrite Nat.sub_0_r in Hf, Hf'. rewrite Hfile in Hf.
  assert (f = f') as -> by congruence.
  unfold key. f_equal; lia.
Qed.

Lemma unflagged_others (files : list File) (l1 l2 : list Envelope) (e : Envelope) :
  envelopes_from files (length files) 0 ≡ₚ l1 ++ [e] ++ l2 -> e_last e = true ->
  Forall (fun e' => e_last e' = false) (l1 ++ l2).
Proof.
  intros Hp Hl. pose proof (NoDup_keys files (length files) 0) as Hnd.
  pose proof (Permutation_map key Hp) as Hpk. rewrite Hpk in Hnd.
  rewrite !map_app in Hnd. simpl in Hnd.
  apply NoDup_app in Hnd as (_ & Hdisj & Hnd2).
  apply NoDup_cons in Hnd2 as [Hnot2 _].
  apply Forall_forall. intros e' He'.
  destruct (e_last e') eqn:El'; [exfalso|done].
  assert (Hk : key e' = key e).
  { apply (flagged_key files); try done; rewrite Hp.
    - rewrite !elem_of_app. apply elem_of_app in He' as [?|?]; auto.
    - rewrite !elem_of_app. right. left. apply list_elem_of_singleton. done. }
  apply elem_of_app in He' as [He'|He'].
  - apply (Hdisj (key e')); [by apply list_elem_of_fmap_2|]. rewrite Hk. left.
  - apply Hnot2. rewrite <- Hk. by apply list_elem_of_fmap_2.
Qed.

(** ** The relay path: what is saved *)

(** The chunk indices of file [fi] among the messages taken, in the order
    they were taken. *)
Definition chunks_arrived (fi : nat) (msgs : list Msg) : list nat :=
  omap (fun msg => match payload msg with
                   | Some (RelayChunkP _ fileIndex chunkIndex _ _) =>
                       if decide (fileIndex = fi) then Some chunkIndex else None
                   | _ => None
                   end) msgs.

(** The length of the array of chunks of a file: one more than the highest
    index assigned. *)
Definition slots (got : list nat) : nat := max_list_with S got.

(** What the receiver saves of a content [b] when the chunks with the
    indices [got] are stored: the array of chunks read in index order, a
    hole among them as the text "undefined". *)
Definition saved_with (b : list byte) (got : list nat) : list byte :=
  concat (map (fun j => if decide (j ∈ got) then chunk_at b j else undefined_bytes)
            (seq 0 (slots got))).

(** The array of chunks of a file once the indices [got] are assigned. *)
Definition row_of (data : nat -> list byte) (got : list nat) : sparse (list byte) :=
  map (fun j => if decide (j ∈ got) then Some (data j) else None) (seq 0 (slots got)).

Lemma slots_app (got : list nat) (c : nat) : slots (got ++ [c]) = max (slots got) (S c).
Proof. unfold slots. induction got as [|j got IH]; simpl; [lia|]. rewrite IH. lia. Qed.

Lemma elem_slots (k : nat) (got : list nat) : k ∈ got -> k < slots got.
Proof. unfold slots. induction 1; simpl; lia. Qed.

Lemma length_row_of data got : length (row_of data got) = slots got.
Proof. unfold row_of. by rewrite length_map, length_seq. Qed.

Lemma lookup_row_of data got k :
  row_of data got !! k =
  if decide (k ∈ got) then Some (Some (data k))
  else if decide (k < slots got) then Some None
  else None.
Proof.
  unfold row_of. rewrite list_lookup_fmap.
  destruct (decide (k < slots got)) as [Hk|Hk].
  - rewrite lookup_seq_lt by done. simpl. by destruct (decide (k ∈ got)).
  - rewrite lookup_seq_ge by lia. simpl.
    destruct (decide (k ∈ got)) as [Hin|]; [|done]. apply elem_slots in Hin. lia.
Qed.

Lemma row_of_set data got c :
  sparse_set (row_of data got) c (data c) = row_of data (got ++ [c]).
Proof.
  apply list_eq. intros k.
  rewrite lookup_sparse_set, !lookup_row_of, length_row_of, slots_app.
  destruct (decide (k = c)) as [->|Hne].
  - rewrite (decide_True (P := c ∈ got ++ [c])) by set_solver. done.
  - destruct (decide (k ∈ got)) as [Hin|Hin].
    + pose proof (elem_slots _ _ Hin).
      rewrite decide_True by done. rewrite (decide_True (P := k ∈ got ++ [c])) by set_solver.
      done.
    + rewrite (decide_False (P := k ∈ got ++ [c])) by set_solver.
      repeat case_decide; try done; lia.
Qed.

Lemma Blob_row_of (b : list byte) got : Blob (row_of (chunk_at b) got) = saved_with b got.
Proof.
  unfold Blob, row_of, saved_with. rewrite map_map. f_equal. apply map_ext.
  intros j. by destruct (decide (j ∈ got)).
Qed.

Lemma chunks_arrived_envelope fi p tid e :
  chunks_arrived fi [relay_msg p tid e] = if decide (e_file e = fi) then [e_chunk e] else [].
Proof. unfold chunks_arrived. simpl. by destruct (decide (e_file e = fi)). Qed.

(** The rows of [fileChunks] once the envelopes [es] are stored: the data of
    an envelope is given by its file and chunk index. *)
Lemma stored_rows (data : nat -> nat -> list byte) p tid es :
  Forall (fun e => base64ToArrayBuffer (e_data e) = data (e_file e) (e_chunk e)) es ->
  forall i, default [] (sparse_get (foldl store_envelope [] es) i) =
            row_of (data i) (chunks_arrived i (map (relay_msg p tid) es)).
Proof.
  induction es as [|e es IH] using rev_ind; intros Hall i.
  - done.
  - apply Forall_app in Hall as [Hall He]. apply Forall_inv in He.
    rewrite foldl_app, map_app. unfold chunks_arrived at 1. rewrite omap_app.
    fold (chunks_arrived i (map (relay_msg p tid) es)).
    fold (chunks_arrived i (map (relay_msg p tid) [e])).
    cbn [foldl map]. rewrite chunks_arrived_envelope.
    unfold store_envelope at 1. rewrite He.
    destruct (decide (e_file e = i)) as [<-|Hne].
    + rewrite sparse_get_store_eq. cbn [default from_option id].
      rewrite (IH Hall). apply row_of_set.
    + rewrite sparse_get_store_ne by done. rewrite app_nil_r. by apply IH.
Qed.

(** The blobs that [saveAllRelayedFiles] makes of the envelopes stored so
    far. *)
Lemma saved_blobs (files : list File) (infos : list FileInfo) p tid es :
  map fi_name infos = map f_name files ->
  Forall (fun e => e ∈ envelopes_from files (length files) 0) es ->
  imap (fun i info =>
          (fi_name info, Blob (default [] (sparse_get (foldl store_envelope [] es) i)))) infos =
  imap (fun i f =>
          (f_name f, saved_with (f_content f) (chunks_arrived i (map (relay_msg p tid) es))))
    files.
Proof.
  intros Hnames Hall.
  set (data := fun i j => chunk_at (default [] (f_content <$> files !! i)) j).
  assert (Hdata : Forall (fun e => base64ToArrayBuffer (e_data e) =
                                   data (e_file e) (e_chunk e)) es).
  { eapply Forall_impl; [exact Hall|]. intros e He. simpl in He.
    apply envelopes_from_last in He as (_ & f & Hf & _ & Hd & _).
    rewrite Nat.sub_0_r in Hf. unfold data. rewrite Hf, Hd. simpl.
    apply base64_roundtrip. }
  apply list_eq. intros i. rewrite !list_lookup_imap.
  assert (Hn : map fi_name infos !! i = map f_name files !! i) by by rewrite Hnames.
  rewrite !list_lookup_fmap in Hn.
  destruct (infos !! i) as [info|], (files !! i) as [f|] eqn:Ef; simpl in *; try done.
  injection Hn as Hn. rewrite Hn, (stored_rows data p tid es Hdata i).
  unfold data. rewrite Ef. simpl. by rewrite Blob_row_of.
Qed.

(** C3, as the code has it.  The envelopes of a relayed transfer arrive in
    any order, [pre] before the flagged one and [post] after it.  Nothing
    completes while [pre] is taken: no file is saved and the record stays.
    Taking the flagged envelope completes the transfer, whatever its
    position: one blob per file is saved, [receive-complete] is raised and
    the record is released.  The envelopes of [post] then find no record and
    are ignored.  Each file is saved from the chunks that have arrived by
    then, [pre] and the flagged one: they are read in chunk-index order up
    to the highest index arrived for the file, a chunk below it that has not
    arrived reads as the text "undefined", and a file without a chunk is
    saved empty.  When the flagged envelope arrives last, every saved file
    is the concatenation of its chunks in chunk-index order, which is the
    sender's content. *)
Theorem relay_completes_on_flag (t : OutTransfer) (mr : Manager) (tr : InTransfer)
  (sender : string) (pre post : list Msg) (final : Msg) :
  map_get (o_id t) (incomingTransfers mr) = Some tr -> i_id tr = o_id t ->
  i_fileChunks tr = None ->
  map fi_name (i_files tr) = map f_name (o_files t) ->
  pre ++ [final] ++ post ≡ₚ relayedBy t -> flagged final ->
  let m1 := receive sender pre mr in
  let m2 := receive sender [final] m1 in
  let m3 := receive sender post m2 in
  (downloads m1 = downloads mr /\
   is_Some (map_get (o_id t) (incomingTransfers m1)) /\
   exists evs, dispatched m1 = dispatched mr ++ evs /\ Forall is_progress evs) /\
  (map_get (o_id t) (incomingTransfers m2) = None /\
   (exists ev, dispatched m2 = dispatched m1 ++ [ev; ReceiveComplete (o_id t)] /\
               is_progress ev) /\
   downloads m2 = downloads mr ++
     imap (fun i f => (f_name f,
                       saved_with (f_content f) (chunks_arrived i (pre ++ [final]))))
       (o_files t)) /\
  m3 = m2 /\
  (post = [] ->
   downloads m2 = downloads mr ++ map (fun f => (f_name f, f_content f)) (o_files t)).
Proof.
  intros Htr Hid Hfc Hnames Hperm Hflag m1 m2 m3. subst m1 m2 m3.
  rewrite relayedBy_envelopes in Hperm.
  apply Permutation_map_inv in Hperm as (E' & Hmap & Hperm).
  symmetry in Hmap. apply fmap_app_inv in Hmap as (Epre & Erest & -> & Hrest & ->).
  symmetry in Hrest. apply fmap_app_inv in Hrest as (Efin & Epost & Hfin & -> & ->).
  destruct Efin as [|efinal [|]]; try discriminate Hfin. injection Hfin as ->.
  change (relay_msg (o_peerId t) (o_id t) <$> Epre)
    with (map (relay_msg (o_peerId t) (o_id t)) Epre) in *.
  change (relay_msg (o_peerId t) (o_id t) <$> Epost)
    with (map (relay_msg (o_peerId t) (o_id t)) Epost) in *.
  apply flagged_relay_msg in Hflag.
  pose proof (unflagged_others _ _ _ _ Hperm Hflag) as Hun.
  apply Forall_app in Hun as [Hpre Hpost].
  assert (Hrec : receiving mr (o_id t) (i_files tr) []).
  { exists tr. rewrite Hfc. auto. }
  destruct (nonlast_fold sender (o_peerId t) (o_id t) (i_files tr) Epre [] mr Hrec Hpre)
    as (Hrec1 & Hd1 & Hev1 & _).
  set (m1 := receive sender (map (relay_msg (o_peerId t) (o_id t)) Epre) mr) in *.
  rewrite receive_envelope.
  destruct (last_step sender (o_id t) (i_files tr) _ efinal m1 Hrec1 Hflag)
    as (Hd2 & Habs2 & Hev2).
  set (m2 := handleRelayChunk sender (o_id t) (e_file efinal) (e_chunk efinal)
               (e_data efinal) (e_last efinal) m1) in *.
  change (store_envelope (foldl store_envelope [] Epre) efinal)
    with (foldl store_envelope (foldl store_envelope [] Epre) [efinal]) in Hd2.
  rewrite <- foldl_app in Hd2.
  split; [|split; [|split]].
  - split; [done|]. split; [|done]. destruct Hrec1 as (t1 & Ht1 & _). eauto.
  - split; [done|]. split; [done|]. rewrite Hd2, Hd1. f_equal.
    change (map (relay_msg (o_peerId t) (o_id t)) Epre ++ [relay_msg (o_peerId t) (o_id t) efinal])
      with (map (relay_msg (o_peerId t) (o_id t)) Epre
            ++ map (relay_msg (o_peerId t) (o_id t)) [efinal]).
    rewrite <- map_app. apply saved_blobs; [done|].
    apply Forall_forall. intros e He. rewrite Hperm.
    rewrite !elem_of_app. apply elem_of_app in He as [He|He]; auto.
  - by apply receive_absent.
  - intros Hnil. apply fmap_nil_inv in Hnil. subst Epost.
    rewrite Hd2, Hd1. f_equal.
    apply assembled_files; [done|]. intros i f Hf.
    rewrite <- (foldl_store_perm _ _ Hperm (NoDup_keys _ _ _)).
    destruct (build_files (length (o_files t)) (o_files t) 0 [] ltac:(simpl; lia))
      as (Hrows & _). by apply Hrows.
Qed.

(** C10: when the last file of a relayed transfer is empty, no envelope of
    the transfer is flagged and none belongs to the last file; whatever
    envelopes of the transfer arrive, in whatever order and however often,
    the receiver saves nothing, raises only progress events and keeps the
    record, which is never completed. *)
Theorem empty_last_file_never_completes (t : OutTransfer) (mr : Manager) (tr : InTransfer)
  (sender : string) (f : File) (arrived : list Msg) :
  last (o_files t) = Some f -> f_size f = 0%Z ->
  map_get (o_id t) (incomingTransfers mr) = Some tr -> i_id tr = o_id t ->
  Forall (fun msg => msg ∈ relayedBy t) arrived ->
  Forall (fun msg => ¬ flagged msg /\
            exists fi ci d, payload msg = Some (RelayChunkP (o_id t) fi ci d false) /\
                            S fi ≠ length (o_files t)) (relayedBy t) /\
  let mr' := receive sender arrived mr in
  downloads mr' = downloads mr /\
  (exists tr', map_get (o_id t) (incomingTransfers mr') = Some tr' /\
               (arrived ≠ [] -> i_status tr' = transferring) /\
               (arrived = [] -> tr' = tr)) /\
  exists evs, dispatched mr' = dispatched mr ++ evs /\ Forall is_progress evs.
Proof.
  intros Hlast Hsize Htr Hid Harr.
  assert (Hempty : nchunks (f_content f) = 0).
  { unfold f_size in Hsize. destruct (f_content f); [apply nchunks_nil|discriminate]. }
  rewrite last_lookup in Hlast.
  assert (Hun : forall e, e ∈ envelopes_from (o_files t) (length (o_files t)) 0 ->
                  e_last e = false /\ S (e_file e) ≠ length (o_files t)).
  { intros e He. apply envelopes_from_last in He as (Hr & f' & Hf' & Hc & _ & Hl).
    rewrite Nat.sub_0_r in Hf'.
    assert (Hne : S (e_file e) ≠ length (o_files t)).
    { intros Heq. replace (pred (length (o_files t))) with (e_file e) in Hlast by lia.
      assert (f' = f) as -> by congruence. lia. }
    split; [|done]. rewrite Hl. apply andb_false_iff. left.
    apply bool_decide_eq_false. lia. }
  split.
  { rewrite relayedBy_envelopes. apply Forall_forall. intros msg Hmsg.
    apply list_elem_of_fmap in Hmsg as (e & -> & He). destruct (Hun e He) as [Hl Hne].
    split; [rewrite flagged_relay_msg; congruence|].
    exists (e_file e), (e_chunk e), (e_data e). simpl. rewrite Hl. done. }
  assert (Hes : exists es, arrived = map (relay_msg (o_peerId t) (o_id t)) es /\
                           Forall (fun e => e_last e = false) es).
  { clear -Harr Hun. induction arrived as [|msg rest IH].
    - exists []. split; [done|constructor].
    - apply Forall_cons in Harr as [Hmsg Hrest]. destruct (IH Hrest) as (es & -> & Hall).
      rewrite relayedBy_envelopes in Hmsg.
      apply list_elem_of_fmap in Hmsg as (e & -> & He).
      exists (e :: es). split; [done|]. constructor; [|done]. by apply Hun. }
  destruct Hes as (es & -> & Hall). simpl.
  assert (Hrec : receiving mr (o_id t) (i_files tr) (default [] (i_fileChunks tr))).
  { exists tr. auto. }
  destruct (nonlast_fold sender (o_peerId t) (o_id t) (i_files tr) es _ mr Hrec Hall)
    as ((tr' & Htr' & _) & Hd & Hev & Hst).
  split; [done|]. split; [|done].
  destruct es as [|e es].
  - exists tr. simpl. split; [done|]. split; [done|done].
  - destruct Hst as (tr2 & Htr2 & Hs2); [done|]. exists tr2. split; [done|].
    split; [done|]. intros H; discriminate H.
Qed.

(** ** The direct path: what the sender emits *)

Definition chunk_frames (fi : nat) (b : list byte) : list Frame :=
  map (fun j => createChunkMessage fi j (chunk_at b j)) (seq 0 (nchunks b)).

Definition file_frames (tid : string) (fi : nat) (f : File) : list Frame :=
  createMetadataMessage
    (mkMetadata tid fi (f_name f) (f_size f) (f_type f) (ceil_div (f_size f) CHUNK_SIZE))
  :: chunk_frames fi (f_content f).

Fixpoint frames_from (tid : string) (files : list File) (fi : nat) : list Frame :=
  match files with
  | [] => []
  | f :: rest => file_frames tid fi f ++ frames_from tid rest (S fi)
  end.

(** The frames of a transfer, in the order the sender writes them. *)
Definition direct_frames (t : OutTransfer) : list Frame :=
  frames_from (o_id t) (o_files t) 0 ++ [createCompleteMessage (o_id t)].

Lemma directChunks_out file fi t m (k j : nat) :
  j + k = nchunks (f_content file) ->
  channelOut (directChunks file fi (Z.of_nat j * CHUNK_SIZE) j t m).2 =
  channelOut m ++
  map (fun j' => (o_peerId t, createChunkMessage fi j' (chunk_at (f_content file) j')))
    (seq j k).
Proof.
  revert j t m. induction k as [|k IH]; intros j t m Hn; rewrite directChunks_step.
  - rewrite decide_False; [by rewrite app_nil_r|]. unfold f_size. rewrite loop_condition. lia.
  - rewrite decide_True by (unfold f_size; rewrite loop_condition; lia).
    cbv zeta.
    replace (Z.of_nat j * CHUNK_SIZE + CHUNK_SIZE)%Z with (Z.of_nat (S j) * CHUNK_SIZE)%Z
      by lia.
    rewrite IH by lia. simpl. rewrite <- app_assoc. simpl.
    replace (Z.of_nat (S j) * CHUNK_SIZE)%Z with (Z.of_nat j * CHUNK_SIZE + CHUNK_SIZE)%Z
      by lia.
    reflexivity.
Qed.

Lemma directFiles_out files fi t m :
  channelOut (directFiles files fi t m).2 =
  channelOut m ++ map (pair (o_peerId t)) (frames_from (o_id t) files fi).
Proof.
  revert fi t m. induction files as [|file rest IH]; intros fi t m; simpl.
  - by rewrite app_nil_r.
  - match goal with |- context [directChunks file fi 0 0 ?t1 ?m1] =>
      pose proof (directChunks_out file fi t1 m1 (nchunks (f_content file)) 0 eq_refl) as Hout;
      pose proof (directChunks_frame file fi 0 0 t1 m1) as Hfr
    end.
    change (Z.of_nat 0 * CHUNK_SIZE)%Z with 0%Z in Hout.
    destruct (directChunks _ _ _ _ _ _) as [t2 m2]. simpl in *.
    destruct Hfr as (Hid & Hpeer & _). simpl in *.
    rewrite IH, Hid, Hpeer, Hout. unfold chunk_frames.
    rewrite map_app, !map_map, <- !app_assoc. reflexivity.
Qed.

Lemma sendViaDataChannel_out t m :
  channelOut (sendViaDataChannel t m) =
  channelOut m ++ map (pair (o_peerId t)) (direct_frames t).
Proof.
  unfold sendViaDataChannel, direct_frames.
  pose proof (directFiles_out (o_files (set_o_status transferring t)) 0
                (set_o_status transferring t) m) as H.
  pose proof (directFiles_frame (o_files (set_o_status transferring t)) 0
                (set_o_status transferring t) m) as Hfr.
  destruct (directFiles _ _ _ _) as [t2 m2]. simpl in *.
  destruct Hfr as (Hid & Hpeer & _). simpl in *.
  rewrite H, Hid, Hpeer, map_app, <- app_assoc. reflexivity.
Qed.

(** The sizes of the chunk frames of a file: [CHUNK_SIZE] bytes each, but
    for the last one, which has the rest. *)
Lemma last_chunk_size (b : list byte) :
  b ≠ [] ->
  Z.of_nat (length (chunk_at b (nchunks b - 1))) =
  if decide (Z.of_nat (length b) mod CHUNK_SIZE = 0)%Z then CHUNK_SIZE
  else (Z.of_nat (length b) mod CHUNK_SIZE)%Z.
Proof.
  intros Hb. pose proof CHUNK_SIZE_pos as Hc.
  assert (Hn : 0 < nchunks b).
  { apply loop_condition. destruct b; [done|]. simpl. lia. }
  rewrite length_chunk_at by lia. rewrite decide_True by lia.
  assert (Hlo : nchunks b - 1 < nchunks b) by lia.
  pose proof (proj2 (loop_condition b _) Hlo) as H1.
  pose proof (proj2 (last_condition b _ Hlo) ltac:(lia)) as H2.
  pose proof (Z.div_mod (Z.of_nat (length b)) CHUNK_SIZE ltac:(lia)) as Hdm.
  pose proof (Z.mod_pos_bound (Z.of_nat (length b)) CHUNK_SIZE Hc) as Hm.
  set (k := Z.of_nat (nchunks b - 1)) in *. set (q := (Z.of_nat (length b) / CHUNK_SIZE)%Z) in *.
  destruct (decide _) as [E|E].
  - assert (q = k + 1)%Z as Hq by nia. nia.
  - assert (q = k)%Z as Hq by nia. nia.
Qed.

(** ** The direct path: what the receiver does *)

Definition receiveFrames (peerId : string) (frames : list Frame) (m : Manager) : Manager :=
  foldl (fun m' fr => handleBinaryMessage peerId fr m') m frames.

Lemma receiveFrames_app peer l1 l2 m :
  receiveFrames peer (l1 ++ l2) m = receiveFrames peer l2 (receiveFrames peer l1 m).
Proof. unfold receiveFrames. by rewrite foldl_app. Qed.

Lemma find_spec peer m k t :
  findTransferByPeer peer m = Some (k, t) -> i_peerId t = peer /\ i_status t ≠ completed.
Proof.
  unfold findTransferByPeer. intros H. apply head_Some_elem_of in H.
  apply list_elem_of_filter in H as [H _]. exact H.
Qed.

(** Writing to the transfer that was found leaves it the one found. *)
Lemma find_set peer m m' k t t' :
  findTransferByPeer peer m = Some (k, t) ->
  incomingTransfers m' = map_set k t' (incomingTransfers m) ->
  i_peerId t' = peer -> i_status t' ≠ completed ->
  findTransferByPeer peer m' = Some (k, t').
Proof.
  unfold findTransferByPeer. intros H -> Hp Hs.
  induction (incomingTransfers m) as [|[k0 t0] l IH]; [done|].
  rewrite filter_cons in H. simpl in *.
  destruct (decide (i_peerId t0 = peer /\ i_status t0 ≠ completed)) as [Hm|Hm].
  - injection H as -> ->. rewrite decide_True by done.
    rewrite filter_cons. simpl. by rewrite decide_True.
  - destruct (decide (k0 = k)) as [->|Hk].
    + rewrite filter_cons. simpl. by rewrite decide_True.
    + rewrite filter_cons. simpl. rewrite decide_False by done. by apply IH.
Qed.

Lemma find_map_get peer m k t :
  findTransferByPeer peer m = Some (k, t) -> is_Some (map_get k (incomingTransfers m)).
Proof.
  unfold findTransferByPeer. intros H. apply head_Some_elem_of in H.
  apply list_elem_of_filter in H as [_ H].
  induction (incomingTransfers m) as [|[k0 t0] l IH]; [by apply elem_of_nil in H|].
  simpl. destruct (decide (k0 = k)); [eauto|].
  apply elem_of_cons in H as [[= <- <-]|H]; [done|by apply IH].
Qed.

(** The chunk frames of a file from index [j] on, given that the chunks
    before [j] are in [currentFileData]: the file is saved at the last one. *)
Lemma receive_chunks peer k b fi md (r : nat) : forall (j : nat) m t,
  findTransferByPeer peer m = Some (k, t) ->
  i_currentFileMetadata t = Some md ->
  md_totalChunks md = Z.of_nat (nchunks b) ->
  i_currentFileData t = map (chunk_at b) (seq 0 j) ->
  j + S r = nchunks b ->
  let m' := receiveFrames peer
              (map (fun j' => createChunkMessage fi j' (chunk_at b j')) (seq j (S r))) m in
  downloads m' = downloads m ++ [(md_name md, b)] /\
  exists t', findTransferByPeer peer m' = Some (k, t').
Proof.
  induction r as [|r IH]; intros j m t Hfind Hmd Htot Hdata Hn.
  - simpl. unfold handleChunk. rewrite Hfind. cbv zeta. cbn [i_currentFileMetadata i_currentFileData].
    rewrite Hmd, Htot, Hdata. rewrite length_app, length_map, length_seq. simpl length.
    destruct (Z.geb_spec (Z.of_nat (j + 1)) (Z.of_nat (nchunks b))) as [_|Hlt]; [|lia].
    unfold saveReceivedFile. cbn [i_currentFileMetadata i_currentFileData].
    destruct (find_spec _ _ _ _ Hfind) as [Hp Hs].
    assert (Hall : concat (map (chunk_at b) (seq 0 j) ++ [chunk_at b j]) = b).
    { replace (map (chunk_at b) (seq 0 j) ++ [chunk_at b j]) with (chunks b);
        [apply concat_chunks|].
      unfold chunks. replace (nchunks b) with (S j) by lia. by rewrite seq_S, map_app. }
    rewrite Hall. split; [reflexivity|].
    eexists. eapply find_set; [|reflexivity|exact Hp|exact Hs].
    eapply find_set; [exact Hfind|reflexivity|exact Hp|exact Hs].
  - change (seq j (S (S r))) with (j :: seq (S j) (S r)).
    rewrite map_cons. change (?x :: ?l) with ([x] ++ l). rewrite receiveFrames_app.
    cbv zeta.
    destruct (find_spec _ _ _ _ Hfind) as [Hp Hs].
    assert (Hstep : exists t1,
      receiveFrames peer [createChunkMessage fi j (chunk_at b j)] m =
        dispatchEvent (ReceiveProgress (i_id t1) (i_bytesReceived t1) (i_totalSize t1))
          (set_incoming (map_set k t1) m) /\
      i_peerId t1 = peer /\ i_status t1 ≠ completed /\
      i_currentFileMetadata t1 = Some md /\
      i_currentFileData t1 = map (chunk_at b) (seq 0 (S j))).
    { eexists. split; [|split; [|split; [|split]]].
      - simpl. unfold handleChunk. rewrite Hfind. cbv zeta.
        cbn [i_currentFileMetadata i_currentFileData]. rewrite Hmd, Htot, Hdata.
        rewrite length_app, length_map, length_seq. simpl length.
        destruct (Z.geb_spec (Z.of_nat (j + 1)) (Z.of_nat (nchunks b))) as [Hge|_]; [lia|].
        reflexivity.
      - exact Hp.
      - exact Hs.
      - reflexivity.
      - cbn [i_currentFileData]. by rewrite seq_S, map_app. }
    destruct Hstep as (t1 & -> & Hp1 & Hs1 & Hmd1 & Hd1).
    edestruct (IH (S j) (dispatchEvent (ReceiveProgress (i_id t1) (i_bytesReceived t1)
                                          (i_totalSize t1))
                           (set_incoming (map_set k t1) m)) t1) as (Hd & t' & Hf');
      [|done|done|done|lia|].
    + eapply find_set; [exact Hfind|reflexivity|exact Hp1|exact Hs1].
    + split; [exact Hd|]. by exists t'.
Qed.

Lemma totalChunks_nchunks (f : File) :
  ceil_div (f_size f) CHUNK_SIZE = Z.of_nat (nchunks (f_content f)).
Proof.
  unfold nchunks, f_size. rewrite Z2Nat.id; [done|].
  apply ceil_div_nonneg; [apply CHUNK_SIZE_pos|lia].
Qed.

(** The content as the receiver saves it, if it does. *)
Definition saved (f : File) : list (string * list byte) :=
  if decide (f_content f = []) then [] else [(f_name f, f_content f)].

Lemma receive_file peer k tid fi f m t :
  findTransferByPeer peer m = Some (k, t) ->
  let m' := receiveFrames peer (file_frames tid fi f) m in
  downloads m' = downloads m ++ saved f /\
  exists t', findTransferByPeer peer m' = Some (k, t').
Proof.
  intros Hfind. destruct (find_spec _ _ _ _ Hfind) as [Hp Hs].
  unfold file_frames. change (?x :: ?l) with ([x] ++ l). rewrite receiveFrames_app.
  cbv zeta.
  set (md := mkMetadata tid fi (f_name f) (f_size f) (f_type f)
               (ceil_div (f_size f) CHUNK_SIZE)).
  set (t0' := mkIn (i_id t) (i_peerId t) (i_files t) (i_totalSize t) (i_receivedFiles t)
                [] (md_fileIndex md) (i_bytesReceived t) transferring
                (Some md) (i_fileChunks t)).
  assert (Hmeta : receiveFrames peer [createMetadataMessage md] m =
                  set_incoming (map_set k t0') m).
  { simpl. unfold handleMetadata. by rewrite Hfind. }
  rewrite Hmeta.
  assert (Hfind0 : findTransferByPeer peer (set_incoming (map_set k t0') m) = Some (k, t0')).
  { eapply find_set; [exact Hfind|reflexivity|exact Hp|done]. }
  unfold saved, chunk_frames. destruct (decide (f_content f = [])) as [E|E].
  - rewrite E, nchunks_nil. simpl. rewrite app_nil_r. split; [done|]. by exists t0'.
  - assert (Hn : 0 < nchunks (f_content f)).
    { apply loop_condition. destruct (f_content f); [done|]. simpl.
      pose proof CHUNK_SIZE_pos. lia. }
    destruct (nchunks (f_content f)) as [|r] eqn:En; [lia|].
    rewrite <- En.
    pose proof (receive_chunks peer k (f_content f) fi md r 0
                  (set_incoming (map_set k t0') m) t0' Hfind0 eq_refl
                  (totalChunks_nchunks f) eq_refl ltac:(lia)) as H.
    rewrite En. exact H.
Qed.

Lemma receive_files peer k tid files : forall fi m t,
  findTransferByPeer peer m = Some (k, t) ->
  let m' := receiveFrames peer (frames_from tid files fi) m in
  downloads m' = downloads m ++ concat (map saved files) /\
  exists t', findTransferByPeer peer m' = Some (k, t').
Proof.
  induction files as [|f rest IH]; intros fi m t Hfind; cbn [frames_from map concat]; cbv zeta.
  - simpl. rewrite app_nil_r. split; [done|]. by exists t.
  - rewrite receiveFrames_app.
    destruct (receive_file peer k tid fi f m t Hfind) as (Hd & t1 & Hf1).
    destruct (IH (S fi) _ t1 Hf1) as (Hd2 & t2 & Hf2).
    split; [|by exists t2]. rewrite Hd2, Hd. by rewrite <- app_assoc.
Qed.

Lemma saved_filter (files : list File) :
  concat (map saved files) =
  map (fun f => (f_name f, f_content f)) (filter (fun f => f_content f ≠ []) files).
Proof.
  induction files as [|f rest IH]; [done|].
  rewrite filter_cons. simpl. unfold saved at 1.
  destruct (decide (f_content f = [])) as [E|E].
  - rewrite decide_False by (intros H; by apply H). exact IH.
  - rewrite decide_True by done. simpl. by rewrite IH.
Qed.

Lemma substring_all (s : string) : String.substring 0 (String.length s) s = s.
Proof. induction s as [|a s IH]; [done|]. simpl. by rewrite IH. Qed.

Lemma complete_frame_id (tid : string) :
  String.length tid < 256 ->
  forall peer m, handleBinaryMessage peer (createCompleteMessage tid) m = handleComplete tid m.
Proof.
  intros Hlen peer m. simpl.
  rewrite Z.mod_small by lia. rewrite Nat2Z.id. by rewrite substring_all.
Qed.

Lemma length_chunk_frames fi (b : list byte) : length (chunk_frames fi b) = nchunks b.
Proof. unfold chunk_frames. by rewrite length_map, length_seq. Qed.

(** C2 on the code.  The sender writes, per file and in order, one metadata
    frame that declares [ceil(size / CHUNK_SIZE)] chunks, then that many
    chunk frames, and at the end one complete frame.  The receiver, taking
    these frames in order, saves every file that is not empty with exactly
    the sender's bytes, and completes the transfer.  A file of size 0 has a
    metadata frame and no chunk frame; [saveReceivedFile] is called from
    [handleChunk] only, so such a file is never saved. *)
Theorem direct_path_saves_nonempty_files (t : OutTransfer) (ms mr : Manager)
  (tr : InTransfer) (sender : string) :
  findTransferByPeer sender mr = Some (o_id t, tr) ->
  String.length (o_id t) < 256 ->
  let mr' := receiveFrames sender (direct_frames t) mr in
  channelOut (sendViaDataChannel t ms) =
    channelOut ms ++ map (pair (o_peerId t)) (direct_frames t) /\
  downloads mr' =
    downloads mr ++
    map (fun f => (f_name f, f_content f)) (filter (fun f => f_content f ≠ []) (o_files t)) /\
  map_get (o_id t) (incomingTransfers mr') = None /\
  last (dispatched mr') = Some (ReceiveComplete (o_id t)).
Proof.
  intros Hfind Hlen mr'. subst mr'. split; [apply sendViaDataChannel_out|].
  unfold direct_frames. rewrite receiveFrames_app.
  destruct (receive_files sender (o_id t) (o_id t) (o_files t) 0 mr tr Hfind)
    as (Hd & t' & Hf').
  cbv zeta in Hd, Hf'.
  set (m1 := receiveFrames sender (frames_from (o_id t) (o_files t) 0) mr) in *.
  change (receiveFrames sender [createCompleteMessage (o_id t)] m1)
    with (handleBinaryMessage sender (createCompleteMessage (o_id t)) m1).
  rewrite complete_frame_id by exact Hlen.
  unfold handleComplete.
  destruct (find_map_get _ _ _ _ Hf') as [t1 Ht1]. rewrite Ht1. simpl.
  split; [by rewrite Hd, saved_filter|].
  split; [apply map_get_delete_eq|]. apply last_snoc.
Qed.

(** ** Buffers as base64 text *)

(** [base64ToArrayBuffer] undoes [arrayBufferToBase64], so two buffers with
    the same base64 text are the same buffer. *)
Theorem base64_buffers_round_trip (b b' : list byte) :
  base64ToArrayBuffer (arrayBufferToBase64 b) = b /\
  (arrayBufferToBase64 b = arrayBufferToBase64 b' -> b = b').
Proof.
  split; [apply base64_roundtrip|].
  intros H. rewrite <- (base64_roundtrip b), <- (base64_roundtrip b'). by rewrite H.
Qed.

(** ** The request *)

(** The descriptors of [sendTransferRequest]: a file without a type is
    announced as [application/octet-stream]. *)
Definition announced (f : File) : FileInfo :=
  mkFileInfo (f_name f) (f_size f)
    (if decide (f_type f = "") then "application/octet-stream" else f_type f).

Definition totalSize (files : list File) : Z :=
  foldl (fun sum f => (sum + f_size f)%Z) 0%Z files.

Lemma foldl_toFileInfo files acc :
  foldl (fun sum f => (sum + fi_size f)%Z) acc (map toFileInfo files) =
  foldl (fun sum f => (sum + f_size f)%Z) acc files.
Proof. revert acc. induction files as [|f files IH]; intros acc; simpl; [done|apply IH]. Qed.

(** [sendFiles] on a connected page writes one [transfer-request] to the
    peer and keeps a pending record; the page that gets this request from
    the hub, stamped with the sender, makes a pending record of its own with
    the announced names, sizes and types and the same total as the sender's,
    and raises [receive-request]. *)
Theorem request_announces_the_files (ms mr : Manager) (tid peer sender : string)
  (files : list File) :
  isConnected (wsManager ms) = true -> ws (wsManager ms) = Some OPEN -> peer ≠ "" ->
  let request := TransferRequestP tid (map announced files) (totalSize files) in
  let ms' := sendFiles tid peer files ms in
  let mr' := onSignal sender request mr in
  wire (wsManager ms') =
    wire (wsManager ms) ++ [mkMsg "transfer-request" (Some request) (Some peer)] /\
  map_get tid (outgoingTransfers ms') =
    Some (mkOut tid peer files 0 0 0 (totalSize files) pending false) /\
  map_get tid (incomingTransfers mr') =
    Some (mkIn tid sender (map announced files) (totalSize files) [] [] 0 0 pending
            None None) /\
  dispatched mr' =
    dispatched mr ++ [ReceiveRequest tid sender (map announced files) (totalSize files)].
Proof.
  intros Hc Ho Hp request ms' mr'. subst request ms' mr'.
  split; [|split; [|split]].
  - unfold sendFiles, sendTransferRequest, send. simpl. rewrite Hc, Ho. simpl.
    rewrite foldl_toFileInfo, map_map. unfold truthy.
    destruct peer as [|a peer']; [done|]. reflexivity.
  - unfold sendFiles. simpl. apply map_get_set_eq.
  - simpl. unfold handleTransferRequest. simpl. apply map_get_set_eq.
  - reflexivity.
Qed.

(** ** After a rejection *)

(** The frames that belong to the transfer [tid]: its metadata and chunk
    frames carry no transfer id that the receiver looks at; its complete
    frame names it. *)
Definition of_transfer (tid : string) (fr : Frame) : Prop :=
  match fr with
  | CompleteMessage idLength idBytes => String.substring 0 (Z.to_nat idLength) idBytes = tid
  | _ => True
  end.

Lemma elem_of_map_set_ne {V} k (v : V) m k' v' :
  (k', v') ∈ map_set k v m -> k' ≠ k -> (k', v') ∈ m.
Proof.
  induction m as [|[k0 v0] m IH]; simpl; intros H Hne.
  - apply list_elem_of_singleton in H. congruence.
  - destruct (decide (k0 = k)) as [->|Hk].
    + apply elem_of_cons in H as [H|H]; [congruence|]. by right.
    + apply elem_of_cons in H as [H|H]; [rewrite H; left|]. right. by apply IH.
Qed.

Lemma find_none peer m :
  (forall k t, (k, t) ∈ incomingTransfers m -> i_peerId t ≠ peer) ->
  findTransferByPeer peer m = None.
Proof.
  intros H. unfold findTransferByPeer.
  destruct (filter _ (incomingTransfers m)) as [|[k t] l] eqn:E; [done|].
  assert (Hin : (k, t) ∈ filter (fun kv : string * InTransfer =>
                    i_peerId kv.2 = peer /\ i_status kv.2 ≠ completed) (incomingTransfers m))
    by (rewrite E; left).
  apply list_elem_of_filter in Hin as [[Hp _] Hin]. by apply H in Hin.
Qed.

Lemma frames_ignored peer tid frames m :
  findTransferByPeer peer m = None -> map_get tid (incomingTransfers m) = None ->
  Forall (of_transfer tid) frames -> receiveFrames peer frames m = m.
Proof.
  intros Hf Hg Hall. induction Hall as [|fr frames Hfr _ IH]; [done|].
  change (fr :: frames) with ([fr] ++ frames). rewrite receiveFrames_app.
  assert (E : receiveFrames peer [fr] m = m); [|by rewrite E].
  destruct fr as [md|fi ci d|n ib]; simpl.
  - unfold handleMetadata. by rewrite Hf.
  - unfold handleChunk. by rewrite Hf.
  - simpl in Hfr. rewrite Hfr. unfold handleComplete. by rewrite Hg.
Qed.

(** Once a transfer is rejected, and the peer has no other transfer on this
    page, whatever the peer still sends for it is ignored: the frames of the
    data channel and the relay chunks change nothing, so nothing is saved
    and no event is raised. *)
Theorem rejected_transfer_takes_nothing (m : Manager) (tid p : string) (tr : InTransfer)
  (frames : list Frame) (es : list Envelope) :
  map_get tid (incomingTransfers m) = Some tr ->
  (forall k t, (k, t) ∈ incomingTransfers m -> i_peerId t = i_peerId tr -> k = tid) ->
  Forall (of_transfer tid) frames ->
  let m' := rejectTransfer tid m in
  receiveFrames (i_peerId tr) frames m' = m' /\
  receive (i_peerId tr) (map (relay_msg p tid) es) m' = m'.
Proof.
  intros Hget Honly Hall m'. subst m'. unfold rejectTransfer. rewrite Hget.
  split.
  - apply (frames_ignored _ tid); [|apply map_get_delete_eq|done].
    apply find_none. simpl. intros k t Hin Hp.
    unfold map_delete in Hin. apply list_elem_of_filter in Hin as [Hne Hin].
    simpl in Hne. apply elem_of_map_set_ne in Hin; [|done].
    apply Hne. exact (Honly k t Hin Hp).
  - apply receive_absent. simpl. apply map_get_delete_eq.
Qed.

(** ** Progress of a send *)

Definition sumZ (l : list Z) : Z := foldr Z.add 0%Z l.

(** The running totals of [transfer.bytesSent += arrayBuffer.byteLength]. *)
Fixpoint running (acc : Z) (sizes : list Z) : list Z :=
  match sizes with
  | [] => []
  | s :: rest => (acc + s)%Z :: running (acc + s) rest
  end.

Definition chunk_sizes (b : list byte) (js : list nat) : list Z :=
  map (fun j => Z.of_nat (length (chunk_at b j))) js.

(** The sizes of all chunks of the files, in the order they are sent. *)
Definition all_sizes (files : list File) : list Z :=
  concat (map (fun f => chunk_sizes (f_content f) (seq 0 (nchunks (f_content f)))) files).

Definition progress_events (t : OutTransfer) (sizes : list Z) : list Event :=
  map (fun s => SendProgress (o_id t) s (o_totalBytes t)) (running (o_bytesSent t) sizes).

Lemma running_app acc l1 l2 :
  running acc (l1 ++ l2) = running acc l1 ++ running (acc + sumZ l1) l2.
Proof.
  revert acc. induction l1 as [|s l1 IH]; intros acc; simpl.
  - by rewrite Z.add_0_r.
  - rewrite IH. do 3 f_equal. lia.
Qed.

Lemma sumZ_app l1 l2 : sumZ (l1 ++ l2) = (sumZ l1 + sumZ l2)%Z.
Proof. induction l1 as [|s l1 IH]; simpl; [done|]. rewrite IH. lia. Qed.

Lemma running_spec acc sizes :
  Forall (fun s => 0 < s)%Z sizes ->
  Forall (fun s => acc < s <= acc + sumZ sizes)%Z (running acc sizes) /\
  StronglySorted Z.lt (running acc sizes) /\
  last (running acc sizes) = if decide (sizes = []) then None else Some (acc + sumZ sizes)%Z.
Proof.
  intros H. revert acc. induction H as [|s sizes Hs Hall IH]; intros acc; simpl.
  - repeat split; constructor.
  - destruct (IH (acc + s)%Z) as (Hb & Hsorted & Hlast).
    assert (Hsum : (0 <= sumZ sizes)%Z).
    { clear -Hall. induction Hall as [|x l Hx _ IHl]; simpl; lia. }
    split; [|split].
    + constructor; [lia|]. eapply Forall_impl; [exact Hb|]. simpl. intros x Hx. lia.
    + constructor; [done|]. eapply Forall_impl; [exact Hb|]. simpl. intros x Hx. lia.
    + destruct sizes as [|s' sizes']; simpl in *.
      * f_equal. lia.
      * rewrite Hlast. f_equal. lia.
Qed.

Definition same_transfer (t t' : OutTransfer) : Prop :=
  o_id t' = o_id t /\ o_peerId t' = o_peerId t /\ o_totalBytes t' = o_totalBytes t.

Lemma directChunks_progress file fi t m (k j : nat) :
  j + k = nchunks (f_content file) ->
  let sizes := chunk_sizes (f_content file) (seq j k) in
  let res := directChunks file fi (Z.of_nat j * CHUNK_SIZE) j t m in
  dispatched res.2 = dispatched m ++ progress_events t sizes /\
  o_bytesSent res.1 = (o_bytesSent t + sumZ sizes)%Z /\ same_transfer t res.1.
Proof.
  revert j t m. induction k as [|k IH]; intros j t m Hn; rewrite directChunks_step.
  - rewrite decide_False by (unfold f_size; rewrite loop_condition; lia).
    simpl. rewrite app_nil_r, Z.add_0_r. unfold same_transfer. auto.
  - rewrite decide_True by (unfold f_size; rewrite loop_condition; lia).
    cbv zeta.
    replace (Z.of_nat j * CHUNK_SIZE + CHUNK_SIZE)%Z with (Z.of_nat (S j) * CHUNK_SIZE)%Z
      by lia.
    assert (E : slice (f_content file) (Z.of_nat j * CHUNK_SIZE) (Z.of_nat (S j) * CHUNK_SIZE)
                = chunk_at (f_content file) j) by (unfold chunk_at; f_equal; lia).
    rewrite E.
    match goal with |- context [directChunks file fi _ (S j) ?t1 ?m1] =>
      destruct (IH (S j) t1 m1 ltac:(lia)) as (Hd & Hb & Hid & Hp & Htot)
    end.
    cbv zeta in Hd, Hb.
    split; [|split].
    + rewrite Hd. unfold progress_events. simpl. by rewrite <- app_assoc.
    + rewrite Hb. simpl. lia.
    + unfold same_transfer. simpl in Hid, Hp, Htot. auto.
Qed.

Lemma relayChunks_progress file nfiles fi t m (k j : nat) :
  j + k = nchunks (f_content file) ->
  let sizes := chunk_sizes (f_content file) (seq j k) in
  let res := relayChunks file nfiles fi (Z.of_nat j * CHUNK_SIZE) j t m in
  dispatched res.2 = dispatched m ++ progress_events t sizes /\
  o_bytesSent res.1 = (o_bytesSent t + sumZ sizes)%Z /\ same_transfer t res.1.
Proof.
  revert j t m. induction k as [|k IH]; intros j t m Hn; rewrite relayChunks_step.
  - rewrite decide_False by (unfold f_size; rewrite loop_condition; lia).
    simpl. rewrite app_nil_r, Z.add_0_r. unfold same_transfer. auto.
  - rewrite decide_True by (unfold f_size; rewrite loop_condition; lia).
    cbv zeta.
    replace (Z.of_nat j * CHUNK_SIZE + CHUNK_SIZE)%Z with (Z.of_nat (S j) * CHUNK_SIZE)%Z
      by lia.
    assert (E : slice (f_content file) (Z.of_nat j * CHUNK_SIZE) (Z.of_nat (S j) * CHUNK_SIZE)
                = chunk_at (f_content file) j) by (unfold chunk_at; f_equal; lia).
    rewrite E.
    match goal with |- context [relayChunks file nfiles fi _ (S j) ?t1 ?m1] =>
      destruct (IH (S j) t1 m1 ltac:(lia)) as (Hd & Hb & Hid & Hp & Htot)
    end.
    cbv zeta in Hd, Hb.
    split; [|split].
    + rewrite Hd. unfold progress_events. simpl. by rewrite <- app_assoc.
    + rewrite Hb. simpl. lia.
    + unfold same_transfer. simpl in Hid, Hp, Htot. auto.
Qed.

Lemma progress_events_app t t' l1 l2 :
  same_transfer t t' -> o_bytesSent t' = (o_bytesSent t + sumZ l1)%Z ->
  progress_events t (l1 ++ l2) = progress_events t l1 ++ progress_events t' l2.
Proof.
  intros (Hid & _ & Htot) Hb. unfold progress_events.
  by rewrite running_app, map_app, Hid, Htot, Hb.
Qed.

Lemma directFiles_progress files : forall fi t m,
  let res := directFiles files fi t m in
  dispatched res.2 = dispatched m ++ progress_events t (all_sizes files) /\
  o_bytesSent res.1 = (o_bytesSent t + sumZ (all_sizes files))%Z /\ same_transfer t res.1.
Proof.
  induction files as [|file rest IH]; intros fi t m; cbn [directFiles]; cbv zeta.
  - simpl. rewrite app_nil_r, Z.add_0_r. unfold same_transfer. auto.
  - match goal with |- context [directChunks file fi 0 0 ?t1 ?m1] =>
      pose proof (directChunks_progress file fi t1 m1 (nchunks (f_content file)) 0 eq_refl)
        as H
    end.
    change (Z.of_nat 0 * CHUNK_SIZE)%Z with 0%Z in H. cbv zeta in H.
    destruct (directChunks _ _ _ _ _ _) as [t2 m2]. simpl in H.
    destruct H as (Hd & Hb & Hsame).
    destruct (IH (S fi) t2 m2) as (Hd' & Hb' & Hsame'). cbv zeta in Hd', Hb'.
    unfold all_sizes. cbn [map concat]. fold (all_sizes rest).
    split; [|split].
    + rewrite Hd', Hd, <- app_assoc. f_equal.
      change (progress_events (set_o_currentFileIndex fi t))
        with (progress_events t) in *.
      symmetry. by apply progress_events_app.
    + rewrite Hb', Hb, sumZ_app. simpl. lia.
    + destruct Hsame as (?&?&?), Hsame' as (?&?&?). unfold same_transfer in *.
      simpl in *. repeat split; congruence.
Qed.

Lemma relayFiles_progress files nfiles : forall fi t m,
  let res := relayFiles files nfiles fi t m in
  dispatched res.2 = dispatched m ++ progress_events t (all_sizes files) /\
  o_bytesSent res.1 = (o_bytesSent t + sumZ (all_sizes files))%Z /\ same_transfer t res.1.
Proof.
  induction files as [|file rest IH]; intros fi t m; cbn [relayFiles]; cbv zeta.
  - simpl. rewrite app_nil_r, Z.add_0_r. unfold same_transfer. auto.
  - match goal with |- context [relayChunks file nfiles fi 0 0 ?t1 ?m1] =>
      pose proof (relayChunks_progress file nfiles fi t1 m1 (nchunks (f_content file)) 0
                    eq_refl) as H
    end.
    change (Z.of_nat 0 * CHUNK_SIZE)%Z with 0%Z in H. cbv zeta in H.
    destruct (relayChunks _ _ _ _ _ _ _) as [t2 m2]. simpl in H.
    destruct H as (Hd & Hb & Hsame).
    destruct (IH (S fi) t2 m2) as (Hd' & Hb' & Hsame'). cbv zeta in Hd', Hb'.
    unfold all_sizes. cbn [map concat]. fold (all_sizes rest).
    split; [|split].
    + rewrite Hd', Hd, <- app_assoc. f_equal.
      change (progress_events (set_o_currentFileIndex fi t))
        with (progress_events t) in *.
      symmetry. by apply progress_events_app.
    + rewrite Hb', Hb, sumZ_app. simpl. lia.
    + destruct Hsame as (?&?&?), Hsame' as (?&?&?). unfold same_transfer in *.
      simpl in *. repeat split; congruence.
Qed.

Lemma chunk_sizes_positive (b : list byte) :
  Forall (fun s => 0 < s)%Z (chunk_sizes b (seq 0 (nchunks b))).
Proof.
  unfold chunk_sizes. apply Forall_forall. intros s Hs.
  apply list_elem_of_fmap in Hs as (j & -> & Hj). apply elem_of_seq in Hj.
  rewrite length_chunk_at by lia. pose proof CHUNK_SIZE_pos.
  destruct (decide _); [|lia].
  assert (Hlt : j < nchunks b) by lia. apply loop_condition in Hlt. lia.
Qed.

Lemma sumZ_chunk_sizes (b : list byte) :
  sumZ (chunk_sizes b (seq 0 (nchunks b))) = Z.of_nat (length b).
Proof.
  rewrite <- (concat_chunks b) at 3. unfold chunk_sizes, chunks.
  induction (seq 0 (nchunks b)) as [|j l IH]; simpl; [done|].
  rewrite length_app, IH. lia.
Qed.

Lemma all_sizes_spec (files : list File) :
  Forall (fun s => 0 < s)%Z (all_sizes files) /\
  forall acc, foldl (fun sum f => (sum + f_size f)%Z) acc files = (acc + sumZ (all_sizes files))%Z.
Proof.
  unfold all_sizes. induction files as [|f files [IH1 IH2]]; simpl.
  - split; [constructor|intros; lia].
  - split.
    + apply Forall_app. split; [apply chunk_sizes_positive|done].
    + intros acc. rewrite IH2, sumZ_app, sumZ_chunk_sizes. unfold f_size. lia.
Qed.

(** A send raises one [send-progress] per chunk and then [send-complete],
    on the data channel and on the relay alike.  For a transfer as
    [sendFiles] makes it, the byte counts reported rise strictly, never
    exceed the total, and the last one is the total: the progress reaches
    one exactly at the last chunk.  A transfer of empty files only raises
    [send-complete]. *)
Theorem send_progress_reaches_total (t : OutTransfer) (m : Manager) :
  o_bytesSent t = 0%Z -> o_totalBytes t = totalSize (o_files t) ->
  let totals := running 0 (all_sizes (o_files t)) in
  let events := map (fun s => SendProgress (o_id t) s (o_totalBytes t)) totals
                ++ [SendComplete (o_id t)] in
  dispatched (sendViaDataChannel t m) = dispatched m ++ events /\
  dispatched (sendViaRelay t m) = dispatched m ++ events /\
  Forall (fun s => 0 < s <= o_totalBytes t)%Z totals /\
  StronglySorted Z.lt totals /\
  last totals = if decide (o_totalBytes t = 0)%Z then None else Some (o_totalBytes t).
Proof.
  intros Hzero Htotal totals events. subst totals events.
  destruct (all_sizes_spec (o_files t)) as [Hpos Hsum].
  assert (Htot : o_totalBytes t = sumZ (all_sizes (o_files t))).
  { rewrite Htotal. unfold totalSize. rewrite Hsum. lia. }
  destruct (running_spec 0 _ Hpos) as (Hb & Hsorted & Hlast).
  split; [|split; [|split; [|split]]].
  - unfold sendViaDataChannel.
    pose proof (directFiles_progress (o_files (set_o_status transferring t)) 0
                  (set_o_status transferring t) m) as H.
    cbv zeta in H. destruct (directFiles _ _ _ _) as [t2 m2]. simpl in *.
    destruct H as (Hd & _ & Hid & _). simpl in Hid. rewrite Hid, Hd, <- app_assoc.
    unfold progress_events. simpl. by rewrite Hzero.
  - unfold sendViaRelay.
    pose proof (relayFiles_progress (o_files (set_o_status transferring t))
                  (length (o_files (set_o_status transferring t))) 0
                  (set_o_status transferring t) m) as H.
    cbv zeta in H. destruct (relayFiles _ _ _ _ _) as [t2 m2]. simpl in *.
    destruct H as (Hd & _ & Hid & _). simpl in Hid. rewrite Hid, Hd, <- app_assoc.
    unfold progress_events. simpl. by rewrite Hzero.
  - rewrite Htot. eapply Forall_impl; [exact Hb|]. simpl. intros; lia.
  - exact Hsorted.
  - rewrite Hlast, Htot.
    destruct (decide (all_sizes (o_files t) = [])) as [E|E].
    + rewrite E. cbn [sumZ foldr]. by rewrite decide_True.
    + rewrite decide_False; [done|]. simpl.
      destruct (all_sizes (o_files t)) as [|s l]; [done|].
      inversion Hpos as [|? ? Hs Hl]; subst. simpl.
      assert (0 <= sumZ l)%Z; [|lia].
      clear -Hl. induction Hl as [|x l' Hx _ IHl]; simpl; lia.
Qed.

(** ** A relay chunk that does not arrive *)

Lemma sparse_set_same {A} (l : sparse A) i v : sparse_get l i = Some v -> sparse_set l i v = l.
Proof.
  unfold sparse_get, sparse_set. intros H.
  destruct (l !! i) as [[x|]|] eqn:E; simpl in H; try done. injection H as ->.
  rewrite decide_True by (by eapply lookup_lt_Some). by apply list_insert_id.
Qed.

(** The envelopes of one file from chunk [s] on, stored in order behind a
    row of length [s]. *)
Lemma build_file_suffix nfiles fi (b : list byte) (row : sparse (list byte)) fc (s k : nat) :
  sparse_get fc fi = Some row -> length row = s ->
  foldl store_envelope fc (map (envelope_of nfiles fi b) (seq s k)) =
  sparse_set fc fi (row ++ map Some (map (chunk_at b) (seq s k))).
Proof.
  intros Hrow Hlen. induction k as [|k IH].
  - simpl. rewrite app_nil_r. symmetry. by apply sparse_set_same.
  - rewrite seq_S, !map_app, foldl_app, IH. simpl.
    unfold store_envelope at 1. simpl. rewrite base64_roundtrip. unfold store.
    rewrite sparse_get_set_eq, sparse_set_set. simpl. f_equal.
    rewrite app_assoc. rewrite <- sparse_set_end. f_equal.
    rewrite length_app, !length_map, length_seq. lia.
Qed.

Lemma chunks_drop (b : list byte) (k : nat) :
  concat (drop k (chunks b)) = drop (k * Z.to_nat CHUNK_SIZE) b.
Proof.
  assert (H : concat (take k (chunks b)) = take (k * Z.to_nat CHUNK_SIZE) b).
  { unfold chunks. destruct (decide (k <= nchunks b)) as [Hk|Hk].
    - rewrite <- fmap_take, take_seq, Nat.min_l by lia. apply concat_chunks_prefix.
    - rewrite take_ge by (rewrite length_map, length_seq; lia).
      rewrite concat_chunks_prefix. pose proof (nchunks_covers b).
      rewrite !take_ge; [done|nia|nia]. }
  pose proof (concat_chunks b) as Hall.
  rewrite <- (take_drop k (chunks b)), concat_app, H in Hall.
  rewrite <- (take_drop (k * Z.to_nat CHUNK_SIZE) b) in Hall at 3.
  by apply app_inv_head in Hall.
Qed.

(** A relayed file of several chunks of which one, not the last, does not
    reach the receiver, the others arriving in order: the receiver
    completes all the same.  It saves the file with the nine bytes of the
    text [undefined] where the chunk belongs, raises [receive-complete] and
    releases the record. *)
Theorem lost_relay_chunk_is_saved_as_undefined (t : OutTransfer) (f : File)
  (mr : Manager) (tr : InTransfer) (info : FileInfo) (sender : string) (j : nat) :
  o_files t = [f] ->
  map_get (o_id t) (incomingTransfers mr) = Some tr -> i_id tr = o_id t ->
  i_fileChunks tr = None -> i_files tr = [info] ->
  S j < nchunks (f_content f) ->
  let m' := receive sender (delete j (relayedBy t)) mr in
  downloads m' = downloads mr ++
    [(fi_name info,
      take (j * Z.to_nat CHUNK_SIZE) (f_content f) ++ undefined_bytes ++
      drop (S j * Z.to_nat CHUNK_SIZE) (f_content f))] /\
  map_get (o_id t) (incomingTransfers m') = None /\
  last (dispatched m') = Some (ReceiveComplete (o_id t)).
Proof.
  intros Hfiles Htr Hid Hfc Hinfo Hj m'. subst m'.
  set (b := f_content f) in *. set (n := nchunks b) in *.
  set (env := envelope_of 1 0 b).
  assert (Hsent : relayedBy t = map (relay_msg (o_peerId t) (o_id t)) (map env (seq 0 n))).
  { rewrite relayedBy_envelopes, Hfiles. simpl. by rewrite app_nil_r. }
  assert (Hdel : delete j (map env (seq 0 n)) =
                 (map env (seq 0 j) ++ map env (seq (S j) (n - S (S j)))) ++ [env (n - 1)]).
  { rewrite delete_take_drop, <- fmap_take, <- fmap_drop, take_seq, drop_seq.
    rewrite Nat.min_l by lia. rewrite <- app_assoc. f_equal.
    replace (n - S j) with (S (n - S (S j))) by lia.
    rewrite seq_S, map_app. simpl. do 3 f_equal. lia. }
  rewrite Hsent. rewrite <- list_fmap_delete, Hdel.
  rewrite map_app, receive_app. cbn [map].
  set (pre := map env (seq 0 j) ++ map env (seq (S j) (n - S (S j)))).
  assert (Hpre : Forall (fun e => e_last e = false) pre).
  { apply Forall_app. split; apply Forall_forall; intros e He;
      apply list_elem_of_fmap in He as (i & -> & Hi); apply elem_of_seq in Hi;
      subst env; simpl; apply bool_decide_eq_false; subst n; lia. }
  assert (Hlast : e_last (env (n - 1)) = true).
  { subst env. simpl. apply bool_decide_eq_true. subst n. lia. }
  assert (Hrec : receiving mr (o_id t) [info] []).
  { exists tr. rewrite Hfc. auto. }
  destruct (nonlast_fold sender (o_peerId t) (o_id t) [info] pre [] mr Hrec Hpre)
    as (Hrec1 & Hd1 & _ & _).
  rewrite receive_envelope.
  destruct (last_step sender (o_id t) [info] _ (env (n - 1)) _ Hrec1 Hlast)
    as (Hd2 & Hgone & ev & Hev & _).
  split; [|split; [exact Hgone|]].
  2: { rewrite Hev. change [ev; ReceiveComplete (o_id t)] with ([ev] ++ [ReceiveComplete (o_id t)]).
       rewrite app_assoc. apply last_snoc. }
  rewrite Hd2, Hd1. f_equal. cbn [imap]. f_equal. f_equal.
  (* the row of the file *)
  assert (Hrow : sparse_get (store_envelope (foldl store_envelope [] pre) (env (n - 1))) 0
                 = Some (map Some (map (chunk_at b) (seq 0 j)) ++ [None] ++
                         map Some (map (chunk_at b) (seq (S j) (n - S j))))).
  { assert (E : store_envelope (foldl store_envelope [] pre) (env (n - 1))
                = foldl store_envelope [] (pre ++ [env (n - 1)])) by (by rewrite foldl_app).
    rewrite E. clear E.
    assert (Hl : pre ++ [env (n - 1)] =
                 map env (seq 0 j) ++ env (S j) :: map env (seq (S (S j)) (n - S (S j)))).
    { subst pre. rewrite <- app_assoc. f_equal.
      replace [env (n - 1)] with (map env [S j + (n - S (S j))])
        by (simpl; do 2 f_equal; lia).
      by rewrite <- map_app, <- seq_S, <- cons_seq. }
    rewrite Hl, foldl_app. cbn [foldl].
    replace (n - S j) with (S (n - S (S j))) by lia.
    rewrite <- cons_seq. cbn [map].
    set (fc0 := foldl store_envelope [] (map env (seq 0 j))).
    assert (Hfc0 : default [] (sparse_get fc0 0) = map Some (map (chunk_at b) (seq 0 j))).
    { subst fc0 env. rewrite build_file_prefix by (simpl; lia).
      destruct (decide (j = 0)) as [->|Hne]; [done|]. by rewrite sparse_get_set_eq. }
    set (row1 := map Some (map (chunk_at b) (seq 0 j)) ++ [None; Some (chunk_at b (S j))]).
    assert (Hgap : sparse_get (store_envelope fc0 (env (S j))) 0 = Some row1).
    { unfold store_envelope. subst env. simpl. rewrite base64_roundtrip.
      rewrite sparse_get_store_eq, Hfc0. f_equal. unfold sparse_set.
      rewrite !length_map, length_seq. rewrite decide_False by lia.
      replace (S j - j) with 1 by lia. done. }
    subst env. rewrite (build_file_suffix 1 0 b row1 _ (S (S j)) _ Hgap).
    - rewrite sparse_get_set_eq. f_equal. subst row1. rewrite <- !app_assoc. done.
    - subst row1. rewrite length_app, !length_map, length_seq. simpl. lia. }
  rewrite Hrow. cbn [default from_option id]. unfold Blob. rewrite !map_app, !concat_app.
  pose proof Blob_dense as HB. unfold Blob in HB. rewrite !HB.
  cbn [map concat]. rewrite app_nil_r.
  rewrite concat_chunks_prefix. f_equal. f_equal.
  rewrite <- (chunks_drop b (S j)). unfold chunks. fold n.
  by rewrite <- fmap_drop, drop_seq.
Qed.

End Coordinator.

End FileTransfer.

(** ** The frames of the data channel, byte by byte

    [createMetadataMessage], [createChunkMessage], [createCompleteMessage]
    and [handleBinaryMessage] of [file-transfer.js] on the bytes of the
    [ArrayBuffer]: a [DataView] writes and reads big-endian, a write keeps
    the value modulo the width of the field, a read past the end of the
    buffer throws [RangeError]. *)
Module DataChannelWire.

Definition MSG_METADATA : Z := 1.
Definition MSG_CHUNK : Z := 2.
Definition MSG_COMPLETE : Z := 3.
Definition MSG_CANCEL : Z := 4.

Definition byte_of_Z (v : Z) : byte :=
  default "000"%byte (Byte.of_N (Z.to_N (v mod 256))).

Definition Z_of_byte (b : byte) : Z := Z.of_N (Byte.to_N b).

(** [DataView.setUintN(offset, v)] writes these [n] bytes. *)
Fixpoint setUint (n : nat) (v : Z) : list byte :=
  match n with
  | O => []
  | S n' => byte_of_Z (v / 256 ^ Z.of_nat n') :: setUint n' v
  end.

(** [DataView.getUintN(offset)]: [None] is the [RangeError]. *)
Definition getUint (n offset : nat) (data : list byte) : option Z :=
  let bs := take n (drop offset data) in
  if decide (length bs = n)
  then Some (foldl (fun acc b => acc * 256 + Z_of_byte b)%Z 0%Z bs)
  else None.

Section Text.

(** [TextEncoder.encode], [TextDecoder.decode], [JSON.stringify] and
    [JSON.parse] of the browser; [parse] gives [None] where [JSON.parse]
    throws. *)
Variable encodeText : string -> list byte.
Variable decodeText : list byte -> string.
Variable stringify : FileTransfer.Metadata -> string.
Variable parse : string -> option FileTransfer.Metadata.

Definition createMetadataMessage (metadata : FileTransfer.Metadata) : list byte :=
  let jsonBytes := encodeText (stringify metadata) in
  setUint 1 MSG_METADATA ++ setUint 4 (Z.of_nat (length jsonBytes)) ++ jsonBytes.

Definition createChunkMessage (fileIndex chunkIndex : nat) (data : list byte) : list byte :=
  setUint 1 MSG_CHUNK ++ setUint 2 (Z.of_nat fileIndex) ++ setUint 4 (Z.of_nat chunkIndex)
    ++ data.

Definition createCompleteMessage (transferId : string) : list byte :=
  let idBytes := encodeText transferId in
  setUint 1 MSG_COMPLETE ++ setUint 1 (Z.of_nat (length idBytes)) ++ idBytes.

(** What [handleBinaryMessage] does with a buffer: it throws, or calls
    [handleMetadata], [handleChunk] or [handleComplete] with these
    arguments, or falls through the [switch]. *)
Inductive Outcome :=
| RangeError
| SyntaxError
| Metadata_ (metadata : FileTransfer.Metadata)
| Chunk (fileIndex chunkIndex : Z) (chunkData : list byte)
| Complete (transferId : string)
| Ignored.

Definition handleBinaryMessage (data : list byte) : Outcome :=
  match getUint 1 0 data with
  | None => RangeError
  | Some msgType =>
      if decide (msgType = MSG_METADATA) then
        match getUint 4 1 data with
        | None => RangeError
        | Some metadataLength =>
            match parse (decodeText (FileTransfer.slice data 5 (5 + metadataLength))) with
            | Some metadata => Metadata_ metadata
            | None => SyntaxError
            end
        end
      else if decide (msgType = MSG_CHUNK) then
        match getUint 2 1 data with
        | None => RangeError
        | Some fileIndex =>
            match getUint 4 3 data with
            | None => RangeError
            | Some chunkIndex =>
                Chunk fileIndex chunkIndex
                  (FileTransfer.slice data 7 (Z.of_nat (length data)))
            end
        end
      else if decide (msgType = MSG_COMPLETE) then
        match getUint 1 1 data with
        | None => RangeError
        | Some transferIdLength =>
            Complete (decodeText (FileTransfer.slice data 2 (2 + transferIdLength)))
        end
      else Ignored
  end.

(** The frame of the model of the transfers that an outcome stands for. *)
Definition frame_of (o : Outcome) : option FileTransfer.Frame :=
  match o with
  | Metadata_ md => Some (FileTransfer.MetadataMessage md)
  | Chunk fi ci d => Some (FileTransfer.ChunkMessage fi ci d)
  | _ => None
  end.

(** ** Reading back what was written *)

Lemma Z_of_byte_of_Z (v : Z) : Z_of_byte (byte_of_Z v) = (v mod 256)%Z.
Proof.
  unfold Z_of_byte, byte_of_Z.
  assert (Hb : (0 <= v mod 256 < 256)%Z) by (apply Z.mod_pos_bound; lia).
  destruct (Byte.of_N (Z.to_N (v mod 256))) as [b|] eqn:E; simpl.
  - apply Byte.to_of_N in E. rewrite E. lia.
  - apply Byte.of_N_None_iff in E. lia.
Qed.

Lemma Z_of_byte_bound (b : byte) : (0 <= Z_of_byte b < 256)%Z.
Proof. unfold Z_of_byte. pose proof (Byte.to_N_bounded b). lia. Qed.

Lemma setUint_length n v : length (setUint n v) = n.
Proof. induction n as [|n IH]; simpl; [done|by rewrite IH]. Qed.

Lemma read_setUint n v acc :
  foldl (fun a b => a * 256 + Z_of_byte b)%Z acc (setUint n v)
  = (acc * 256 ^ Z.of_nat n + v mod 256 ^ Z.of_nat n)%Z.
Proof.
  revert acc. induction n as [|n IH]; intros acc.
  - simpl. rewrite Z.mod_1_r. lia.
  - cbn [setUint foldl]. rewrite IH, Z_of_byte_of_Z.
    rewrite Nat2Z.inj_succ, Z.pow_succ_r by lia.
    rewrite (Z.mul_comm 256 (256 ^ Z.of_nat n)).
    rewrite (Z.rem_mul_r v (256 ^ Z.of_nat n) 256) by lia. lia.
Qed.

Lemma getUint_setUint n offset v pre post :
  length pre = offset ->
  getUint n offset (pre ++ setUint n v ++ post) = Some (v mod 256 ^ Z.of_nat n)%Z.
Proof.
  intros Hpre. unfold getUint. rewrite drop_app_length' by done.
  rewrite take_app_length' by (by rewrite setUint_length).
  rewrite setUint_length, decide_True by done. by rewrite read_setUint.
Qed.

Lemma header1 n v post :
  getUint n 0 (setUint n v ++ post) = Some (v mod 256 ^ Z.of_nat n)%Z.
Proof. exact (getUint_setUint n 0 v [] post eq_refl). Qed.

Lemma header2 n1 v1 n v post :
  getUint n n1 (setUint n1 v1 ++ setUint n v ++ post) = Some (v mod 256 ^ Z.of_nat n)%Z.
Proof. apply getUint_setUint, setUint_length. Qed.

Lemma header3 n1 v1 n2 v2 n v post :
  getUint n (n1 + n2) (setUint n1 v1 ++ setUint n2 v2 ++ setUint n v ++ post)
  = Some (v mod 256 ^ Z.of_nat n)%Z.
Proof.
  rewrite (app_assoc (setUint n1 v1)). apply getUint_setUint.
  by rewrite length_app, !setUint_length.
Qed.

Lemma getUint_short n offset data :
  0 < n -> length data < offset + n -> getUint n offset data = None.
Proof.
  intros Hn Hlen. unfold getUint. rewrite decide_False; [done|].
  rewrite length_take, length_drop. lia.
Qed.

Lemma slice_tail (pre rest : list byte) (k : Z) :
  Z.of_nat (length pre) = k ->
  FileTransfer.slice (pre ++ rest) k (k + Z.of_nat (length rest)) = rest.
Proof.
  intros Hk. unfold FileTransfer.slice. rewrite length_app.
  destruct (Z.ltb_spec k 0); [lia|]. destruct (Z.ltb_spec (k + Z.of_nat (length rest)) 0); [lia|].
  rewrite Z.min_l by lia. rewrite Z.min_l by lia.
  replace (Z.to_nat k) with (length pre) by lia. rewrite drop_app_length.
  rewrite Z.max_l by lia.
  replace (Z.to_nat (k + Z.of_nat (length rest) - k)) with (length rest) by lia.
  apply firstn_all.
Qed.

(** A chunk frame is read back as it was made: the data unchanged, the
    file index modulo 2^16 and the chunk index modulo 2^32; these are the
    fields of the chunk frame in the model of the transfers. *)
Theorem chunk_frame_is_read_back (fileIndex chunkIndex : nat) (data : list byte) :
  length (createChunkMessage fileIndex chunkIndex data) = 7 + length data /\
  handleBinaryMessage (createChunkMessage fileIndex chunkIndex data)
    = Chunk (Z.of_nat fileIndex mod 2 ^ 16) (Z.of_nat chunkIndex mod 2 ^ 32) data /\
  frame_of (handleBinaryMessage (createChunkMessage fileIndex chunkIndex data))
    = Some (FileTransfer.createChunkMessage fileIndex chunkIndex data).
Proof.
  assert (H : handleBinaryMessage (createChunkMessage fileIndex chunkIndex data)
              = Chunk (Z.of_nat fileIndex mod 2 ^ 16) (Z.of_nat chunkIndex mod 2 ^ 32) data).
  { unfold handleBinaryMessage, createChunkMessage.
    rewrite header1.
    change (MSG_CHUNK mod 256 ^ Z.of_nat 1)%Z with 2%Z.
    rewrite decide_False by done. rewrite decide_True by done.
    rewrite header2, (header3 1 _ 2 _ 4 _ _).
    f_equal.
    rewrite !app_assoc. rewrite (length_app _ data).
    set (pre := (setUint 1 MSG_CHUNK ++ setUint 2 (Z.of_nat fileIndex)) ++
                setUint 4 (Z.of_nat chunkIndex)).
    assert (Hpre : length pre = 7) by reflexivity.
    rewrite Hpre. replace (Z.of_nat (7 + length data)) with (7 + Z.of_nat (length data))%Z by lia.
    apply slice_tail. by rewrite Hpre. }
  split; [|split; [exact H|by rewrite H]].
  unfold createChunkMessage. rewrite !length_app, !setUint_length. lia.
Qed.

(** A complete frame and a metadata frame are read back as they were
    made, when the text survives the encoding, the id takes fewer than 256
    bytes and the description fewer than 2^32. *)
Theorem control_frames_are_read_back (transferId : string) (metadata : FileTransfer.Metadata) :
  decodeText (encodeText transferId) = transferId ->
  length (encodeText transferId) < 256 ->
  decodeText (encodeText (stringify metadata)) = stringify metadata ->
  parse (stringify metadata) = Some metadata ->
  (Z.of_nat (length (encodeText (stringify metadata))) < 2 ^ 32)%Z ->
  handleBinaryMessage (createCompleteMessage transferId) = Complete transferId /\
  handleBinaryMessage (createMetadataMessage metadata) = Metadata_ metadata.
Proof.
  intros Hid Hlen Hjson Hparse Hlen'. split.
  - unfold handleBinaryMessage, createCompleteMessage. cbv zeta.
    rewrite header1.
    change (MSG_COMPLETE mod 256 ^ Z.of_nat 1)%Z with 3%Z.
    rewrite decide_False by done. rewrite decide_False by done. rewrite decide_True by done.
    rewrite header2.
    change (256 ^ Z.of_nat 1)%Z with 256%Z. rewrite Z.mod_small by lia.
    rewrite app_assoc. rewrite slice_tail by reflexivity. by rewrite Hid.
  - unfold handleBinaryMessage, createMetadataMessage. cbv zeta.
    rewrite header1.
    change (MSG_METADATA mod 256 ^ Z.of_nat 1)%Z with 1%Z.
    rewrite decide_True by done.
    rewrite header2.
    change (256 ^ Z.of_nat 4)%Z with (2 ^ 32)%Z. rewrite Z.mod_small by lia.
    rewrite app_assoc. rewrite slice_tail by reflexivity. by rewrite Hjson, Hparse.
Qed.

(** A chunk frame cut short of its seven header bytes, the empty buffer
    included, throws [RangeError] before any handler is called; a buffer
    whose first byte is none of the three handled types, [MSG_CANCEL] among
    them, is dropped. *)
Theorem malformed_frames (fileIndex chunkIndex : nat) (data : list byte) (k : nat)
  (t : byte) (rest : list byte) :
  k < 7 ->
  Z_of_byte t ≠ MSG_METADATA -> Z_of_byte t ≠ MSG_CHUNK -> Z_of_byte t ≠ MSG_COMPLETE ->
  handleBinaryMessage (take k (createChunkMessage fileIndex chunkIndex data)) = RangeError /\
  handleBinaryMessage (t :: rest) = Ignored /\
  handleBinaryMessage (setUint 1 MSG_CANCEL ++ rest) = Ignored.
Proof.
  intros Hk H1 H2 H3.
  assert (Hfirst : forall b l, getUint 1 0 (b :: l) = Some (Z_of_byte b)).
  { intros b l. reflexivity. }
  split; [|split].
  - destruct k as [|k]; [reflexivity|].
    unfold createChunkMessage. change (setUint 1 MSG_CHUNK) with [byte_of_Z 2].
    cbn [app take]. unfold handleBinaryMessage. rewrite Hfirst, Z_of_byte_of_Z.
    change (2 mod 256)%Z with MSG_CHUNK.
    rewrite decide_False by done. rewrite decide_True by done.
    destruct (getUint 2 1 _) as [fi|]; [|done].
    rewrite getUint_short; [done|lia|]. simpl. rewrite length_take. lia.
  - unfold handleBinaryMessage. rewrite Hfirst. by rewrite !decide_False.
  - unfold handleBinaryMessage. rewrite header1. reflexivity.
Qed.

End Text.

End DataChannelWire.

(** ** An instance of the browser functions

    [btoa] and [atob] on binary strings: base64 with padding, and its
    inverse on what [btoa] produces. *)
Module Base64.

Definition alphabet : string :=
  "ABCDEFGHIJKLMNOPQRSTUVWXYZabcdefghijklmnopqrstuvwxyz0123456789+/".

Definition digit (n : N) : ascii :=
  match String.get (N.to_nat n) alphabet with
  | Some a => a
  | None => "="%char
  end.

Fixpoint index_of (a : ascii) (s : string) (i : N) : N :=
  match s with
  | EmptyString => 0%N
  | String b s' => if decide (a = b) then i else index_of a s' (i + 1)%N
  end.

Definition value (a : ascii) : N := index_of a alphabet 0.

Fixpoint encode (l : list N) : list ascii :=
  match l with
  | [] => []
  | [a] => [digit (a / 4); digit ((a mod 4) * 16); "="%char; "="%char]
  | [a; b] =>
      [digit (a / 4); digit ((a mod 4) * 16 + b / 16); digit ((b mod 16) * 4); "="%char]
  | a :: b :: c :: rest =>
      digit (a / 4) :: digit ((a mod 4) * 16 + b / 16) ::
      digit ((b mod 16) * 4 + c / 64) :: digit (c mod 64) :: encode rest
  end%N.

Fixpoint decode (l : list ascii) : list N :=
  match l with
  | w :: x :: y :: z :: rest =>
      let a := (value w * 4 + value x / 16)%N in
      let b := ((value x mod 16) * 16 + value y / 4)%N in
      let c := ((value y mod 4) * 64 + value z)%N in
      if decide (y = "="%char) then [a]
      else if decide (z = "="%char) then [a; b]
      else a :: b :: c :: decode rest
  | _ => []
  end.

Definition btoa (s : string) : string :=
  String.string_of_list_ascii (encode (map N_of_ascii (String.list_ascii_of_string s))).

Definition atob (s : string) : string :=
  String.string_of_list_ascii (map ascii_of_N (decode (String.list_ascii_of_string s))).

Lemma digit_value (n : N) : (n < 64)%N -> value (digit n) = n /\ digit n ≠ "="%char.
Proof.
  intros Hn. rewrite <- (N2Nat.id n). assert (Hi : N.to_nat n < 64) by lia.
  generalize dependent (N.to_nat n). clear. intros i Hi.
  do 64 (destruct i as [|i]; [vm_compute; split; [reflexivity|discriminate]|]). lia.
Qed.

Lemma split_div (q r d : N) : (r < d)%N -> ((q * d + r) / d = q /\ (q * d + r) mod d = r)%N.
Proof.
  intros Hr. split.
  - symmetry. apply (N.div_unique _ d q r); lia.
  - symmetry. apply (N.mod_unique _ d q r); lia.
Qed.

Lemma list_ind3 {A} (P : list A -> Prop) :
  P [] -> (forall a, P [a]) -> (forall a b, P [a; b]) ->
  (forall a b c l, P l -> P (a :: b :: c :: l)) ->
  forall l, P l.
Proof.
  intros H0 H1 H2 H3 l.
  cut (P l /\ (forall a, P (a :: l)) /\ (forall a b, P (a :: b :: l))); [tauto|].
  induction l as [|x l (IH0 & IH1 & IH2)]; auto.
Qed.

Lemma decode_encode (l : list N) : Forall (fun n => (n < 256)%N) l -> decode (encode l) = l.
Proof.
  induction l as [|a|a b|a b c l IH] using list_ind3; intros Hall.
  - reflexivity.
  - apply Forall_inv in Hall. simpl.
    pose proof (N.mod_lt a 4 ltac:(lia)) as Hr.
    pose proof (N.div_mod a 4 ltac:(lia)) as Hdm.
    destruct (digit_value (a / 4)) as [-> _]; [apply N.Div0.div_lt_upper_bound; lia|].
    destruct (digit_value ((a mod 4) * 16)) as [-> _]; [lia|].
    rewrite N.div_mul by lia. f_equal. lia.
  - inversion Hall as [|? ? Ha Hall']; subst. apply Forall_inv in Hall'. simpl.
    pose proof (N.mod_lt a 4 ltac:(lia)). pose proof (N.div_mod a 4 ltac:(lia)).
    pose proof (N.mod_lt b 16 ltac:(lia)). pose proof (N.div_mod b 16 ltac:(lia)).
    assert (b / 16 < 16)%N by (apply N.Div0.div_lt_upper_bound; lia).
    destruct (digit_value (a / 4)) as [-> _]; [apply N.Div0.div_lt_upper_bound; lia|].
    destruct (digit_value ((a mod 4) * 16 + b / 16)) as [-> _]; [lia|].
    destruct (digit_value ((b mod 16) * 4)) as [-> Hne]; [lia|].
    rewrite decide_False by exact Hne.
    destruct (split_div (a mod 4) (b / 16) 16) as [-> ->]; [done|].
    rewrite N.div_mul by lia. f_equal; [lia|]. f_equal. lia.
  - inversion Hall as [|? ? Ha Hall1]; subst. inversion Hall1 as [|? ? Hb Hall2]; subst.
    inversion Hall2 as [|? ? Hc Hall3]; subst.
    change (encode (a :: b :: c :: l))
      with (digit (a / 4) :: digit ((a mod 4) * 16 + b / 16) ::
            digit ((b mod 16) * 4 + c / 64) :: digit (c mod 64) :: encode l)%N.
    cbn [decode].
    pose proof (N.mod_lt a 4 ltac:(lia)). pose proof (N.div_mod a 4 ltac:(lia)).
    pose proof (N.mod_lt b 16 ltac:(lia)). pose proof (N.div_mod b 16 ltac:(lia)).
    pose proof (N.mod_lt c 64 ltac:(lia)). pose proof (N.div_mod c 64 ltac:(lia)).
    assert (b / 16 < 16)%N by (apply N.Div0.div_lt_upper_bound; lia).
    assert (c / 64 < 4)%N by (apply N.Div0.div_lt_upper_bound; lia).
    destruct (digit_value (a / 4)) as [-> _]; [apply N.Div0.div_lt_upper_bound; lia|].
    destruct (digit_value ((a mod 4) * 16 + b / 16)) as [-> _]; [lia|].
    destruct (digit_value ((b mod 16) * 4 + c / 64)) as [-> Hne3]; [lia|].
    destruct (digit_value (c mod 64)) as [-> Hne4]; [lia|].
    rewrite !decide_False by assumption.
    destruct (split_div (a mod 4) (b / 16) 16) as [-> ->]; [done|].
    destruct (split_div (b mod 16) (c / 64) 4) as [-> ->]; [done|].
    rewrite IH by done. f_equal; [lia|]. f_equal; [lia|]. f_equal. lia.
Qed.

Lemma atob_btoa (s : string) : atob (btoa s) = s.
Proof.
  unfold atob, btoa. rewrite String.list_ascii_of_string_of_list_ascii.
  rewrite decode_encode.
  - rewrite map_map. rewrite (map_ext _ (fun a => a)) by apply ascii_N_embedding.
    rewrite map_id. apply String.string_of_list_ascii_of_string.
  - apply Forall_forall. intros n Hn. apply list_elem_of_fmap in Hn as (a & -> & _).
    apply N_ascii_bounded.
Qed.

Example btoa_hello : btoa "hello" = "aGVsbG8=".
Proof. reflexivity. Qed.

End Base64.

(* ===================================================================== *)
(** * Part IV: transfers between two pages *)
(* ===================================================================== *)

Module TransferRuns.

Import WebSocketManager FileTransfer.

Definition btoa := Base64.btoa.
Definition atob := Base64.atob.

Definition text (s : string) : list byte := bytes_of_binary s.

Definition a_txt : File := mkFile "a.txt" "text/plain" (text "A").
Definition b_txt : File := mkFile "b.txt" "text/plain" (text "B").
Definition c_txt : File := mkFile "c.txt" "text/plain" (text "C").
Definition notes_txt : File := mkFile "notes.txt" "text/plain" (text "hello").
Definition empty_txt : File := mkFile "empty.txt" "text/plain" [].

Definition total (files : list File) : Z := foldl (fun sum f => (sum + f_size f)%Z) 0%Z files.

(** Alice offers [files] to Bob as transfer [t1]; Bob's page has the
    request. *)
Definition offered (files : list File) : OutTransfer :=
  mkOut "t1" "bob" files 0 0 0 (total files) pending false.

Definition requested (files : list File) : InTransfer :=
  mkIn "t1" "alice" (map toFileInfo files) (total files) [] [] 0 0 pending None None.

Definition initiator (files : list File) : Manager := sendFiles "t1" "bob" files online.

Definition asked (files : list File) : Manager :=
  handleTransferRequest "alice" "t1" (map toFileInfo files) (total files) online.

Definition recipient (files : list File) : Manager := acceptTransfer "t1" (asked files).

Lemma initiator_record files :
  map_get "t1" (outgoingTransfers (initiator files)) = Some (offered files).
Proof. reflexivity. Qed.

Lemma asked_record files :
  map_get "t1" (incomingTransfers (asked files)) = Some (requested files).
Proof. reflexivity. Qed.

Lemma recipient_record files :
  map_get "t1" (incomingTransfers (recipient files)) =
  Some (set_i_status accepted (requested files)).
Proof. reflexivity. Qed.

Lemma recipient_found files :
  findTransferByPeer "alice" (recipient files) =
  Some ("t1", set_i_status accepted (requested files)).
Proof. reflexivity. Qed.

(** Bob rejects the offer of [notes.txt]; an acceptance that reaches Alice
    later finds no record. *)
Lemma reject_sends_one_response_and_no_chunks_witness :
  let mr := asked [notes_txt] in
  let mi := initiator [notes_txt] in
  let later := [(false, "bob", "t1", true)] in
  let mr' := rejectTransfer "t1" mr in
  let mi' := handleTransferResponse btoa true "bob" "t1" false mi in
  (took (mkMsg "transfer-response" (Some (TransferResponseP "t1" false)) (Some "alice"))
        (wsManager mr) (wsManager mr') /\
   map_get "t1" (incomingTransfers mr') = None /\
   channelOut mr' = channelOut mr /\
   dispatched mr' = dispatched mr ++ [ReceiveRejected "t1"]) /\
  (mi' = set_outgoing (map_delete "t1")
           (dispatchEvent (SendRejected "t1")
              (set_outgoing (map_set "t1" (set_o_status rejected (offered [notes_txt]))) mi)) /\
   o_status (set_o_status rejected (offered [notes_txt])) = rejected /\
   map_get "t1" (outgoingTransfers mi') = None /\
   dispatched mi' = dispatched mi ++ [SendRejected "t1"] /\
   channelOut mi' = channelOut mi /\ wsManager mi' = wsManager mi) /\
  (forall d p a,
     map_get "t1" (outgoingTransfers (replay btoa later mi')) = None /\
     handleTransferResponse btoa d p "t1" a (replay btoa later mi') = replay btoa later mi').
Proof.
  intros mr mi later.
  apply (reject_sends_one_response_and_no_chunks btoa mr mi "t1" "bob" true
           (requested [notes_txt]) (offered [notes_txt]) later).
  - reflexivity.
  - reflexivity.
  - simpl. discriminate.
  - reflexivity.
  - reflexivity.
Defined.

Example reject_on_the_wire :
  wire (wsManager (rejectTransfer "t1" (asked [notes_txt]))) =
    [mkMsg "transfer-response" (Some (TransferResponseP "t1" false)) (Some "alice")] /\
  incomingTransfers (rejectTransfer "t1" (asked [notes_txt])) = [].
Proof. split; reflexivity. Qed.

(** ** The relay path *)

Definition chunk (fi ci : nat) (data : string) (isLast : bool) : Msg :=
  mkMsg "relay-chunk" (Some (RelayChunkP "t1" fi ci data isLast)) (Some "bob").

Lemma relayed_abc :
  relayedBy btoa (offered [a_txt; b_txt; c_txt]) =
  [chunk 0 0 "QQ==" false; chunk 1 0 "Qg==" false; chunk 2 0 "Qw==" true].
Proof. vm_compute. reflexivity. Qed.

Lemma relayed_ab :
  relayedBy btoa (offered [a_txt; b_txt]) = [chunk 0 0 "QQ==" false; chunk 1 0 "Qg==" true].
Proof. vm_compute. reflexivity. Qed.

Lemma relayed_a_empty :
  relayedBy btoa (offered [a_txt; empty_txt]) = [chunk 0 0 "QQ==" false].
Proof. vm_compute. reflexivity. Qed.

(** Three files; the envelope of [b.txt] overtakes that of [a.txt], the
    flagged one arrives last. *)
Lemma relay_completes_on_flag_witness :
  let t := offered [a_txt; b_txt; c_txt] in
  let mr := recipient [a_txt; b_txt; c_txt] in
  let pre := [chunk 1 0 "Qg==" false; chunk 0 0 "QQ==" false] in
  let final := chunk 2 0 "Qw==" true in
  let m1 := receive atob "alice" pre mr in
  let m2 := receive atob "alice" [final] m1 in
  let m3 := receive atob "alice" [] m2 in
  (downloads m1 = downloads mr /\
   is_Some (map_get (o_id t) (incomingTransfers m1)) /\
   exists evs, dispatched m1 = dispatched mr ++ evs /\ Forall is_progress evs) /\
  (map_get (o_id t) (incomingTransfers m2) = None /\
   (exists ev, dispatched m2 = dispatched m1 ++ [ev; ReceiveComplete (o_id t)] /\
               is_progress ev) /\
   downloads m2 = downloads mr ++
     imap (fun i f => (f_name f,
                       saved_with (f_content f) (chunks_arrived i (pre ++ [final]))))
       (o_files t)) /\
  m3 = m2 /\
  ([] = @nil Msg ->
   downloads m2 = downloads mr ++ map (fun f => (f_name f, f_content f)) (o_files t)).
Proof.
  intros t mr pre final.
  apply (relay_completes_on_flag btoa atob Base64.atob_btoa t mr
           (set_i_status accepted (requested [a_txt; b_txt; c_txt])) "alice" pre [] final).
  - reflexivity.
  - reflexivity.
  - reflexivity.
  - reflexivity.
  - unfold t. rewrite relayed_abc. apply perm_swap.
  - unfold flagged. simpl. eauto.
Defined.

Example relay_out_of_order_saves_all :
  downloads (receive atob "alice"
               [chunk 1 0 "Qg==" false; chunk 0 0 "QQ==" false; chunk 2 0 "Qw==" true]
               (recipient [a_txt; b_txt; c_txt])) =
  [("a.txt", text "A"); ("b.txt", text "B"); ("c.txt", text "C")].
Proof. vm_compute. reflexivity. Qed.

(** C3, as stated, fails: the two envelopes of a transfer of [a.txt] and
    [b.txt] arrive in the other order.  The flagged envelope is taken first
    and completes the transfer at once: [a.txt] is saved with no bytes, and
    its envelope, arriving next, finds no record. *)
Lemma flagged_envelope_first_saves_partial_files :
  let t := offered [a_txt; b_txt] in
  let arrival := [chunk 1 0 "Qg==" true; chunk 0 0 "QQ==" false] in
  let mr' := receive atob "alice" arrival (recipient [a_txt; b_txt]) in
  arrival ≡ₚ relayedBy btoa t /\
  downloads mr' = [("a.txt", []); ("b.txt", text "B")] /\
  downloads mr' ≠ map (fun f => (f_name f, f_content f)) (o_files t) /\
  incomingTransfers mr' = [].
Proof.
  intros t arrival mr'. split; [|split; [|split]].
  - unfold t. rewrite relayed_ab. apply perm_swap.
  - vm_compute. reflexivity.
  - vm_compute. discriminate.
  - vm_compute. reflexivity.
Qed.

(** [a.txt] and then an empty file: the one envelope of the transfer, taken
    twice. *)
Lemma empty_last_file_never_completes_witness :
  let t := offered [a_txt; empty_txt] in
  let mr := recipient [a_txt; empty_txt] in
  let arrived := [chunk 0 0 "QQ==" false; chunk 0 0 "QQ==" false] in
  Forall (fun msg => ¬ flagged msg /\
            exists fi ci d, payload msg = Some (RelayChunkP (o_id t) fi ci d false) /\
                            S fi ≠ length (o_files t)) (relayedBy btoa t) /\
  let mr' := receive atob "alice" arrived mr in
  downloads mr' = downloads mr /\
  (exists tr', map_get (o_id t) (incomingTransfers mr') = Some tr' /\
               (arrived ≠ [] -> i_status tr' = transferring) /\
               (arrived = [] -> tr' = set_i_status accepted (requested [a_txt; empty_txt]))) /\
  exists evs, dispatched mr' = dispatched mr ++ evs /\ Forall is_progress evs.
Proof.
  intros t mr arrived.
  apply (empty_last_file_never_completes btoa atob t mr
           (set_i_status accepted (requested [a_txt; empty_txt])) "alice" empty_txt arrived).
  - reflexivity.
  - reflexivity.
  - reflexivity.
  - reflexivity.
  - unfold t. rewrite relayed_a_empty.
    repeat (apply Forall_cons; split; [apply list_elem_of_here|]). apply Forall_nil_2.
Defined.

Example empty_last_file_saves_nothing :
  let mr' := receive atob "alice" (relayedBy btoa (offered [a_txt; empty_txt]))
               (recipient [a_txt; empty_txt]) in
  downloads mr' = [] /\ map fst (incomingTransfers mr') = ["t1"] /\
  Forall (fun tr => i_status tr.2 = transferring) (incomingTransfers mr').
Proof.
  split; [vm_compute; reflexivity|]. split; [vm_compute; reflexivity|].
  vm_compute. repeat constructor.
Qed.

(** ** The direct path *)

(** [notes.txt] and an empty file, over the data channel. *)
Lemma direct_path_saves_nonempty_files_witness :
  let t := offered [notes_txt; empty_txt] in
  let ms := initiator [notes_txt; empty_txt] in
  let mr := recipient [notes_txt; empty_txt] in
  let mr' := receiveFrames "alice" (direct_frames t) mr in
  channelOut (sendViaDataChannel t ms) =
    channelOut ms ++ map (pair (o_peerId t)) (direct_frames t) /\
  downloads mr' =
    downloads mr ++
    map (fun f => (f_name f, f_content f)) (filter (fun f => f_content f ≠ []) (o_files t)) /\
  map_get (o_id t) (incomingTransfers mr') = None /\
  last (dispatched mr') = Some (ReceiveComplete (o_id t)).
Proof.
  intros t ms mr.
  apply (direct_path_saves_nonempty_files t ms mr
           (set_i_status accepted (requested [notes_txt; empty_txt])) "alice").
  - reflexivity.
  - simpl. lia.
Defined.

(** The frames of that transfer, and what the receiving page has at the
    end: the transfer is complete and [empty.txt] was not saved. *)
Example empty_file_is_not_saved :
  let files := [notes_txt; empty_txt] in
  let sent := channelOut (handleTransferResponse btoa true "bob" "t1" true (initiator files)) in
  let mr' := receiveFrames "alice" (map snd sent) (recipient files) in
  sent = map (pair "bob")
           [MetadataMessage (mkMetadata "t1" 0 "notes.txt" 5 "text/plain" 1);
            ChunkMessage 0 0 (text "hello");
            MetadataMessage (mkMetadata "t1" 1 "empty.txt" 0 "text/plain" 0);
            CompleteMessage 2 "t1"] /\
  downloads mr' = [("notes.txt", text "hello")] /\
  incomingTransfers mr' = [] /\
  last (dispatched mr') = Some (ReceiveComplete "t1").
Proof. repeat split; vm_compute; reflexivity. Qed.

(** A file of 200 KB goes in four chunk frames of 64K, 64K, 64K and 8K
    bytes, and is put together again. *)
Lemma transfer_200KB (b : list byte) :
  Z.of_nat (length b) = 204800%Z ->
  ceil_div (Z.of_nat (length b)) CHUNK_SIZE = 4%Z /\
  map (fun c => Z.of_nat (length c)) (chunks b) = [65536; 65536; 65536; 8192]%Z /\
  concat (chunks b) = b.
Proof.
  intros Hlen.
  assert (Hc : ceil_div (Z.of_nat (length b)) CHUNK_SIZE = 4%Z) by (rewrite Hlen; reflexivity).
  assert (Hn : nchunks b = 4) by (unfold nchunks; rewrite Hc; reflexivity).
  split; [exact Hc|]. split; [|apply concat_chunks].
  unfold chunks. rewrite Hn. cbn [seq map].
  rewrite !length_chunk_at by lia. rewrite Hn, Hlen. reflexivity.
Qed.

(** ** Further runs *)

Lemma base64_buffers_round_trip_witness :
  base64ToArrayBuffer atob (arrayBufferToBase64 btoa (text "hello")) = text "hello" /\
  (arrayBufferToBase64 btoa (text "hello") = arrayBufferToBase64 btoa (text "help!") ->
   text "hello" = text "help!").
Proof.
  exact (base64_buffers_round_trip btoa atob Base64.atob_btoa (text "hello") (text "help!")).
Defined.

(** A file for which the browser knows no type. *)
Definition raw_bin : File := mkFile "raw.bin" "" (text "xyz").

Lemma request_announces_the_files_witness :
  let files := [notes_txt; raw_bin] in
  let request := TransferRequestP "t1" (map announced files) (totalSize files) in
  let ms' := sendFiles "t1" "bob" files online in
  let mr' := onSignal atob "alice" request online in
  wire (wsManager ms') =
    wire (wsManager online) ++ [mkMsg "transfer-request" (Some request) (Some "bob")] /\
  map_get "t1" (outgoingTransfers ms') =
    Some (mkOut "t1" "bob" files 0 0 0 (totalSize files) pending false) /\
  map_get "t1" (incomingTransfers mr') =
    Some (mkIn "t1" "alice" (map announced files) (totalSize files) [] [] 0 0 pending
            None None) /\
  dispatched mr' =
    dispatched online ++
    [ReceiveRequest "t1" "alice" (map announced files) (totalSize files)].
Proof.
  apply (request_announces_the_files atob online online "t1" "bob" "alice"
           [notes_txt; raw_bin]).
  - reflexivity.
  - reflexivity.
  - discriminate.
Defined.

Example request_on_the_wire :
  map announced [notes_txt; raw_bin] =
    [mkFileInfo "notes.txt" 5 "text/plain"; mkFileInfo "raw.bin" 3 "application/octet-stream"] /\
  totalSize [notes_txt; raw_bin] = 8%Z.
Proof. split; reflexivity. Qed.

(** Bob rejects [notes.txt]; Alice's page sends the file all the same, on
    the data channel and through the relay. *)
Lemma rejected_transfer_takes_nothing_witness :
  let frames := [createMetadataMessage (mkMetadata "t1" 0 "notes.txt" 5 "text/plain" 1);
                 createChunkMessage 0 0 (text "hello");
                 createCompleteMessage "t1"] in
  let es := [mkEnvelope 0 0 (arrayBufferToBase64 btoa (text "hello")) true] in
  let m' := rejectTransfer "t1" (asked [notes_txt]) in
  receiveFrames (i_peerId (requested [notes_txt])) frames m' = m' /\
  receive atob (i_peerId (requested [notes_txt])) (map (relay_msg "bob" "t1") es) m' = m'.
Proof.
  apply (rejected_transfer_takes_nothing atob (asked [notes_txt]) "t1" "bob"
           (requested [notes_txt])).
  - reflexivity.
  - intros k t Hin _. simpl in Hin. apply list_elem_of_singleton in Hin. by injection Hin.
  - repeat constructor.
Defined.

Lemma send_progress_reaches_total_witness :
  let t := offered [notes_txt; empty_txt; a_txt] in
  let m := initiator [notes_txt; empty_txt; a_txt] in
  let totals := running 0 (all_sizes (o_files t)) in
  let events := map (fun s => SendProgress (o_id t) s (o_totalBytes t)) totals
                ++ [SendComplete (o_id t)] in
  dispatched (sendViaDataChannel t m) = dispatched m ++ events /\
  dispatched (sendViaRelay btoa t m) = dispatched m ++ events /\
  Forall (fun s => 0 < s <= o_totalBytes t)%Z totals /\
  StronglySorted Z.lt totals /\
  last totals = if decide (o_totalBytes t = 0)%Z then None else Some (o_totalBytes t).
Proof.
  apply (send_progress_reaches_total btoa (offered [notes_txt; empty_txt; a_txt])
           (initiator [notes_txt; empty_txt; a_txt])).
  - reflexivity.
  - reflexivity.
Defined.

Example progress_of_three_files :
  running 0 (all_sizes [notes_txt; empty_txt; a_txt]) = [5; 6]%Z.
Proof. vm_compute. reflexivity. Qed.

(** ** Frames on the wire *)

Definition notes_md : Metadata := mkMetadata "t1" 0 "notes.txt" 5 "text/plain" 1.

(** Stand-ins for [JSON.stringify] and [JSON.parse] that know the
    description of [notes.txt]; text of one byte per character. *)
Definition stringify (md : Metadata) : string :=
  md_transferId md +:+ "/" +:+ md_name md +:+ "/" +:+ md_type md.

Definition parse (s : string) : option Metadata :=
  if decide (s = stringify notes_md) then Some notes_md else None.

Lemma control_frames_are_read_back_witness :
  DataChannelWire.handleBinaryMessage binary_of_bytes parse
    (DataChannelWire.createCompleteMessage bytes_of_binary "t1")
    = DataChannelWire.Complete "t1" /\
  DataChannelWire.handleBinaryMessage binary_of_bytes parse
    (DataChannelWire.createMetadataMessage bytes_of_binary stringify notes_md)
    = DataChannelWire.Metadata_ notes_md.
Proof.
  apply (DataChannelWire.control_frames_are_read_back bytes_of_binary binary_of_bytes
           stringify parse "t1" notes_md).
  - reflexivity.
  - simpl. lia.
  - reflexivity.
  - reflexivity.
  - reflexivity.
Defined.

Lemma malformed_frames_witness :
  DataChannelWire.handleBinaryMessage binary_of_bytes parse
    (take 6 (DataChannelWire.createChunkMessage 0 0 (text "hello")))
    = DataChannelWire.RangeError /\
  DataChannelWire.handleBinaryMessage binary_of_bytes parse ("009"%byte :: text "hello")
    = DataChannelWire.Ignored /\
  DataChannelWire.handleBinaryMessage binary_of_bytes parse
    (DataChannelWire.setUint 1 DataChannelWire.MSG_CANCEL ++ text "hello")
    = DataChannelWire.Ignored.
Proof.
  apply (DataChannelWire.malformed_frames binary_of_bytes parse 0 0 (text "hello") 6
           "009"%byte (text "hello")).
  - lia.
  - discriminate.
  - discriminate.
  - discriminate.
Defined.

Example chunk_frame_bytes :
  DataChannelWire.createChunkMessage 1 258 (text "hi")
  = ["002"; "000"; "001"; "000"; "000"; "001"; "002"; "104"; "105"]%byte.
Proof. vm_compute. reflexivity. Qed.

(** ** A chunk lost on the relay *)

(** A file of two chunks: 65537 bytes. *)
Definition big_bin : File := mkFile "big.bin" "" (replicate (Z.to_nat 65537) "120"%byte).

Lemma nchunks_big_bin : nchunks (f_content big_bin) = 2.
Proof.
  unfold nchunks.
  change (f_content big_bin) with (replicate (Z.to_nat 65537) "120"%byte).
  rewrite length_replicate, Z2Nat.id by lia. reflexivity.
Qed.

Lemma lost_relay_chunk_is_saved_as_undefined_witness :
  let t := offered [big_bin] in
  let mr := recipient [big_bin] in
  let m' := receive atob "alice" (delete 0 (relayedBy btoa t)) mr in
  downloads m' = downloads mr ++
    [(fi_name (toFileInfo big_bin),
      take (0 * Z.to_nat CHUNK_SIZE) (f_content big_bin) ++ undefined_bytes ++
      drop (1 * Z.to_nat CHUNK_SIZE) (f_content big_bin))] /\
  map_get (o_id t) (incomingTransfers m') = None /\
  last (dispatched m') = Some (ReceiveComplete (o_id t)).
Proof.
  intros t mr.
  apply (lost_relay_chunk_is_saved_as_undefined btoa atob Base64.atob_btoa
           (offered [big_bin]) big_bin (recipient [big_bin])
           (set_i_status accepted (requested [big_bin])) (toFileInfo big_bin) "alice" 0).
  - reflexivity.
  - apply recipient_record.
  - reflexivity.
  - reflexivity.
  - reflexivity.
  - rewrite nchunks_big_bin. lia.
Defined.

(** ** The flagged chunk ahead of its predecessor *)

(** The second of the two envelopes of [big.bin] is the flagged one.  Taken
    first, it completes the transfer: the file is saved as the text
    "undefined", for the chunk not yet there, and the one byte of the second
    chunk; the record is gone before the first chunk arrives. *)
Example flagged_chunk_overtakes_its_predecessor :
  let mr' := receive atob "alice" [chunk 0 1 "eA==" true] (recipient [big_bin]) in
  nth_error (relayedBy btoa (offered [big_bin])) 1 = Some (chunk 0 1 "eA==" true) /\
  length (relayedBy btoa (offered [big_bin])) = 2 /\
  downloads mr' = [("big.bin", (undefined_bytes ++ text "x")%list)] /\
  incomingTransfers mr' = [].
Proof.
  intros mr'.
  assert (E : relayedBy btoa (offered [big_bin]) =
              map (relay_msg "bob" "t1")
                (map (envelope_of btoa 1 0 (f_content big_bin)) [0; 1])).
  { rewrite (relayedBy_envelopes btoa). unfold offered at 3.
    cbn [o_files envelopes_from length]. unfold file_envelopes.
    rewrite nchunks_big_bin. reflexivity. }
  split; [rewrite E; reflexivity|]. split; [rewrite E; reflexivity|].
  split; vm_compute; reflexivity.
Qed.

End TransferRuns.
